(* ===== verification/_CoqProject ===== *)
-Q . S2P
Prelude.v
GoStrings.v
GoEncoding.v
Types.v
Config.v
Pool.v
Classifier.v
Topology.v
Decisions.v
Ulid.v
Policy.v
Routing.v
Counters.v
Messaging.v
UpstreamClient.v
Session.v
ReadLoops.v
SessionThreads.v
Proxy.v
IdleSweeper.v
Probe.v
Startup.v
DownstreamClient.v
Auth.v
Login.v
Lifecycle.v
Logger.v
Json.v
Admin.v
Metrics.v
Main.v
Console.v
Telemetry.v
Simulator.v
Scenarios.v
Accounting.v
Protocols.v
SimulatorMain.v
