(* ===== verification/Prelude.v ===== *)
(** * grunyas: a verification library of the PostgreSQL-aware routing proxy

    grunyas accepts PostgreSQL clients on up to three ports and leases them
    connections to the nodes of a cluster: on the write port to the primary, on
    the read port to replicas, and on the compat port to either, statement by
    statement.  This library models the program's own logic as executable
    functions and proves what makes it correct.

    ** The program and the files that model it

    - A session (internal/server/session/session.go) serves one client.  It
      classifies statements, leases an upstream when it needs one, forwards
      messages both ways, and on the compat port keeps a client's reads away
      from replicas for a while after a write.  [Session.v] has its state as
      the record [Session], one definition per handler of the event loop
      ([handle_downstream], [handle_upstream], [handle_event]) and [Run].
      Handlers run in a monad that ends in a value, the end of the session, or
      a panic; I/O faults and clock readings are given from outside, and a
      trace records every message sent, flush, acknowledgement and connection
      attached, released or killed.
      [ReadLoops.v] has the goroutines of a session: the main loop, the two
      read loops with their channels, and [Close], as a step relation;
      [SessionThreads.v] shows that what the handlers do is a run of them.
    - The proxy (internal/server/proxy/proxy.go), [Proxy.v], gives sessions
      their leases, and admits connections with a compare-and-swap loop, which
      is a step relation over all connections.  The interface between the two
      is the class [ProxyServer] with the laws [ProxyLaws]: the session is
      verified against the laws, the proxy is an instance.
    - The routing pipeline (internal/routing/pipeline.go), [Routing.v], decides
      every lease: it filters the nodes, selects one, acquires from its pool,
      and publishes an event that explains the decision.  Its counters and
      histograms are maps there; [Counters.v] has the shared cells of atomics
      behind them and the goroutines that look them up, make and update them.
    - The policy engine (internal/policy), [Policy.v], holds nodes back by
      health, lag and pool saturation through a four-state machine with dwell
      and release times per policy and node.
    - The topology (internal/topology), [Topology.v], is what is known about
      the nodes.  The probes (internal/probe), [Probe.v], report to it through
      the class [Sink], of which the topology is an instance.  The calls of
      different probes interleave; [UpdateSystemID] has two critical sections
      and is two steps.
    - The decisions bus (internal/decisions), [Decisions.v], fans events out to
      subscribers with bounded buffers; a publisher can be overtaken by a close.
      [Ulid.v] has the identifiers of events.
    - The classifier (internal/classifier), [Classifier.v], and the message
      dispatch (internal/server/messaging), [Messaging.v], look at the text of
      statements; [GoStrings.v] has the functions of Go's strings, unicode and
      utf8 packages that they use, byte by byte.
    - The upstream client (internal/pool/upstream_client), [UpstreamClient.v],
      cleans a connection before it goes back to its pool.  The pgx connection
      is the class [PgxConn] with the laws [PgxLaws].
    - The idle sweeper (internal/server/proxy/idle_sweeper.go),
      [IdleSweeper.v], finds idle sessions with a heap of deadlines; heap and
      map share their entries, so the model has an arena of entries.
    - The client's side (internal/server/downstream_client),
      [DownstreamClient.v], negotiates TLS and the authentication with a client
      that may send anything: a monad over the client object and its peer, with
      a trace of what crosses the wire and over how many TLS layers.
      Authentication (internal/auth), [Auth.v], checks what the client answers;
      the SCRAM library is the class [ScramLibrary] with the laws [ScramLaws].
      [Login.v] joins the two with the session: [serve] is a client's whole
      stay, from its first byte.
    - The server from start to shutdown (proxy.go), [Lifecycle.v]: construction,
      and the accept loop, the handlers of connections, the idle sweeper and
      [Shutdown] as one step relation over their critical sections.
    - The admin API (internal/admin/admin.go), [Admin.v]: tokens, routes,
      middleware, the endpoints and the event stream, over the JSON values and
      the redaction of [Json.v]; [Metrics.v] has its two collectors of metrics.
    - The pool manager (internal/pool/manager), [Pool.v]: connection strings,
      the settings of a pool, and waiting for a connection.
    - Logging (internal/logger), [Logger.v]: the channel of log lines and the
      exporter of decisions, which like the event stream is a reader of the
      bus and is verified through the relation [feed] of [Decisions.v].
      [Telemetry.v] has the set-up of zap and OpenTelemetry and the adapter to
      the log of pgx.
    - The configuration (config), [Config.v], with defaults, normalisation and
      validation; [Startup.v] puts policies, bus and pipeline together and
      [Main.v] the whole program, from the environment to the shutdown, as
      cmd/main.go does.
    - The console (internal/console), [Console.v]: its model, its updates and
      the commands it has outstanding.
    - The load generator (simulators/go) runs nine scenarios against the proxy
      and reports on them.  A goroutine of a scenario is a program that asks
      its environment (the calls on pgx, the clock, the context, random
      numbers) and acts on counters that all goroutines share; [Simulator.v]
      has this language with its interleavings and a calculus of weakest
      preconditions, [Scenarios.v] the nine scenarios, [Accounting.v] what
      they count, [Protocols.v] how they use their connections, and
      [SimulatorMain.v] the program and its report.
    - [GoEncoding.v] has upper case, decimal numbers, hexadecimal and base64 as
      Go's standard library has them.
    - [Types.v] has the errors, the configuration records and the interfaces;
      this file has what the others share: record update, machine integers,
      time, the iteration order of maps, labelled runs, and the automation.

    ** Conventions

    Integers are [Z]; where the source can overflow, [wrap64] writes the
    wrap-around out.  A [time.Time] is a number of nanoseconds, a Go map a
    [gmap], a pointer that is shared a key into a store.  What the program does
    not decide is an argument: the iteration order of a map (any order that
    [map_order] allows), the clock, the outcome of I/O, the answers of pools
    and of libraries.  [None] is a panic, except where a comment says that it
    is an exhausted bound.  Definitions keep the names of the source, with a
    prefix for record fields that would clash.  Logging and the texts of
    errors that nothing reads are left out.

    ** What the theorems show

    - Leases: a lease comes from a node that is suitable for the request, on the
      write port from the single primary; the event explains the decision, every
      decision is counted and published once, and reads are spread evenly.
    - Sessions: a client reads its own writes, against the interface and end to
      end through proxy and pipeline; a write that arrives in a transaction
      leased to a replica is refused; no connection is leaked or returned twice,
      no nil upstream is used, messages are acknowledged once, a buffered BEGIN
      is replayed once.  Between the goroutines messages arrive intact, in order
      and once, no connection goes back to its pool while it is read, and a
      session that is asked to close comes to its end by itself; the handlers
      are a refinement of the goroutines, so this holds of sessions that run
      them.
    - Policies: the engine implements the state machine; nodes are excluded and
      readmitted only after sustained evidence, and then they are; the order of
      evaluation does not matter.
    - Topology and probes: stored system identifiers agree under every
      interleaving, excluded nodes stay out, the single primary is found in any
      order, stale observations do not pass for fresh ones, a complete round is
      what the view shows, an unreachable node goes down at the threshold, and
      the waits between rounds are bounded.
    - Bus, sweeper, admission, upstream client: no send on a closed channel and
      no silent loss; the heap implements a map of deadlines and a sweep is
      exact; the limit of sessions holds under every interleaving; a connection
      returns to its pool clean.
    - Clients: only a client that has proved to be the configured user is
      served, and one that knows the credentials is let in, with each method;
      a port in mandatory mode talks TLS and nothing else; the negotiation
      answers every request.
    - The server: registry and sweeper account for the sessions under every
      interleaving, a shutdown that returns without an error has drained, and
      draining never gets stuck.
    - Operations: the admin API is closed to everyone but admins, its
      configuration endpoint gives no secret away, its state does not depend on
      the order of maps, scrapes of metrics never fail and count exactly, and
      neither the event stream nor the exporter loses events silently.
    - Pools: credentials survive the connection string, and settings that fit
      their types arrive in the pool.
    - The program: what has started runs its configuration, a valid one starts,
      no two settings share an environment variable, and the console shows the
      lines it reads and keeps listening.
    - Metrics under concurrency: counters and histograms lose no update and
      hold what the sequential model of the pipeline holds.
    - The load generator: its goroutines end, its counters add up under every
      interleaving, a clean run does exactly its workload and passes,
      transactions are always finished, named statements stay in the
      transaction that pins their backend, writers share no rows, and the
      statistics of the report are ordered and mean what they say.
    - Texts and configuration: the classifier is sound for reads and scans as
      its relation says, identifiers sort by time, validation is exact, and a
      valid configuration is in force after startup.

    Theorems with a number are the main ones.  Those under the heading "Where
    the program does something else", or at the end of a file, record where the
    program does something other than it means to, most of them as closed
    computations on small inputs.

    ** Bounds and fuel

    Loops that are not structurally recursive take fuel.  The scanners of texts
    get the length of the text, which every round shortens; [up] and [down] get
    the size of the heap; a sweep gets one round more than there are entries,
    and the number of entries that are due decreases in every round.  For these
    the theorems show that the fuel is enough.  The receive loops of the
    upstream client are bounded only by their deadline; their theorem holds for
    every fuel from some bound on.  The loops of the load generator run a fixed
    number of rounds, at most 20, or until the deadline: [goroutines_end] shows
    that more fuel than rounds, or than questions until the deadline, is
    enough.  Overflow is excluded by hypotheses such as
    [timing_ok] (durations below [max_millis] milliseconds) where a theorem
    needs it.

    ** What is not modelled

    TLS, the SCRAM exchange, hash functions, HTTP with its router, the text
    format of the metrics and pgxpool are libraries and appear as parameters or
    choices, and so do pgx, zap and OpenTelemetry.  The rendering of the console,
    the flags, signals and profiling of cmd/main.go, the JSON text of the load
    generator's report, and the helpers of the tests are left out: they only
    call libraries.  The load generators in other languages under simulators/
    are not part of the Go program. *)

From stdpp Require Import base gmap strings list list_numbers fin_maps sorting.
From Stdlib Require Import ZArith Lia.

(** ** Record update

    [r <| field := v |>] is a copy of the record [r] in which [field] holds
    [v]; it stands for the assignment [r.field = v] of the source.  A record
    type opts in with an [Eta] instance, its constructor applied to its own
    projections. *)

Class Eta (R : Type) := eta : R -> R.

Class Setter {R T : Type} (proj : R -> T) := put_field : (T -> T) -> R -> R.

Ltac solve_setter :=
  lazymatch goal with
  | |- @Setter ?R ?T ?proj =>
      let e := constr:(_ : Eta R) in
      let body := eval hnf in e in
      let abstracted := eval pattern proj in body in
      lazymatch abstracted with
      | ?F _ => exact (fun (f : T -> T) (r : R) => F (fun x => f (proj x)) r)
      end
  end.

#[export] Hint Extern 0 (Setter _) => solve_setter : typeclass_instances.

Declare Scope go_scope.
Delimit Scope go_scope with go.

Notation "r <| proj := v |>" := (put_field (proj := proj) (fun _ => v) r)
  (at level 1, left associativity, proj at level 200, v at level 200) : go_scope.
Notation "r <| proj ::= f |>" := (put_field (proj := proj) f r)
  (at level 1, left associativity, proj at level 200, f at level 200) : go_scope.
#[global] Open Scope go_scope.

(** ** Automation shared by the components

    [go] is the hint database of the development.  [split_ifs] destructs the
    boolean tests and option matches of an unfolded handler, remembering their
    outcomes; [go_simpl] normalises record updates and booleans. *)

Create HintDb go.

Ltac bool_to_prop :=
  repeat match goal with
  | H : andb _ _ = true |- _ => apply andb_true_iff in H; destruct H
  | H : orb _ _ = false |- _ => apply orb_false_iff in H; destruct H
  | H : negb _ = true |- _ => apply negb_true_iff in H
  | H : negb _ = false |- _ => apply negb_false_iff in H
  | H : bool_decide _ = true |- _ => apply bool_decide_eq_true in H
  | H : bool_decide _ = false |- _ => apply bool_decide_eq_false in H
  | H : (_ =? _)%Z = true |- _ => apply Z.eqb_eq in H
  | H : (_ =? _)%Z = false |- _ => apply Z.eqb_neq in H
  | H : (_ <? _)%Z = true |- _ => apply Z.ltb_lt in H
  | H : (_ <? _)%Z = false |- _ => apply Z.ltb_ge in H
  | H : (_ <=? _)%Z = true |- _ => apply Z.leb_le in H
  | H : (_ <=? _)%Z = false |- _ => apply Z.leb_gt in H
  | H : String.eqb _ _ = true |- _ => apply String.eqb_eq in H
  | H : String.eqb _ _ = false |- _ => apply String.eqb_neq in H
  end.

Ltac split_if_step :=
  match goal with
  | |- context [if ?b then _ else _] =>
      lazymatch b with
      | context [if _ then _ else _] => fail
      | context [match _ with _ => _ end] => fail
      | _ => destruct b eqn:?
      end
  | H : context [if ?b then _ else _] |- _ =>
      lazymatch b with
      | context [if _ then _ else _] => fail
      | context [match _ with _ => _ end] => fail
      | _ => destruct b eqn:?
      end
  end.

Ltac split_ifs := repeat (split_if_step; cbn in *; try congruence).

(** ** Machine integers

    Go's [int] and [int64] are 64-bit two's complement, [uint64] is modulo
    [2^64]; arithmetic in the source wraps silently. *)

Definition max_int64 : Z := 2 ^ 63 - 1.
Definition min_int64 : Z := - 2 ^ 63.

Definition wrap64 (x : Z) : Z := (x + 2 ^ 63) mod 2 ^ 64 - 2 ^ 63.
Definition uwrap64 (x : Z) : Z := x mod 2 ^ 64.
Definition uwrap16 (x : Z) : Z := x mod 2 ^ 16.

Definition int64_range (x : Z) : Prop := (min_int64 <= x <= max_int64)%Z.

Lemma wrap64_id (x : Z) : int64_range x -> wrap64 x = x.
Proof.
  unfold int64_range, wrap64, min_int64, max_int64. intros H.
  rewrite Z.mod_small; lia.
Qed.

Lemma wrap64_range (x : Z) : int64_range (wrap64 x).
Proof.
  unfold int64_range, wrap64, min_int64, max_int64.
  pose proof (Z.mod_pos_bound (x + 2 ^ 63) (2 ^ 64) ltac:(lia)). lia.
Qed.

Lemma uwrap64_range (x : Z) : (0 <= uwrap64 x < 2 ^ 64)%Z.
Proof. apply Z.mod_pos_bound. lia. Qed.

Lemma uwrap16_id (x : Z) : (0 <= x < 2 ^ 16)%Z -> uwrap16 x = x.
Proof. apply Z.mod_small. Qed.

Lemma wrap64_mod (x : Z) : (wrap64 x mod 2 ^ 64 = x mod 2 ^ 64)%Z.
Proof.
  unfold wrap64. rewrite Zminus_mod_idemp_l. f_equal. lia.
Qed.

Lemma wrap64_eq (x y : Z) : (x mod 2 ^ 64 = y mod 2 ^ 64)%Z -> wrap64 x = wrap64 y.
Proof. unfold wrap64. intros H. by rewrite Z.add_mod, H, <- Z.add_mod. Qed.

Lemma wrap64_add_l (x y : Z) : wrap64 (wrap64 x + y)%Z = wrap64 (x + y)%Z.
Proof. apply wrap64_eq. by rewrite Z.add_mod, wrap64_mod, <- Z.add_mod. Qed.

(** [atomic.Int64.Add(1)]. *)
Definition inc64 (n : Z) : Z := wrap64 (n + 1)%Z.

(** ** Time

    A [time.Time] is the number of nanoseconds since Go's zero time, so
    [time.Time{}] is [0] and [IsZero] tests for it.  A [time.Duration] is an
    [int64] number of nanoseconds: [Time.Sub] saturates at the limits of
    [int64], while [time.Duration(n) * time.Millisecond] wraps. *)

Definition Time : Type := Z.
Definition Duration : Type := Z.

Definition time_zero : Time := 0%Z.
Definition IsZero (t : Time) : bool := (t =? 0)%Z.

Definition saturate64 (x : Z) : Z := Z.max min_int64 (Z.min x max_int64).

Definition Sub (t u : Time) : Duration := saturate64 (t - u).
Definition Milliseconds (d : Duration) : Z := Z.quot d 1000000.
Definition millis (n : Z) : Duration := wrap64 (n * 1000000).
Definition seconds (n : Z) : Duration := wrap64 (n * 1000000000).

Definition max_millis : Z := 9223372036854.

Lemma millis_id (n : Z) :
  (0 <= n <= max_millis)%Z -> millis n = (n * 1000000)%Z.
Proof.
  unfold max_millis. intros H. apply wrap64_id.
  unfold int64_range, min_int64, max_int64. lia.
Qed.

Lemma Sub_id (t u : Time) : int64_range (t - u) -> Sub t u = (t - u)%Z.
Proof. unfold int64_range, Sub, saturate64, min_int64, max_int64. lia. Qed.

Lemma Sub_ge (t u : Time) (d : Duration) :
  (min_int64 < d <= max_int64)%Z -> (Sub t u >= d <-> t - u >= d)%Z.
Proof. unfold Sub, saturate64, min_int64, max_int64. lia. Qed.

Lemma Sub_lt (t u : Time) (d : Duration) :
  (min_int64 < d <= max_int64)%Z -> (Sub t u < d <-> t - u < d)%Z.
Proof. unfold Sub, saturate64, min_int64, max_int64. lia. Qed.

Lemma Milliseconds_gt (d : Duration) (m : Z) :
  (0 <= m)%Z -> (Milliseconds d > m <-> d >= (m + 1) * 1000000)%Z.
Proof.
  unfold Milliseconds. intros Hm. split; intros H.
  - pose proof (Z.quot_rem' d 1000000).
    destruct (Z.le_gt_cases 0 d).
    + pose proof (Z.rem_bound_pos d 1000000 ltac:(lia) ltac:(lia)). nia.
    + assert (Z.quot d 1000000 <= 0)%Z by (apply Z.quot_le_upper_bound; lia). lia.
  - assert (m + 1 <= Z.quot d 1000000)%Z; [|lia].
    apply Z.quot_le_lower_bound; lia.
Qed.

(** ** Iteration order of Go maps

    [range] over a Go map visits every key once in an unspecified order.  A
    definition that iterates takes the order of the visit as an argument, and
    [map_order m ord] says that [ord] is such an order for [m]. *)

Definition map_order {V} (m : gmap string V) (ord : list string) : Prop :=
  ord ≡ₚ elements (dom m).

Definition default_order {V} (m : gmap string V) : list string := elements (dom m).

Lemma default_order_ok {V} (m : gmap string V) : map_order m (default_order m).
Proof. unfold map_order. reflexivity. Qed.

Lemma map_order_NoDup {V} (m : gmap string V) (ord : list string) :
  map_order m ord -> NoDup ord.
Proof. unfold map_order. intros H. rewrite H. apply NoDup_elements. Qed.

Lemma map_order_elem {V} (m : gmap string V) (ord : list string) (k : string) :
  map_order m ord -> k ∈ ord <-> is_Some (m !! k).
Proof. unfold map_order. intros H. by rewrite H, elem_of_elements, elem_of_dom. Qed.

#[export] Hint Resolve default_order_ok map_order_NoDup : go.

(** A visit of the map: the entries in the order of the keys. *)

Definition visit {V} (m : gmap string V) (ord : list string) : list (string * V) :=
  omap (fun k => (fun v => (k, v)) <$> m !! k) ord.

Lemma visit_elem {V} (m : gmap string V) (ord : list string) (k : string) (v : V) :
  map_order m ord -> (k, v) ∈ visit m ord <-> m !! k = Some v.
Proof.
  intros Hord. unfold visit. rewrite list_elem_of_omap. split.
  - intros (k' & _ & H). destruct (m !! k') eqn:E; naive_solver.
  - intros H. exists k. split.
    + apply (map_order_elem _ _ _ Hord). eauto.
    + by rewrite H.
Qed.

Lemma visit_keys {V} (m : gmap string V) (ord : list string) :
  map_order m ord -> (visit m ord).*1 = ord.
Proof.
  intros Hord.
  assert (Hall : Forall (fun k => is_Some (m !! k)) ord).
  { apply Forall_forall. intros k Hk. by apply (map_order_elem _ _ _ Hord). }
  clear Hord. unfold visit. induction Hall as [|k ord [v Hv] _ IH]; [done|].
  cbn. rewrite Hv. cbn. by f_equal.
Qed.

Lemma visit_perm {V} (m : gmap string V) (ord : list string) :
  map_order m ord -> visit m ord ≡ₚ map_to_list m.
Proof.
  intros Hord. apply NoDup_Permutation.
  - apply (NoDup_fmap_1 fst). rewrite visit_keys by done. eauto with go.
  - apply NoDup_map_to_list.
  - intros [k v]. rewrite visit_elem by done. by rewrite elem_of_map_to_list.
Qed.

Lemma visit_perm_order {V} (m : gmap string V) (ord1 ord2 : list string) :
  map_order m ord1 -> map_order m ord2 -> visit m ord1 ≡ₚ visit m ord2.
Proof. intros H1 H2. by rewrite !visit_perm. Qed.

Lemma Some_pair_inj {A B} (a c : A) (b d : B) : Some (a, b) = Some (c, d) -> a = c /\ b = d.
Proof. by injection 1. Qed.

(** ** Labelled runs

    [steps step s ls s']: the labels [ls] lead from [s] to [s']. *)

Inductive steps {S L} (step : S -> L -> S -> Prop) : S -> list L -> S -> Prop :=
| steps_nil s : steps step s [] s
| steps_cons s l s1 ls s2 : step s l s1 -> steps step s1 ls s2 -> steps step s (l :: ls) s2.
#[export] Hint Constructors steps : go.

Lemma steps_invariant {S L} (step : S -> L -> S -> Prop) (P : S -> Prop) s ls s' :
  P s -> (forall s1 l s2, P s1 -> step s1 l s2 -> P s2) -> steps step s ls s' -> P s'.
Proof. intros Hs Hpres Hrun. induction Hrun; eauto. Qed.

Lemma steps_app {S L} (step : S -> L -> S -> Prop) s1 ls1 s2 ls2 s3 :
  steps step s1 ls1 s2 -> steps step s2 ls2 s3 -> steps step s1 (ls1 ++ ls2) s3.
Proof. induction 1; cbn; [done|]. intros. econstructor; eauto. Qed.
