(* ===== verification/GoStrings.v ===== *)
(** * GoStrings: the parts of Go's [strings], [unicode] and [unicode/utf8] in use

    A Go string is a sequence of bytes: [String.string], whose characters are
    the 256 byte values.  Functions that look at characters decode UTF-8 the
    way Go's [range] loop does: an invalid sequence is one byte wide and reads
    as [rune_error].  The scanners of the source ([IndexFunc], [TrimLeftFunc],
    [ToLower], [TrimSpace], [Fields], ...) are defined on top of that. *)

From stdpp Require Import base strings list.
From Stdlib Require Import ZArith Lia Ascii String.
From S2P Require Import Prelude.

Local Open Scope string_scope.
Local Open Scope Z_scope.

(** ** Bytes and slices *)

Definition byteZ (c : ascii) : Z := Z.of_N (N_of_ascii c).
Definition byte_of_Z (z : Z) : ascii := ascii_of_N (Z.to_N z).

Definition chr (n : nat) : string := String (ascii_of_nat n) "".
Definition newline : string := chr 10.

(** [s[n:]] and [s[:n]]. *)
Fixpoint sdrop (n : nat) (s : string) : string :=
  match n, s with
  | O, _ => s
  | S n', String _ s' => sdrop n' s'
  | S _, EmptyString => ""
  end.

Fixpoint stake (n : nat) (s : string) : string :=
  match n, s with
  | O, _ => ""
  | S n', String c s' => String c (stake n' s')
  | S _, EmptyString => ""
  end.

Definition HasPrefix (s p : string) : bool := String.prefix p s.
Definition Index (s sub : string) : option nat := String.index 0 sub s.

(** ** UTF-8 *)

Definition rune : Type := Z.
Definition rune_error : rune := 65533.

Definition in_range (lo hi b : Z) : bool := (lo <=? b) && (b <=? hi).

(** The second byte accepted after the leading byte [b0] of a 3- or 4-byte
    sequence (no overlong forms, no surrogates, nothing above 10FFFF). *)
Definition accept_range (b0 : Z) : Z * Z :=
  if b0 =? 224 then (160, 191)
  else if b0 =? 237 then (128, 159)
  else if b0 =? 240 then (144, 191)
  else if b0 =? 244 then (128, 143)
  else (128, 191).

Definition DecodeRune (s : string) : rune * nat :=
  match s with
  | EmptyString => (rune_error, 0%nat)
  | String c0 s1 =>
    let b0 := byteZ c0 in
    if b0 <? 128 then (b0, 1%nat) else
    match s1 with
    | EmptyString => (rune_error, 1%nat)
    | String c1 s2 =>
      let b1 := byteZ c1 in
      if in_range 194 223 b0 then
        if in_range 128 191 b1
        then (Z.lor (Z.shiftl (Z.land b0 31) 6) (Z.land b1 63), 2%nat)
        else (rune_error, 1%nat)
      else
      let '(lo, hi) := accept_range b0 in
      match s2 with
      | EmptyString => (rune_error, 1%nat)
      | String c2 s3 =>
        let b2 := byteZ c2 in
        if in_range 224 239 b0 then
          if in_range lo hi b1 && in_range 128 191 b2
          then (Z.lor (Z.shiftl (Z.land b0 15) 12)
                  (Z.lor (Z.shiftl (Z.land b1 63) 6) (Z.land b2 63)), 3%nat)
          else (rune_error, 1%nat)
        else
        match s3 with
        | EmptyString => (rune_error, 1%nat)
        | String c3 _ =>
          let b3 := byteZ c3 in
          if in_range 240 244 b0 && in_range lo hi b1 && in_range 128 191 b2
             && in_range 128 191 b3
          then (Z.lor (Z.shiftl (Z.land b0 7) 18)
                  (Z.lor (Z.shiftl (Z.land b1 63) 12)
                     (Z.lor (Z.shiftl (Z.land b2 63) 6) (Z.land b3 63))), 4%nat)
          else (rune_error, 1%nat)
        end
      end
    end
  end.

Definition EncodeRune (r : rune) : string :=
  if r <? 128 then String (byte_of_Z r) ""
  else if r <? 2048 then
    String (byte_of_Z (Z.lor 192 (Z.shiftr r 6)))
      (String (byte_of_Z (Z.lor 128 (Z.land r 63))) "")
  else if r <? 65536 then
    String (byte_of_Z (Z.lor 224 (Z.shiftr r 12)))
      (String (byte_of_Z (Z.lor 128 (Z.land (Z.shiftr r 6) 63)))
        (String (byte_of_Z (Z.lor 128 (Z.land r 63))) ""))
  else
    String (byte_of_Z (Z.lor 240 (Z.shiftr r 18)))
      (String (byte_of_Z (Z.lor 128 (Z.land (Z.shiftr r 12) 63)))
        (String (byte_of_Z (Z.lor 128 (Z.land (Z.shiftr r 6) 63)))
          (String (byte_of_Z (Z.lor 128 (Z.land r 63))) ""))).

(** [utf8.DecodeLastRuneInString]: step back to the nearest byte that can
    start a rune, at most four bytes, and require the rune to end at the end. *)
Definition rune_start (s : string) : bool :=
  match s with
  | EmptyString => false
  | String c _ => negb (in_range 128 191 (byteZ c))
  end.

Definition DecodeLastRune (s : string) : rune * nat :=
  let n := String.length s in
  let at_end (k : nat) := sdrop (n - k) s in
  let finish (k : nat) :=
    let '(r, size) := DecodeRune (at_end k) in
    if Nat.eqb size k then (r, k) else (rune_error, 1%nat) in
  match at_end 1%nat with
  | EmptyString => (rune_error, 0%nat)
  | String c _ =>
    if byteZ c <? 128 then (byteZ c, 1%nat)
    else if (2 <=? n)%nat && rune_start (at_end 2%nat) then finish 2%nat
    else if (3 <=? n)%nat && rune_start (at_end 3%nat) then finish 3%nat
    else if (4 <=? n)%nat && rune_start (at_end 4%nat) then finish 4%nat
    else (rune_error, 1%nat)
  end.

(** ** Character classes and case *)

(** [unicode.IsSpace]: the Latin-1 white space and the [White_Space] table. *)
Definition IsSpace (r : rune) : bool :=
  in_range 9 13 r || (r =? 32) || (r =? 133) || (r =? 160) || (r =? 5760)
  || in_range 8192 8202 r || (r =? 8232) || (r =? 8233) || (r =? 8239)
  || (r =? 8287) || (r =? 12288).

(** The simple lower-case mapping of Unicode 15 outside ASCII, as ranges
    [(lo, hi, stride, delta)]: [lo, lo + stride, ..., hi] map to themselves
    plus [delta]. *)
Definition lower_ranges : list (Z * Z * Z * Z) := [
  (192, 214, 1, 32); (216, 222, 1, 32); (256, 302, 2, 1); (304, 304, 1, (-199));
  (306, 310, 2, 1); (313, 327, 2, 1); (330, 374, 2, 1); (376, 376, 1, (-121));
  (377, 381, 2, 1); (385, 385, 1, 210); (386, 388, 2, 1); (390, 390, 1, 206);
  (391, 391, 1, 1); (393, 394, 1, 205); (395, 395, 1, 1); (398, 398, 1, 79);
  (399, 399, 1, 202); (400, 400, 1, 203); (401, 401, 1, 1); (403, 403, 1, 205);
  (404, 404, 1, 207); (406, 406, 1, 211); (407, 407, 1, 209); (408, 408, 1, 1);
  (412, 412, 1, 211); (413, 413, 1, 213); (415, 415, 1, 214); (416, 420, 2, 1);
  (422, 422, 1, 218); (423, 423, 1, 1); (425, 425, 1, 218); (428, 428, 1, 1);
  (430, 430, 1, 218); (431, 431, 1, 1); (433, 434, 1, 217); (435, 437, 2, 1);
  (439, 439, 1, 219); (440, 440, 1, 1); (444, 444, 1, 1); (452, 452, 1, 2);
  (453, 453, 1, 1); (455, 455, 1, 2); (456, 456, 1, 1); (458, 458, 1, 2);
  (459, 475, 2, 1); (478, 494, 2, 1); (497, 497, 1, 2); (498, 500, 2, 1);
  (502, 502, 1, (-97)); (503, 503, 1, (-56)); (504, 542, 2, 1); (544, 544, 1, (-130));
  (546, 562, 2, 1); (570, 570, 1, 10795); (571, 571, 1, 1); (573, 573, 1, (-163));
  (574, 574, 1, 10792); (577, 577, 1, 1); (579, 579, 1, (-195)); (580, 580, 1, 69);
  (581, 581, 1, 71); (582, 590, 2, 1); (880, 882, 2, 1); (886, 886, 1, 1);
  (895, 895, 1, 116); (902, 902, 1, 38); (904, 906, 1, 37); (908, 908, 1, 64);
  (910, 911, 1, 63); (913, 929, 1, 32); (931, 939, 1, 32); (975, 975, 1, 8);
  (984, 1006, 2, 1); (1012, 1012, 1, (-60)); (1015, 1015, 1, 1); (1017, 1017, 1, (-7));
  (1018, 1018, 1, 1); (1021, 1023, 1, (-130)); (1024, 1039, 1, 80);
  (1040, 1071, 1, 32); (1120, 1152, 2, 1); (1162, 1214, 2, 1); (1216, 1216, 1, 15);
  (1217, 1229, 2, 1); (1232, 1326, 2, 1); (1329, 1366, 1, 48); (4256, 4293, 1, 7264);
  (4295, 4295, 1, 7264); (4301, 4301, 1, 7264); (5024, 5103, 1, 38864);
  (5104, 5109, 1, 8); (7312, 7354, 1, (-3008)); (7357, 7359, 1, (-3008));
  (7680, 7828, 2, 1); (7838, 7838, 1, (-7615)); (7840, 7934, 2, 1);
  (7944, 7951, 1, (-8)); (7960, 7965, 1, (-8)); (7976, 7983, 1, (-8));
  (7992, 7999, 1, (-8)); (8008, 8013, 1, (-8)); (8025, 8031, 2, (-8));
  (8040, 8047, 1, (-8)); (8072, 8079, 1, (-8)); (8088, 8095, 1, (-8));
  (8104, 8111, 1, (-8)); (8120, 8121, 1, (-8)); (8122, 8123, 1, (-74));
  (8124, 8124, 1, (-9)); (8136, 8139, 1, (-86)); (8140, 8140, 1, (-9));
  (8152, 8153, 1, (-8)); (8154, 8155, 1, (-100)); (8168, 8169, 1, (-8));
  (8170, 8171, 1, (-112)); (8172, 8172, 1, (-7)); (8184, 8185, 1, (-128));
  (8186, 8187, 1, (-126)); (8188, 8188, 1, (-9)); (8486, 8486, 1, (-7517));
  (8490, 8490, 1, (-8383)); (8491, 8491, 1, (-8262)); (8498, 8498, 1, 28);
  (8544, 8559, 1, 16); (8579, 8579, 1, 1); (9398, 9423, 1, 26); (11264, 11311, 1, 48);
  (11360, 11360, 1, 1); (11362, 11362, 1, (-10743)); (11363, 11363, 1, (-3814));
  (11364, 11364, 1, (-10727)); (11367, 11371, 2, 1); (11373, 11373, 1, (-10780));
  (11374, 11374, 1, (-10749)); (11375, 11375, 1, (-10783));
  (11376, 11376, 1, (-10782)); (11378, 11378, 1, 1); (11381, 11381, 1, 1);
  (11390, 11391, 1, (-10815)); (11392, 11490, 2, 1); (11499, 11501, 2, 1);
  (11506, 11506, 1, 1); (42560, 42604, 2, 1); (42624, 42650, 2, 1);
  (42786, 42798, 2, 1); (42802, 42862, 2, 1); (42873, 42875, 2, 1);
  (42877, 42877, 1, (-35332)); (42878, 42886, 2, 1); (42891, 42891, 1, 1);
  (42893, 42893, 1, (-42280)); (42896, 42898, 2, 1); (42902, 42920, 2, 1);
  (42922, 42922, 1, (-42308)); (42923, 42923, 1, (-42319));
  (42924, 42924, 1, (-42315)); (42925, 42925, 1, (-42305));
  (42926, 42926, 1, (-42308)); (42928, 42928, 1, (-42258));
  (42929, 42929, 1, (-42282)); (42930, 42930, 1, (-42261)); (42931, 42931, 1, 928);
  (42932, 42946, 2, 1); (42948, 42948, 1, (-48)); (42949, 42949, 1, (-42307));
  (42950, 42950, 1, (-35384)); (42951, 42953, 2, 1); (42960, 42960, 1, 1);
  (42966, 42968, 2, 1); (42997, 42997, 1, 1); (65313, 65338, 1, 32);
  (66560, 66599, 1, 40); (66736, 66771, 1, 40); (66928, 66938, 1, 39);
  (66940, 66954, 1, 39); (66956, 66962, 1, 39); (66964, 66965, 1, 39);
  (68736, 68786, 1, 64); (71840, 71871, 1, 32); (93760, 93791, 1, 32);
  (125184, 125217, 1, 34)].

Definition in_case_range (r : rune) (e : Z * Z * Z * Z) : option rune :=
  let '(lo, hi, stride, delta) := e in
  if in_range lo hi r && ((r - lo) mod stride =? 0) then Some (r + delta) else None.

Fixpoint lookup_case (r : rune) (tbl : list (Z * Z * Z * Z)) : rune :=
  match tbl with
  | [] => r
  | e :: tbl' => match in_case_range r e with
                 | Some r' => r'
                 | None => lookup_case r tbl'
                 end
  end.

(** [unicode.ToLower]. *)
Definition lower_rune (r : rune) : rune :=
  if r <? 128 then (if in_range 65 90 r then r + 32 else r)
  else lookup_case r lower_ranges.

(** ** Rune-wise scanners

    [skip] counts the bytes of the current rune that are still to be passed
    over; the recursion is on the bytes, the tests on the runes. *)

Fixpoint index_func (f : rune -> bool) (skip i : nat) (s : string) : option nat :=
  match s with
  | EmptyString => None
  | String _ s' =>
    match skip with
    | S k => index_func f k (S i) s'
    | O => let '(r, w) := DecodeRune s in
           if f r then Some i else index_func f (w - 1) (S i) s'
    end
  end.

(** [strings.IndexFunc]; [None] is the [-1] of the source. *)
Definition IndexFunc (s : string) (f : rune -> bool) : option nat := index_func f 0 0 s.

Fixpoint trim_left (f : rune -> bool) (skip : nat) (s : string) : string :=
  match s with
  | EmptyString => ""
  | String _ s' =>
    match skip with
    | S k => trim_left f k s'
    | O => let '(r, w) := DecodeRune s in
           if f r then trim_left f (w - 1) s' else s
    end
  end.

Definition TrimLeftFunc (s : string) (f : rune -> bool) : string := trim_left f 0 s.

Fixpoint trim_right (fuel : nat) (f : rune -> bool) (s : string) : string :=
  match s with
  | EmptyString => ""
  | String _ _ =>
    let '(r, w) := DecodeLastRune s in
    if f r then
      match fuel with
      | O => ""
      | S n => trim_right n f (stake (String.length s - w) s)
      end
    else s
  end.

Definition TrimRightFunc (s : string) (f : rune -> bool) : string :=
  trim_right (String.length s) f s.

Definition TrimSpace (s : string) : string :=
  TrimRightFunc (TrimLeftFunc s IsSpace) IsSpace.

Fixpoint map_runes (f : rune -> rune) (skip : nat) (s : string) : string :=
  match s with
  | EmptyString => ""
  | String _ s' =>
    match skip with
    | S k => map_runes f k s'
    | O => let '(r, w) := DecodeRune s in EncodeRune (f r) +:+ map_runes f (w - 1) s'
    end
  end.

Definition ToLower (s : string) : string := map_runes lower_rune 0 s.

(** [strings.Fields]: [cur] is the field being collected, if any. *)
Fixpoint fields_go (skip : nat) (insp : bool) (cur : string) (s : string) : list string :=
  match s with
  | EmptyString => if String.eqb cur "" then [] else [cur]
  | String c s' =>
    match skip with
    | S k => if insp then fields_go k insp cur s'
             else fields_go k insp (cur +:+ String c "") s'
    | O => let '(r, w) := DecodeRune s in
           if IsSpace r then
             (if String.eqb cur "" then [] else [cur]) ++ fields_go (w - 1) true "" s'
           else fields_go (w - 1) false (cur +:+ String c "") s'
    end
  end.

Definition Fields (s : string) : list string := fields_go 0 true "" s.

Fixpoint Join (parts : list string) (sep : string) : string :=
  match parts with
  | [] => ""
  | [p] => p
  | p :: rest => p +:+ sep +:+ Join rest sep
  end.

(** [strings.ReplaceAll] and [strings.Split] for a one-byte separator. *)
Fixpoint replace_byte (a b : ascii) (s : string) : string :=
  match s with
  | EmptyString => ""
  | String c s' => String (if Ascii.eqb c a then b else c) (replace_byte a b s')
  end.

Fixpoint split_byte (sep : ascii) (s : string) : list string :=
  match s with
  | EmptyString => [""]
  | String c s' =>
    if Ascii.eqb c sep then "" :: split_byte sep s'
    else match split_byte sep s' with
         | [] => [String c ""]
         | p :: rest => String c p :: rest
         end
  end.

(** ** Lemmas on slices *)

Lemma length_sdrop (n : nat) (s : string) :
  String.length (sdrop n s) = (String.length s - n)%nat.
Proof.
  revert s. induction n as [|n IH]; intros [|c s]; cbn; try done; by rewrite IH.
Qed.

Lemma length_stake (n : nat) (s : string) :
  String.length (stake n s) = Nat.min n (String.length s).
Proof. revert s. induction n as [|n IH]; intros [|c s]; cbn; try done; by rewrite IH. Qed.

Lemma append_cons (c : ascii) (s t : string) : String c s +:+ t = String c (s +:+ t).
Proof. reflexivity. Qed.

Lemma append_nil_l (t : string) : "" +:+ t = t.
Proof. reflexivity. Qed.

Lemma length_append (s t : string) :
  String.length (s +:+ t) = (String.length s + String.length t)%nat.
Proof. induction s as [|c s IH]; [done|]. rewrite append_cons. cbn. by rewrite IH. Qed.

Lemma append_empty_r (s : string) : s +:+ "" = s.
Proof. induction s as [|c s IH]; [done|]. by rewrite append_cons, IH. Qed.

Lemma append_assoc (s t u : string) : (s +:+ t) +:+ u = s +:+ (t +:+ u).
Proof. induction s as [|c s IH]; [done|]. by rewrite !append_cons, IH. Qed.

Lemma sdrop_append (s t : string) : sdrop (String.length s) (s +:+ t) = t.
Proof. induction s as [|c s IH]; [done|]. by rewrite append_cons. Qed.

Lemma sdrop_all (n : nat) (s : string) :
  (String.length s <= n)%nat -> sdrop n s = "".
Proof.
  revert s. induction n as [|n IH]; intros [|c s] H; cbn in *; try done; [lia|].
  apply IH. lia.
Qed.

Lemma sdrop_sdrop (n m : nat) (s : string) : sdrop n (sdrop m s) = sdrop (m + n) s.
Proof.
  revert s. induction m as [|m IH]; intros [|c s]; cbn; try done.
  by destruct n.
Qed.

Lemma stake_append_le (n : nat) (s t : string) :
  (n <= String.length s)%nat -> stake n (s +:+ t) = stake n s.
Proof.
  revert s. induction n as [|n IH]; intros [|c s] H; cbn in H; try done; [lia|].
  rewrite append_cons. cbn. f_equal. apply IH. lia.
Qed.

Lemma stake_all (n : nat) (s : string) : (String.length s <= n)%nat -> stake n s = s.
Proof.
  revert s. induction n as [|n IH]; intros [|c s] H; cbn in *; try done; [lia|].
  f_equal. apply IH. lia.
Qed.

Lemma prefix_append (p s : string) : String.prefix p (p +:+ s) = true.
Proof.
  induction p as [|c p IH]; [by destruct s|]. rewrite append_cons. cbn.
  destruct (ascii_dec c c); [done|congruence].
Qed.

Lemma prefix_spec (p s : string) :
  String.prefix p s = true -> s = p +:+ sdrop (String.length p) s.
Proof.
  revert s. induction p as [|c p IH]; intros [|d s] H; cbn in *; try done.
  destruct (ascii_dec c d) as [->|]; [|done]. rewrite append_cons. f_equal. by apply IH.
Qed.

Lemma prefix_length (p s : string) :
  String.prefix p s = true -> (String.length p <= String.length s)%nat.
Proof. intros H%prefix_spec. rewrite H, length_append. lia. Qed.

(** [Index] without the offset argument of the standard library. *)
Lemma Index_cons (sub : string) (c : ascii) (s : string) :
  sub <> "" ->
  Index (String c s) sub =
  if String.prefix sub (String c s) then Some 0%nat else S <$> Index s sub.
Proof.
  intros Hne. unfold Index. destruct sub as [|d sub]; [done|].
  cbn. destruct (ascii_dec d c); cbn; [destruct (String.prefix sub s)|];
    try done; by destruct (String.index 0 (String d sub) s).
Qed.

Lemma Index_bound (s sub : string) (i : nat) :
  sub <> "" -> Index s sub = Some i -> (i + String.length sub <= String.length s)%nat.
Proof.
  intros Hne. revert i. induction s as [|c s IH]; intros i.
  - unfold Index. destruct sub; cbn; done.
  - rewrite Index_cons by done. destruct (String.prefix _ _) eqn:E.
    + intros [= <-]. by apply prefix_length in E.
    + destruct (Index s sub) eqn:E'; intros [= <-]. specialize (IH _ eq_refl). cbn. lia.
Qed.

Lemma prefix_append_l (p s t : string) :
  String.prefix p s = true -> String.prefix p (s +:+ t) = true.
Proof.
  revert s. induction p as [|c p IH]; intros [|d s] H; try done; [by destruct t|].
  rewrite append_cons. cbn in *. destruct (ascii_dec c d); [|done]. by apply IH.
Qed.

Lemma prefix_append_long (p s t : string) :
  (String.length p <= String.length s)%nat ->
  String.prefix p (s +:+ t) = String.prefix p s.
Proof.
  revert s. induction p as [|c p IH]; intros [|d s] H; cbn in H; try lia.
  - by destruct t.
  - done.
  - rewrite append_cons. cbn. destruct (ascii_dec c d); [|done]. apply IH. lia.
Qed.

Lemma Index_append (s t sub : string) (i : nat) :
  sub <> "" -> Index s sub = Some i -> Index (s +:+ t) sub = Some i.
Proof.
  intros Hne. revert i. induction s as [|c s IH]; intros i.
  - unfold Index. destruct sub; cbn; done.
  - rewrite append_cons, !Index_cons by done. rewrite <- append_cons.
    destruct (String.prefix sub (String c s)) eqn:E.
    + by rewrite (prefix_append_l _ _ _ E).
    + destruct (Index s sub) as [j|] eqn:E'; intros [= <-].
      rewrite prefix_append_long, E by (apply Index_bound in E'; [cbn|]; [lia|done]).
      by rewrite (IH _ eq_refl).
Qed.

(** ** Lemmas on the rune scanners *)

Lemma DecodeRune_width (s : string) :
  s <> "" -> (1 <= (DecodeRune s).2 <= 4)%nat.
Proof.
  intros Hne. destruct s as [|c0 s]; [done|]. unfold DecodeRune.
  repeat (case_match; cbn; try lia).
Qed.

Lemma DecodeRune_ascii (c : ascii) (s : string) :
  byteZ c < 128 -> DecodeRune (String c s) = (byteZ c, 1%nat).
Proof. intros H. unfold DecodeRune. by apply Z.ltb_lt in H as ->. Qed.

Lemma trim_left_skip (f : rune -> bool) (k : nat) (s : string) :
  trim_left f k s = trim_left f 0 (sdrop k s).
Proof.
  revert s. induction k as [|k IH]; intros s; [by destruct s|].
  destruct s as [|c s]; [done|]. cbn [sdrop]. rewrite <- IH. done.
Qed.

Lemma TrimLeftFunc_eq (s : string) (f : rune -> bool) :
  s <> "" ->
  TrimLeftFunc s f =
  if f (DecodeRune s).1 then TrimLeftFunc (sdrop (DecodeRune s).2 s) f else s.
Proof.
  intros Hne. unfold TrimLeftFunc. destruct s as [|c s]; [done|].
  cbn [trim_left]. pose proof (DecodeRune_width (String c s) Hne) as Hw.
  destruct (DecodeRune (String c s)) as [r w]. cbn in *.
  destruct (f r); [|done]. rewrite trim_left_skip. destruct w as [|w]; [lia|].
  cbn. by rewrite Nat.sub_0_r.
Qed.

Lemma length_TrimLeftFunc (s : string) (f : rune -> bool) :
  (String.length (TrimLeftFunc s f) <= String.length s)%nat.
Proof.
  induction s as [s IH] using (induction_ltof1 _ String.length).
  destruct (decide (s = "")) as [->|Hne]; [done|].
  rewrite TrimLeftFunc_eq by done. case_match; [|done].
  pose proof (DecodeRune_width s Hne). etrans; [apply IH|].
  - unfold ltof. rewrite length_sdrop. destruct s; [done|]. cbn in *. lia.
  - rewrite length_sdrop. lia.
Qed.

Lemma TrimLeftFunc_head (s : string) (f : rune -> bool) :
  TrimLeftFunc s f = "" \/ f (DecodeRune (TrimLeftFunc s f)).1 = false.
Proof.
  induction s as [s IH] using (induction_ltof1 _ String.length).
  destruct (decide (s = "")) as [->|Hne]; [by left|].
  rewrite TrimLeftFunc_eq by done. case_match eqn:E; [|by right].
  pose proof (DecodeRune_width s Hne). apply IH.
  unfold ltof. rewrite length_sdrop. destruct s; [done|]. cbn in *. lia.
Qed.

Lemma index_func_bound (f : rune -> bool) (k i : nat) (s : string) (j : nat) :
  index_func f k i s = Some j -> (i <= j < i + String.length s)%nat.
Proof.
  revert k i. induction s as [|c s IH]; intros k i; cbn [index_func]; [done|].
  destruct k as [|k].
  - destruct (DecodeRune (String c s)) as [r w]. case_match.
    + intros [= <-]. cbn. lia.
    + intros Hj%IH. cbn. lia.
  - intros Hj%IH. cbn. lia.
Qed.
