(* ===== verification/GoEncoding.v ===== *)
(** * GoEncoding: [strconv.Atoi], [encoding/base64], [encoding/hex] and [strings.ToUpper]

    What the authentication code uses of Go's encoding packages.  Byte slices
    are strings.  [Atoi] is the inverse of the decimal printer within the range
    of [int], the base64 decoder that of the encoder; the decoder is the
    lenient [StdEncoding] of the source, which skips line ends and ignores the
    unused bits of the last quantum. *)

From stdpp Require Import base strings list pretty.
From Stdlib Require Import ZArith Lia Ascii String.
From S2P Require Import Prelude GoStrings.

Local Open Scope string_scope.
Local Open Scope Z_scope.

(** ** [strings.ToUpper] *)

Definition upper_ranges : list (Z * Z * Z * Z) := [
  (181, 181, 1, 743); (224, 246, 1, (-32)); (248, 254, 1, (-32)); (255, 255, 1, 121);
  (257, 303, 2, (-1)); (305, 305, 1, (-232)); (307, 311, 2, (-1)); (314, 328, 2, (-1));
  (331, 375, 2, (-1)); (378, 382, 2, (-1)); (383, 383, 1, (-300)); (384, 384, 1, 195);
  (387, 389, 2, (-1)); (392, 392, 1, (-1)); (396, 396, 1, (-1)); (402, 402, 1, (-1));
  (405, 405, 1, 97); (409, 409, 1, (-1)); (410, 410, 1, 163); (414, 414, 1, 130);
  (417, 421, 2, (-1)); (424, 424, 1, (-1)); (429, 429, 1, (-1)); (432, 432, 1, (-1));
  (436, 438, 2, (-1)); (441, 441, 1, (-1)); (445, 445, 1, (-1)); (447, 447, 1, 56);
  (453, 453, 1, (-1)); (454, 454, 1, (-2)); (456, 456, 1, (-1)); (457, 457, 1, (-2));
  (459, 459, 1, (-1)); (460, 460, 1, (-2)); (462, 476, 2, (-1)); (477, 477, 1, (-79));
  (479, 495, 2, (-1)); (498, 498, 1, (-1)); (499, 499, 1, (-2)); (501, 501, 1, (-1));
  (505, 543, 2, (-1)); (547, 563, 2, (-1)); (572, 572, 1, (-1)); (575, 576, 1, 10815);
  (578, 578, 1, (-1)); (583, 591, 2, (-1)); (592, 592, 1, 10783); (593, 593, 1, 10780);
  (594, 594, 1, 10782); (595, 595, 1, (-210)); (596, 596, 1, (-206));
  (598, 599, 1, (-205)); (601, 601, 1, (-202)); (603, 603, 1, (-203));
  (604, 604, 1, 42319); (608, 608, 1, (-205)); (609, 609, 1, 42315); (611, 611, 1, (-207));
  (613, 613, 1, 42280); (614, 614, 1, 42308); (616, 616, 1, (-209)); (617, 617, 1, (-211));
  (618, 618, 1, 42308); (619, 619, 1, 10743); (620, 620, 1, 42305); (623, 623, 1, (-211));
  (625, 625, 1, 10749); (626, 626, 1, (-213)); (629, 629, 1, (-214)); (637, 637, 1, 10727);
  (640, 640, 1, (-218)); (642, 642, 1, 42307); (643, 643, 1, (-218)); (647, 647, 1, 42282);
  (648, 648, 1, (-218)); (649, 649, 1, (-69)); (650, 651, 1, (-217)); (652, 652, 1, (-71));
  (658, 658, 1, (-219)); (669, 669, 1, 42261); (670, 670, 1, 42258); (837, 837, 1, 84);
  (881, 883, 2, (-1)); (887, 887, 1, (-1)); (891, 893, 1, 130); (940, 940, 1, (-38));
  (941, 943, 1, (-37)); (945, 961, 1, (-32)); (962, 962, 1, (-31)); (963, 971, 1, (-32));
  (972, 972, 1, (-64)); (973, 974, 1, (-63)); (976, 976, 1, (-62)); (977, 977, 1, (-57));
  (981, 981, 1, (-47)); (982, 982, 1, (-54)); (983, 983, 1, (-8)); (985, 1007, 2, (-1));
  (1008, 1008, 1, (-86)); (1009, 1009, 1, (-80)); (1010, 1010, 1, 7);
  (1011, 1011, 1, (-116)); (1013, 1013, 1, (-96)); (1016, 1016, 1, (-1));
  (1019, 1019, 1, (-1)); (1072, 1103, 1, (-32)); (1104, 1119, 1, (-80));
  (1121, 1153, 2, (-1)); (1163, 1215, 2, (-1)); (1218, 1230, 2, (-1));
  (1231, 1231, 1, (-15)); (1233, 1327, 2, (-1)); (1377, 1414, 1, (-48));
  (4304, 4346, 1, 3008); (4349, 4351, 1, 3008); (5112, 5117, 1, (-8));
  (7296, 7296, 1, (-6254)); (7297, 7297, 1, (-6253)); (7298, 7298, 1, (-6244));
  (7299, 7300, 1, (-6242)); (7301, 7301, 1, (-6243)); (7302, 7302, 1, (-6236));
  (7303, 7303, 1, (-6181)); (7304, 7304, 1, 35266); (7545, 7545, 1, 35332);
  (7549, 7549, 1, 3814); (7566, 7566, 1, 35384); (7681, 7829, 2, (-1));
  (7835, 7835, 1, (-59)); (7841, 7935, 2, (-1)); (7936, 7943, 1, 8); (7952, 7957, 1, 8);
  (7968, 7975, 1, 8); (7984, 7991, 1, 8); (8000, 8005, 1, 8); (8017, 8023, 2, 8);
  (8032, 8039, 1, 8); (8048, 8049, 1, 74); (8050, 8053, 1, 86); (8054, 8055, 1, 100);
  (8056, 8057, 1, 128); (8058, 8059, 1, 112); (8060, 8061, 1, 126); (8064, 8071, 1, 8);
  (8080, 8087, 1, 8); (8096, 8103, 1, 8); (8112, 8113, 1, 8); (8115, 8115, 1, 9);
  (8126, 8126, 1, (-7205)); (8131, 8131, 1, 9); (8144, 8145, 1, 8); (8160, 8161, 1, 8);
  (8165, 8165, 1, 7); (8179, 8179, 1, 9); (8526, 8526, 1, (-28)); (8560, 8575, 1, (-16));
  (8580, 8580, 1, (-1)); (9424, 9449, 1, (-26)); (11312, 11359, 1, (-48));
  (11361, 11361, 1, (-1)); (11365, 11365, 1, (-10795)); (11366, 11366, 1, (-10792));
  (11368, 11372, 2, (-1)); (11379, 11379, 1, (-1)); (11382, 11382, 1, (-1));
  (11393, 11491, 2, (-1)); (11500, 11502, 2, (-1)); (11507, 11507, 1, (-1));
  (11520, 11557, 1, (-7264)); (11559, 11559, 1, (-7264)); (11565, 11565, 1, (-7264));
  (42561, 42605, 2, (-1)); (42625, 42651, 2, (-1)); (42787, 42799, 2, (-1));
  (42803, 42863, 2, (-1)); (42874, 42876, 2, (-1)); (42879, 42887, 2, (-1));
  (42892, 42892, 1, (-1)); (42897, 42899, 2, (-1)); (42900, 42900, 1, 48);
  (42903, 42921, 2, (-1)); (42933, 42947, 2, (-1)); (42952, 42954, 2, (-1));
  (42961, 42961, 1, (-1)); (42967, 42969, 2, (-1)); (42998, 42998, 1, (-1));
  (43859, 43859, 1, (-928)); (43888, 43967, 1, (-38864)); (65345, 65370, 1, (-32));
  (66600, 66639, 1, (-40)); (66776, 66811, 1, (-40)); (66967, 66977, 1, (-39));
  (66979, 66993, 1, (-39)); (66995, 67001, 1, (-39)); (67003, 67004, 1, (-39));
  (68800, 68850, 1, (-64)); (71872, 71903, 1, (-32)); (93792, 93823, 1, (-32));
  (125218, 125251, 1, (-34))].

(** [unicode.ToUpper]. *)
Definition upper_rune (r : rune) : rune :=
  if r <? 128 then (if in_range 97 122 r then r - 32 else r)
  else lookup_case r upper_ranges.

Definition ToUpper (s : string) : string := map_runes upper_rune 0 s.

(** ** [strconv.Atoi] *)

Definition digit (c : ascii) : option Z :=
  if in_range 48 57 (byteZ c) then Some (byteZ c - 48) else None.

(** The value of a string of digits, most significant first; [None] when
    another byte occurs. *)
Fixpoint digits (acc : Z) (s : string) : option Z :=
  match s with
  | EmptyString => Some acc
  | String c s' => match digit c with
                   | Some d => digits (acc * 10 + d) s'
                   | None => None
                   end
  end.

(** An optional sign and at least one digit, within the range of [int]. *)
Definition Atoi (s : string) : option Z :=
  let '(neg, body) :=
    match s with
    | String c s' => if Ascii.eqb c "-" then (true, s')
                     else if Ascii.eqb c "+" then (false, s') else (false, s)
    | EmptyString => (false, s)
    end in
  if String.eqb body "" then None
  else match digits 0 body with
       | Some n => let n := if neg : bool then - n else n in
                   if in_range min_int64 max_int64 n then Some n else None
       | None => None
       end.

(** ** [encoding/hex] *)

Definition hex_digit (n : Z) : ascii := byte_of_Z (if n <? 10 then 48 + n else 87 + n).

Fixpoint hex_EncodeToString (s : string) : string :=
  match s with
  | EmptyString => ""
  | String c s' => String (hex_digit (byteZ c / 16))
                     (String (hex_digit (byteZ c mod 16)) (hex_EncodeToString s'))
  end.

(** ** [encoding/base64], [StdEncoding] *)

(** The character of a 6-bit value, and back. *)
Definition b64_char (n : Z) : ascii :=
  byte_of_Z (if n <? 26 then 65 + n else if n <? 52 then 71 + n
             else if n <? 62 then n - 4 else if n =? 62 then 43 else 47).

Definition b64_value (c : ascii) : option Z :=
  let b := byteZ c in
  if in_range 65 90 b then Some (b - 65)
  else if in_range 97 122 b then Some (b - 71)
  else if in_range 48 57 b then Some (b + 4)
  else if b =? 43 then Some 62
  else if b =? 47 then Some 63
  else None.

Definition pad : ascii := "=".

Fixpoint b64_encode (s : string) : string :=
  match s with
  | EmptyString => ""
  | String a EmptyString =>
    String (b64_char (byteZ a / 4)) (String (b64_char (byteZ a mod 4 * 16))
      (String pad (String pad "")))
  | String a (String b EmptyString) =>
    String (b64_char (byteZ a / 4)) (String (b64_char (byteZ a mod 4 * 16 + byteZ b / 16))
      (String (b64_char (byteZ b mod 16 * 4)) (String pad "")))
  | String a (String b (String c s')) =>
    String (b64_char (byteZ a / 4)) (String (b64_char (byteZ a mod 4 * 16 + byteZ b / 16))
      (String (b64_char (byteZ b mod 16 * 4 + byteZ c / 64))
        (String (b64_char (byteZ c mod 64)) (b64_encode s'))))
  end.

Definition is_line_end (c : ascii) : bool := (byteZ c =? 10) || (byteZ c =? 13).

Fixpoint drop_line_ends (s : string) : string :=
  match s with
  | EmptyString => ""
  | String c s' => if is_line_end c then drop_line_ends s' else String c (drop_line_ends s')
  end.

(** The bytes of the first one, two or three of a quantum's 6-bit values. *)
Definition byte1 (x y : Z) : ascii := byte_of_Z (x * 4 + y / 16).
Definition byte2 (y z : Z) : ascii := byte_of_Z (y mod 16 * 16 + z / 4).
Definition byte3 (z v : Z) : ascii := byte_of_Z (z mod 4 * 64 + v).

(** Quanta of four characters; padding only in the last one. *)
Fixpoint b64_quanta (s : string) : option string :=
  match s with
  | EmptyString => Some ""
  | String a (String b (String c (String d s'))) =>
    match b64_value a, b64_value b with
    | Some x, Some y =>
      match b64_value c with
      | Some z =>
        match b64_value d with
        | Some v => (fun rest => String (byte1 x y) (String (byte2 y z) (String (byte3 z v) rest)))
                      <$> b64_quanta s'
        | None => if Ascii.eqb d pad && String.eqb s' ""
                  then Some (String (byte1 x y) (String (byte2 y z) "")) else None
        end
      | None => if Ascii.eqb c pad && Ascii.eqb d pad && String.eqb s' ""
                then Some (String (byte1 x y) "") else None
      end
    | _, _ => None
    end
  | _ => None
  end.

Definition b64_decode (s : string) : option string := b64_quanta (drop_line_ends s).

(** ** Splitting at a byte *)

Definition contains_byte (c : ascii) : string -> bool :=
  fix go s := match s with
              | EmptyString => false
              | String d s' => Ascii.eqb d c || go s'
              end.

Lemma split_byte_none (sep : ascii) (s : string) :
  contains_byte sep s = false -> split_byte sep s = [s].
Proof.
  induction s as [|c s IH]; [done|]. cbn. intros [H1 H2]%orb_false_iff.
  by rewrite H1, IH.
Qed.

Lemma split_byte_app (sep : ascii) (s t : string) :
  contains_byte sep s = false -> split_byte sep (s +:+ String sep t) = s :: split_byte sep t.
Proof.
  induction s as [|c s IH].
  - intros _. rewrite append_nil_l. cbn. by rewrite Ascii.eqb_refl.
  - rewrite append_cons. cbn. intros [H1 H2]%orb_false_iff. by rewrite H1, IH.
Qed.

Lemma contains_byte_app (c : ascii) (s t : string) :
  contains_byte c (s +:+ t) = contains_byte c s || contains_byte c t.
Proof.
  induction s as [|d s IH]; [done|]. rewrite append_cons. cbn. by rewrite IH, orb_assoc.
Qed.

(** ** The decimal round trip *)

Lemma byteZ_range (c : ascii) : 0 <= byteZ c < 256.
Proof. unfold byteZ. pose proof (N_ascii_bounded c). lia. Qed.

Lemma byteZ_of_Z (n : Z) : 0 <= n < 256 -> byteZ (byte_of_Z n) = n.
Proof.
  intros H. unfold byteZ, byte_of_Z. rewrite N_ascii_embedding; lia.
Qed.

Lemma byte_of_byteZ (c : ascii) : byte_of_Z (byteZ c) = c.
Proof. unfold byteZ, byte_of_Z. rewrite N2Z.id. apply ascii_N_embedding. Qed.

Lemma digit_pretty (x : N) : (x < 10)%N -> digit (pretty_N_char x) = Some (Z.of_N x).
Proof.
  intros H. destruct x as [|p]; [done|].
  do 4 (try destruct p as [p|p|]; try done); lia.
Qed.

Lemma digits_pretty (x : N) (acc : Z) (s : string) :
  exists k : Z, 0 <= k /\
  digits acc (pretty_N_go x s) = digits (acc * 10 ^ k + Z.of_N x) s.
Proof.
  revert acc s. induction x as [x IH] using (well_founded_ind N.lt_wf_0). intros acc s.
  destruct (decide (0 < x)%N) as [Hx|Hx].
  - rewrite pretty_N_go_step by done.
    destruct (IH (x / 10)%N ltac:(apply N.div_lt; lia) acc
                (String (pretty_N_char (x mod 10)) s)) as (k & Hk & ->).
    exists (k + 1). split; [lia|]. cbn [digits].
    rewrite digit_pretty by (apply N.mod_lt; lia). f_equal.
    rewrite Z.pow_add_r, Z.pow_1_r by lia.
    pose proof (N.div_mod x 10 ltac:(lia)). lia.
  - assert (x = 0%N) as -> by lia. exists 0. split; [lia|].
    rewrite pretty_N_go_0. f_equal. lia.
Qed.

Lemma digits_pretty_N (x : N) : digits 0 (pretty x) = Some (Z.of_N x).
Proof.
  unfold pretty, pretty_N. case_decide as H; [by rewrite H|].
  destruct (digits_pretty x 0 "") as (k & _ & ->). done.
Qed.


Lemma pretty_N_no_sign (x : N) : exists c s,
  pretty x = String c s /\ Ascii.eqb c "-" = false /\ Ascii.eqb c "+" = false.
Proof.
  pose proof (digits_pretty_N x) as H. destruct (pretty x) as [|c s] eqn:E.
  - unfold pretty, pretty_N in E. case_decide; [done|]. exfalso.
    cbn in H. injection H as H. destruct x; [done|lia].
  - exists c, s. split; [done|]. cbn in H. unfold digit in H.
    destruct (Ascii.eqb_spec c "-") as [->|]; [done|].
    by destruct (Ascii.eqb_spec c "+") as [->|].
Qed.

(** [Atoi] reads back what the decimal printer writes. *)
Lemma Atoi_pretty (z : Z) : int64_range z -> Atoi (pretty z) = Some z.
Proof.
  intros Hz. assert (Hin : in_range min_int64 max_int64 z = true).
  { unfold in_range. apply andb_true_iff. rewrite !Z.leb_le. exact Hz. }
  destruct (decide (0 <= z)) as [Hpos|Hneg].
  - assert (Hp : pretty z = pretty (Z.to_N z)) by (destruct z; [done|done|lia]).
    destruct (pretty_N_no_sign (Z.to_N z)) as (c & s & Hs & H1 & H2).
    rewrite Hp. unfold Atoi. rewrite Hs, H1, H2. cbn [String.eqb].
    rewrite <- Hs, digits_pretty_N, Z2N.id by done. by rewrite Hin.
  - assert (Hp : pretty z = String "-" (pretty (Z.to_N (- z)))) by (destruct z; [lia|lia|done]).
    destruct (pretty_N_no_sign (Z.to_N (- z))) as (c & s & Hs & _).
    rewrite Hp. unfold Atoi. rewrite Hs. cbn [Ascii.eqb Bool.eqb String.eqb].
    rewrite <- Hs, digits_pretty_N, Z2N.id by lia.
    by rewrite Z.opp_involutive, Hin.
Qed.

Lemma digit_bytes (c : ascii) (d : Z) : digit c = Some d -> 48 <= byteZ c <= 57.
Proof. unfold digit, in_range. split_ifs. intros _. bool_to_prop. lia. Qed.

(** The printed form has digits and a sign only. *)
Lemma pretty_no_byte (c : ascii) (z : Z) :
  57 < byteZ c \/ byteZ c < 45 -> contains_byte c (pretty z) = false.
Proof.
  intros Hc.
  assert (Hd : forall s acc n, digits acc s = Some n -> contains_byte c s = false).
  { induction s as [|d s IH]; [done|]. cbn. intros acc n H.
    destruct (digit d) as [v|] eqn:E; [|done]. apply digit_bytes in E.
    rewrite (IH _ _ H), orb_false_r. apply Ascii.eqb_neq. intros ->. lia. }
  pose proof (fun x => Hd _ _ _ (digits_pretty_N x)) as HN.
  destruct z as [|p|p]; [apply (HN 0%N)|apply (HN (Npos p))|].
  change (Ascii.eqb "-" c || contains_byte c (pretty (Npos p)) = false).
  rewrite HN, orb_false_r. apply Ascii.eqb_neq. intros <-. change (byteZ "-") with 45 in Hc. lia.
Qed.

(** ** The base64 round trip *)

Ltac by_cases_Z :=
  repeat match goal with
  | |- context [Z.ltb ?a ?b] => destruct (Z.ltb_spec a b)
  | |- context [Z.leb ?a ?b] => destruct (Z.leb_spec a b)
  | |- context [Z.eqb ?a ?b] => destruct (Z.eqb_spec a b)
  end; cbn [andb]; try (f_equal; lia); try lia.

Lemma b64_value_char (n : Z) : 0 <= n < 64 -> b64_value (b64_char n) = Some n.
Proof.
  intros H. unfold b64_value, b64_char, in_range.
  rewrite byteZ_of_Z by by_cases_Z. by_cases_Z.
Qed.

Lemma b64_char_bytes (n : Z) : 0 <= n < 64 -> 43 <= byteZ (b64_char n) <= 122 /\
  byteZ (b64_char n) <> 58 /\ byteZ (b64_char n) <> 61.
Proof. intros H. unfold b64_char. rewrite byteZ_of_Z by by_cases_Z. by_cases_Z. Qed.

Lemma byte_of_Z_eq (c : ascii) (n : Z) : n = byteZ c -> byte_of_Z n = c.
Proof. intros ->. apply byte_of_byteZ. Qed.

(** Induction over the input three bytes at a time, as the encoder goes. *)
Lemma string_ind3 (P : string -> Prop) :
  P "" -> (forall a, P (String a "")) -> (forall a b, P (String a (String b ""))) ->
  (forall a b c s, P s -> P (String a (String b (String c s)))) -> forall s, P s.
Proof.
  intros H0 H1 H2 H3. fix IH 1. intros [|a [|b [|c s]]]; [done|apply H1|apply H2|apply H3, IH].
Qed.

(** Every byte of an encoding is in the alphabet or padding. *)
Lemma b64_encode_bytes (s : string) (c : ascii) :
  contains_byte c (b64_encode s) = true -> c = pad \/ exists n, 0 <= n < 64 /\ c = b64_char n.
Proof.
  assert (Hstep : forall n t, 0 <= n < 64 ->
    (contains_byte c t = true -> c = pad \/ exists n, 0 <= n < 64 /\ c = b64_char n) ->
    contains_byte c (String (b64_char n) t) = true -> c = pad \/ exists n, 0 <= n < 64 /\ c = b64_char n).
  { intros n t Hn Ht [<-%Ascii.eqb_eq|H]%orb_true_iff; eauto. }
  assert (Hpad : forall t, (contains_byte c t = true -> c = pad \/ exists n, 0 <= n < 64 /\ c = b64_char n) ->
    contains_byte c (String pad t) = true -> c = pad \/ exists n, 0 <= n < 64 /\ c = b64_char n).
  { intros t Ht [<-%Ascii.eqb_eq|H]%orb_true_iff; eauto. }
  induction s as [|a|a b|a b d s IH] using string_ind3; [done|..]; cbn [b64_encode];
    pose proof (byteZ_range a); try pose proof (byteZ_range b); try pose proof (byteZ_range d);
    repeat (apply Hstep; [Z.div_mod_to_equations; lia|]); try (do 2 apply Hpad; done);
    try (apply Hpad; done); done.
Qed.

Lemma drop_line_ends_id (s : string) :
  (forall c, contains_byte c s = true -> is_line_end c = false) -> drop_line_ends s = s.
Proof.
  induction s as [|c s IH]; [done|]. intros H. cbn. rewrite (H c).
  - f_equal. apply IH. intros d Hd. apply H. cbn. by rewrite Hd, orb_true_r.
  - cbn. by rewrite Ascii.eqb_refl.
Qed.

Lemma b64_quanta_encode (s : string) : b64_quanta (b64_encode s) = Some s.
Proof.
  induction s as [|a|a b|a b c s IH] using string_ind3; [done|..]; cbn [b64_encode b64_quanta];
    pose proof (byteZ_range a); try pose proof (byteZ_range b); try pose proof (byteZ_range c);
    rewrite !b64_value_char by (Z.div_mod_to_equations; lia); cbn; try rewrite IH;
    cbn; repeat f_equal; apply byte_of_Z_eq; Z.div_mod_to_equations; lia.
Qed.

Lemma b64_roundtrip (s : string) : b64_decode (b64_encode s) = Some s.
Proof.
  unfold b64_decode. rewrite drop_line_ends_id; [apply b64_quanta_encode|].
  intros c [->|(n & Hn & ->)]%b64_encode_bytes; [done|].
  pose proof (b64_char_bytes n Hn). unfold is_line_end. by_cases_Z.
Qed.

(** An encoding never holds one of the separators of a stored secret. *)
Lemma b64_encode_no_byte (c : ascii) (s : string) :
  byteZ c = 58 \/ byteZ c < 43 -> contains_byte c (b64_encode s) = false.
Proof.
  intros Hc. destruct (contains_byte _ _) eqn:E; [|done].
  apply b64_encode_bytes in E as [->|(n & Hn & ->)]; [change (byteZ pad) with 61 in Hc; lia|].
  pose proof (b64_char_bytes n Hn). lia.
Qed.
