(* ===== verification/Types.v ===== *)
(** * Types: errors, configuration records and the interfaces between components
    (internal/server/types/types.go, config/node_config.go)

    Connections and pool managers live outside the program (pgx, pgxpool): the
    model names them by handles. *)

From stdpp Require Import base gmap strings list.
From Stdlib Require Import ZArith Lia.
From S2P Require Import Prelude.

Local Open Scope string_scope.

(** ** Errors

    An error is a [ProxyError] with its SQLSTATE code, or any other error; both
    may wrap a cause. *)

Inductive error :=
| ProxyError (Code Message : string) (Cause : option error)
| OtherError (Message : string) (Cause : option error).

Definition Error (e : error) : string :=
  match e with ProxyError _ m _ => m | OtherError m _ => m end.

Definition Unwrap (e : error) : option error :=
  match e with ProxyError _ _ c => c | OtherError _ c => c end.

(** [errors.As] with a [*ProxyError] target: the first one in the chain. *)
Fixpoint as_proxy_error (e : error) : option string :=
  match e with
  | ProxyError code _ _ => Some code
  | OtherError _ (Some c) => as_proxy_error c
  | OtherError _ None => None
  end.

Definition CodeFromErr (e : error) (defaultCode : string) : string :=
  match as_proxy_error e with Some code => code | None => defaultCode end.

Definition ErrAuthFailed : error := ProxyError "28P01" "invalid password" None.
Definition ErrPoolExhausted : error := ProxyError "53300" "connection pool exhausted" None.

Inductive AuthMethod := AuthPlain | AuthMD5 | AuthScramSHA256.
#[export] Instance AuthMethod_eq_dec : EqDecision AuthMethod.
Proof. solve_decision. Defined.

(** ** Handles and pool statistics *)

Definition Conn : Type := nat.
Definition Manager : Type := nat.

Record PoolStats := MkPoolStats {
  TotalConns : Z; AcquiredConns : Z; IdleConns : Z; MaxConns : Z
}.

Record UpstreamLease := MkUpstreamLease {
  lease_Client : Conn; lease_NodeID : string; lease_Role : string
}.

(** ** Node configuration *)

Record NodeConnectionConfig := MkNodeConnectionConfig {
  User : string; Password : string; Database : string;
  ConnectTimeoutSeconds : Z; SSLMode : string
}.

Record NodePoolConfig := MkNodePoolConfig {
  MinConns : Z; PoolMaxConns : Z; MaxConnLifetime : Z; MaxConnIdleTime : Z;
  HealthCheckPeriod : Z; AcquireTimeoutSeconds : Z
}.

Record NodeConfig := MkNodeConfig {
  nc_ID : string; nc_Host : string; nc_Port : Z; nc_DeclaredRole : string;
  nc_Connection : NodeConnectionConfig; nc_Pool : NodePoolConfig
}.

Record ProbeConfig := MkProbeConfig {
  IntervalMs : Z; LivenessFailureCount : Z; LivenessMaxAgeMs : Z;
  RoleMaxAgeMs : Z; LagMaxAgeMs : Z
}.

Definition DefaultProbeConfig : ProbeConfig := MkProbeConfig 1000 3 5000 5000 2000.

(** One listening port (config/port_config.go). *)
Record PortConfig := MkPortConfig {
  pc_ListenAddr : string; pc_PoolMode : string; pc_SSLMode : string; pc_SSLCert : string;
  pc_SSLKey : string; pc_PostWriteWindowMs : Z; pc_AutoUpgrade : bool
}.

Inductive PoolMode := PoolModeSession | PoolModeTransaction.
#[export] Instance PoolMode_eq_dec : EqDecision PoolMode.
Proof. solve_decision. Defined.

Definition PoolMode_string (m : PoolMode) : string :=
  match m with PoolModeSession => "session" | PoolModeTransaction => "transaction" end.

Definition PoolModeFromString (s : string) : option PoolMode :=
  if String.eqb s "" then Some PoolModeSession
  else if String.eqb s "session" then Some PoolModeSession
  else if String.eqb s "transaction" then Some PoolModeTransaction
  else None.

(** ** The probe's sink

    What a probe may tell its sink (probe.Sink), as an interface over the
    sink's state [T]; the topology implements it. *)

Inductive ProbeLiveness := PLivenessUnknown | PLivenessUp | PLivenessDegraded | PLivenessDown.
Inductive ProbeRole := PRoleUnknown | PRolePrimary | PRoleReplica.
#[export] Instance ProbeLiveness_eq_dec : EqDecision ProbeLiveness.
Proof. solve_decision. Defined.
#[export] Instance ProbeRole_eq_dec : EqDecision ProbeRole.
Proof. solve_decision. Defined.

Class Sink (T : Type) := {
  sink_UpdateLiveness : Time -> string -> ProbeLiveness -> option error -> T -> T;
  sink_UpdateObservedRole : string -> ProbeRole -> T -> T;
  sink_UpdateSystemID : string -> string -> T -> option error * T;
  sink_UpdateLag : string -> Z -> Time -> T -> T;
  sink_MarkLagIdle : string -> Time -> T -> T;
  sink_MarkLagUnknown : string -> option error -> Time -> T -> T
}.

(** ** Lemmas *)

Lemma PoolMode_roundtrip (m : PoolMode) : PoolModeFromString (PoolMode_string m) = Some m.
Proof. by destruct m. Qed.
