(* ===== verification/Config.v ===== *)
(** * Config: the configuration, its defaults and its validation (config/)

    [Validate] collects its complaints in a list; a complaint is the setting it
    is about and what is wrong with it, in place of the text.  The level parser
    of the logging library is a parameter. *)

From stdpp Require Import base gmap list strings pretty.
From Stdlib Require Import ZArith Lia Ascii.
From S2P Require Import Prelude GoStrings Types.

Local Open Scope string_scope.
Local Open Scope Z_scope.
Local Open Scope list_scope.

(** ** Records *)

Record AdminMetricsConfig := MkAdminMetricsConfig {
  am_ListenAddr : string; am_AuthRequired : bool; am_TLSEnabled : bool
}.

Record AdminConfig := MkAdminConfig {
  ad_ListenAddr : string; ad_TLSEnabled : bool; ad_TLSCertFile : string; ad_TLSKeyFile : string;
  ad_Metrics : AdminMetricsConfig
}.
#[export] Instance AdminConfig_eta : Eta AdminConfig := fun a =>
  MkAdminConfig (ad_ListenAddr a) (ad_TLSEnabled a) (ad_TLSCertFile a) (ad_TLSKeyFile a) (ad_Metrics a).

Definition DefaultAdminConfig : AdminConfig :=
  MkAdminConfig "127.0.0.1:5712" false "" "" (MkAdminMetricsConfig "" false false).

Record AdminTokenEntry := MkAdminTokenEntry { te_Role : string }.

Record AuthConfig := MkAuthConfig { au_Method : string; au_Username : string; au_Password : string }.
Record LoggingConfig := MkLoggingConfig { lg_Level : string; lg_Development : bool }.
Record TelemetryConfig := MkTelemetryConfig { ot_Endpoint : string; ot_Insecure : bool; ot_ServiceName : string }.

Record DecisionsConfig := MkDecisionsConfig { dc_MaxSubscribers : Z; dc_PerSubscriberBuffer : Z }.
#[export] Instance DecisionsConfig_eta : Eta DecisionsConfig := fun d =>
  MkDecisionsConfig (dc_MaxSubscribers d) (dc_PerSubscriberBuffer d).

Definition DefaultDecisionsConfig : DecisionsConfig := MkDecisionsConfig 64 256.

(** A value of a policy's parameter table, as the configuration reader yields it. *)
Inductive ParamValue := PFloat (num : Z) (den : positive) | PInt (n : Z) | POther.

Record PolicyConfig := MkPolicyConfig {
  po_Name : string; po_Template : string; po_Scope : string; po_Parameters : gmap string ParamValue;
  po_DwellMs : Z; po_ReleaseMs : Z
}.

Record ServerConfig := MkServerConfig {
  Admin : AdminConfig;
  MaxSessions : Z;
  ClientIdleTimeout : Z;
  KeepAliveTimeout : Z;
  KeepAliveInterval : Z;
  KeepAliveCount : Z;
  StartupProbeTimeoutSeconds : Z;
  Ports : gmap string PortConfig;
  PprofAddr : string;
  AdminTokens : gmap string AdminTokenEntry;
  Decisions_ : DecisionsConfig;
  AdminAddr : string;
  ListenAddr : string;
  sc_PoolMode : option PoolMode; (* derived; the zero value is the empty string *)
  sc_SSLMode : string;
  sc_SSLCert : string;
  sc_SSLKey : string
}.
#[export] Instance ServerConfig_eta : Eta ServerConfig := fun s =>
  MkServerConfig (Admin s) (MaxSessions s) (ClientIdleTimeout s) (KeepAliveTimeout s) (KeepAliveInterval s)
    (KeepAliveCount s) (StartupProbeTimeoutSeconds s) (Ports s) (PprofAddr s) (AdminTokens s) (Decisions_ s)
    (AdminAddr s) (ListenAddr s) (sc_PoolMode s) (sc_SSLMode s) (sc_SSLCert s) (sc_SSLKey s).

Record Config := MkConfig {
  Server : ServerConfig;
  Nodes_ : list NodeConfig;
  ProbeConfig_ : ProbeConfig;
  Logging : LoggingConfig;
  Telemetry : TelemetryConfig;
  Auth : AuthConfig;
  Policies : list PolicyConfig
}.
#[export] Instance Config_eta : Eta Config := fun c =>
  MkConfig (Server c) (Nodes_ c) (ProbeConfig_ c) (Logging c) (Telemetry c) (Auth c) (Policies c).

(** ** Normalisation *)

Definition GetWritePort (s : ServerConfig) : option PortConfig := Ports s !! "write".

Definition GetWritePoolMode (s : ServerConfig) : PoolMode :=
  match GetWritePort s with
  | Some port => default PoolModeSession (PoolModeFromString (pc_PoolMode port))
  | None => PoolModeSession
  end.

(** The write port's settings, copied into the legacy fields. *)
Definition derive_legacy (s : ServerConfig) : ServerConfig :=
  match GetWritePort s with
  | Some write =>
    s <| ListenAddr := pc_ListenAddr write |> <| sc_SSLMode := pc_SSLMode write |>
      <| sc_SSLCert := pc_SSLCert write |> <| sc_SSLKey := pc_SSLKey write |>
      <| sc_PoolMode := Some (GetWritePoolMode s) |>
  | None => s
  end.

Definition default_decisions (d : DecisionsConfig) : DecisionsConfig :=
  let d := if dc_MaxSubscribers d =? 0 then d <| dc_MaxSubscribers := 64 |> else d in
  if dc_PerSubscriberBuffer d =? 0 then d <| dc_PerSubscriberBuffer := 256 |> else d.

Definition migrate_admin (s : ServerConfig) : ServerConfig :=
  if String.eqb (ad_ListenAddr (Admin s)) "" && negb (String.eqb (AdminAddr s) "") then
    s <| Admin ::= fun a => a <| ad_ListenAddr := AdminAddr s |> |>
  else if String.eqb (ad_ListenAddr (Admin s)) "" then
    s <| Admin ::= fun a => a <| ad_ListenAddr := ad_ListenAddr DefaultAdminConfig |> |>
  else s.

Definition normalize_server (s : ServerConfig) : ServerConfig :=
  migrate_admin ((derive_legacy s) <| Decisions_ ::= default_decisions |>).

Definition Normalize (c : Config) : Config := c <| Server ::= normalize_server |>.

Definition defaultConfig : Config :=
  MkConfig
    (MkServerConfig DefaultAdminConfig 1000 300 15 15 9 10
       {[ "write" := MkPortConfig "127.0.0.1:5711" "session" "never" "" "" 0 false ]}
       "" ∅ (MkDecisionsConfig 0 0) "127.0.0.1:5712" "" None "" "" "")
    [MkNodeConfig "primary-1" "localhost" 5432 "primary"
       (MkNodeConnectionConfig "postgres" "postgres" "postgres" 5 "disable")
       (MkNodePoolConfig 2 10 3600 1800 60 0)]
    DefaultProbeConfig (MkLoggingConfig "info" true) (MkTelemetryConfig "" false "grunyas")
    (MkAuthConfig "md5" "postgres" "postgres") [].

Definition Default : Config := Normalize defaultConfig.

(** ** net.SplitHostPort *)

Fixpoint last_index_byte (c : ascii) (s : string) : option nat :=
  match s with
  | "" => None
  | String a s' =>
    match last_index_byte c s' with
    | Some i => Some (S i)
    | None => if Ascii.eqb a c then Some 0%nat else None
    end
  end.

Definition index_byte (c : ascii) (s : string) : option nat := Index s (String c "").
Definition has_byte (c : ascii) (s : string) : bool := bool_decide (is_Some (index_byte c s)).

(** The part common to both forms: no bracket is left over; [j] and [k] are
    where one could still be. *)
Definition split_checked (hostport host : string) (i j k : nat) : option (string * string) :=
  if has_byte "["%char (sdrop j hostport) then None
  else if has_byte "]"%char (sdrop k hostport) then None
  else Some (host, sdrop (i + 1) hostport).

Definition SplitHostPort (hostport : string) : option (string * string) :=
  i ← last_index_byte ":"%char hostport;
  if HasPrefix hostport "[" then
    e ← index_byte "]"%char hostport;
    if (e + 1 =? i)%nat then split_checked hostport (sdrop 1 (stake e hostport)) i 1 (e + 1)
    else None
  else
    let host := stake i hostport in
    if has_byte ":"%char host then None else split_checked hostport host i 0 0.

(** ** Validation *)

Inductive Setting :=
| AtTop (field : string)
| AtPort (portID field : string)
| AtNode (i : nat) (field : string)
| AtPolicy (i : nat) (field : string).

Inductive Problem := Required | Malformed | Duplicate | OutOfRange | NotOneOf | NotExactlyOne (got : Z).

Definition Complaint : Type := Setting * Problem.

Definition complain (b : bool) (s : Setting) (p : Problem) : list Complaint := if b then [(s, p)] else [].

Definition empty (s : string) : bool := String.eqb s "".
Definition one_of (s : string) (l : list string) : bool := bool_decide (s ∈ l).

Definition validateHostPort (field : Setting) (value : string) : list Complaint :=
  if empty value then [(field, Required)]
  else match SplitHostPort value with None => [(field, Malformed)] | Some _ => [] end.

Definition isValidNodeScope (scope : string) : bool :=
  (5 <? String.length scope)%nat && String.eqb (stake 5 scope) "node:".

Definition validate_general (parse_level : string -> bool) (c : Config) : list Complaint :=
  let s := Server c in
  complain (negb (parse_level (lg_Level (Logging c)))) (AtTop "logging.level") Malformed ++
  (if empty (ot_Endpoint (Telemetry c)) then []
   else complain (bool_decide (SplitHostPort (ot_Endpoint (Telemetry c)) = None)) (AtTop "telemetry.otlp_endpoint") Malformed) ++
  complain (negb (one_of (ToLower (au_Method (Auth c))) ["plain"; "md5"; "scram-sha-256"])) (AtTop "auth.method") NotOneOf ++
  complain (empty (au_Username (Auth c))) (AtTop "auth.username") Required ++
  complain (empty (au_Password (Auth c))) (AtTop "auth.password") Required ++
  validateHostPort (AtTop "server.admin.listen_addr") (ad_ListenAddr (Admin s)) ++
  (if ad_TLSEnabled (Admin s) then
     complain (empty (ad_TLSCertFile (Admin s))) (AtTop "server.admin.tls_cert_file") Required ++
     complain (empty (ad_TLSKeyFile (Admin s))) (AtTop "server.admin.tls_key_file") Required
   else []) ++
  complain (MaxSessions s <? 0) (AtTop "server.max_sessions") OutOfRange ++
  complain (ClientIdleTimeout s <? 0) (AtTop "server.client_idle_timeout") OutOfRange ++
  complain (KeepAliveTimeout s <? 0) (AtTop "server.keep_alive_timeout") OutOfRange ++
  complain (KeepAliveInterval s <? 0) (AtTop "server.keep_alive_interval") OutOfRange ++
  complain (KeepAliveCount s <? 0) (AtTop "server.keep_alive_count") OutOfRange ++
  complain (StartupProbeTimeoutSeconds s <? 0) (AtTop "server.startup_probe_timeout_seconds") OutOfRange.

Definition validate_port (portID : string) (port : PortConfig) : list Complaint :=
  validateHostPort (AtPort portID "listen_addr") (pc_ListenAddr port) ++
  complain (bool_decide (PoolModeFromString (pc_PoolMode port) = None)) (AtPort portID "pool_mode") NotOneOf ++
  (if one_of (ToLower (pc_SSLMode port)) [""; "never"] then []
   else if one_of (ToLower (pc_SSLMode port)) ["optional"; "mandatory"] then
     complain (empty (pc_SSLCert port)) (AtPort portID "ssl_cert") Required ++
     complain (empty (pc_SSLKey port)) (AtPort portID "ssl_key") Required
   else [(AtPort portID "ssl_mode", NotOneOf)]).

Definition validate_ports (ord : list string) (ports : gmap string PortConfig) : list Complaint :=
  complain (bool_decide (ports = ∅)) (AtTop "server.ports") Required ++
  complain (bool_decide (ports !! "write" = None)) (AtTop "server.ports.write") Required ++
  concat ((fun '(portID, port) => validate_port portID port) <$> visit ports ord).

(** What the node loop remembers. *)
Record NodeScan := MkNodeScan { seenIDs : gset string; seenHostPorts : gset string; primaryCount : Z }.

Definition hostPort (n : NodeConfig) : string := nc_Host n +:+ ":" +:+ pretty (nc_Port n).

Definition url_safe (r : rune) : bool := in_range 97 122 r || in_range 48 57 r || (r =? 45).

Definition validate_node_id (i : nat) (n : NodeConfig) (seen : gset string) : list Complaint * gset string :=
  if empty (nc_ID n) then ([(AtNode i "id", Required)], seen)
  else if bool_decide (nc_ID n ∈ seen) then ([(AtNode i "id", Duplicate)], seen)
  else (complain (bool_decide (is_Some (IndexFunc (nc_ID n) (fun r => negb (url_safe r))))) (AtNode i "id") Malformed,
        {[ nc_ID n ]} ∪ seen).

Definition validate_node_settings (i : nat) (n : NodeConfig) : list Complaint :=
  let cn := nc_Connection n in
  let pl := nc_Pool n in
  complain (empty (User cn)) (AtNode i "connection.user") Required ++
  complain (empty (Database cn)) (AtNode i "connection.database") Required ++
  complain (ConnectTimeoutSeconds cn <? 0) (AtNode i "connection.connect_timeout_seconds") OutOfRange ++
  complain (negb (one_of (SSLMode cn) [""; "disable"])) (AtNode i "connection.ssl_mode") NotOneOf ++
  complain (MinConns pl <? 0) (AtNode i "pool.min_conns") OutOfRange ++
  complain (PoolMaxConns pl <=? 0) (AtNode i "pool.max_conns") OutOfRange ++
  complain (PoolMaxConns pl <? MinConns pl) (AtNode i "pool.min_conns") OutOfRange ++
  complain (MaxConnLifetime pl <? 0) (AtNode i "pool.max_conn_lifetime") OutOfRange ++
  complain (MaxConnIdleTime pl <? 0) (AtNode i "pool.max_conn_idle_time") OutOfRange ++
  complain (HealthCheckPeriod pl <? 0) (AtNode i "pool.health_check_period") OutOfRange.

Definition validate_node (i : nat) (n : NodeConfig) (scan : NodeScan) : list Complaint * NodeScan :=
  let '(ids, seen) := validate_node_id i n (seenIDs scan) in
  let role := ToLower (nc_DeclaredRole n) in
  (ids ++
   complain (empty (nc_Host n)) (AtNode i "host") Required ++
   complain ((nc_Port n <=? 0) || (65535 <? nc_Port n)) (AtNode i "port") OutOfRange ++
   complain (bool_decide (hostPort n ∈ seenHostPorts scan)) (AtNode i "host:port") Duplicate ++
   complain (negb (one_of role ["primary"; "replica"])) (AtNode i "declared_role") NotOneOf ++
   validate_node_settings i n,
   MkNodeScan seen ({[ hostPort n ]} ∪ seenHostPorts scan)
     (primaryCount scan + if String.eqb role "primary" then 1 else 0)).

Fixpoint validate_nodes_from (i : nat) (ns : list NodeConfig) (scan : NodeScan) : list Complaint * NodeScan :=
  match ns with
  | [] => ([], scan)
  | n :: rest =>
    let '(e1, scan) := validate_node i n scan in
    let '(e2, scan) := validate_nodes_from (S i) rest scan in (e1 ++ e2, scan)
  end.

Definition validate_nodes (ns : list NodeConfig) : list Complaint :=
  let '(errs, scan) := validate_nodes_from 0 ns (MkNodeScan ∅ ∅ 0) in
  complain (bool_decide (ns = [])) (AtTop "nodes") Required ++ errs ++
  complain (negb (primaryCount scan =? 1)) (AtTop "nodes.declared_role") (NotExactlyOne (primaryCount scan)).

Definition validate_probe (p : ProbeConfig) : list Complaint :=
  complain (IntervalMs p <? 100) (AtTop "probe.interval_ms") OutOfRange ++
  complain (LivenessFailureCount p <? 0) (AtTop "probe.liveness_failure_count") OutOfRange ++
  complain (LivenessMaxAgeMs p <? 0) (AtTop "probe.liveness_max_age_ms") OutOfRange ++
  complain (RoleMaxAgeMs p <? 0) (AtTop "probe.role_max_age_ms") OutOfRange.

Definition validate_token (e : string * AdminTokenEntry) : list Complaint :=
  complain (empty e.1) (AtTop "server.admin_tokens.tokens") Required ++
  complain (negb (one_of (te_Role e.2) [""; "admin"])) (AtTop "server.admin_tokens.tokens") NotOneOf.

Definition validate_policy (interval : Z) (i : nat) (pol : PolicyConfig) (seen : gset string)
    : list Complaint * gset string :=
  let '(names, seen) :=
    if empty (po_Name pol) then ([(AtPolicy i "name", Required)], seen)
    else if bool_decide (po_Name pol ∈ seen) then ([(AtPolicy i "name", Duplicate)], seen)
    else ([], {[ po_Name pol ]} ∪ seen) in
  (names ++
   (if one_of (po_Template pol) ["health-filter"; "lag-filter"; "pool-saturation-rejection"] then []
    else [(AtPolicy i "template", if empty (po_Template pol) then Required else NotOneOf)]) ++
   complain (negb (one_of (po_Scope pol) ["cluster"; ""]) && negb (isValidNodeScope (po_Scope pol))) (AtPolicy i "scope") Malformed ++
   complain (po_DwellMs pol <? 0) (AtPolicy i "timing.dwell_ms") OutOfRange ++
   complain (po_ReleaseMs pol <? 0) (AtPolicy i "timing.release_ms") OutOfRange ++
   complain ((0 <? po_DwellMs pol) && (po_DwellMs pol <? interval)) (AtPolicy i "timing.dwell_ms") OutOfRange,
   seen).

Fixpoint validate_policies (interval : Z) (i : nat) (ps : list PolicyConfig) (seen : gset string) : list Complaint :=
  match ps with
  | [] => []
  | pol :: rest =>
    let '(errs, seen) := validate_policy interval i pol seen in
    errs ++ validate_policies interval (S i) rest seen
  end.

Definition validate_compat (ports : gmap string PortConfig) : list Complaint :=
  match ports !! "compat" with
  | Some compat => complain (String.eqb (ToLower (pc_PoolMode compat)) "session") (AtPort "compat" "pool_mode") NotOneOf
  | None => []
  end.

(** [ports] and [tokens] are the orders in which Go visits the two maps; no
    complaint means a valid configuration. *)
Definition Validate (parse_level : string -> bool) (ports tokens : list string) (c : Config) : list Complaint :=
  validate_general parse_level c ++
  validate_ports ports (Ports (Server c)) ++
  validate_nodes (Nodes_ c) ++
  validate_probe (ProbeConfig_ c) ++
  concat (validate_token <$> visit (AdminTokens (Server c)) tokens) ++
  validate_policies (IntervalMs (ProbeConfig_ c)) 0 (Policies c) ∅ ++
  validate_compat (Ports (Server c)).

(** ** What a valid configuration is *)

Definition host_port (s : string) : Prop := s <> "" /\ SplitHostPort s <> None.

Record general_ok (parse_level : string -> bool) (c : Config) : Prop := {
  go_level : parse_level (lg_Level (Logging c)) = true;
  go_otlp : ot_Endpoint (Telemetry c) = "" \/ SplitHostPort (ot_Endpoint (Telemetry c)) <> None;
  go_method : ToLower (au_Method (Auth c)) ∈ ["plain"; "md5"; "scram-sha-256"];
  go_user : au_Username (Auth c) <> "";
  go_password : au_Password (Auth c) <> "";
  go_admin : host_port (ad_ListenAddr (Admin (Server c)));
  go_tls : ad_TLSEnabled (Admin (Server c)) = true ->
           ad_TLSCertFile (Admin (Server c)) <> "" /\ ad_TLSKeyFile (Admin (Server c)) <> "";
  go_limits : Forall (fun n => 0 <= n)
    [MaxSessions (Server c); ClientIdleTimeout (Server c); KeepAliveTimeout (Server c);
     KeepAliveInterval (Server c); KeepAliveCount (Server c); StartupProbeTimeoutSeconds (Server c)]
}.

Record port_ok (port : PortConfig) : Prop := {
  pk_addr : host_port (pc_ListenAddr port);
  pk_mode : is_Some (PoolModeFromString (pc_PoolMode port));
  pk_ssl : ToLower (pc_SSLMode port) ∈ [""; "never"] \/
           ToLower (pc_SSLMode port) ∈ ["optional"; "mandatory"] /\ pc_SSLCert port <> "" /\ pc_SSLKey port <> ""
}.

Record node_ok (n : NodeConfig) : Prop := {
  nk_id : nc_ID n <> "" /\ IndexFunc (nc_ID n) (fun r => negb (url_safe r)) = None;
  nk_host : nc_Host n <> "";
  nk_port : 1 <= nc_Port n <= 65535;
  nk_role : ToLower (nc_DeclaredRole n) ∈ ["primary"; "replica"];
  nk_conn : User (nc_Connection n) <> "" /\ Database (nc_Connection n) <> "" /\
            0 <= ConnectTimeoutSeconds (nc_Connection n) /\ SSLMode (nc_Connection n) ∈ [""; "disable"];
  nk_pool : 0 <= MinConns (nc_Pool n) <= PoolMaxConns (nc_Pool n) /\ 0 < PoolMaxConns (nc_Pool n);
  nk_times : Forall (fun n => 0 <= n)
    [MaxConnLifetime (nc_Pool n); MaxConnIdleTime (nc_Pool n); HealthCheckPeriod (nc_Pool n)]
}.

Definition declared_primary (n : NodeConfig) : Prop := ToLower (nc_DeclaredRole n) = "primary".
#[export] Instance declared_primary_dec n : Decision (declared_primary n).
Proof. unfold declared_primary. apply _. Defined.

Record nodes_ok (ns : list NodeConfig) : Prop := {
  ns_each : Forall node_ok ns;
  ns_ids : NoDup (nc_ID <$> ns);
  ns_addrs : NoDup (hostPort <$> ns);
  ns_primary : length (filter declared_primary ns) = 1%nat
}.

Record policy_ok (interval : Z) (pol : PolicyConfig) : Prop := {
  pl_name : po_Name pol <> "";
  pl_template : po_Template pol ∈ ["health-filter"; "lag-filter"; "pool-saturation-rejection"];
  pl_scope : po_Scope pol ∈ ["cluster"; ""] \/ isValidNodeScope (po_Scope pol) = true;
  pl_timing : 0 <= po_DwellMs pol /\ 0 <= po_ReleaseMs pol /\ (po_DwellMs pol = 0 \/ interval <= po_DwellMs pol)
}.

Record valid_config (parse_level : string -> bool) (c : Config) : Prop := {
  vc_general : general_ok parse_level c;
  vc_write : is_Some (Ports (Server c) !! "write");
  vc_ports : map_Forall (fun _ => port_ok) (Ports (Server c));
  vc_nodes : nodes_ok (Nodes_ c);
  vc_probe : 100 <= IntervalMs (ProbeConfig_ c) /\ 0 <= LivenessFailureCount (ProbeConfig_ c) /\
             0 <= LivenessMaxAgeMs (ProbeConfig_ c) /\ 0 <= RoleMaxAgeMs (ProbeConfig_ c);
  vc_tokens : map_Forall (fun token e => token <> "" /\ te_Role e ∈ [""; "admin"]) (AdminTokens (Server c));
  vc_policies : Forall (policy_ok (IntervalMs (ProbeConfig_ c))) (Policies c);
  vc_policy_names : NoDup (po_Name <$> Policies c);
  vc_compat : forall p, Ports (Server c) !! "compat" = Some p -> ToLower (pc_PoolMode p) <> "session"
}.

(** ** Lemmas *)

Lemma complain_nil b s p : complain b s p = [] <-> b = false.
Proof. by destruct b. Qed.

Lemma empty_false s : empty s = false <-> s <> "".
Proof. unfold empty. apply String.eqb_neq. Qed.

Lemma one_of_false s l : negb (one_of s l) = false <-> s ∈ l.
Proof. unfold one_of. by rewrite negb_false_iff, bool_decide_eq_true. Qed.

Lemma validateHostPort_nil f v : validateHostPort f v = [] <-> host_port v.
Proof.
  unfold validateHostPort, host_port, empty. destruct (String.eqb_spec v ""); destruct (SplitHostPort v); naive_solver.
Qed.

Lemma concat_nil {A} (l : list (list A)) : concat l = [] <-> Forall (fun x => x = []) l.
Proof.
  induction l as [|x l IH]; cbn; [by split|]. rewrite app_nil, Forall_cons, IH. done.
Qed.

Lemma if_nil {A} (b : bool) (l : list A) : (if b then l else []) = [] <-> (b = true -> l = []).
Proof. destruct b; naive_solver. Qed.

(** Turns "no complaint" into the tests behind it. *)
Ltac no_complaint :=
  rewrite ?app_nil, ?complain_nil, ?validateHostPort_nil, ?empty_false, ?one_of_false, ?negb_false_iff,
    ?bool_decide_eq_false, ?Z.ltb_ge, ?Z.leb_gt.

Lemma validate_general_nil parse_level c : validate_general parse_level c = [] <-> general_ok parse_level c.
Proof.
  unfold validate_general. no_complaint. rewrite if_nil.
  assert (Hotlp : (if empty (ot_Endpoint (Telemetry c)) then []
     else complain (bool_decide (SplitHostPort (ot_Endpoint (Telemetry c)) = None)) (AtTop "telemetry.otlp_endpoint") Malformed) = []
     <-> ot_Endpoint (Telemetry c) = "" \/ SplitHostPort (ot_Endpoint (Telemetry c)) <> None).
  { unfold empty. destruct (String.eqb_spec (ot_Endpoint (Telemetry c)) ""); [naive_solver|]. no_complaint. naive_solver. }
  rewrite Hotlp. clear Hotlp. no_complaint. split.
  - intros (? & ? & ? & ? & ? & ? & Htls & ? & ? & ? & ? & ? & ?). split; try done.
    repeat apply Forall_cons_2; try apply Forall_nil_2; lia.
  - intros [? ? ? ? ? ? Htls Hlim]. apply Forall_cons in Hlim as [? Hlim]. rewrite !Forall_cons in Hlim.
    naive_solver.
Qed.

Lemma validate_port_nil id port : validate_port id port = [] <-> port_ok port.
Proof.
  unfold validate_port, one_of. rewrite !app_nil. no_complaint.
  destruct (PoolModeFromString (pc_PoolMode port)) eqn:Hm.
  2: { split; [naive_solver|]. intros [_ [m Hs] _]. congruence. }
  destruct (bool_decide_reflect (ToLower (pc_SSLMode port) ∈ [""; "never"])) as [H1|H1].
  { split; [|intros []; done]. intros (? & _ & _). split; [done|by rewrite Hm|by left]. }
  destruct (bool_decide_reflect (ToLower (pc_SSLMode port) ∈ ["optional"; "mandatory"])) as [H2|H2].
  - no_complaint. split.
    + intros (? & _ & ?). split; [done|by rewrite Hm|by right].
    + intros [? _ [?|[_ ?]]]; done.
  - split; [naive_solver|]. intros [_ _ [?|[? _]]]; done.
Qed.

Lemma Forall_visit {V} (P : string -> V -> Prop) (m : gmap string V) ord :
  map_order m ord -> Forall (fun e => P e.1 e.2) (visit m ord) <-> map_Forall P m.
Proof.
  intros Hord. rewrite Forall_forall. split.
  - intros H k v Hk. apply (H (k, v)). by apply visit_elem.
  - intros H [k v] Hk. apply (H k v). by apply (visit_elem m ord).
Qed.

Lemma validate_ports_nil ord ports :
  map_order ports ord ->
  validate_ports ord ports = [] <-> is_Some (ports !! "write") /\ map_Forall (fun _ => port_ok) ports.
Proof.
  intros Hord. unfold validate_ports. rewrite !app_nil. no_complaint. rewrite concat_nil, Forall_fmap.
  rewrite <- (Forall_visit (fun _ => port_ok) ports ord Hord).
  assert (Heach : Forall ((fun x => x = []) ∘ (fun '(portID, port) => validate_port portID port)) (visit ports ord)
    <-> Forall (fun e => port_ok e.2) (visit ports ord)).
  { apply Forall_iff. intros [id port]. apply validate_port_nil. }
  rewrite Heach. rewrite <- not_eq_None_Some. split; [tauto|]. intros [Hw Hall]. split; [|done].
  intros ->. by rewrite lookup_empty in Hw.
Qed.

Lemma validate_node_settings_nil i n :
  validate_node_settings i n = [] <->
  User (nc_Connection n) <> "" /\ Database (nc_Connection n) <> "" /\
  0 <= ConnectTimeoutSeconds (nc_Connection n) /\ SSLMode (nc_Connection n) ∈ [""; "disable"] /\
  0 <= MinConns (nc_Pool n) <= PoolMaxConns (nc_Pool n) /\ 0 < PoolMaxConns (nc_Pool n) /\
  Forall (fun n => 0 <= n) [MaxConnLifetime (nc_Pool n); MaxConnIdleTime (nc_Pool n); HealthCheckPeriod (nc_Pool n)].
Proof. unfold validate_node_settings. no_complaint. rewrite !Forall_cons, Forall_nil. naive_solver lia. Qed.

(** One round of the node loop: nothing is wrong with the node, and neither its
    id nor its address was seen before. *)
Lemma validate_node_nil i n scan :
  (validate_node i n scan).1 = [] <->
  node_ok n /\ nc_ID n ∉ seenIDs scan /\ hostPort n ∉ seenHostPorts scan.
Proof.
  unfold validate_node, validate_node_id, empty.
  destruct (String.eqb_spec (nc_ID n) "") as [He|He].
  { cbn. split; [done|]. intros ([[Hid _] _ _ _ _ _ _] & _). done. }
  destruct (bool_decide_reflect (nc_ID n ∈ seenIDs scan)) as [Hin|Hin].
  { cbn. split; [done|]. naive_solver. }
  cbn [fst]. rewrite !app_nil, validate_node_settings_nil. fold (empty (nc_Host n)). no_complaint. rewrite orb_false_iff. no_complaint.
  rewrite <- eq_None_not_Some. split.
  - intros (Hid & Hh & [] & Hhp & Hr & ?). split; [|done]. split; naive_solver lia.
  - intros ([[_ Hid] ? ? ? ? ? ?] & _ & ?). naive_solver lia.
Qed.

Lemma validate_node_scan i n scan :
  node_ok n -> nc_ID n ∉ seenIDs scan ->
  (validate_node i n scan).2 = MkNodeScan ({[ nc_ID n ]} ∪ seenIDs scan) ({[ hostPort n ]} ∪ seenHostPorts scan)
    (primaryCount scan + if decide (declared_primary n) then 1 else 0).
Proof.
  intros [[Hid _] _ _ _ _ _ _] Hin. unfold validate_node, validate_node_id.
  rewrite (proj2 (empty_false _) Hid), bool_decide_eq_false_2 by done. cbn. f_equal. f_equal.
  unfold declared_primary. case_decide as E; [by rewrite E|]. by apply String.eqb_neq in E as ->.
Qed.

Lemma validate_nodes_from_nil ns : forall i scan,
  (validate_nodes_from i ns scan).1 = [] <->
  Forall node_ok ns /\ NoDup (nc_ID <$> ns) /\ NoDup (hostPort <$> ns) /\
  Forall (fun n => nc_ID n ∉ seenIDs scan /\ hostPort n ∉ seenHostPorts scan) ns.
Proof.
  induction ns as [|n ns IH]; intros i scan; cbn [validate_nodes_from].
  { split; [|done]. intros _. repeat split; try apply Forall_nil_2; apply NoDup_nil_2. }
  destruct (validate_node i n scan) as [e1 scan1] eqn:Hn.
  pose proof (validate_node_nil i n scan) as Hnil. rewrite Hn in Hnil. cbn [fst] in Hnil.
  pose proof (IH (S i) scan1) as Hrest.
  destruct (validate_nodes_from (S i) ns scan1) as [e2 scan2]. cbn [fst] in *.
  rewrite app_nil, Hnil, Hrest, !fmap_cons, !NoDup_cons, !Forall_cons. clear IH Hnil Hrest.
  assert (Hscan : node_ok n -> nc_ID n ∉ seenIDs scan ->
    (Forall (fun m => nc_ID m ∉ seenIDs scan1 /\ hostPort m ∉ seenHostPorts scan1) ns <->
     Forall (fun m => nc_ID m ∉ seenIDs scan /\ hostPort m ∉ seenHostPorts scan) ns /\
     nc_ID n ∉ nc_ID <$> ns /\ hostPort n ∉ hostPort <$> ns)).
  { intros Hok Hid. pose proof (validate_node_scan i n scan Hok Hid) as Hs. rewrite Hn in Hs. cbn [snd] in Hs. subst scan1.
    cbn [seenIDs seenHostPorts]. rewrite !Forall_forall, !list_elem_of_fmap. split.
    - intros H. split; [intros m Hm; specialize (H m Hm); set_solver|].
      split; intros (m & Heq & Hm); specialize (H m Hm); set_solver.
    - intros (H & H1 & H2) m Hm. specialize (H m Hm). set_solver. }
  tauto.
Qed.

Lemma validate_nodes_from_primaries ns : forall i scan,
  (validate_nodes_from i ns scan).1 = [] ->
  primaryCount (validate_nodes_from i ns scan).2 = primaryCount scan + Z.of_nat (length (filter declared_primary ns)).
Proof.
  induction ns as [|n ns IH]; intros i scan; cbn [validate_nodes_from]; [cbn; lia|].
  destruct (validate_node i n scan) as [e1 scan1] eqn:Hn. specialize (IH (S i) scan1).
  destruct (validate_nodes_from (S i) ns scan1) as [e2 scan2]. cbn [fst snd] in *. rewrite app_nil. intros [-> ->].
  rewrite IH by done. pose proof (proj1 (validate_node_nil i n scan)) as Hok. rewrite Hn in Hok. destruct (Hok eq_refl) as (Hk & Hid & _).
  pose proof (validate_node_scan i n scan Hk Hid) as Hs. rewrite Hn in Hs. cbn [snd] in Hs. subst scan1. cbn [primaryCount].
  rewrite filter_cons. case_decide; cbn [length]; lia.
Qed.

Lemma validate_nodes_nil ns : validate_nodes ns = [] <-> nodes_ok ns.
Proof.
  unfold validate_nodes. pose proof (validate_nodes_from_nil ns 0 (MkNodeScan ∅ ∅ 0)) as Hnil.
  pose proof (validate_nodes_from_primaries ns 0 (MkNodeScan ∅ ∅ 0)) as Hprim.
  destruct (validate_nodes_from 0 ns (MkNodeScan ∅ ∅ 0)) as [errs scan]. cbn [fst snd primaryCount seenIDs seenHostPorts] in *.
  rewrite !app_nil. no_complaint. rewrite Z.eqb_eq. split.
  - intros (_ & He & Hc). rewrite Hprim in Hc by done. apply Hnil in He as (? & ? & ? & _). split; try done. lia.
  - intros [H1 H2 H3 H4]. assert (He : errs = []).
    { apply Hnil. split; [done|]. split; [done|]. split; [done|]. apply Forall_forall. set_solver. }
    split; [|split; [done|]]; [by intros ->|]. rewrite Hprim by done. lia.
Qed.

Lemma validate_policy_nil interval i pol seen :
  (validate_policy interval i pol seen).1 = [] <-> policy_ok interval pol /\ po_Name pol ∉ seen.
Proof.
  unfold validate_policy, one_of, empty.
  destruct (String.eqb_spec (po_Name pol) "") as [He|He].
  { cbn. split; [done|]. intros ([Hn _ _ _] & _). done. }
  destruct (bool_decide_reflect (po_Name pol ∈ seen)) as [Hin|Hin].
  { cbn. split; [done|]. naive_solver. }
  cbn [fst app]. destruct (bool_decide_reflect (po_Template pol ∈ ["health-filter"; "lag-filter"; "pool-saturation-rejection"])) as [Ht|Ht].
  2: { cbn. split; [done|]. intros ([_ Ht' _ _] & _). done. }
  rewrite !app_nil, !complain_nil, !andb_false_iff, !negb_false_iff, bool_decide_eq_true, !Z.ltb_ge. split.
  - intros (_ & Hs & Hd & Hr & Hi). split; [|done]. split; try done. lia.
  - intros ([_ _ Hs Hi] & _). repeat split; try done; try tauto; lia.
Qed.

Lemma validate_policy_seen interval i pol seen :
  policy_ok interval pol -> po_Name pol ∉ seen -> (validate_policy interval i pol seen).2 = {[ po_Name pol ]} ∪ seen.
Proof.
  intros [Hn _ _ _] Hs. unfold validate_policy. rewrite (proj2 (empty_false _) Hn). by rewrite bool_decide_eq_false_2.
Qed.

Lemma validate_policies_nil interval ps : forall i seen,
  validate_policies interval i ps seen = [] <->
  Forall (policy_ok interval) ps /\ NoDup (po_Name <$> ps) /\ Forall (fun pol => po_Name pol ∉ seen) ps.
Proof.
  induction ps as [|pol ps IH]; intros i seen; cbn [validate_policies].
  { split; [|done]. intros _. split; [apply Forall_nil_2|]. split; [apply NoDup_nil_2|apply Forall_nil_2]. }
  pose proof (validate_policy_nil interval i pol seen) as Hnil.
  pose proof (validate_policy_seen interval i pol seen) as Hseen.
  destruct (validate_policy interval i pol seen) as [errs seen1]. cbn [fst snd] in *.
  rewrite app_nil, Hnil, IH, fmap_cons, NoDup_cons, !Forall_cons.
  assert (H : policy_ok interval pol -> po_Name pol ∉ seen ->
    (Forall (fun p => po_Name p ∉ seen1) ps <-> Forall (fun p => po_Name p ∉ seen) ps /\ po_Name pol ∉ po_Name <$> ps)).
  { intros Hok Hs. rewrite (Hseen Hok Hs), !Forall_forall, list_elem_of_fmap. split.
    - intros H. split; [intros p Hp; specialize (H p Hp); set_solver|]. intros (p & Heq & Hp). specialize (H p Hp). set_solver.
    - intros (H & H1) p Hp. specialize (H p Hp). set_solver. }
  tauto.
Qed.

Lemma Validate_nil (parse_level : string -> bool) (ports tokens : list string) (c : Config) :
  map_order (Ports (Server c)) ports -> map_order (AdminTokens (Server c)) tokens ->
  Validate parse_level ports tokens c = [] <-> valid_config parse_level c.
Proof.
  intros Hp Ht. unfold Validate. rewrite !app_nil, validate_general_nil, (validate_ports_nil _ _ Hp), validate_nodes_nil,
    validate_policies_nil, concat_nil, Forall_fmap.
  assert (Htok : Forall ((fun x => x = []) ∘ validate_token) (visit (AdminTokens (Server c)) tokens) <->
    map_Forall (fun token e => token <> "" /\ te_Role e ∈ [""; "admin"]) (AdminTokens (Server c))).
  { rewrite <- (Forall_visit _ _ _ Ht). apply Forall_iff. intros [tok e]. unfold compose, validate_token. by no_complaint. }
  assert (Hcompat : validate_compat (Ports (Server c)) = [] <->
    forall p, Ports (Server c) !! "compat" = Some p -> ToLower (pc_PoolMode p) <> "session").
  { unfold validate_compat. destruct (Ports (Server c) !! "compat") as [p|]; [|done].
    rewrite complain_nil, String.eqb_neq. naive_solver. }
  assert (Hprobe : validate_probe (ProbeConfig_ c) = [] <->
    100 <= IntervalMs (ProbeConfig_ c) /\ 0 <= LivenessFailureCount (ProbeConfig_ c) /\
    0 <= LivenessMaxAgeMs (ProbeConfig_ c) /\ 0 <= RoleMaxAgeMs (ProbeConfig_ c))
    by (unfold validate_probe; by no_complaint).
  rewrite Htok, Hcompat, Hprobe. split.
  - intros (? & [? ?] & ? & ? & ? & (? & ? & _) & ?). by split.
  - intros [? ? ? ? ? ? ? ? ?]. do 3 (split; [done|]). split; [done|]. split; [done|]. split; [|done].
    split; [done|]. split; [done|]. apply Forall_forall. set_solver.
Qed.

(** ** Properties *)

(** C31: Validation is exact: whatever the order in which the maps are visited,
    a configuration draws no complaint if and only if it is valid - among
    others, the node ids are distinct and URL-safe, no two nodes share an
    address, exactly one node is declared primary, policy names are distinct
    and a policy's dwell time is not shorter than the probe interval. *)
Theorem Validate_exact (parse_level : string -> bool) (ports tokens : list string) (c : Config) :
  map_order (Ports (Server c)) ports -> map_order (AdminTokens (Server c)) tokens ->
  Validate parse_level ports tokens c = [] <-> valid_config parse_level c.
Proof. apply Validate_nil. Qed.

Definition zap_level (s : string) : bool := one_of s ["debug"; "info"; "warn"; "error"].

Lemma Validate_exact_witness : valid_config zap_level Default.
Proof.
  apply (Validate_exact zap_level ["write"] [] Default).
  - vm_compute. reflexivity.
  - vm_compute. reflexivity.
  - vm_compute. reflexivity.
Defined.

(** The legacy fields repeat the write port. *)
Definition legacy_done (s : ServerConfig) : Prop :=
  forall w, Ports s !! "write" = Some w ->
    ListenAddr s = pc_ListenAddr w /\ sc_SSLMode s = pc_SSLMode w /\ sc_SSLCert s = pc_SSLCert w /\
    sc_SSLKey s = pc_SSLKey w /\ sc_PoolMode s = Some (GetWritePoolMode s).

Lemma derive_legacy_spec s :
  legacy_done (derive_legacy s) /\ Ports (derive_legacy s) = Ports s /\ Decisions_ (derive_legacy s) = Decisions_ s /\
  Admin (derive_legacy s) = Admin s.
Proof.
  unfold derive_legacy, legacy_done, GetWritePort. destruct (Ports s !! "write") as [w|] eqn:Hw.
  - split; [|done]. intros w' Hw'. change (Ports s !! "write" = Some w') in Hw'. simplify_eq. done.
  - split; [|done]. intros w' Hw'. congruence.
Qed.

Lemma derive_legacy_id s : legacy_done s -> derive_legacy s = s.
Proof.
  unfold derive_legacy, legacy_done, GetWritePort. intros H. destruct (Ports s !! "write") as [w|]; [|done].
  destruct (H w eq_refl) as (H1 & H2 & H3 & H4 & H5). rewrite <- H1, <- H2, <- H3, <- H4, <- H5. by destruct s.
Qed.

Lemma default_decisions_spec d :
  dc_MaxSubscribers (default_decisions d) <> 0 /\ dc_PerSubscriberBuffer (default_decisions d) <> 0 /\
  default_decisions (default_decisions d) = default_decisions d.
Proof.
  destruct d as [m b]. unfold default_decisions. cbn [dc_MaxSubscribers].
  destruct (Z.eqb_spec m 0) as [->|Hm%Z.eqb_neq]; cbn; destruct (Z.eqb_spec b 0) as [->|Hb%Z.eqb_neq]; cbn; rewrite ?Hm; cbn;
    rewrite ?Hb; split_and!; try done; by apply Z.eqb_neq.
Qed.

Lemma migrate_admin_spec s :
  ad_ListenAddr (Admin (migrate_admin s)) <> "" /\ (legacy_done s -> legacy_done (migrate_admin s)) /\
  Ports (migrate_admin s) = Ports s /\ Decisions_ (migrate_admin s) = Decisions_ s /\
  (ad_ListenAddr (Admin s) <> "" -> migrate_admin s = s).
Proof.
  unfold migrate_admin. destruct (String.eqb_spec (ad_ListenAddr (Admin s)) "") as [He|Hne]; cbn [andb]; [|done].
  destruct (String.eqb_spec (AdminAddr s) "") as [Ha|Ha]; cbn [negb]; done.
Qed.

Lemma normalize_server_spec s :
  ad_ListenAddr (Admin (normalize_server s)) <> "" /\ legacy_done (normalize_server s) /\
  Ports (normalize_server s) = Ports s /\ Decisions_ (normalize_server s) = default_decisions (Decisions_ s) /\
  (ad_ListenAddr (Admin s) <> "" -> Admin (normalize_server s) = Admin s).
Proof.
  unfold normalize_server. destruct (derive_legacy_spec s) as (Hl & Hp & Hd & Ha).
  set (s1 := (derive_legacy s) <| Decisions_ ::= default_decisions |>).
  destruct (migrate_admin_spec s1) as (H1 & H2 & H3 & H4 & H5).
  assert (Ha1 : Admin s1 = Admin s) by exact Ha. assert (Hp1 : Ports s1 = Ports s) by exact Hp.
  assert (Hd1 : Decisions_ s1 = default_decisions (Decisions_ s)) by (rewrite <- Hd; done).
  split; [done|]. split; [by apply H2|]. split; [congruence|]. split; [congruence|].
  intros Hne. rewrite H5 by congruence. done.
Qed.

Lemma normalize_server_idempotent s : normalize_server (normalize_server s) = normalize_server s.
Proof.
  destruct (normalize_server_spec s) as (H1 & H2 & _ & H4 & _). set (s1 := normalize_server s) in *.
  unfold normalize_server. rewrite (derive_legacy_id s1 H2).
  assert (Hid : s1 <| Decisions_ ::= default_decisions |> = s1).
  { transitivity (s1 <| Decisions_ := default_decisions (Decisions_ s1) |>); [done|].
    rewrite H4, (proj2 (proj2 (default_decisions_spec _))), <- H4. by destruct s1. }
  rewrite Hid. by apply migrate_admin_spec.
Qed.

(** Normalising is idempotent and leaves the configuration ready for use:
    the admin address is never empty, the bus has room, and with a write port
    the legacy fields repeat it; what was set explicitly stays. *)
Theorem Normalize_idempotent (c : Config) :
  Normalize (Normalize c) = Normalize c /\
  ad_ListenAddr (Admin (Server (Normalize c))) <> "" /\
  dc_MaxSubscribers (Decisions_ (Server (Normalize c))) <> 0 /\
  dc_PerSubscriberBuffer (Decisions_ (Server (Normalize c))) <> 0 /\
  (forall w, Ports (Server c) !! "write" = Some w -> ListenAddr (Server (Normalize c)) = pc_ListenAddr w) /\
  (ad_ListenAddr (Admin (Server c)) <> "" -> Admin (Server (Normalize c)) = Admin (Server c)) /\
  Ports (Server (Normalize c)) = Ports (Server c) /\ Nodes_ (Normalize c) = Nodes_ c.
Proof.
  destruct (normalize_server_spec (Server c)) as (H1 & H2 & H3 & H4 & H5).
  destruct (default_decisions_spec (Decisions_ (Server c))) as (Hm & Hb & _).
  split.
  { transitivity (c <| Server := normalize_server (normalize_server (Server c)) |>); [done|].
    by rewrite normalize_server_idempotent. }
  change (Server (Normalize c)) with (normalize_server (Server c)). rewrite H4. split; [done|]. split; [done|]. split; [done|].
  split; [|done]. intros w Hw. apply H2. by rewrite H3.
Qed.

(** ** What validation lets through *)

Definition with_server (f : ServerConfig -> ServerConfig) (c : Config) : Config := c <| Server ::= f |>.

Definition compat_port : PortConfig := MkPortConfig "127.0.0.1:5713" "" "never" "" "" 1000 false.

(** A compat port without a pool mode is accepted, although an empty pool mode
    means session mode, which is refused for that port. *)
Theorem compat_empty_pool_mode_accepted :
  let c := with_server (fun s => s <| Ports ::= <["compat" := compat_port]> |>) Default in
  Validate zap_level ["write"; "compat"] [] c = [] /\ PoolModeFromString (pc_PoolMode compat_port) = Some PoolModeSession.
Proof. vm_compute. done. Qed.

(** A negative buffer size for the decisions bus is accepted. *)
Theorem negative_buffer_accepted :
  let c := with_server (fun s => s <| Decisions_ := MkDecisionsConfig 64 (-1) |>) Default in
  Validate zap_level ["write"] [] (Normalize c) = [] /\ dc_PerSubscriberBuffer (Decisions_ (Server (Normalize c))) = -1.
Proof. vm_compute. done. Qed.
