(* ===== verification/Classifier.v ===== *)
(** * Classifier: the traffic classifier (internal/classifier/classifier.go)

    [Classify] decides whether a statement is routed as a read or as a write:
    by the listen port, by the transaction state, by the cache of prepared
    statements, and last by the first keyword of the first 64 bytes of the SQL
    text.  The loops of the source run on fuel that the length of the text
    bounds; [strip_eq], [scan_flags_eq] and [token_list_eq] are their unfolding
    equations, which hold for every text. *)

From stdpp Require Import base gmap strings list.
From Stdlib Require Import ZArith Lia Ascii String.
From S2P Require Import Prelude GoStrings.

Local Open Scope string_scope.
Local Open Scope nat_scope.

(** ** Data *)

Inductive Type_ := TypeRead | TypeWrite | TypeUnknown.
#[export] Instance Type_eq_dec : EqDecision Type_.
Proof. solve_decision. Defined.

Inductive Source := SourcePort | SourceTransactionState | SourceKeyword | SourceDefault.
#[export] Instance Source_eq_dec : EqDecision Source.
Proof. solve_decision. Defined.

Definition Type_string (t : Type_) : string :=
  match t with TypeRead => "read" | TypeWrite => "write" | TypeUnknown => "unknown" end.

Definition Source_string (s : Source) : string :=
  match s with
  | SourcePort => "port"
  | SourceTransactionState => "transaction_state"
  | SourceKeyword => "keyword"
  | SourceDefault => "default"
  end.

Record Class_ := MkClass { cls_Type : Type_; cls_Source : Source }.
#[export] Instance Class_eq_dec : EqDecision Class_.
Proof. solve_decision. Defined.

Inductive TxState := TxIdle | TxInTransactionRead | TxInTransactionWrite | TxInFailedTransaction.
#[export] Instance TxState_eq_dec : EqDecision TxState.
Proof. solve_decision. Defined.

(** [Prepared] is a Go map, [None] when it is nil. *)
Record SessionState := MkSessionState {
  Port : string;
  TxState_ : TxState;
  Prepared : option (gmap string Class_)
}.
#[export] Instance SessionState_eta : Eta SessionState :=
  fun s => MkSessionState (Port s) (TxState_ s) (Prepared s).

Record Statement := MkStatement { st_Name : string; st_SQL : string }.

Definition readKeywords : list string := ["select"; "show"; "explain"; "fetch"; "values"].

Definition is_read_keyword (k : string) : bool := bool_decide (k ∈ readKeywords).

(** ** Scanning *)

Fixpoint strip_loop (fuel : nat) (s0 : string) : string :=
  let s := TrimLeftFunc s0 IsSpace in
  if HasPrefix s "--" then
    match Index s newline, fuel with
    | Some idx, S n => strip_loop n (sdrop (idx + 1) s)
    | _, _ => ""
    end
  else if HasPrefix s "/*" then
    match Index s "*/", fuel with
    | Some idx, S n => strip_loop n (sdrop (idx + 2) s)
    | _, _ => ""
    end
  else s.

Definition stripCommentsAndWhitespace (s : string) : string :=
  strip_loop (String.length s) s.

(** The end of a token: white space, or one of the given delimiters. *)
Definition token_end (delims : list Z) (r : rune) : bool :=
  IsSpace r || bool_decide (r ∈ delims).

Definition end_of_token (delims : list Z) (s : string) : nat :=
  match IndexFunc s (token_end delims) with
  | Some idx => idx
  | None => String.length s
  end.

(** ['('] and [';'] end a keyword; [','], ['('] and [')'] end an option. *)
Definition keyword_delims : list Z := [40%Z; 59%Z].
Definition option_delims : list Z := [44%Z; 40%Z; 41%Z].

Fixpoint token_list_loop (fuel : nat) (s target : string) : bool :=
  if String.eqb s "" then false
  else if HasPrefix s "," then
    match fuel with
    | O => false
    | S n => token_list_loop n (stripCommentsAndWhitespace (sdrop 1 s)) target
    end
  else
    let idx := end_of_token option_delims s in
    if idx =? 0 then false
    else
      let tok := ToLower (stake idx s) in
      if String.eqb tok target then true
      else match Index s ",", fuel with
           | Some commaIdx, S n =>
             token_list_loop n (stripCommentsAndWhitespace (sdrop (commaIdx + 1) s)) target
           | _, _ => false
           end.

Definition tokenListContains (list target : string) : bool :=
  let s := stripCommentsAndWhitespace list in
  token_list_loop (String.length s) s target.

(** Bytes consumed after the opening parenthesis until the depth is zero. *)
Fixpoint paren_scan (depth : nat) (k : nat) (s : string) : option nat :=
  match depth with
  | O => Some k
  | S d =>
    match s with
    | EmptyString => None
    | String c s' =>
      if Ascii.eqb c "(" then paren_scan (S depth) (S k) s'
      else if Ascii.eqb c ")" then paren_scan d (S k) s'
      else paren_scan depth (S k) s'
    end
  end.

Definition bare_flags : list string :=
  ["verbose"; "costs"; "buffers"; "timing"; "summary"; "format"; "settings"; "wal"].

Fixpoint scan_flags (fuel : nat) (s0 : string) : bool :=
  let s := stripCommentsAndWhitespace s0 in
  if String.eqb s "" then false
  else
    let idx := end_of_token keyword_delims s in
    if idx =? 0 then false
    else
      let tok := ToLower (stake idx s) in
      if String.eqb tok "analyze" then true
      else if bool_decide (tok ∈ bare_flags) then
        match fuel with
        | O => false
        | S n => scan_flags n (sdrop idx s)
        end
      else false.

Definition explainHasAnalyze (afterExplain : string) : bool :=
  let s := stripCommentsAndWhitespace afterExplain in
  let flags s := scan_flags (String.length s) s in
  if HasPrefix s "(" then
    match paren_scan 1 1 (sdrop 1 s) with
    | Some i =>
      let inner := stake (i - 2) (sdrop 1 s) in
      if tokenListContains inner "analyze" then true
      else flags (stripCommentsAndWhitespace (sdrop i s))
    | None => flags s
    end
  else flags s.

Definition max_scan : nat := 64.

Definition cap (sql : string) : string :=
  if max_scan <? String.length sql then stake max_scan sql else sql.

Definition firstKeyword (sql : string) : string * bool :=
  let s := stripCommentsAndWhitespace (cap sql) in
  let idx := end_of_token keyword_delims s in
  if idx =? 0 then ("", false)
  else
    let first := ToLower (stake idx s) in
    if String.eqb first "explain" then ("explain", explainHasAnalyze (sdrop idx s))
    else (first, false).

(** ** Classification *)

Definition classifyByKeyword (sql : string) (txState : TxState) : Class_ :=
  let '(keyword, isExplainAnalyze) := firstKeyword sql in
  if String.eqb keyword "" then MkClass TypeWrite SourceDefault
  else if isExplainAnalyze then MkClass TypeWrite SourceKeyword
  else if is_read_keyword keyword then MkClass TypeRead SourceKeyword
  else MkClass TypeWrite SourceKeyword.

Definition Classify (stmt : Statement) (sess : SessionState) : Class_ * SessionState :=
  if String.eqb (Port sess) "write" then (MkClass TypeWrite SourcePort, sess)
  else if bool_decide (TxState_ sess = TxInTransactionWrite)
  then (MkClass TypeWrite SourceTransactionState, sess)
  else
    let compute := classifyByKeyword (st_SQL stmt) (TxState_ sess) in
    match Prepared sess with
    | Some m =>
      if String.eqb (st_Name stmt) "" then (compute, sess)
      else match m !! st_Name stmt with
           | Some cached => (cached, sess)
           | None => (compute, sess <| Prepared := Some (<[st_Name stmt := compute]> m) |>)
           end
    | None => (compute, sess)
    end.

Definition TruncateSQL (sql : string) (maxLen : nat) : string :=
  let cleaned := TrimSpace sql in
  let cleaned := replace_byte "010" " " cleaned in
  let cleaned := Join (Fields cleaned) " " in
  if maxLen <? String.length cleaned then stake maxLen cleaned else cleaned.

Definition Forget (sess : SessionState) (name : string) : SessionState :=
  match Prepared sess with
  | Some m => sess <| Prepared := Some (delete name m) |>
  | None => sess
  end.

Definition ForgetAll (sess : SessionState) : SessionState :=
  match Prepared sess with
  | Some m => sess <| Prepared := Some (foldr delete m (elements (dom m))) |>
  | None => sess
  end.

(** ** The loops terminate: unfolding equations without fuel *)

Lemma strip_loop_enough (n m : nat) (s : string) :
  String.length s <= n -> String.length s <= m -> strip_loop n s = strip_loop m s.
Proof.
  revert m s. induction n as [|n IH]; intros m s Hn Hm.
  - assert (s = "") as -> by (destruct s; cbn in *; [done|lia]). by destruct m.
  - destruct m as [|m]; [assert (s = "") as -> by (destruct s; cbn in *; [done|lia]); done|].
    cbn [strip_loop]. pose proof (length_TrimLeftFunc s IsSpace) as Hlen.
    case_match; [|case_match; [|done]].
    + case_match eqn:E; [|done]. apply Index_bound in E; [|done]. cbn in E.
      apply IH; rewrite length_sdrop; lia.
    + case_match eqn:E; [|done]. apply Index_bound in E; [|done]. cbn in E.
      apply IH; rewrite length_sdrop; lia.
Qed.

Lemma strip_eq (s0 : string) :
  stripCommentsAndWhitespace s0 =
  let s := TrimLeftFunc s0 IsSpace in
  if HasPrefix s "--" then
    match Index s newline with
    | Some idx => stripCommentsAndWhitespace (sdrop (idx + 1) s)
    | None => ""
    end
  else if HasPrefix s "/*" then
    match Index s "*/" with
    | Some idx => stripCommentsAndWhitespace (sdrop (idx + 2) s)
    | None => ""
    end
  else s.
Proof.
  unfold stripCommentsAndWhitespace at 1. cbn zeta.
  pose proof (length_TrimLeftFunc s0 IsSpace) as Hlen.
  destruct (String.length s0) as [|n] eqn:Hn.
  { assert (s0 = "") as -> by (destruct s0; cbn in *; [done|lia]). done. }
  cbn [strip_loop]. case_match; [|case_match; [|done]].
  - case_match eqn:E; [|done]. apply Index_bound in E; [|done]. cbn in E.
    apply strip_loop_enough; rewrite ?length_sdrop; lia.
  - case_match eqn:E; [|done]. apply Index_bound in E; [|done]. cbn in E.
    apply strip_loop_enough; rewrite ?length_sdrop; lia.
Qed.

Lemma length_strip (s : string) :
  String.length (stripCommentsAndWhitespace s) <= String.length s.
Proof.
  induction s as [s IH] using (induction_ltof1 _ String.length).
  rewrite strip_eq. cbn zeta. pose proof (length_TrimLeftFunc s IsSpace) as Hlen.
  case_match; [|case_match; [|done]].
  - case_match eqn:E; [|cbn; lia]. apply Index_bound in E; [|done]. cbn in E.
    etrans; [apply IH|]; unfold ltof; rewrite length_sdrop; lia.
  - case_match eqn:E; [|cbn; lia]. apply Index_bound in E; [|done]. cbn in E.
    etrans; [apply IH|]; unfold ltof; rewrite length_sdrop; lia.
Qed.

Lemma end_of_token_le (d : list Z) (s : string) : end_of_token d s <= String.length s.
Proof.
  unfold end_of_token, IndexFunc. case_match eqn:E; [|done].
  apply index_func_bound in E. lia.
Qed.

Lemma scan_flags_enough (n m : nat) (s : string) :
  String.length s <= n -> String.length s <= m -> scan_flags n s = scan_flags m s.
Proof.
  revert m s. induction n as [|n IH]; intros m s Hn Hm.
  - assert (s = "") as -> by (destruct s; cbn in *; [done|lia]). by destruct m.
  - destruct m as [|m]; [assert (s = "") as -> by (destruct s; cbn in *; [done|lia]); done|].
    cbn [scan_flags]. pose proof (length_strip s) as Hlen.
    repeat (case_match; try done). apply Nat.eqb_neq in H0.
    apply IH; rewrite length_sdrop; lia.
Qed.

Lemma scan_flags_eq (s0 : string) :
  scan_flags (String.length s0) s0 =
  let s := stripCommentsAndWhitespace s0 in
  if String.eqb s "" then false
  else
    let idx := end_of_token keyword_delims s in
    if idx =? 0 then false
    else
      let tok := ToLower (stake idx s) in
      if String.eqb tok "analyze" then true
      else if bool_decide (tok ∈ bare_flags)
      then scan_flags (String.length (sdrop idx s)) (sdrop idx s)
      else false.
Proof.
  destruct (String.length s0) as [|n] eqn:Hn.
  { assert (s0 = "") as -> by (destruct s0; cbn in *; [done|lia]). done. }
  cbn [scan_flags]. cbn zeta. pose proof (length_strip s0) as Hlen.
  repeat (case_match; try done). apply Nat.eqb_neq in H0.
  apply scan_flags_enough; rewrite ?length_sdrop; lia.
Qed.

Lemma token_list_enough (n m : nat) (s t : string) :
  String.length s <= n -> String.length s <= m ->
  token_list_loop n s t = token_list_loop m s t.
Proof.
  revert m s. induction n as [|n IH]; intros m s Hn Hm.
  - assert (s = "") as -> by (destruct s; cbn in *; [done|lia]). by destruct m.
  - destruct m as [|m]; [assert (s = "") as -> by (destruct s; cbn in *; [done|lia]); done|].
    assert (Hne : String.eqb s "" = false -> 0 < String.length s).
    { destruct s; cbn; [done|lia]. }
    cbn [token_list_loop]. case_match; [done|]. specialize (Hne eq_refl).
    case_match.
    + apply IH; (etrans; [apply length_strip|]); rewrite length_sdrop; lia.
    + repeat (case_match; try done).
      apply IH; (etrans; [apply length_strip|]); rewrite length_sdrop; lia.
Qed.

(** ** What is skipped before the first keyword

    [Skips s t]: after leading white space and comments, [t] is left of [s]. *)

Inductive Skips : string -> string -> Prop :=
| skip_space s t :
    s <> "" -> IsSpace (DecodeRune s).1 = true ->
    Skips (sdrop (DecodeRune s).2 s) t -> Skips s t
| skip_line s i t :
    HasPrefix s "--" = true -> Index s newline = Some i ->
    Skips (sdrop (i + 1) s) t -> Skips s t
| skip_line_eof s :
    HasPrefix s "--" = true -> Index s newline = None -> Skips s ""
| skip_block s i t :
    HasPrefix s "/*" = true -> Index s "*/" = Some i ->
    Skips (sdrop (i + 2) s) t -> Skips s t
| skip_block_eof s :
    HasPrefix s "/*" = true -> Index s "*/" = None -> Skips s ""
| skip_done s :
    s = "" \/ IsSpace (DecodeRune s).1 = false ->
    HasPrefix s "--" = false -> HasPrefix s "/*" = false -> Skips s s.
#[export] Hint Constructors Skips : go.

Lemma Skips_trim (s t : string) : Skips (TrimLeftFunc s IsSpace) t -> Skips s t.
Proof.
  induction s as [s IH] using (induction_ltof1 _ String.length).
  destruct (decide (s = "")) as [->|Hne]; [done|].
  rewrite TrimLeftFunc_eq by done. case_match eqn:E; [|done].
  intros H. apply skip_space; [done..|]. apply IH; [|done].
  pose proof (DecodeRune_width s Hne). unfold ltof. rewrite length_sdrop.
  destruct s; [done|]. cbn in *. lia.
Qed.

Lemma Skips_strip (s : string) : Skips s (stripCommentsAndWhitespace s).
Proof.
  induction s as [s IH] using (induction_ltof1 _ String.length).
  apply Skips_trim. rewrite strip_eq. cbn zeta.
  pose proof (length_TrimLeftFunc s IsSpace) as Hlen.
  pose proof (TrimLeftFunc_head s IsSpace) as Hhead.
  case_match; [|case_match; [|by apply skip_done]].
  - case_match eqn:E; [|by apply skip_line_eof]. eapply skip_line; [done..|].
    apply Index_bound in E; [|done]. cbn in E.
    apply IH. unfold ltof. rewrite length_sdrop. lia.
  - case_match eqn:E; [|by apply skip_block_eof]. eapply skip_block; [done..|].
    apply Index_bound in E; [|done]. cbn in E.
    apply IH. unfold ltof. rewrite length_sdrop. lia.
Qed.

Lemma strip_step_trim (s : string) :
  s = "" \/ IsSpace (DecodeRune s).1 = false -> TrimLeftFunc s IsSpace = s.
Proof.
  intros [->|H]; [done|]. destruct (decide (s = "")) as [->|Hne]; [done|].
  by rewrite TrimLeftFunc_eq, H.
Qed.

(** A comment opener is not white space. *)
Lemma comment_not_space (s p : string) :
  p = "--" \/ p = "/*" -> HasPrefix s p = true -> IsSpace (DecodeRune s).1 = false.
Proof.
  intros Hp H%prefix_spec. rewrite H. destruct Hp as [-> | ->]; done.
Qed.

Lemma comment_trim (s p : string) :
  p = "--" \/ p = "/*" -> HasPrefix s p = true -> TrimLeftFunc s IsSpace = s.
Proof. intros Hp H. apply strip_step_trim. right. by apply (comment_not_space s p). Qed.

Lemma prefix_exclusive (s : string) :
  HasPrefix s "/*" = true -> HasPrefix s "--" = false.
Proof.
  intros H%prefix_spec. rewrite H. done.
Qed.

Lemma Skips_fun (s t : string) : Skips s t -> stripCommentsAndWhitespace s = t.
Proof.
  induction 1 as [s t Hne Hsp _ IH|s i t Hp Hi _ IH|s Hp Hi|s i t Hp Hi _ IH|s Hp Hi|s Hh Hp1 Hp2].
  - rewrite <- IH. rewrite (strip_eq s), TrimLeftFunc_eq, Hsp by done. symmetry. apply strip_eq.
  - rewrite strip_eq, (comment_trim s "--") by auto.
    cbn zeta. by rewrite Hp, Hi.
  - rewrite strip_eq, (comment_trim s "--") by auto.
    cbn zeta. by rewrite Hp, Hi.
  - rewrite strip_eq, (comment_trim s "/*") by auto.
    cbn zeta. by rewrite (prefix_exclusive s Hp), Hp, Hi.
  - rewrite strip_eq, (comment_trim s "/*") by auto.
    cbn zeta. by rewrite (prefix_exclusive s Hp), Hp, Hi.
  - rewrite strip_eq, (strip_step_trim s) by done. cbn zeta. by rewrite Hp1, Hp2.
Qed.

(** Text that the scanner ignores in front of a statement: ASCII white space,
    line comments up to their newline, block comments up to their first
    terminator. *)

Inductive Noise : string -> Prop :=
| noise_nil : Noise ""
| noise_space c p :
    (byteZ c < 128)%Z -> IsSpace (byteZ c) = true -> Noise p -> Noise (String c p)
| noise_line l i p :
    HasPrefix l "--" = true -> Index l newline = Some i -> i + 1 = String.length l ->
    Noise p -> Noise (l +:+ p)
| noise_block l i p :
    HasPrefix l "/*" = true -> Index l "*/" = Some i -> i + 2 = String.length l ->
    Noise p -> Noise (l +:+ p).
#[export] Hint Constructors Noise : go.

Lemma Skips_noise (n s t : string) : Noise n -> Skips s t -> Skips (n +:+ s) t.
Proof.
  induction 1 as [|c p Hc Hsp _ IH|l i p Hp Hi Hl _ IH|l i p Hp Hi Hl _ IH]; intros Hs.
  - done.
  - rewrite append_cons. apply skip_space; [done|..]; rewrite DecodeRune_ascii; auto.
  - rewrite append_assoc. eapply skip_line.
    + by apply prefix_append_l.
    + by apply Index_append.
    + rewrite Hl, sdrop_append. by apply IH.
  - rewrite append_assoc. eapply skip_block.
    + by apply prefix_append_l.
    + by apply Index_append.
    + rewrite Hl, sdrop_append. by apply IH.
Qed.

Lemma strip_noise (n s : string) :
  Noise n -> stripCommentsAndWhitespace (n +:+ s) = stripCommentsAndWhitespace s.
Proof. intros Hn. apply Skips_fun, Skips_noise; [done|]. apply Skips_strip. Qed.

Lemma cap_short (s : string) : String.length s <= max_scan -> cap s = s.
Proof. intros H. unfold cap. by apply Nat.ltb_ge in H as ->. Qed.

Lemma cap_cap (s t : string) :
  max_scan <= String.length s -> cap (s +:+ t) = cap s.
Proof.
  intros H. unfold cap. rewrite length_append. case_match eqn:E1; case_match eqn:E2; bool_to_prop.
  - by apply stake_append_le.
  - apply Nat.ltb_ge in E2. rewrite stake_append_le by done. by apply stake_all.
  - apply Nat.ltb_ge in E1. apply Nat.ltb_lt in E2. lia.
  - apply Nat.ltb_ge in E1. destruct t; [by rewrite append_empty_r|]. cbn in E1. lia.
Qed.

(** The empty statement, and text that is only noise, is a write by default. *)
Lemma firstKeyword_empty_class (sql : string) (tx : TxState) :
  (firstKeyword sql).1 = "" -> classifyByKeyword sql tx = MkClass TypeWrite SourceDefault.
Proof. unfold classifyByKeyword. destruct (firstKeyword sql). cbn. by intros ->. Qed.

Lemma classifyByKeyword_read (sql : string) (tx : TxState) :
  cls_Type (classifyByKeyword sql tx) = TypeRead <->
  (firstKeyword sql).1 ∈ readKeywords /\ (firstKeyword sql).2 = false.
Proof.
  unfold classifyByKeyword, is_read_keyword. destruct (firstKeyword sql) as [k b]. cbn [fst snd].
  destruct (String.eqb_spec k "") as [->|Hk]; cbn.
  - split; [done|]. intros [H _].
    exfalso. revert H. by apply (bool_decide_eq_false_1 ("" ∈ readKeywords)).
  - destruct b; [split; [done|by intros [_ ?]]|].
    case_bool_decide; cbn; split; try done. by intros [? _].
Qed.

(** ** Properties *)



(** The scanner reads at most the first 64 bytes: statements that agree on
    them are classified alike, whatever follows. *)
Theorem classifyByKeyword_bounded (sql rest rest' : string) (tx : TxState) :
  String.length sql = max_scan ->
  classifyByKeyword (sql +:+ rest) tx = classifyByKeyword (sql +:+ rest') tx.
Proof.
  intros Hlen. unfold classifyByKeyword, firstKeyword.
  by rewrite !cap_cap by lia.
Qed.

Lemma classifyByKeyword_bounded_witness :
  let sql := "SELECT 1 AS a, 2 AS b, 3 AS c, 4 AS d, 5 AS e, 6 AS f, 7 AS g FR" in
  String.length sql = max_scan /\
  classifyByKeyword (sql +:+ "OM t") TxIdle = classifyByKeyword (sql +:+ "") TxIdle.
Proof.
  split; [vm_compute; reflexivity|].
  apply classifyByKeyword_bounded. vm_compute. reflexivity.
Defined.

(** [stripCommentsAndWhitespace] terminates on every text and computes
    exactly the text that is left after leading white space, line comments and
    block comments, as the relation [Skips] describes it. *)
Theorem strip_spec (s t : string) : Skips s t <-> stripCommentsAndWhitespace s = t.
Proof.
  split; [apply Skips_fun|]. intros <-. apply Skips_strip.
Qed.

(** White space and comments in front of a statement that fit into the 64
    scanned bytes do not change its classification. *)
Theorem classify_noise_insensitive (n sql : string) (tx : TxState) :
  Noise n -> String.length (n +:+ sql) <= max_scan ->
  classifyByKeyword (n +:+ sql) tx = classifyByKeyword sql tx.
Proof.
  intros Hn Hlen. unfold classifyByKeyword, firstKeyword.
  rewrite (cap_short (n +:+ sql)) by done. rewrite length_append in Hlen.
  rewrite (cap_short sql) by lia.
  by rewrite strip_noise.
Qed.

Lemma classify_noise_insensitive_witness :
  classifyByKeyword ("/* c */" +:+ " SHOW x") TxIdle = classifyByKeyword " SHOW x" TxIdle.
Proof.
  apply classify_noise_insensitive; [|vm_compute; lia].
  rewrite <- (append_empty_r "/* c */").
  apply (noise_block "/* c */" 5 ""); [reflexivity..|apply noise_nil].
Defined.

(** outside the write port and write transactions, the classification of a
    named prepared statement is remembered: whatever text the name is seen with
    next, [Classify] repeats the first answer, until [Forget] drops the name. *)
Theorem Classify_cache_roundtrip (name sql sql' : string) (sess : SessionState) (m : gmap string Class_) :
  name <> "" -> Port sess <> "write" -> TxState_ sess <> TxInTransactionWrite ->
  Prepared sess = Some m ->
  let '(c, sess') := Classify (MkStatement name sql) sess in
  Classify (MkStatement name sql') sess' = (c, sess') /\
  (exists m', Prepared (Forget sess' name) = Some m' /\ m' !! name = None /\
              forall other, other <> name -> m' !! other = m !! other).
Proof.
  intros Hname Hport Htx Hm. unfold Classify. apply String.eqb_neq in Hname, Hport.
  rewrite Hport, Hm. cbn [st_Name st_SQL]. rewrite Hname, bool_decide_eq_false_2 by done.
  destruct (m !! name) as [c|] eqn:Hc; unfold put_field;
    cbn beta iota delta [Port TxState_ Prepared st_Name st_SQL].
  - rewrite ?Hport, ?Hm, ?Hname, ?Hc, ?bool_decide_eq_false_2 by done. split; [done|].
    unfold Forget. rewrite Hm. cbn. eexists. split; [done|].
    split; [apply lookup_delete_eq|]. intros other Ho. by rewrite lookup_delete_ne.
  - rewrite ?Hport, ?Hname, lookup_insert_eq, ?bool_decide_eq_false_2 by done. split; [done|].
    unfold Forget. cbn. eexists. split; [done|].
    split; [apply lookup_delete_eq|]. intros other Ho.
    by rewrite lookup_delete_ne, lookup_insert_ne.
Qed.

Lemma Classify_cache_roundtrip_witness :
  let sess := MkSessionState "compat" TxIdle (Some ∅) in
  Classify (MkStatement "q" "DELETE FROM t") (Classify (MkStatement "q" "SELECT 1") sess).2 =
  (MkClass TypeRead SourceKeyword, (Classify (MkStatement "q" "SELECT 1") sess).2).
Proof.
  exact (proj1 (Classify_cache_roundtrip "q" "SELECT 1" "DELETE FROM t"
    (MkSessionState "compat" TxIdle (Some ∅)) ∅
    ltac:(discriminate) ltac:(discriminate) ltac:(discriminate) eq_refl)).
Defined.

(** The SQL text recorded in decision events is at most [maxLen] bytes. *)
Theorem TruncateSQL_bounded (sql : string) (maxLen : nat) :
  String.length (TruncateSQL sql maxLen) <= maxLen.
Proof.
  unfold TruncateSQL. cbn zeta. case_match eqn:E.
  - rewrite length_stake. lia.
  - by apply Nat.ltb_ge in E.
Qed.

(** ** Where the classifier is not conservative

    An EXPLAIN whose ANALYZE lies beyond the 64th byte, a nested block comment
    and an overlapping comment terminator all hide an executing statement
    behind a "read" answer. *)

Theorem explain_analyze_beyond_cap_is_read :
  classifyByKeyword
    "EXPLAIN /* 0123456789012345678901234567890123456789012345678901234567 */ ANALYZE DELETE FROM t"
    TxIdle = MkClass TypeRead SourceKeyword.
Proof. vm_compute. reflexivity. Qed.

Theorem nested_comment_hides_write :
  classifyByKeyword "/* /* */ SELECT */ DELETE FROM t" TxIdle = MkClass TypeRead SourceKeyword /\
  classifyByKeyword "/*/ SELECT 1 */ DELETE FROM t" TxIdle = MkClass TypeRead SourceKeyword.
Proof. split; vm_compute; reflexivity. Qed.
