(* ===== verification/Topology.v ===== *)
(** * Topology: the observed state of the cluster (internal/topology)

    [Topology] holds one [nodeState] per declared node, keyed by node id, the
    verified system identifier of the cluster and the ages after which an
    observation is stale.  Probes update it through the sink methods; routing
    and the admin API read it through views.  [UpdateSystemID] takes two locks
    one after the other, so it is two atomic steps here, and [topo_step]
    interleaves the sink methods of all the probes. *)

From stdpp Require Import base gmap strings list relations.
From Stdlib Require Import ZArith Lia.
From S2P Require Import Prelude Types.

Local Open Scope string_scope.
Local Open Scope Z_scope.
Local Open Scope list_scope.

(** ** Data (types.go) *)

Abbreviation NodeID := string (only parsing).
Abbreviation SystemID := string (only parsing).

Inductive Role := RoleUnknown | RolePrimary | RoleReplica.
#[export] Instance Role_eq_dec : EqDecision Role.
Proof. solve_decision. Defined.

Definition Role_String (r : Role) : string :=
  match r with RolePrimary => "primary" | RoleReplica => "replica" | RoleUnknown => "unknown" end.

Inductive Liveness := LivenessUnknown | LivenessUp | LivenessDegraded | LivenessDown.
#[export] Instance Liveness_eq_dec : EqDecision Liveness.
Proof. solve_decision. Defined.

Definition Liveness_String (l : Liveness) : string :=
  match l with
  | LivenessUp => "up" | LivenessDegraded => "degraded" | LivenessDown => "down"
  | LivenessUnknown => "unknown"
  end.

Inductive LagState :=
| LagStateUnknown | LagStateFresh | LagStateIdle | LagStateStale | LagStateNotApplicable.
#[export] Instance LagState_eq_dec : EqDecision LagState.
Proof. solve_decision. Defined.

Definition LagState_String (ls : LagState) : string :=
  match ls with
  | LagStateFresh => "fresh" | LagStateIdle => "idle" | LagStateStale => "stale"
  | LagStateUnknown => "unknown" | LagStateNotApplicable => "not_applicable"
  end.

Record NodeView := MkNodeView {
  nv_ID : NodeID;
  nv_Host : string;
  nv_Port : Z;
  nv_DeclaredRole : Role;
  nv_ObservedRole : Role;
  nv_Liveness : Liveness;
  nv_SystemID : SystemID;
  nv_LastProbeAt : Time;
  nv_LastProbeErr : option error;
  nv_ReplicationLagMs : option Z;
  nv_ReplicationLagState : LagState;
  nv_LastLagSampleAt : Time;
  nv_LivenessMaxAgeMs : Z;
  nv_ObservedRoleMaxAgeMs : Z;
  nv_ReplicationLagMaxAgeMs : Z
}.

(** ** State (topology.go) *)

Record nodeState := MkNodeState {
  config : NodeConfig;
  pool : Manager;
  probe : bool;
  observedRole : Role;
  liveness : Liveness;
  systemID : SystemID;
  lastProbeAt : Time;
  lastProbeErr : option error;
  permanentlyDown : bool;
  replicationLagMs : option Z;
  replicationLagState : LagState;
  lastLagSampleAt : Time
}.
#[export] Instance nodeState_eta : Eta nodeState := fun n =>
  MkNodeState (config n) (pool n) (probe n) (observedRole n) (liveness n) (systemID n)
    (lastProbeAt n) (lastProbeErr n) (permanentlyDown n) (replicationLagMs n)
    (replicationLagState n) (lastLagSampleAt n).

Record Topology := MkTopology {
  nodes : gmap NodeID nodeState;
  clusterID : SystemID;
  sysIDErr : option error;
  livenessMaxAgeMs : Z;
  observedRoleMaxAgeMs : Z;
  replicationLagMaxAgeMs : Z
}.
#[export] Instance Topology_eta : Eta Topology := fun t =>
  MkTopology (nodes t) (clusterID t) (sysIDErr t) (livenessMaxAgeMs t)
    (observedRoleMaxAgeMs t) (replicationLagMaxAgeMs t).

(** ** Construction *)

Definition NewEmpty : Topology := MkTopology ∅ "" None 0 0 0.

Definition maxAgeOrDefault (val fallback : Z) : Z := if 0 <? val then val else fallback.

Definition init_node (nc : NodeConfig) (pm : Manager) : nodeState :=
  MkNodeState nc pm false RoleUnknown LivenessUnknown "" time_zero None false None
    LagStateNotApplicable time_zero.

(** What [New] and [Close] do outside the topology. *)
Inductive TopoEffect := PoolClosed (m : Manager) | ProbeClosed (id : NodeID).

Definition close_node (ns : nodeState) : list TopoEffect :=
  (if probe ns then [ProbeClosed (nc_ID (config ns))] else []) ++ [PoolClosed (pool ns)].

Definition Close (ord : list NodeID) (t : Topology) : list TopoEffect :=
  (visit (nodes t) ord).*2 ≫= close_node.

Section construction.
Context (new_pool : NodeConfig -> error + Manager).
Context (new_probe : NodeConfig -> option error).
Context (close_order : Topology -> list NodeID).

(** The loop of [New]: the remaining nodes, the topology built so far. *)
Fixpoint new_loop (ncs : list NodeConfig) (t : Topology) : list TopoEffect * (error + Topology) :=
  match ncs with
  | [] => ([], inr t)
  | nc :: rest =>
    match new_pool nc with
    | inl err =>
      (Close (close_order t) t,
       inl (OtherError ("node " +:+ nc_ID nc +:+ " pool") (Some err)))
    | inr pm =>
      let t1 := t <| nodes ::= <[nc_ID nc := init_node nc pm]> |> in
      match new_probe nc with
      | Some err =>
        let t2 := t1 <| nodes ::= delete (nc_ID nc) |> in
        (PoolClosed pm :: Close (close_order t2) t2,
         inl (OtherError ("node " +:+ nc_ID nc +:+ " probe") (Some err)))
      | None =>
        new_loop rest (t1 <| nodes ::= alter (fun ns => ns <| probe := true |>) (nc_ID nc) |>)
      end
    end
  end.

Definition New (cfgNodes : list NodeConfig) (pc : ProbeConfig) : list TopoEffect * (error + Topology) :=
  new_loop cfgNodes
    (MkTopology ∅ "" None
       (maxAgeOrDefault (LivenessMaxAgeMs pc) (wrap64 (IntervalMs pc * 2)))
       (maxAgeOrDefault (RoleMaxAgeMs pc) (wrap64 (IntervalMs pc * 5)))
       (maxAgeOrDefault (LagMaxAgeMs pc) (wrap64 (IntervalMs pc * 2)))).
End construction.

(** ** Views *)

Definition roleFromString (s : string) : Role * bool :=
  if String.eqb s "primary" then (RolePrimary, true)
  else if String.eqb s "replica" then (RoleReplica, true)
  else (RoleUnknown, false).

(** [t] is older than [maxAge] milliseconds at [now]. *)
Definition stale (now t : Time) (maxAge : Z) : bool :=
  negb (IsZero t) && (maxAge <? Milliseconds (Sub now t)).

Definition nodeView (t : Topology) (now : Time) (id : NodeID) (ns : nodeState) : NodeView :=
  let role := (roleFromString (nc_DeclaredRole (config ns))).1 in
  let live := if permanentlyDown ns then LivenessDown else liveness ns in
  let live := if stale now (lastProbeAt ns) (livenessMaxAgeMs t) then LivenessUnknown else live in
  let obs := if stale now (lastProbeAt ns) (observedRoleMaxAgeMs t)
             then RoleUnknown else observedRole ns in
  let lag := if bool_decide (replicationLagState ns = LagStateFresh)
                && stale now (lastLagSampleAt ns) (replicationLagMaxAgeMs t)
             then LagStateStale else replicationLagState ns in
  MkNodeView id (nc_Host (config ns)) (uwrap16 (nc_Port (config ns))) role obs live
    (systemID ns) (lastProbeAt ns) (lastProbeErr ns) (replicationLagMs ns) lag
    (lastLagSampleAt ns) (livenessMaxAgeMs t) (observedRoleMaxAgeMs t)
    (replicationLagMaxAgeMs t).

(** [clock id] is the instant read while the view of [id] is built. *)
Definition Nodes (t : Topology) (ord : list NodeID) (clock : NodeID -> Time) : list NodeView :=
  (fun '(id, ns) => nodeView t (clock id) id ns) <$> visit (nodes t) ord.

Definition Node (t : Topology) (now : Time) (id : NodeID) : option NodeView :=
  nodeView t now id <$> nodes t !! id.

Definition is_primary (ns : nodeState) : bool :=
  negb (permanentlyDown ns) && bool_decide (observedRole ns = RolePrimary).

(** The loop of [Primary]: the candidate found so far. *)
Fixpoint primary_loop (es : list (NodeID * nodeState)) (found : option (NodeID * nodeState))
  : option (NodeID * nodeState) :=
  match es with
  | [] => found
  | (id, ns) :: rest =>
    if permanentlyDown ns then primary_loop rest found
    else if bool_decide (observedRole ns = RolePrimary) then
      match found with
      | Some _ => None
      | None => primary_loop rest (Some (id, ns))
      end
    else primary_loop rest found
  end.

Definition Primary (t : Topology) (ord : list NodeID) (now : Time) : option NodeView :=
  (fun '(id, ns) => nodeView t now id ns) <$> primary_loop (visit (nodes t) ord) None.

Definition Replicas (t : Topology) (ord : list NodeID) (clock : NodeID -> Time) : list NodeView :=
  (fun '(id, ns) => nodeView t (clock id) id ns) <$>
    filter (fun e => permanentlyDown e.2 = false /\ observedRole e.2 = RoleReplica)
      (visit (nodes t) ord).

Definition PoolFor (t : Topology) (id : NodeID) : error + Manager :=
  match nodes t !! id with
  | Some ns => inr (pool ns)
  | None => inl (OtherError ("node " +:+ id +:+ " not found") None)
  end.

Definition ClusterID (t : Topology) : SystemID := clusterID t.
Definition SystemIDError (t : Topology) : option error := sysIDErr t.

(** ** Sink methods *)

Definition update_node (id : NodeID) (f : nodeState -> nodeState) (t : Topology) : Topology :=
  t <| nodes ::= alter f id |>.

Definition liveness_of_probe (l : ProbeLiveness) : Liveness :=
  match l with
  | PLivenessUp => LivenessUp
  | PLivenessDegraded => LivenessDegraded
  | PLivenessDown => LivenessDown
  | PLivenessUnknown => LivenessUnknown
  end.

Definition UpdateLiveness (now : Time) (id : NodeID) (l : ProbeLiveness) (err : option error)
    (t : Topology) : Topology :=
  update_node id (fun ns =>
    if permanentlyDown ns then
      if bool_decide (l = PLivenessUp) then ns
      else ns <| lastProbeAt := now |> <| lastProbeErr := err |>
    else ns <| liveness := liveness_of_probe l |>
            <| lastProbeAt := now |> <| lastProbeErr := err |>) t.

Definition role_of_probe (r : ProbeRole) : Role :=
  match r with
  | PRolePrimary => RolePrimary
  | PRoleReplica => RoleReplica
  | PRoleUnknown => RoleUnknown
  end.

Definition UpdateObservedRole (id : NodeID) (r : ProbeRole) (t : Topology) : Topology :=
  update_node id (fun ns => ns <| observedRole := role_of_probe r |>) t.

(** First critical section of [UpdateSystemID], under [sysIDMu]: the flag
    [firstTime] and the copy of the cluster id that the call goes on with. *)
Definition claim_cluster (sid : string) (t : Topology) : (bool * SystemID) * Topology :=
  if String.eqb (clusterID t) "" then ((true, sid), t <| clusterID := sid |>)
  else ((false, clusterID t), t).

Definition mismatch_error (id sid cid : string) : error :=
  OtherError ("system_identifier mismatch for node " +:+ id +:+ ": got " +:+ sid
              +:+ ", cluster has " +:+ cid) None.

(** Second critical section, under the node's lock. *)
Definition verify_node (id : NodeID) (sid : string) (firstTime : bool) (cid : SystemID)
    (t : Topology) : option error * Topology :=
  if firstTime then (None, update_node id (fun ns => ns <| systemID := cid |>) t)
  else if String.eqb sid cid then (None, update_node id (fun ns => ns <| systemID := sid |>) t)
  else
    let err := mismatch_error id sid cid in
    (Some err,
     (update_node id (fun ns => ns <| permanentlyDown := true |> <| liveness := LivenessDown |>) t)
       <| sysIDErr := Some err |>).

Definition UpdateSystemID (id : NodeID) (sid : string) (t : Topology) : option error * Topology :=
  match nodes t !! id with
  | None => (Some (OtherError ("node " +:+ id +:+ " not found") None), t)
  | Some _ =>
    let '((firstTime, cid), t1) := claim_cluster sid t in
    verify_node id sid firstTime cid t1
  end.

Definition UpdateLag (id : NodeID) (lagMs : Z) (sampledAt : Time) (t : Topology) : Topology :=
  update_node id (fun ns =>
    ns <| replicationLagMs := Some lagMs |> <| replicationLagState := LagStateFresh |>
       <| lastLagSampleAt := sampledAt |>) t.

Definition MarkLagIdle (id : NodeID) (sampledAt : Time) (t : Topology) : Topology :=
  update_node id (fun ns =>
    ns <| replicationLagMs := None |> <| replicationLagState := LagStateIdle |>
       <| lastLagSampleAt := sampledAt |>) t.

Definition MarkLagUnknown (id : NodeID) (reason : option error) (sampledAt : Time)
    (t : Topology) : Topology :=
  update_node id (fun ns =>
    ns <| replicationLagMs := None |> <| replicationLagState := LagStateUnknown |>
       <| lastLagSampleAt := sampledAt |>) t.

#[export] Instance Topology_sink : Sink Topology := {|
  sink_UpdateLiveness := UpdateLiveness;
  sink_UpdateObservedRole := UpdateObservedRole;
  sink_UpdateSystemID := UpdateSystemID;
  sink_UpdateLag := UpdateLag;
  sink_MarkLagIdle := MarkLagIdle;
  sink_MarkLagUnknown := MarkLagUnknown
|}.

(** [WaitForInitialProbes] polls the views on every tick of its timer.  [polls]
    lists, for each round, the views it sees and whether the context is done
    before the next tick; [Waiting] is a run that is still going on. *)
Inductive WaitResult := AllProbed | ContextDone | Waiting.

Definition all_probed (views : list NodeView) : bool :=
  forallb (fun nv => negb (IsZero (nv_LastProbeAt nv))) views.

Fixpoint WaitForInitialProbes (polls : list (list NodeView * bool)) : WaitResult :=
  match polls with
  | [] => Waiting
  | (views, ctxDone) :: rest =>
    if all_probed views then AllProbed
    else if ctxDone then ContextDone
    else WaitForInitialProbes rest
  end.

(** ** Interleaving of the sink methods

    A call of [UpdateSystemID] that is between its two critical sections is in
    flight; any other method may run meanwhile. *)

Record inflight := MkInflight { if_id : NodeID; if_sid : string; if_first : bool; if_cid : SystemID }.

Inductive topo_step : Topology * list inflight -> Topology * list inflight -> Prop :=
| step_liveness now id l err t fs : topo_step (t, fs) (UpdateLiveness now id l err t, fs)
| step_role id r t fs : topo_step (t, fs) (UpdateObservedRole id r t, fs)
| step_lag id lag at_ t fs : topo_step (t, fs) (UpdateLag id lag at_ t, fs)
| step_idle id at_ t fs : topo_step (t, fs) (MarkLagIdle id at_ t, fs)
| step_unknown id reason at_ t fs : topo_step (t, fs) (MarkLagUnknown id reason at_ t, fs)
| step_claim id sid first cid t t' fs :
    is_Some (nodes t !! id) -> claim_cluster sid t = ((first, cid), t') ->
    topo_step (t, fs) (t', MkInflight id sid first cid :: fs)
| step_verify f fs1 fs2 err t t' :
    verify_node (if_id f) (if_sid f) (if_first f) (if_cid f) t = (err, t') ->
    topo_step (t, fs1 ++ f :: fs2) (t', fs1 ++ fs2).

Definition initial (t : Topology) : Prop :=
  clusterID t = "" /\ map_Forall (fun _ ns => systemID ns = "" /\ permanentlyDown ns = false) (nodes t).

Definition system_ids_agree (t : Topology) : Prop :=
  map_Forall (fun _ ns => systemID ns = "" \/ systemID ns = clusterID t) (nodes t).

Definition inflight_agree (t : Topology) (f : inflight) : Prop :=
  if_cid f = "" \/ if_cid f = clusterID t.

Definition topo_inv (s : Topology * list inflight) : Prop :=
  system_ids_agree s.1 /\ Forall (inflight_agree s.1) s.2.

(** ** Lemmas on updates *)

Lemma lookup_update_node (id id' : NodeID) (f : nodeState -> nodeState) (t : Topology) :
  nodes (update_node id f t) !! id' =
  if decide (id = id') then f <$> nodes t !! id' else nodes t !! id'.
Proof. unfold update_node, put_field. cbn [nodes]. rewrite lookup_alter.
  by case_decide; subst. Qed.

Lemma update_node_map_Forall (P : nodeState -> Prop) (id : NodeID) (f : nodeState -> nodeState) t :
  (forall ns, P ns -> P (f ns)) ->
  map_Forall (fun _ => P) (nodes t) -> map_Forall (fun _ => P) (nodes (update_node id f t)).
Proof.
  intros Hf Hall id' ns. rewrite lookup_update_node. case_decide; [|apply Hall].
  destruct (nodes t !! id') as [ns0|] eqn:E; cbn; [|done]. intros [= <-]. eauto.
Qed.

(** Every step is an update of one node's fields or of the cluster id; what it
    does to the identifiers and to the exclusion mark is all the invariants need. *)
Lemma topo_step_cluster s s' :
  topo_step s s' -> clusterID s.1 <> "" -> clusterID s'.1 = clusterID s.1.
Proof.
  destruct 1 as [| | | | |id sid first cid t t' fs Hn Hc|f fs1 fs2 err t t' Hv]; try done; cbn.
  - unfold claim_cluster in Hc. destruct (String.eqb_spec (clusterID t) ""); [done|].
    by injection Hc as <- <- <-.
  - unfold verify_node in Hv. intros _. repeat case_match; by simplify_eq.
Qed.

Lemma topo_inv_update id f t fs :
  (forall ns, systemID (f ns) = systemID ns) ->
  topo_inv (t, fs) -> topo_inv (update_node id f t, fs).
Proof.
  intros Hf [Hs Hfs]. split; [|done]. cbn in *.
  apply (update_node_map_Forall (fun ns => systemID ns = "" \/ systemID ns = clusterID t)); [|done].
  intros ns. by rewrite Hf.
Qed.

Lemma topo_inv_set id sid t fs :
  sid = "" \/ sid = clusterID t ->
  topo_inv (t, fs) -> topo_inv (update_node id (fun ns => ns <| systemID := sid |>) t, fs).
Proof.
  intros Hsid [Hs Hfs]. split; [|done].
  by apply (update_node_map_Forall (fun ns => systemID ns = "" \/ systemID ns = clusterID t)).
Qed.

Lemma topo_step_inv s s' : topo_step s s' -> topo_inv s -> topo_inv s'.
Proof.
  destruct 1 as [| | | | |id sid first cid t t' fs Hn Hc|f fs1 fs2 err t t' Hv].
  1-5: apply topo_inv_update; intros ns; by repeat case_match.
  - intros [Hs Hfs]. unfold claim_cluster in Hc.
    destruct (String.eqb_spec (clusterID t) "") as [He|Hne]; simplify_eq.
    + split; cbn.
      * intros id' ns' Hid'. left. destruct (Hs _ _ Hid') as [H|H]; cbn in H; congruence.
      * constructor; [by right|]. eapply Forall_impl; [exact Hfs|].
        intros f [H|H]; left; cbn in H; congruence.
    + split; [done|]. constructor; [by right|done].
  - intros [Hs Hfs]. apply Forall_app in Hfs as [H1 H2]. apply Forall_cons in H2 as [Hf H2].
    assert (Hinv : topo_inv (t, fs1 ++ fs2)) by (split; [done|]; by apply Forall_app).
    unfold verify_node in Hv. case_match; [|destruct (String.eqb_spec (if_sid f) (if_cid f)) as [Heq|]];
      simplify_eq.
    + by apply topo_inv_set.
    + apply topo_inv_set; [|done]. by rewrite Heq.
    + apply (topo_inv_update (if_id f)
        (fun ns => ns <| permanentlyDown := true |> <| liveness := LivenessDown |>)) in Hinv; done.
Qed.

Lemma topo_inv_reachable t0 s : initial t0 -> rtc topo_step (t0, []) s -> topo_inv s.
Proof.
  intros [_ Hinit] Hsteps.
  assert (H0 : topo_inv (t0, [])).
  { split; [|done]. intros id ns Hns. left. by apply (Hinit id). }
  remember (t0, []) as s0 eqn:E. clear E Hinit. induction Hsteps; eauto using topo_step_inv.
Qed.
#[export] Hint Resolve topo_step_inv topo_inv_reachable : go.

Definition excluded (id : NodeID) (t : Topology) : Prop :=
  exists ns, nodes t !! id = Some ns /\ permanentlyDown ns = true.

Lemma excluded_update id id' f t :
  (forall ns, permanentlyDown ns = true -> permanentlyDown (f ns) = true) ->
  excluded id t -> excluded id (update_node id' f t).
Proof.
  intros Hf (ns & Hns & Hpd). unfold excluded. rewrite lookup_update_node.
  case_decide; [|eauto]. rewrite Hns. cbn. eauto.
Qed.

Lemma topo_step_excluded id s s' : topo_step s s' -> excluded id s.1 -> excluded id s'.1.
Proof.
  destruct 1 as [| | | | |id' sid first cid t t' fs Hn Hc|f fs1 fs2 err t t' Hv]; cbn [fst].
  1-5: apply excluded_update; intros ns Hpd; cbn; by repeat case_match.
  - unfold claim_cluster in Hc. by repeat case_match; simplify_eq.
  - unfold verify_node in Hv. repeat case_match; simplify_eq; intros Hex.
    + by apply excluded_update.
    + by apply excluded_update.
    + by apply (excluded_update id (if_id f)
        (fun ns => ns <| permanentlyDown := true |> <| liveness := LivenessDown |>)) in Hex.
Qed.

Lemma topo_steps_excluded id s s' : rtc topo_step s s' -> excluded id s.1 -> excluded id s'.1.
Proof. induction 1; eauto using topo_step_excluded. Qed.

(** ** Lemmas on [Primary] *)

Lemma primary_loop_found es found x :
  primary_loop es (Some found) = Some x <-> x = found /\ Forall (fun e => is_primary e.2 = false) es.
Proof.
  induction es as [|[id ns] es IH]; cbn; [naive_solver|].
  rewrite Forall_cons. unfold is_primary at 1. cbn.
  destruct (permanentlyDown ns); cbn; [naive_solver|].
  case_bool_decide; cbn; naive_solver.
Qed.

Lemma primary_loop_spec es x :
  primary_loop es None = Some x <->
  exists es1 es2, es = es1 ++ x :: es2 /\ is_primary x.2 = true /\
    Forall (fun e => is_primary e.2 = false) (es1 ++ es2).
Proof.
  induction es as [|[id ns] es IH]; cbn.
  - split; [done|]. by intros ([|??] & es2 & ? & _).
  - assert (Hskip : is_primary ns = false ->
      (exists es1 es2, (id, ns) :: es = es1 ++ x :: es2 /\ is_primary x.2 = true /\
        Forall (fun e => is_primary e.2 = false) (es1 ++ es2)) <->
      (exists es1 es2, es = es1 ++ x :: es2 /\ is_primary x.2 = true /\
        Forall (fun e => is_primary e.2 = false) (es1 ++ es2))).
    { intros Hn. split.
      - intros ([|e es1] & es2 & [= <- ->] & Hp & Hall); cbn in *; [congruence|].
        apply Forall_cons in Hall as [_ ?]. eauto.
      - intros (es1 & es2 & -> & Hp & Hall). exists ((id, ns) :: es1), es2.
        split; [done|]. split; [done|]. by constructor. }
    unfold is_primary in Hskip at 1. destruct (permanentlyDown ns) eqn:Epd; cbn in Hskip.
    { by rewrite Hskip. }
    case_bool_decide as Hr; cbn in Hskip; [|by rewrite Hskip].
    rewrite primary_loop_found. split.
    + intros [-> Hall]. exists [], es. unfold is_primary at 1. cbn.
      by rewrite Epd, bool_decide_eq_true_2.
    + intros ([|e es1] & es2 & [= <- ->] & Hp & Hall); [done|].
      apply Forall_cons in Hall as [Hn _]. unfold is_primary in Hn. cbn in Hn.
      by rewrite Epd, bool_decide_eq_true_2 in Hn.
Qed.

Definition sole_primary (t : Topology) (id : NodeID) (ns : nodeState) : Prop :=
  nodes t !! id = Some ns /\ is_primary ns = true /\
  forall id' ns', nodes t !! id' = Some ns' -> is_primary ns' = true -> id' = id.

Lemma primary_loop_visit t ord id ns :
  map_order (nodes t) ord ->
  primary_loop (visit (nodes t) ord) None = Some (id, ns) <-> sole_primary t id ns.
Proof.
  intros Hord. rewrite primary_loop_spec. split.
  - intros (es1 & es2 & Hes & Hp & Hall). split; [|split; [done|]].
    + apply (visit_elem _ ord); [done|]. rewrite Hes. set_solver.
    + intros id' ns' Hin Hp'. apply (visit_elem _ ord) in Hin; [|done]. rewrite Hes in Hin.
      destruct (decide (id' = id)) as [|Hne]; [done|]. exfalso.
      rewrite Forall_forall in Hall.
      assert ((id', ns') ∈ es1 ++ es2) as Hin' by set_solver.
      apply Hall in Hin'. cbn in Hin'. congruence.
  - intros (Hin & Hp & Huniq). apply (visit_elem _ ord) in Hin as Hel; [|done].
    apply list_elem_of_split in Hel as (es1 & es2 & Hes). exists es1, es2.
    split; [done|]. split; [done|]. apply Forall_forall. intros [id' ns'] Hel'. cbn.
    destruct (is_primary ns') eqn:Hp'; [|done]. exfalso.
    assert ((id', ns') ∈ visit (nodes t) ord) as Hv by (rewrite Hes; set_solver).
    apply visit_elem in Hv as Hl; [|done]. specialize (Huniq _ _ Hl Hp') as ->.
    pose proof (map_order_NoDup _ _ Hord) as Hnd. rewrite <- (visit_keys _ _ Hord), Hes in Hnd.
    rewrite fmap_app, fmap_cons in Hnd. cbn in Hnd. apply NoDup_app in Hnd as (_ & Hdisj & Hnd).
    apply NoDup_cons in Hnd as [Hnin _].
    apply elem_of_app in Hel' as [Hel'|Hel'].
    + apply (Hdisj id); [|set_solver]. apply list_elem_of_fmap. by exists (id, ns').
    + apply Hnin. apply list_elem_of_fmap. by exists (id, ns').
Qed.

(** ** Lemmas on construction *)

Definition closed_pools (effs : list TopoEffect) : list Manager :=
  omap (fun e => match e with PoolClosed m => Some m | ProbeClosed _ => None end) effs.

Definition pools (t : Topology) : list Manager := (fun e => pool e.2) <$> map_to_list (nodes t).

Definition opened (new_pool : NodeConfig -> error + Manager) (ncs : list NodeConfig) : list Manager :=
  omap (fun nc => match new_pool nc with inr pm => Some pm | inl _ => None end) ncs.

Lemma closed_pools_app e1 e2 : closed_pools (e1 ++ e2) = closed_pools e1 ++ closed_pools e2.
Proof. apply omap_app. Qed.

Lemma closed_pools_Close t ord :
  map_order (nodes t) ord -> closed_pools (Close ord t) ≡ₚ pools t.
Proof.
  intros Hord. unfold pools. rewrite <- (visit_perm _ _ Hord). unfold Close.
  induction (visit (nodes t) ord) as [|[id ns] es IH]; [done|].
  cbn. rewrite closed_pools_app, IH. unfold close_node. by destruct (probe ns).
Qed.

Lemma pools_insert t id ns :
  nodes t !! id = None -> pools (t <| nodes ::= <[id := ns]> |>) ≡ₚ pool ns :: pools t.
Proof. intros H. unfold pools. cbn. by rewrite map_to_list_insert. Qed.

Lemma new_loop_failure new_pool new_probe close_order ncs t effs err :
  (forall t, map_order (nodes t) (close_order t)) ->
  NoDup (nc_ID <$> ncs) -> (forall nc, nc ∈ ncs -> nodes t !! nc_ID nc = None) ->
  new_loop new_pool new_probe close_order ncs t = (effs, inl err) ->
  exists k, closed_pools effs ≡ₚ opened new_pool (take k ncs) ++ pools t.
Proof.
  intros Hord. revert t. induction ncs as [|nc ncs IH]; intros t Hnd Hfresh; cbn; [done|].
  rewrite fmap_cons in Hnd. apply NoDup_cons in Hnd as [Hnin Hnd].
  assert (Hid : nodes t !! nc_ID nc = None) by (apply Hfresh; set_solver).
  destruct (new_pool nc) as [e|pm] eqn:Hpool.
  { intros [= <- _]. exists 1%nat. cbn. rewrite Hpool. cbn. by apply closed_pools_Close. }
  destruct (new_probe nc) as [e|].
  { intros [= <- _]. exists 1%nat. cbn. rewrite Hpool. cbn. f_equiv.
    rewrite closed_pools_Close by apply Hord. unfold pools. cbn.
    by rewrite delete_insert_eq, delete_id. }
  intros Hloop. apply IH in Hloop; [|done|].
  - destruct Hloop as [k Hk]. exists (S k). cbn. rewrite Hpool. cbn. rewrite Hk.
    unfold pools at 1. cbn. rewrite alter_insert_eq, map_to_list_insert by done. cbn.
    by rewrite <- Permutation_middle.
  - intros nc' Hnc'. cbn. rewrite alter_insert_eq, lookup_insert_ne; [apply Hfresh; set_solver|].
    intros Heq. apply Hnin. rewrite Heq. apply list_elem_of_fmap. eauto.
Qed.

(** ** Properties *)

(** C16: under every interleaving of the probes' updates, a node that carries a
    system identifier carries the cluster's: an identifier that disagrees is
    never stored. *)
Theorem cluster_identity_verified (t0 t : Topology) (fs : list inflight) (id : NodeID) (ns : nodeState) :
  initial t0 -> rtc topo_step (t0, []) (t, fs) ->
  nodes t !! id = Some ns -> systemID ns <> "" -> systemID ns = clusterID t.
Proof.
  intros Hinit Hsteps Hns Hne.
  destruct (topo_inv_reachable _ _ Hinit Hsteps) as [Hagree _].
  destruct (Hagree id ns Hns); [done|]. done.
Qed.

Definition demo_config (id role : string) : NodeConfig :=
  MkNodeConfig id "localhost" 5432 role (MkNodeConnectionConfig "u" "p" "d" 0 "")
    (MkNodePoolConfig 0 10 0 0 0 0).

Definition demo_topology : Topology :=
  MkTopology (<["a" := init_node (demo_config "a" "primary") 0%nat]>
             (<["b" := init_node (demo_config "b" "replica") 1%nat]> ∅)) "" None 5000 5000 2000.

Lemma demo_initial : initial demo_topology.
Proof.
  split; [done|]. apply map_Forall_insert_2; [done|].
  apply map_Forall_insert_2; [done|]. apply map_Forall_empty.
Defined.

Definition demo_claimed : Topology := (UpdateSystemID "a" "S1" demo_topology).2.

Lemma cluster_identity_verified_witness :
  systemID ((init_node (demo_config "a" "primary") 0%nat) <| systemID := "S1" |>)
  = clusterID demo_claimed.
Proof.
  apply (cluster_identity_verified demo_topology demo_claimed [] "a" _ demo_initial);
    [|by vm_compute|discriminate].
  eapply rtc_l; [apply (step_claim "a" "S1" true "S1" demo_topology
                           (demo_topology <| clusterID := "S1" |>) []); [by eexists|reflexivity]|].
  eapply rtc_l; [apply (step_verify (MkInflight "a" "S1" true "S1") [] [] None
                           (demo_topology <| clusterID := "S1" |>) demo_claimed); reflexivity|].
  apply rtc_refl.
Defined.

(** Once the cluster has an identifier, no sequence of updates changes it. *)
Theorem cluster_id_never_changes (s s' : Topology * list inflight) :
  rtc topo_step s s' -> clusterID s.1 <> "" -> clusterID s'.1 = clusterID s.1.
Proof.
  induction 1 as [|s1 s2 s3 Hstep _ IH]; [done|]. intros Hne.
  pose proof (topo_step_cluster _ _ Hstep Hne) as Heq.
  rewrite IH; [done|]. by rewrite Heq.
Qed.

Lemma cluster_id_never_changes_witness :
  let t := demo_topology <| clusterID := "S1" |> in
  clusterID (UpdateObservedRole "a" PRolePrimary t) = "S1".
Proof.
  intros t. apply (cluster_id_never_changes (t, []) (UpdateObservedRole "a" PRolePrimary t, [])).
  - apply rtc_once, step_role.
  - discriminate.
Defined.

(** C17: a node excluded for a foreign system identifier stays excluded under
    every interleaving of updates: it is never viewed as up, and neither
    [Primary] nor [Replicas] ever returns it again. *)
Theorem excluded_node_stays_out (id : NodeID) (s : Topology * list inflight) (t : Topology)
    (fs : list inflight) (ord : list NodeID) (now : Time) (clock : NodeID -> Time) :
  excluded id s.1 -> rtc topo_step s (t, fs) -> map_order (nodes t) ord ->
  (forall nv, Node t now id = Some nv -> nv_Liveness nv <> LivenessUp) /\
  (forall nv, Primary t ord now = Some nv -> nv_ID nv <> id) /\
  Forall (fun nv => nv_ID nv <> id) (Replicas t ord clock).
Proof.
  intros Hex Hsteps Hord. destruct (topo_steps_excluded _ _ _ Hsteps Hex) as (ns & Hns & Hpd).
  cbn in Hns. split; [|split].
  - unfold Node. rewrite Hns. cbn. intros nv [= <-]. cbn. rewrite Hpd. by case_match.
  - unfold Primary. intros nv Hnv. destruct (primary_loop _ None) as [[id' ns']|] eqn:E; [|done].
    injection Hnv as <-. cbn. apply primary_loop_visit in E as (Hin & Hp & _); [|done].
    intros ->. unfold is_primary in Hp. rewrite Hns in Hin. injection Hin as <-.
    by rewrite Hpd in Hp.
  - unfold Replicas. apply Forall_fmap, Forall_forall. intros [id' ns'] [[Hf _] Hin]%list_elem_of_filter.
    cbn in *. intros ->. apply visit_elem in Hin; [|done]. congruence.
Qed.

Lemma excluded_node_stays_out_witness :
  let t := (UpdateSystemID "b" "S2" (demo_topology <| clusterID := "S1" |>)).2 in
  excluded "b" t /\ Forall (fun nv => nv_ID nv <> "b") (Replicas t ["a"; "b"] (fun _ => 7)).
Proof.
  intros t. split; [eexists; split; [by vm_compute|done]|].
  apply (excluded_node_stays_out "b" (t, []) t [] ["a"; "b"] 7 (fun _ => 7)).
  - exists ((init_node (demo_config "b" "replica") 1%nat)
              <| permanentlyDown := true |> <| liveness := LivenessDown |>).
    by vm_compute.
  - apply rtc_refl.
  - apply (bool_decide_unpack (["a"; "b"] ≡ₚ elements (dom (nodes t)))). by vm_compute.
Defined.

(** [Primary] does not depend on the iteration order of the node map, and
    it returns a view exactly when one and only one node that is not excluded
    is observed as primary; with none or with several it returns nothing. *)
Theorem Primary_spec (t : Topology) (ord : list NodeID) (now : Time) (nv : NodeView) :
  map_order (nodes t) ord ->
  Primary t ord now = Some nv <->
  exists id ns, sole_primary t id ns /\ nv = nodeView t now id ns.
Proof.
  intros Hord. unfold Primary. split.
  - destruct (primary_loop _ None) as [[id ns]|] eqn:E; [|done]. intros [= <-].
    apply primary_loop_visit in E; [|done]. eauto.
  - intros (id & ns & Hs & ->). apply (primary_loop_visit t ord) in Hs as ->; done.
Qed.

Lemma Primary_spec_witness :
  let t := UpdateObservedRole "a" PRolePrimary demo_topology in
  exists id ns, sole_primary t id ns /\
    nodeView t 7 "a" ((init_node (demo_config "a" "primary") 0%nat) <| observedRole := RolePrimary |>)
    = nodeView t 7 id ns.
Proof.
  intros t. apply (Primary_spec t ["b"; "a"] 7).
  - apply (bool_decide_unpack (["b"; "a"] ≡ₚ elements (dom (nodes t)))). by vm_compute.
  - vm_compute. reflexivity.
Defined.

(** when building the topology fails half way, every connection pool that
    was opened, and no other, is closed, each exactly once. *)
Theorem New_failure_closes_pools (new_pool : NodeConfig -> error + Manager)
    (new_probe : NodeConfig -> option error) (close_order : Topology -> list NodeID)
    (ncs : list NodeConfig) (pc : ProbeConfig) (effs : list TopoEffect) (err : error) :
  (forall t, map_order (nodes t) (close_order t)) ->
  NoDup (nc_ID <$> ncs) ->
  New new_pool new_probe close_order ncs pc = (effs, inl err) ->
  exists k, closed_pools effs ≡ₚ opened new_pool (take k ncs).
Proof.
  intros Hord Hnd HNew.
  apply new_loop_failure in HNew as [k Hk]; [|done|done|by intros nc _].
  exists k. rewrite Hk. unfold pools. cbn. by rewrite map_to_list_empty, app_nil_r.
Qed.

Lemma New_failure_closes_pools_witness :
  let np nc := if String.eqb (nc_ID nc) "b" then inl (OtherError "refused" None) else inr 3%nat in
  exists k, closed_pools (New np (fun _ => None) (fun t => default_order (nodes t))
              [demo_config "a" "primary"; demo_config "b" "replica"] DefaultProbeConfig).1
            ≡ₚ opened np (take k [demo_config "a" "primary"; demo_config "b" "replica"]).
Proof.
  intros np. apply (New_failure_closes_pools np (fun _ => None) (fun t => default_order (nodes t))
    [demo_config "a" "primary"; demo_config "b" "replica"] DefaultProbeConfig _
    (OtherError "node b pool" (Some (OtherError "refused" None)))).
  - intros t. apply default_order_ok.
  - apply (bool_decide_unpack (NoDup _)). by vm_compute.
  - vm_compute. reflexivity.
Defined.

(** an observation older than its maximum age never reaches a consumer as
    fresh: the view of a node probed more than [livenessMaxAgeMs] milliseconds
    ago has unknown liveness, after [observedRoleMaxAgeMs] its role is unknown,
    and a lag sample older than [replicationLagMaxAgeMs] is not fresh. *)
Theorem nodeView_staleness (t : Topology) (now : Time) (id : NodeID) (ns : nodeState) :
  0 <= livenessMaxAgeMs t < max_millis -> 0 <= observedRoleMaxAgeMs t < max_millis ->
  0 <= replicationLagMaxAgeMs t < max_millis ->
  lastProbeAt ns <> time_zero -> lastLagSampleAt ns <> time_zero ->
  let nv := nodeView t now id ns in
  (now - lastProbeAt ns >= (livenessMaxAgeMs t + 1) * 1000000 -> nv_Liveness nv = LivenessUnknown) /\
  (now - lastProbeAt ns >= (observedRoleMaxAgeMs t + 1) * 1000000 -> nv_ObservedRole nv = RoleUnknown) /\
  (now - lastLagSampleAt ns >= (replicationLagMaxAgeMs t + 1) * 1000000 ->
   nv_ReplicationLagState nv <> LagStateFresh) /\
  (now - lastProbeAt ns < (observedRoleMaxAgeMs t + 1) * 1000000 ->
   nv_ObservedRole nv = observedRole ns).
Proof.
  intros Hl Ho Hr Hp Hs. cbn.
  assert (Hstale : forall u age, 0 <= age < max_millis -> u <> time_zero ->
            stale now u age = true <-> now - u >= (age + 1) * 1000000).
  { intros u age Hage Hu. unfold stale, IsZero, time_zero in *.
    apply Z.eqb_neq in Hu as ->. cbn [negb andb].
    rewrite Z.ltb_lt, <- Z.gt_lt_iff, Milliseconds_gt by lia.
    apply Sub_ge. unfold max_millis, min_int64, max_int64 in *. lia. }
  split; [|split; [|split]].
  - intros H. apply Hstale in H; [|done..]. by rewrite H.
  - intros H. apply Hstale in H; [|done..]. by rewrite H.
  - intros H. apply Hstale in H; [|done..]. rewrite H. case_bool_decide; done.
  - intros H. destruct (stale _ _ (observedRoleMaxAgeMs t)) eqn:E; [|done].
    apply Hstale in E; [lia|done..].
Qed.

Lemma nodeView_staleness_witness :
  nv_Liveness (nodeView demo_topology 7000000000 "a"
    ((init_node (demo_config "a" "primary") 0%nat) <| lastProbeAt := 1 |> <| lastLagSampleAt := 1 |>
       <| liveness := LivenessUp |>)) = LivenessUnknown.
Proof.
  refine (proj1 (nodeView_staleness demo_topology 7000000000 "a"
    ((init_node (demo_config "a" "primary") 0%nat) <| lastProbeAt := 1 |> <| lastLagSampleAt := 1 |>
       <| liveness := LivenessUp |>) _ _ _ _ _) _); cbn; unfold max_millis, time_zero; lia.
Defined.
