(* ===== verification/Decisions.v ===== *)
(** * Decisions: routing decision events and their bus (internal/decisions)

    Events are records with the fields of events.go.  The bus keeps one bounded
    buffer per subscriber and never blocks a publisher: an event that does not
    fit is counted as dropped.  A subscriber's channel is a list, oldest event
    first; sending on a closed channel is a panic, [None].  The buffer size is
    positive, as the configuration makes it: with an unbuffered channel a send
    would also succeed when a receiver is waiting. *)

From stdpp Require Import base gmap strings list.
From Stdlib Require Import ZArith Lia.
From S2P Require Import Prelude.

Local Open Scope string_scope.
Local Open Scope Z_scope.
Local Open Scope list_scope.

(** ** Events (events.go) *)

Definition SchemaVersion : string := "1".

Record Classification := MkClassification {
  cl_Type : string; cl_Source : string; cl_SQL : string
}.

Record Candidate := MkCandidate {
  cand_NodeID : string; cand_Eligible : bool; cand_Reasons : list string
}.

Record Outcome := MkOutcome {
  out_Kind : string; out_NodeID : string; out_SQLState : string; out_Reason : string
}.

Record Consistency := MkConsistency {
  cons_Mode : string; cons_LagThresholdMs : option Z; cons_WindowRemainingMs : option Z
}.

Record Event := MkEvent {
  ev_SchemaVersion : string;
  ev_EventID : string;
  ev_Timestamp : Time;
  ev_Port : string;
  ev_PoolMode : string;
  ev_LeaseType : string;
  ev_Classification : Classification;
  ev_Candidates : list Candidate;
  ev_Outcome : Outcome;
  ev_Consistency : option Consistency;
  ev_PoliciesActive : list string;
  ev_Source : string
}.
#[export] Instance Event_eta : Eta Event := fun e =>
  MkEvent (ev_SchemaVersion e) (ev_EventID e) (ev_Timestamp e) (ev_Port e) (ev_PoolMode e)
    (ev_LeaseType e) (ev_Classification e) (ev_Candidates e) (ev_Outcome e)
    (ev_Consistency e) (ev_PoliciesActive e) (ev_Source e).

Definition empty_event : Event :=
  MkEvent "" "" time_zero "" "" "" (MkClassification "" "" "") []
    (MkOutcome "" "" "" "") None [] "".

Record TransitionEvent := MkTransitionEvent {
  te_SchemaVersion : string;
  te_EventID : string;
  te_Timestamp : Time;
  te_PolicyName : string;
  te_Template : string;
  te_Scope : string;
  te_NodeID : string;
  te_FromState : string;
  te_ToState : string;
  te_Reason : string
}.
#[export] Instance TransitionEvent_eta : Eta TransitionEvent := fun e =>
  MkTransitionEvent (te_SchemaVersion e) (te_EventID e) (te_Timestamp e) (te_PolicyName e)
    (te_Template e) (te_Scope e) (te_NodeID e) (te_FromState e) (te_ToState e) (te_Reason e).

Inductive BusEvent :=
| BusDecision (e : Event)
| BusTransition (e : TransitionEvent).

(** ** The bus (bus.go) *)

Record sub := MkSub { ch : list BusEvent; ch_closed : bool; drops : Z }.
#[export] Instance sub_eta : Eta sub := fun s => MkSub (ch s) (ch_closed s) (drops s).

(** [store] holds every subscription object ever handed out, [subscribers] the
    ids that are registered with the bus. *)
Record Bus := MkBus {
  store : gmap Z sub;
  subscribers : gset Z;
  nextSubID : Z;
  closed : bool;
  maxSubs : Z;
  bufSize : Z;
  droppedOTelOverflow : Z;
  droppedSubOverflow : Z
}.
#[export] Instance Bus_eta : Eta Bus := fun b =>
  MkBus (store b) (subscribers b) (nextSubID b) (closed b) (maxSubs b) (bufSize b)
    (droppedOTelOverflow b) (droppedSubOverflow b).

Definition NewBus (maxSubscribers perSubscriberBuffer : Z) : Bus :=
  MkBus ∅ ∅ 0 false maxSubscribers perSubscriberBuffer 0 0.

Definition stamp (now : Time) (ulid : string) (e : BusEvent) : BusEvent :=
  match e with
  | BusDecision e => BusDecision
      (e <| ev_EventID := ulid |> <| ev_Timestamp := now |> <| ev_SchemaVersion := SchemaVersion |>)
  | BusTransition e => BusTransition
      (e <| te_EventID := ulid |> <| te_Timestamp := now |> <| te_SchemaVersion := SchemaVersion |>)
  end.

(** The non-blocking send to one subscriber. *)
Definition send_one (e : BusEvent) (id : Z) (b : Bus) : option Bus :=
  match store b !! id with
  | None => Some b
  | Some s =>
    if ch_closed s then None
    else if Z.of_nat (length (ch s)) <? bufSize b
    then Some (b <| store ::= <[id := s <| ch ::= fun q => q ++ [e] |>]> |>)
    else Some (b <| store ::= <[id := s <| drops ::= inc64 |>]> |>
                 <| droppedSubOverflow ::= inc64 |>)
  end.

Fixpoint send_all (e : BusEvent) (ids : list Z) (b : Bus) : option Bus :=
  match ids with
  | [] => Some b
  | id :: rest => match send_one e id b with Some b' => send_all e rest b' | None => None end
  end.

(** The second critical section of [Publish]; the first only tests [closed]. *)
Definition deliver (ord : list Z) (e : BusEvent) (b : Bus) : option Bus := send_all e ord b.

Definition Publish (ord : list Z) (now : Time) (ulid : string) (e : BusEvent) (b : Bus) : option Bus :=
  if closed b then Some b else deliver ord (stamp now ulid e) b.

Definition Subscribe (b : Bus) : option Z * Bus :=
  if closed b then (None, b)
  else if maxSubs b <=? Z.of_nat (size (subscribers b)) then (None, b)
  else
    let id := nextSubID b in
    (Some id, b <| nextSubID := uwrap64 (id + 1) |>
                <| store ::= <[id := MkSub [] false 0]> |>
                <| subscribers ::= fun s => {[id]} ∪ s |>).

Definition Unsub (id : Z) (b : Bus) : Bus := b <| subscribers ::= fun s => s ∖ {[id]} |>.

Definition DrainDropped (id : Z) (b : Bus) : Z * Bus :=
  match store b !! id with
  | Some s => (drops s, b <| store ::= <[id := s <| drops := 0 |>]> |>)
  | None => (0, b)
  end.

(** A subscriber receives from its channel. *)
Definition Recv (id : Z) (b : Bus) : option BusEvent * Bus :=
  match store b !! id with
  | Some s =>
    match ch s with
    | e :: q => (Some e, b <| store ::= <[id := s <| ch := q |>]> |>)
    | [] => (None, b)
    end
  | None => (None, b)
  end.

Definition SubscriberCount (b : Bus) : nat := size (subscribers b).
Definition DroppedOTelOverflow (b : Bus) : Z := droppedOTelOverflow b.
Definition DroppedSubOverflow (b : Bus) : Z := droppedSubOverflow b.

Definition MarkOTelDropped (n : Z) (b : Bus) : Bus := b <| droppedOTelOverflow ::= fun d => wrap64 (d + n) |>.

Definition close_channels (ids : gset Z) (m : gmap Z sub) : gmap Z sub :=
  map_imap (fun id s => Some (if bool_decide (id ∈ ids) then s <| ch_closed := true |> else s)) m.

Definition BusClose (b : Bus) : Bus :=
  b <| closed := true |> <| store ::= close_channels (subscribers b) |> <| subscribers := ∅ |>.

(** ** Invariant

    The registered subscribers have open channels, no more events than the
    buffer holds, and there are never more of them than the limit; ids are
    handed out below [nextSubID]. *)

Definition bus_inv (b : Bus) : Prop :=
  (forall id, id ∈ subscribers b -> exists s, store b !! id = Some s /\ ch_closed s = false) /\
  (forall id s, store b !! id = Some s -> Z.of_nat (length (ch s)) <= bufSize b) /\
  (forall id, is_Some (store b !! id) -> 0 <= id < nextSubID b) /\
  Z.of_nat (size (subscribers b)) <= maxSubs b /\
  (closed b = true -> subscribers b = ∅) /\
  0 <= nextSubID b.

(** The operations of the bus.  [OpDeliver] is the second critical section of a
    publisher: any other operation, [OpClose] included, may run between the
    test of [closed] and the delivery. *)
Inductive bus_op :=
| OpDeliver (ord : list Z) (e : BusEvent)
| OpSubscribe
| OpUnsub (id : Z)
| OpDrain (id : Z)
| OpRecv (id : Z)
| OpMark (n : Z)
| OpClose.

Definition sub_order (b : Bus) (ord : list Z) : Prop := ord ≡ₚ elements (subscribers b).

Inductive bus_step : Bus -> bus_op -> Bus -> Prop :=
| step_deliver b ord e b' :
    sub_order b ord -> deliver ord e b = Some b' -> bus_step b (OpDeliver ord e) b'
| step_subscribe b : nextSubID b < 2 ^ 64 - 1 -> bus_step b OpSubscribe (Subscribe b).2
| step_unsub b id : bus_step b (OpUnsub id) (Unsub id b)
| step_drain b id : bus_step b (OpDrain id) (DrainDropped id b).2
| step_recv b id : bus_step b (OpRecv id) (Recv id b).2
| step_mark b n : bus_step b (OpMark n) (MarkOTelDropped n b)
| step_close b : bus_step b OpClose (BusClose b).

(** What one delivery does to a subscriber: the event is buffered or counted. *)
Definition receive (size : Z) (e : BusEvent) (s : sub) : sub :=
  if Z.of_nat (length (ch s)) <? size then s <| ch ::= fun q => q ++ [e] |>
  else s <| drops ::= inc64 |>.

Definition overflows (size : Z) (s : sub) : bool := negb (Z.of_nat (length (ch s)) <? size).

Lemma send_one_eq e id b s :
  store b !! id = Some s -> ch_closed s = false ->
  send_one e id b =
    Some (b <| store ::= <[id := receive (bufSize b) e s]> |>
            <| droppedSubOverflow ::= (if overflows (bufSize b) s then inc64 else fun d => d) |>).
Proof.
  intros Hs Hopen. unfold send_one, receive, overflows. rewrite Hs, Hopen.
  by destruct (_ <? _); unfold put_field; cbn; destruct b.
Qed.

Definition overflowing (b : Bus) (ids : list Z) : list Z :=
  filter (fun id => overflows (bufSize b) <$> store b !! id = Some true) ids.

Lemma overflowing_ne b b1 id ids :
  id ∉ ids -> bufSize b1 = bufSize b -> (forall n, n <> id -> store b1 !! n = store b !! n) ->
  overflowing b1 ids = overflowing b ids.
Proof.
  intros Hnin Hsz Hst. unfold overflowing. induction ids as [|n ids IH]; [done|].
  apply not_elem_of_cons in Hnin as [Hne Hnin]. rewrite !filter_cons, Hsz, Hst by congruence.
  rewrite Hsz in IH. by case_decide; rewrite IH.
Qed.

(** A delivery reaches every subscriber of the list once, and touches nothing else. *)
Lemma send_all_spec e ids b :
  NoDup ids ->
  (forall id, id ∈ ids -> exists s, store b !! id = Some s /\ ch_closed s = false) ->
  exists m n, send_all e ids b = Some (b <| store := m |> <| droppedSubOverflow := n |>) /\
    (forall id, m !! id =
       if bool_decide (id ∈ ids) then receive (bufSize b) e <$> store b !! id else store b !! id) /\
    n = Nat.iter (length (overflowing b ids)) inc64 (droppedSubOverflow b).
Proof.
  revert b. induction ids as [|id ids IH]; intros b Hnd Hin.
  { exists (store b), (droppedSubOverflow b). split_and!; [by destruct b| |done].
    intros id. by rewrite bool_decide_eq_false_2 by set_solver. }
  apply NoDup_cons in Hnd as [Hnin Hnd]. cbn [send_all].
  destruct (Hin id) as (s & Hs & Hopen); [set_solver|].
  rewrite (send_one_eq e id b s Hs Hopen). set (b1 := put_field _ _).
  assert (Hne : forall n, n <> id -> store b1 !! n = store b !! n).
  { intros n Hn. subst b1. cbn. by rewrite lookup_insert_ne. }
  destruct (IH b1 Hnd) as (m & n & Hsend & Hm & Hn).
  { intros n Hn. rewrite Hne by set_solver. apply Hin. set_solver. }
  exists m, n. rewrite Hsend. split; [by destruct b|]. split.
  - intros n'. rewrite Hm. destruct (decide (n' = id)) as [->|Hn'].
    + rewrite bool_decide_eq_false_2, bool_decide_eq_true_2 by set_solver.
      subst b1. cbn. by rewrite lookup_insert_eq, Hs.
    + rewrite Hne by done. apply (f_equal (fun c : bool => if c then _ else _)).
      apply bool_decide_ext. set_solver.
  - rewrite Hn, (overflowing_ne b b1 id ids) by done.
    unfold overflowing at 2. rewrite filter_cons, Hs. cbn.
    destruct (overflows (bufSize b) s); cbn; rewrite ?decide_True, ?decide_False by done; [|done].
    cbn. by rewrite <- Nat.iter_succ_r.
Qed.

Lemma receive_bounded size e s :
  Z.of_nat (length (ch s)) <= size -> Z.of_nat (length (ch (receive size e s))) <= size.
Proof.
  intros H. unfold receive. destruct (_ <? _) eqn:E; cbn; [|done].
  apply Z.ltb_lt in E. rewrite length_app. cbn. lia.
Qed.

Lemma receive_closed size e s : ch_closed (receive size e s) = ch_closed s.
Proof. unfold receive. by destruct (_ <? _). Qed.

Lemma sub_order_elem b ord id : sub_order b ord -> id ∈ ord <-> id ∈ subscribers b.
Proof. intros H. by rewrite H, elem_of_elements. Qed.

Lemma sub_order_NoDup b ord : sub_order b ord -> NoDup ord.
Proof. intros H. rewrite H. apply NoDup_elements. Qed.

Lemma deliver_inv b ord e :
  bus_inv b -> sub_order b ord -> exists b', deliver ord e b = Some b' /\ bus_inv b'.
Proof.
  intros (Hopen & Hbuf & Hid & Hsz & Hcl & Hnext) Hord.
  destruct (send_all_spec e ord b) as (m & n & Hsend & Hm & _).
  { by apply (sub_order_NoDup b). }
  { intros id Hin. apply Hopen. by apply (sub_order_elem b ord). }
  exists (b <| store := m |> <| droppedSubOverflow := n |>). split; [done|].
  unfold bus_inv. cbn. split_and!; try done.
  - intros id Hin. rewrite Hm. destruct (Hopen id Hin) as (s & Hs & Ho). rewrite Hs. cbn.
    case_bool_decide; eauto using receive_closed, eq_trans.
  - intros id s. rewrite Hm. case_bool_decide; [|by apply Hbuf].
    intros (s' & Hs' & ->)%fmap_Some. apply receive_bounded. by apply (Hbuf id).
  - intros id. rewrite Hm. case_bool_decide; rewrite ?fmap_is_Some; apply Hid.
Qed.

Lemma deliver_subscribers ord e b b' : deliver ord e b = Some b' -> subscribers b' = subscribers b.
Proof.
  unfold deliver. revert b. induction ord as [|id ord IH]; intros b; cbn [send_all].
  { by intros [= <-]. }
  unfold send_one. destruct (store b !! id) as [s|]; [|apply IH].
  destruct (ch_closed s); [done|]. by destruct (_ <? _); intros ->%IH.
Qed.

Lemma Subscribe_inv b : nextSubID b < 2 ^ 64 - 1 -> 0 <= bufSize b -> bus_inv b -> bus_inv (Subscribe b).2.
Proof.
  intros Hlt Hb Hinv. pose proof Hinv as (Hopen & Hbuf & Hid & Hsz & Hcl & Hnext). unfold Subscribe.
  destruct (closed b) eqn:Ec; [done|].
  destruct (maxSubs b <=? _) eqn:El; [done|]. apply Z.leb_gt in El.
  assert (Hfresh : store b !! nextSubID b = None).
  { destruct (store b !! nextSubID b) eqn:E; [|done]. specialize (Hid (nextSubID b)).
    rewrite E in Hid. destruct Hid; [eauto|lia]. }
  assert (Hw : uwrap64 (nextSubID b + 1) = nextSubID b + 1).
  { apply Z.mod_small. lia. }
  unfold bus_inv. cbn. rewrite Hw, Ec. split_and!; try done; [| | | |lia].
  - intros id. destruct (decide (id = nextSubID b)) as [->|Hne].
    + rewrite lookup_insert_eq. eauto.
    + rewrite lookup_insert_ne by done. intros Hin. apply Hopen. set_solver.
  - intros id s [[<- <-]|[_ Hs]]%lookup_insert_Some; [cbn; lia|by apply (Hbuf id)].
  - intros id. destruct (decide (id = nextSubID b)) as [->|Hne]; [lia|].
    rewrite lookup_insert_ne by done. intros Hin. specialize (Hid id Hin). lia.
  - pose proof (size_union_alt {[nextSubID b]} (subscribers b)) as Hu.
    assert (Hsub : subscribers b ∖ {[nextSubID b]} ⊆ subscribers b) by set_solver.
    apply subseteq_size in Hsub. rewrite Hu, size_singleton. lia.
Qed.

Lemma update_sub_inv b id s s' :
  bus_inv b -> store b !! id = Some s -> ch_closed s' = ch_closed s ->
  (length (ch s') <= length (ch s))%nat -> bus_inv (b <| store ::= <[id := s']> |>).
Proof.
  intros (Hopen & Hbuf & Hid & Hsz & Hcl & Hnext) Hs Hc Hlen. unfold bus_inv. cbn.
  split_and!; try done.
  - intros n Hn. destruct (Hopen n Hn) as (sn & Hsn & Ho). destruct (decide (n = id)) as [->|Hne].
    + rewrite lookup_insert_eq. eexists. split; [done|]. congruence.
    + rewrite lookup_insert_ne by done. eauto.
  - intros n sn [[<- <-]|[_ Hn]]%lookup_insert_Some; [|by apply (Hbuf n)].
    specialize (Hbuf _ _ Hs). lia.
  - intros n. destruct (decide (n = id)) as [->|Hne]; [intros _; apply Hid; eauto|].
    rewrite lookup_insert_ne by done. apply Hid.
Qed.

Lemma BusClose_inv b : bus_inv b -> bus_inv (BusClose b).
Proof.
  intros (Hopen & Hbuf & Hid & Hsz & Hcl & Hnext). unfold bus_inv. cbn. split_and!; try done.
  - intros id s. unfold close_channels. rewrite map_lookup_imap.
    destruct (store b !! id) as [s0|] eqn:E; cbn; [|done]. intros [= <-].
    case_bool_decide; cbn; eauto.
  - intros id. unfold close_channels. rewrite map_lookup_imap. intros H. apply Hid.
    destruct (store b !! id); [eauto|]. by destruct H.
  - rewrite size_empty. lia.
Qed.

Lemma Unsub_inv id b : bus_inv b -> bus_inv (Unsub id b).
Proof.
  intros (Hopen & Hbuf & Hid & Hsz & Hcl & Hnext). unfold bus_inv. cbn. split_and!; try done.
  - intros n Hn. apply Hopen. set_solver.
  - assert (Hsub : subscribers b ∖ {[id]} ⊆ subscribers b) by set_solver.
    apply subseteq_size in Hsub. lia.
  - intros Hc. rewrite (Hcl Hc). set_solver.
Qed.

Lemma bus_step_inv b op b' :
  0 <= bufSize b -> bus_inv b -> bus_step b op b' -> bus_inv b' /\ bufSize b' = bufSize b.
Proof.
  intros Hb Hinv Hstep. destruct Hstep as [b ord e b' Hord Hd|b Hlt|b id|b id|b id|b n|b].
  - destruct (deliver_inv b ord e Hinv Hord) as (b1 & Hd1 & Hinv1). split; [congruence|].
    destruct Hinv as (Hopen & _).
    destruct (send_all_spec e ord b) as (m & n & Hsend & _).
    { by apply (sub_order_NoDup b). }
    { intros id Hin. apply Hopen. by apply (sub_order_elem b ord). }
    unfold deliver in Hd. rewrite Hsend in Hd. by injection Hd as <-.
  - split; [by apply Subscribe_inv|]. unfold Subscribe. by split_ifs.
  - split; [by apply Unsub_inv|done].
  - unfold DrainDropped. destruct (store b !! id) as [s|] eqn:E; [|done]. split; [|done].
    by apply (update_sub_inv b id s).
  - unfold Recv. destruct (store b !! id) as [s|] eqn:E; [|done].
    destruct (ch s) as [|e q] eqn:Eq; [done|]. split; [|done].
    apply (update_sub_inv b id s); [done..|]. rewrite Eq. cbn. lia.
  - done.
  - split; [by apply BusClose_inv|done].
Qed.

Lemma NewBus_inv n size : 0 <= n -> bus_inv (NewBus n size).
Proof.
  intros Hn. unfold bus_inv. cbn. split_and!; try done.
  intros id H. rewrite lookup_empty in H. by destruct H.
Qed.

Lemma bus_steps_inv n size ops b :
  0 <= n -> 0 <= size -> steps bus_step (NewBus n size) ops b -> bus_inv b /\ bufSize b = size.
Proof.
  intros Hn Hs. apply (steps_invariant bus_step (fun b => bus_inv b /\ bufSize b = size)).
  - by split; [apply NewBus_inv|].
  - intros b1 op b2 [Hi Hsz] Hst. destruct (bus_step_inv b1 op b2); [lia|done..|].
    split; [done|congruence].
Qed.

(** ** What a subscriber gets

    A run in which the subscription [id] stays registered, with the events its
    owner takes from the channel and the drops it drains. *)

Definition delivered (ops : list bus_op) : list BusEvent :=
  omap (fun op => match op with OpDeliver _ e => Some e | _ => None end) ops.

Definition keeps (id : Z) (op : bus_op) : Prop := op <> OpClose /\ op <> OpUnsub id.

Definition taken_by (id : Z) (b : Bus) (op : bus_op) : list BusEvent :=
  match op with
  | OpRecv n => if bool_decide (n = id) then option_list (Recv id b).1 else []
  | _ => []
  end.

Definition drained_by (id : Z) (b : Bus) (op : bus_op) : Z :=
  match op with
  | OpDrain n => if bool_decide (n = id) then (DrainDropped id b).1 else 0
  | _ => 0
  end.

Inductive sub_run (id : Z) : Bus -> list bus_op -> Bus -> list BusEvent -> Z -> Prop :=
| sub_run_nil b : sub_run id b [] b [] 0
| sub_run_cons b op b1 ops b2 tk dr :
    bus_step b op b1 -> keeps id op -> sub_run id b1 ops b2 tk dr ->
    sub_run id b (op :: ops) b2 (taken_by id b op ++ tk) (drained_by id b op + dr).

(** [conserves evs s tk dr s']: the events [evs] come in, [tk] are taken and
    [dr] drops drained; what was not taken or dropped is buffered, in order. *)
Definition conserves (evs : list BusEvent) (s : sub) (tk : list BusEvent) (dr : Z) (s' : sub) : Prop :=
  exists kept lost, tk ++ ch s' = ch s ++ kept /\ kept `sublist_of` evs /\
    (length evs = length kept + lost)%nat /\
    wrap64 (dr + drops s') = wrap64 (drops s + Z.of_nat lost).

Lemma conserves_refl s : conserves [] s [] 0 s.
Proof. exists [], 0%nat. cbn. rewrite app_nil_r. split_and!; try done. f_equal. lia. Qed.

Lemma conserves_trans evs1 evs2 s tk1 dr1 s1 tk2 dr2 s2 :
  conserves evs1 s tk1 dr1 s1 -> conserves evs2 s1 tk2 dr2 s2 ->
  conserves (evs1 ++ evs2) s (tk1 ++ tk2) (dr1 + dr2) s2.
Proof.
  intros (k1 & l1 & Ht1 & Hsub1 & Hl1 & Hw1) (k2 & l2 & Ht2 & Hsub2 & Hl2 & Hw2).
  exists (k1 ++ k2), (l1 + l2)%nat. split_and!.
  - by rewrite <- app_assoc, Ht2, !app_assoc, Ht1.
  - by apply sublist_app.
  - rewrite !length_app. lia.
  - transitivity (wrap64 (wrap64 (dr2 + drops s2) + dr1)); [rewrite wrap64_add_l; f_equal; lia|].
    rewrite Hw2, wrap64_add_l.
    transitivity (wrap64 (wrap64 (dr1 + drops s1) + Z.of_nat l2)); [rewrite wrap64_add_l; f_equal; lia|].
    rewrite Hw1, wrap64_add_l. f_equal. lia.
Qed.

Lemma conserves_receive size e s : conserves [e] s [] 0 (receive size e s).
Proof.
  unfold receive. destruct (_ <? _).
  - exists [e], 0%nat. cbn. split_and!; try done. f_equal. lia.
  - exists [], 1%nat. cbn [ch drops app length]. rewrite app_nil_r. split_and!; try done; [apply sublist_nil_l|].
    cbn. change (wrap64 (wrap64 (drops s + 1)) = wrap64 (drops s + 1)).
    apply wrap64_eq, wrap64_mod.
Qed.

Lemma conserves_drain s : conserves [] s [] (drops s) (s <| drops := 0 |>).
Proof.
  exists [], 0%nat. cbn. rewrite app_nil_r. by split_and!.
Qed.

Lemma conserves_take s e q : ch s = e :: q -> conserves [] s [e] 0 (s <| ch := q |>).
Proof.
  intros Hs. exists [], 0%nat. cbn. rewrite app_nil_r, Hs. split_and!; try done. f_equal. lia.
Qed.

Lemma sub_step id b op b1 s :
  bus_inv b -> id ∈ subscribers b -> store b !! id = Some s -> bus_step b op b1 -> keeps id op ->
  exists s1, id ∈ subscribers b1 /\ store b1 !! id = Some s1 /\
    conserves (delivered [op]) s (taken_by id b op) (drained_by id b op) s1.
Proof.
  intros Hinv Hin Hs Hstep [Hcl Hun]. pose proof (conserves_refl s) as Hrefl.
  destruct Hstep as [b ord e b' Hord Hd|b Hlt|b n|b n|b n|b n|b]; try done.
  - destruct Hinv as (Hopen & _). destruct (send_all_spec e ord b) as (m & k & Hsend & Hm & _).
    { by apply (sub_order_NoDup b). }
    { intros i Hi. apply Hopen. by apply (sub_order_elem b ord). }
    unfold deliver in Hd. rewrite Hsend in Hd. injection Hd as <-. cbn.
    exists (receive (bufSize b) e s). split; [done|]. split; [|apply conserves_receive].
    rewrite Hm, bool_decide_eq_true_2, Hs by (by apply (sub_order_elem b ord)). done.
  - exists s. unfold Subscribe. destruct (closed b); [done|]. destruct (_ <=? _); [done|]. cbn.
    split; [set_solver|]. split; [|done]. rewrite lookup_insert_ne; [done|]. intros <-.
    destruct Hinv as (_ & _ & Hid & _). specialize (Hid (nextSubID b)). rewrite Hs in Hid.
    destruct Hid; [eauto|lia].
  - exists s. cbn. split_and!; try done. assert (id <> n) by congruence. set_solver.
  - unfold drained_by, DrainDropped. destruct (decide (n = id)) as [->|Hne].
    + rewrite Hs, bool_decide_eq_true_2 by done. cbn. eexists. split; [done|].
      rewrite lookup_insert_eq. split; [done|apply conserves_drain].
    + exists s. rewrite bool_decide_eq_false_2 by done.
      destruct (store b !! n); cbn; rewrite ?lookup_insert_ne by done; done.
  - unfold taken_by, Recv. destruct (decide (n = id)) as [->|Hne].
    + rewrite Hs, bool_decide_eq_true_2 by done. destruct (ch s) as [|e q] eqn:Eq; [by exists s|].
      cbn. eexists. split; [done|]. rewrite lookup_insert_eq. split; [done|by apply conserves_take].
    + exists s. rewrite bool_decide_eq_false_2 by done.
      destruct (store b !! n) as [sn|]; [|done]. destruct (ch sn); [done|]. cbn.
      by rewrite lookup_insert_ne.
  - by exists s.
Qed.

Lemma sub_run_conserves (id : Z) (b b' : Bus) (ops : list bus_op) (s : sub)
    (taken : list BusEvent) (drained : Z) :
  bus_inv b -> 0 <= bufSize b -> id ∈ subscribers b -> store b !! id = Some s ->
  sub_run id b ops b' taken drained ->
  exists s', store b' !! id = Some s' /\ conserves (delivered ops) s taken drained s'.
Proof.
  intros Hinv Hsz Hin Hs Hrun.
  revert s Hinv Hsz Hin Hs. induction Hrun as [b|b op b1 ops b2 tk dr Hst Hk Hrun IH];
    intros s Hinv Hsz Hin Hs.
  { exists s. split; [done|apply conserves_refl]. }
  destruct (sub_step id b op b1 s Hinv Hin Hs Hst Hk) as (s1 & Hin1 & Hs1 & Hc1).
  destruct (bus_step_inv b op b1 Hsz Hinv Hst) as [Hinv1 Hsz1].
  destruct (IH s1 Hinv1 ltac:(lia) Hin1 Hs1) as (s2 & Hs2 & Hc2).
  exists s2. split; [done|].
  replace (delivered (op :: ops)) with (delivered [op] ++ delivered ops) by (by destruct op).
  by eapply conserves_trans.
Qed.

Lemma sub_run_app id b ops1 b1 tk1 dr1 ops2 b2 tk2 dr2 :
  sub_run id b ops1 b1 tk1 dr1 -> sub_run id b1 ops2 b2 tk2 dr2 ->
  sub_run id b (ops1 ++ ops2) b2 (tk1 ++ tk2) (dr1 + dr2).
Proof.
  intros H1 H2. induction H1 as [b|b op b' ops b1 tk dr Hst Hk Hrun IH]; [done|].
  cbn. rewrite <- app_assoc, <- Z.add_assoc. by eapply sub_run_cons; eauto.
Qed.

Lemma sub_run_take id b e b1 d b2 :
  Recv id b = (Some e, b1) -> DrainDropped id b1 = (d, b2) ->
  sub_run id b [OpRecv id; OpDrain id] b2 [e] d.
Proof.
  intros H1 H2.
  assert (Hd : sub_run id b1 [OpDrain id] b2 ([] ++ []) (d + 0)).
  { replace ([] ++ []) with (taken_by id b1 (OpDrain id) ++ []) by done.
    replace d with (drained_by id b1 (OpDrain id))
      by (unfold drained_by; by rewrite bool_decide_eq_true_2, H2).
    replace b2 with (DrainDropped id b1).2 by (by rewrite H2).
    eapply sub_run_cons; [apply step_drain|by split|apply sub_run_nil]. }
  replace [e] with (taken_by id b (OpRecv id) ++ [])
    by (unfold taken_by; by rewrite bool_decide_eq_true_2, H1).
  replace d with (drained_by id b (OpRecv id) + (d + 0)) by (cbn; lia).
  eapply sub_run_cons; [|by split|exact Hd]. replace b1 with (Recv id b).2 by (by rewrite H1).
  apply step_recv.
Qed.

(** ** Feeds

    A goroutine that consumes a subscription: between its wake-ups other
    goroutines use the bus; it wakes up for a message, which [on_message]
    handles, or for a timer, which only produces output. *)

Definition others (id : Z) (op : bus_op) : Prop :=
  keeps id op /\ op <> OpRecv id /\ op <> OpDrain id.

Inductive feed {F} (on_message : Bus -> option (list F * Bus)) (tick : list F) (id : Z)
  : Bus -> list bus_op -> Bus -> list F -> Prop :=
| feed_idle b : feed on_message tick id b [] b []
| feed_other b op b1 ops b2 fr :
    bus_step b op b1 -> others id op -> feed on_message tick id b1 ops b2 fr ->
    feed on_message tick id b (op :: ops) b2 fr
| feed_tick b ops b2 fr :
    feed on_message tick id b ops b2 fr -> feed on_message tick id b ops b2 (tick ++ fr)
| feed_message b fr1 b1 ops b2 fr :
    on_message b = Some (fr1, b1) -> feed on_message tick id b1 ops b2 fr ->
    feed on_message tick id b ops b2 (fr1 ++ fr).

Definition sum_Z (zs : list Z) : Z := foldr Z.add 0 zs.

Lemma sum_Z_app l l' : sum_Z (l ++ l') = sum_Z l + sum_Z l'.
Proof. induction l as [|z l IH]; cbn; [done|]. unfold sum_Z in *. lia. Qed.

(** A registered subscription whose drop counter has room for [n] more drops. *)
Definition live_sub (id : Z) (n : nat) (b : Bus) : Prop :=
  bus_inv b /\ 0 <= bufSize b /\ id ∈ subscribers b /\
  exists s, store b !! id = Some s /\ 0 <= drops s /\ drops s + Z.of_nat n <= max_int64.

Lemma sub_step_drops id b op b1 s :
  bus_inv b -> id ∈ subscribers b -> store b !! id = Some s -> bus_step b op b1 -> others id op ->
  exists s1, store b1 !! id = Some s1 /\
    (drops s1 = drops s \/ drops s1 = inc64 (drops s) /\ length (delivered [op]) = 1%nat).
Proof.
  intros Hinv Hin Hs Hstep ([Hcl Hun] & Hre & Hdr).
  destruct Hstep as [b ord e b' Hord Hd|b Hlt|b n|b n|b n|b n|b]; try done; try (exists s; by auto).
  - destruct Hinv as (Hopen & _). destruct (send_all_spec e ord b) as (m & k & Hsend & Hm & _).
    { by apply (sub_order_NoDup b). }
    { intros i Hi. apply Hopen. by apply (sub_order_elem b ord). }
    unfold deliver in Hd. rewrite Hsend in Hd. injection Hd as <-. cbn.
    exists (receive (bufSize b) e s).
    rewrite Hm, bool_decide_eq_true_2, Hs by (by apply (sub_order_elem b ord)).
    split; [done|]. unfold receive. destruct (_ <? _); auto.
  - exists s. split; [|by left]. unfold Subscribe. destruct (closed b); [done|]. destruct (_ <=? _); [done|].
    cbn. rewrite lookup_insert_ne; [done|]. intros <-. destruct Hinv as (_ & _ & Hid & _).
    specialize (Hid (nextSubID b)). rewrite Hs in Hid. destruct Hid; [eauto|lia].
  - exists s. split; [|by left]. unfold DrainDropped. assert (n <> id) by congruence.
    destruct (store b !! n); cbn; rewrite ?lookup_insert_ne by done; done.
  - exists s. split; [|by left]. unfold Recv. assert (n <> id) by congruence.
    destruct (store b !! n) as [sn|]; [|done]. destruct (ch sn); [done|]. cbn.
    by rewrite lookup_insert_ne.
Qed.

Lemma live_sub_step id n b op b1 :
  bus_step b op b1 -> others id op -> live_sub id (length (delivered [op]) + n) b -> live_sub id n b1.
Proof.
  intros Hst Ho (Hinv & Hsz & Hin & s & Hs & H0 & Hn).
  destruct (bus_step_inv b op b1 Hsz Hinv Hst) as [Hinv1 Hsz1].
  destruct (sub_step id b op b1 s Hinv Hin Hs Hst (proj1 Ho)) as (_ & Hin1 & _).
  destruct (sub_step_drops id b op b1 s Hinv Hin Hs Hst Ho) as (s1 & Hs1 & Hd).
  split; [done|]. split; [lia|]. split; [done|]. exists s1. split; [done|].
  destruct Hd as [->|[-> Hl]]; [lia|]. unfold inc64. rewrite Hl in Hn.
  rewrite wrap64_id; [lia|]. unfold int64_range, min_int64, max_int64 in *. lia.
Qed.

(** Taking a message drains the counter. *)
Lemma live_sub_take id n b e b1 d b2 :
  live_sub id n b -> Recv id b = (Some e, b1) -> DrainDropped id b1 = (d, b2) ->
  0 <= d /\ live_sub id n b2.
Proof.
  intros (Hinv & Hsz & Hin & s & Hs & H0 & Hn) Hr Hd.
  pose proof (bus_step_inv b (OpRecv id) (Recv id b).2 Hsz Hinv (step_recv b id)) as [Hinv1 Hsz1].
  rewrite Hr in Hinv1, Hsz1. cbn in Hinv1, Hsz1.
  pose proof (bus_step_inv b1 (OpDrain id) (DrainDropped id b1).2 ltac:(lia) Hinv1 (step_drain b1 id))
    as [Hinv2 Hsz2]. rewrite Hd in Hinv2, Hsz2. cbn in Hinv2, Hsz2.
  unfold Recv in Hr. rewrite Hs in Hr. destruct (ch s) as [|e' q]; [done|]. injection Hr as -> <-.
  unfold DrainDropped in Hd. cbn in Hd. rewrite lookup_insert_eq in Hd. injection Hd as <- <-.
  split; [done|]. split; [done|]. split; [lia|]. split; [done|]. eexists. cbn.
  rewrite lookup_insert_eq. split; [done|]. cbn. lia.
Qed.

(** [shown] are the events in an output, [counted] the drops it reports. *)
Section feed_lemmas.
Context {F : Type} (on_message : Bus -> option (list F * Bus)) (tick : list F) (id : Z)
  (shown : F -> list BusEvent) (counted : F -> Z).

Definition shown_all (fr : list F) : list BusEvent := concat (shown <$> fr).
Definition counted_all (fr : list F) : Z := sum_Z (counted <$> fr).

Lemma shown_app fr fr' : shown_all (fr ++ fr') = shown_all fr ++ shown_all fr'.
Proof. unfold shown_all. by rewrite fmap_app, concat_app. Qed.
Lemma counted_app fr fr' : counted_all (fr ++ fr') = counted_all fr + counted_all fr'.
Proof. unfold counted_all. by rewrite fmap_app, sum_Z_app. Qed.

(** What the handler of a message owes: it takes the message and reports its
    drops, and delivers nothing itself. *)
Definition honest : Prop := forall n b fr b1,
  live_sub id n b -> on_message b = Some (fr, b1) ->
  live_sub id n b1 /\ exists ops, sub_run id b ops b1 (shown_all fr) (counted_all fr) /\ delivered ops = [].

Lemma feed_sub_run b ops b' fr :
  shown_all tick = [] -> counted_all tick = 0 -> honest ->
  live_sub id (length (delivered ops)) b ->
  feed on_message tick id b ops b' fr ->
  exists ops', sub_run id b ops' b' (shown_all fr) (counted_all fr) /\ delivered ops' = delivered ops.
Proof.
  intros Ht1 Ht2 Hmsg Hl Hrun.
  induction Hrun as [b|b op b1 ops b2 fr Hst Ho _ IH|b ops b2 fr _ IH|b fr1 b1 ops b2 fr Hm _ IH].
  - exists []. split; [apply sub_run_nil|done].
  - assert (Hd1 : delivered (op :: ops) = delivered [op] ++ delivered ops) by (by destruct op).
    rewrite Hd1, length_app in Hl. pose proof (live_sub_step _ _ _ _ _ Hst Ho Hl) as Hl1.
    destruct (IH Hl1) as (ops' & Hr & Hd). exists (op :: ops'). destruct Ho as (Hk & H1 & H2).
    split; [|unfold delivered in *; cbn; by rewrite Hd].
    pose proof (sub_run_cons id b op b1 ops' b2 _ _ Hst Hk Hr) as Hc.
    assert (taken_by id b op = []) as E1
      by (destruct op; try done; cbn; rewrite bool_decide_eq_false_2; congruence).
    assert (drained_by id b op = 0) as E2
      by (destruct op; try done; cbn; rewrite bool_decide_eq_false_2; congruence).
    by rewrite E1, E2 in Hc.
  - destruct (IH Hl) as (ops' & Hr & Hd). exists ops'. by rewrite shown_app, counted_app, Ht1, Ht2.
  - destruct (Hmsg _ _ _ _ Hl Hm) as (Hl1 & ops1 & Hr1 & Hd1).
    destruct (IH Hl1) as (ops' & Hr & Hd). exists (ops1 ++ ops').
    rewrite shown_app, counted_app. split; [by eapply sub_run_app|].
    unfold delivered in *. by rewrite omap_app, Hd1, Hd.
Qed.

(** What a feed shows and counts accounts for every event published. *)
Lemma feed_conserves b ops b' fr s :
  shown_all tick = [] -> counted_all tick = 0 -> honest ->
  live_sub id (length (delivered ops)) b -> store b !! id = Some s ->
  feed on_message tick id b ops b' fr ->
  exists s', store b' !! id = Some s' /\
    conserves (delivered ops) s (shown_all fr) (counted_all fr) s'.
Proof.
  intros Ht1 Ht2 Hh Hl Hs Hrun.
  destruct (feed_sub_run b ops b' fr Ht1 Ht2 Hh Hl Hrun) as (ops' & Hr & <-).
  destruct Hl as (Hinv & Hsz & Hin & _). by eapply sub_run_conserves.
Qed.

End feed_lemmas.

(** ** Properties *)

(** C27: The bus never sends on a closed channel and stays within its limits:
    after any interleaving of publications, subscriptions, unsubscriptions,
    receives, drains and a close, there are at most [maxSubscribers]
    subscribers, no buffer holds more than [perSubscriberBuffer] events, and a
    publisher that has passed its test of [closed] delivers without a panic
    and without blocking, even when the bus was closed in between. *)
Theorem bus_safe (maxSubscribers perSubscriberBuffer : Z) (ops : list bus_op) (b : Bus)
    (ord : list Z) (now : Time) (ulid : string) (e : BusEvent) :
  0 <= maxSubscribers -> 0 <= perSubscriberBuffer ->
  steps bus_step (NewBus maxSubscribers perSubscriberBuffer) ops b -> sub_order b ord ->
  Z.of_nat (SubscriberCount b) <= maxSubs b /\
  (forall id s, store b !! id = Some s -> Z.of_nat (length (ch s)) <= perSubscriberBuffer) /\
  exists b1 b2, deliver ord (stamp now ulid e) b = Some b1 /\ Publish ord now ulid e b = Some b2 /\
    bus_inv b1 /\ bus_inv b2.
Proof.
  intros Hn Hs Hrun Hord. destruct (bus_steps_inv _ _ _ _ Hn Hs Hrun) as [Hinv Hsz].
  pose proof Hinv as (_ & Hbuf & _ & Hmax & _). split; [done|]. rewrite <- Hsz. split; [done|].
  destruct (deliver_inv b ord (stamp now ulid e) Hinv Hord) as (b1 & Hd & Hinv1).
  unfold Publish. rewrite Hd. destruct (closed b); by do 2 eexists.
Qed.

Definition demo_event : BusEvent := BusDecision empty_event.

(** One subscriber with a buffer of one: the second event is dropped. *)
Definition demo_ops : list bus_op :=
  [OpSubscribe; OpDeliver [0] demo_event; OpDeliver [0] demo_event].
Definition demo_state (q : list BusEvent) (drops overflow : Z) : Bus :=
  MkBus {[0 := MkSub q false drops]} {[0]} 1 false 2 1 0 overflow.
Definition demo_bus : Bus := demo_state [demo_event] 1 1.

Lemma demo_bus_run : steps bus_step (NewBus 2 1) demo_ops demo_bus.
Proof.
  eapply (steps_cons _ _ _ (demo_state [] 0 0)); [by apply (step_subscribe (NewBus 2 1))|].
  eapply (steps_cons _ _ _ (demo_state [demo_event] 0 0)); [by apply step_deliver; vm_compute|].
  eapply (steps_cons _ _ _ demo_bus); [by apply step_deliver; vm_compute|]. apply steps_nil.
Qed.

Lemma bus_safe_witness :
  Z.of_nat (SubscriberCount demo_bus) <= maxSubs demo_bus /\
  (forall id s, store demo_bus !! id = Some s -> Z.of_nat (length (ch s)) <= 1) /\
  exists b1 b2, deliver [0] (stamp 5 "id" demo_event) demo_bus = Some b1 /\
    Publish [0] 5 "id" demo_event demo_bus = Some b2 /\ bus_inv b1 /\ bus_inv b2.
Proof.
  apply (bus_safe 2 1 demo_ops demo_bus [0] 5 "id" demo_event);
    [by vm_compute|by vm_compute|exact demo_bus_run|].
  unfold sub_order. by vm_compute.
Defined.

(** C28: A subscriber loses nothing silently and sees events in order: while
    its subscription stays registered, the events it took followed by the ones
    still buffered are the initially buffered ones followed by a subsequence of
    the events published meanwhile, and every event published but missing from
    that subsequence is accounted for in the drop counter it drains. *)
Theorem subscriber_conservation (id : Z) (b b' : Bus) (ops : list bus_op) (s : sub)
    (taken : list BusEvent) (drained : Z) :
  bus_inv b -> 0 <= bufSize b -> id ∈ subscribers b -> store b !! id = Some s ->
  sub_run id b ops b' taken drained ->
  exists s' kept lost, store b' !! id = Some s' /\
    taken ++ ch s' = ch s ++ kept /\ kept `sublist_of` delivered ops /\
    (length (delivered ops) = length kept + lost)%nat /\
    wrap64 (drained + drops s') = wrap64 (drops s + Z.of_nat lost).
Proof.
  intros Hinv Hsz Hin Hs Hrun.
  destruct (sub_run_conserves id b b' ops s taken drained) as (s' & Hs' & kept & lost & H); try done.
  by exists s', kept, lost.
Qed.

Lemma demo_sub_run :
  sub_run 0 demo_bus [OpDeliver [0] demo_event; OpRecv 0; OpDrain 0]
    (demo_state [] 0 2) [demo_event] 2.
Proof.
  apply (sub_run_cons 0 demo_bus (OpDeliver [0] demo_event) (demo_state [demo_event] 2 2)
           _ _ [demo_event] 2);
    [by apply step_deliver; vm_compute|by split|].
  apply (sub_run_cons 0 (demo_state [demo_event] 2 2) (OpRecv 0) (demo_state [] 2 2) _ _ [] 2);
    [by apply (step_recv (demo_state [demo_event] 2 2))|by split|].
  apply (sub_run_cons 0 (demo_state [] 2 2) (OpDrain 0) (demo_state [] 0 2) _ _ [] 0);
    [by apply (step_drain (demo_state [] 2 2))|by split|].
  apply sub_run_nil.
Qed.

Lemma subscriber_conservation_witness :
  exists s' kept lost,
    store (demo_state [] 0 2) !! 0 = Some s' /\
    [demo_event] ++ ch s' = [demo_event] ++ kept /\
    kept `sublist_of` delivered [OpDeliver [0] demo_event; OpRecv 0; OpDrain 0] /\
    length (delivered [OpDeliver [0] demo_event; OpRecv 0; OpDrain 0]) = (length kept + lost)%nat /\
    wrap64 (2 + drops s') = wrap64 (1 + Z.of_nat lost).
Proof.
  apply (subscriber_conservation 0 demo_bus _ _ (MkSub [demo_event] false 1) _ _);
    [|by vm_compute|set_solver|by vm_compute|exact demo_sub_run].
  apply (bus_steps_inv 2 1 demo_ops); [lia|lia|exact demo_bus_run].
Defined.
