(* ===== verification/Ulid.v ===== *)
(** * Ulid: identifiers of decision events (internal/decisions/ulid.go)

    The clock and the random source are arguments: [now] is the time in
    milliseconds and [rnd] the ten random bytes.  Bytes are integers in
    [0, 256). *)

From stdpp Require Import base list strings.
From Stdlib Require Import ZArith Lia Ascii.
From S2P Require Import Prelude GoStrings.

Local Open Scope string_scope.
Local Open Scope Z_scope.
Local Open Scope list_scope.

Definition encoding : string := "0123456789ABCDEFGHJKMNPQRSTVWXYZ".

Definition byte (x : Z) : Z := Z.land x 255.

Definition ulid_src (now : Z) (rnd : list Z) : list Z :=
  [byte (Z.shiftr now 40); byte (Z.shiftr now 32); byte (Z.shiftr now 24); byte (Z.shiftr now 16);
   byte (Z.shiftr now 8); byte now] ++ rnd.

(** The five bits of position [i]: a window of two bytes, as a [uint16]. *)
Definition ulid_digit (src : list Z) (i : nat) : Z :=
  let bitOff := (i * 5)%nat in
  let byteIdx := (bitOff / 8)%nat in
  let bitShift := (bitOff mod 8)%nat in
  let val := Z.land (Z.shiftl (nth byteIdx src 0) 8) 65535 in
  let val := if (byteIdx + 1 <? 16)%nat then Z.lor val (nth (byteIdx + 1) src 0) else val in
  Z.land (Z.shiftr val (16 - 5 - Z.of_nat bitShift)) 31.

Definition enc (d : Z) : ascii := default "0"%char (String.get (Z.to_nat d) encoding).

Definition encode (ds : list Z) : string := foldr (fun d s => String (enc d) s) "" ds.

Definition NewULID (now : Z) (rnd : list Z) : string :=
  encode (ulid_digit (ulid_src now rnd) <$> seq 0 26).

(** ** Lemmas: positional values *)

Definition value (base : Z) (l : list Z) : Z := foldl (fun a b => a * base + b) 0 l.

Definition digits (base : Z) (l : list Z) : Prop := Forall (fun b => 0 <= b < base) l.

Lemma value_foldl base l : forall a, foldl (fun a b => a * base + b) a l = a * base ^ Z.of_nat (length l) + value base l.
Proof.
  unfold value. induction l as [|x l IH]; intros a; cbn [foldl length]; [cbn; lia|].
  rewrite IH, (IH (0 * base + x)), Nat2Z.inj_succ, Z.pow_succ_r by lia. ring.
Qed.

Lemma value_cons base x l : value base (x :: l) = x * base ^ Z.of_nat (length l) + value base l.
Proof. unfold value at 1. cbn [foldl]. rewrite value_foldl. ring. Qed.

Lemma value_app base l1 l2 : value base (l1 ++ l2) = value base l1 * base ^ Z.of_nat (length l2) + value base l2.
Proof. unfold value at 1. rewrite foldl_app. apply value_foldl. Qed.

Lemma value_range base l : 0 < base -> digits base l -> 0 <= value base l < base ^ Z.of_nat (length l).
Proof.
  intros Hb. induction l as [|x l IH]; intros H; [cbn; lia|].
  apply Forall_cons in H as [Hx H]. specialize (IH H). rewrite value_cons. cbn [length].
  rewrite Nat2Z.inj_succ, Z.pow_succ_r by lia. nia.
Qed.

Lemma byte_mod x : byte x = x mod 256.
Proof. unfold byte. change 255 with (Z.ones 8). by rewrite Z.land_ones by lia. Qed.

(** The digits of a number in base 32, most significant first. *)
Lemma value_digits n : forall X,
  value 32 ((fun i => (X / 32 ^ Z.of_nat (n - 1 - i)) mod 32) <$> seq 0 n) = X mod 32 ^ Z.of_nat n.
Proof.
  induction n as [|n IH]; intros X; [cbn; by rewrite Z.mod_1_r|].
  rewrite seq_S, fmap_app, value_app. cbn [fmap list_fmap length].
  replace (S n - 1 - (0 + n))%nat with 0%nat by lia. change (32 ^ Z.of_nat 0) with 1. rewrite Z.div_1_r.
  assert (Hm : (fun i => (X / 32 ^ Z.of_nat (S n - 1 - i)) mod 32) <$> seq 0 n =
               (fun i => (X / 32 / 32 ^ Z.of_nat (n - 1 - i)) mod 32) <$> seq 0 n).
  { apply list_fmap_ext. intros i k Hk. apply lookup_seq in Hk as [-> Hk]. f_equal.
    rewrite Z.div_div by lia. f_equal. rewrite <- Z.pow_succ_r by lia. f_equal. lia. }
  rewrite Hm, IH. change (value 32 [X mod 32]) with (0 * 32 + X mod 32).
  change (32 ^ Z.of_nat 1) with 32. rewrite (Nat2Z.inj_succ n), Z.pow_succ_r by lia.
  rewrite (Z.rem_mul_r X 32) by lia. lia.
Qed.

(** A window of sixteen bits in a long number. *)
Lemma window (H w L q s : Z) :
  0 <= w < 65536 -> 0 <= q -> 0 <= L < 2 ^ q -> 0 <= s <= 11 ->
  (((H * 65536 + w) * 2 ^ q + L) / 2 ^ (q + s)) mod 32 = (w / 2 ^ s) mod 32.
Proof.
  intros Hw Hq HL Hs. rewrite Z.pow_add_r by lia. rewrite <- Z.div_div by (try apply Z.pow_pos_nonneg; try apply Z.pow_nonzero; lia).
  rewrite Z.div_add_l by (apply Z.pow_nonzero; lia). rewrite (Z.div_small L) by lia. rewrite Z.add_0_r.
  replace 65536 with (2 ^ (16 - s) * 2 ^ s) by (rewrite <- Z.pow_add_r by lia; by replace (16 - s + s) with 16 by lia).
  rewrite Z.mul_assoc, Z.div_add_l by (apply Z.pow_nonzero; lia).
  replace (16 - s) with (11 - s + 5) by lia. rewrite Z.pow_add_r by lia. change (2 ^ 5) with 32.
  rewrite Z.mul_assoc, Z.add_comm. apply Z_mod_plus_full.
Qed.

Lemma high_bits y n : 0 <= y < 256 -> 8 <= n -> Z.testbit y n = false.
Proof.
  intros Hy Hn. apply Z.testbit_false; [lia|]. rewrite Z.div_small; [done|]. split; [lia|].
  apply (Z.lt_le_trans _ (2 ^ 8)); [lia|]. apply Z.pow_le_mono_r; lia.
Qed.

Lemma lor_byte x y : 0 <= y < 256 -> Z.lor (x * 256) y = x * 256 + y.
Proof.
  intros Hy. assert (Hl : Z.land (x * 256) y = 0).
  { apply Z.bits_inj'. intros n Hn. rewrite Z.land_spec, Z.bits_0. change 256 with (2 ^ 8).
    destruct (Z.lt_ge_cases n 8) as [H|H]; [by rewrite Z.mul_pow2_bits_low by lia|].
    rewrite (high_bits y n) by lia. apply andb_false_r. }
  by rewrite Z.add_nocarry_lxor, Z.lxor_lor.
Qed.

Lemma split_pair (l : list Z) b :
  (b + 1 < length l)%nat -> l = take b l ++ [nth b l 0; nth (b + 1) l 0] ++ drop (b + 2) l.
Proof.
  intros Hb. rewrite <- (take_drop b l) at 1. f_equal.
  assert (Hd : forall k, (k < length l)%nat -> drop k l = nth k l 0 :: drop (S k) l).
  { intros k Hk. rewrite nth_lookup. destruct (lookup_lt_is_Some_2 l k Hk) as [x Hx]. rewrite Hx. by apply drop_S. }
  rewrite (Hd b) by lia. cbn [app]. f_equal. replace (b + 1)%nat with (S b) by lia.
  rewrite (Hd (S b)) by lia. by replace (b + 2)%nat with (S (S b)) by lia.
Qed.

Lemma nth_digit base l i : 0 < base -> digits base l -> 0 <= nth i l 0 < base.
Proof.
  intros Hb H. rewrite nth_lookup. destruct (l !! i) as [x|] eqn:Hx; cbn; [|lia].
  exact (Forall_lookup_1 _ _ _ _ H Hx).
Qed.

(** The window of two bytes at [b], in arithmetic. *)
Lemma ulid_window src b :
  length src = 16%nat -> digits 256 src -> (b < 16)%nat ->
  (if (b + 1 <? 16)%nat then Z.lor (Z.land (Z.shiftl (nth b src 0) 8) 65535) (nth (b + 1) src 0)
   else Z.land (Z.shiftl (nth b src 0) 8) 65535) = nth b (src ++ [0]) 0 * 256 + nth (b + 1) (src ++ [0]) 0.
Proof.
  intros Hlen Hsrc Hb. pose proof (nth_digit 256 src b ltac:(lia) Hsrc) as Hx.
  rewrite Z.shiftl_mul_pow2 by lia. change 65535 with (Z.ones 16). rewrite Z.land_ones by lia.
  rewrite Z.mod_small by (change (2 ^ 8) with 256; change (2 ^ 16) with 65536; lia). change (2 ^ 8) with 256.
  rewrite app_nth1 by lia. destruct (Nat.ltb_spec (b + 1) 16) as [Hlt|Hge].
  - rewrite lor_byte by (by apply nth_digit). by rewrite app_nth1 by lia.
  - replace (b + 1)%nat with (length src) by lia. rewrite nth_middle. lia.
Qed.

(** Each character is a digit of the 128-bit number, shifted by the two bits of padding. *)
Lemma ulid_digit_spec src i :
  length src = 16%nat -> digits 256 src -> (i < 26)%nat ->
  ulid_digit src i = (value 256 src * 4 / 32 ^ Z.of_nat (25 - i)) mod 32.
Proof.
  intros Hlen Hsrc Hi. unfold ulid_digit. cbv zeta.
  set (b := (i * 5 / 8)%nat). set (sh := (i * 5 mod 8)%nat).
  assert (Hb : (i * 5 = 8 * b + sh)%nat) by (apply Nat.div_mod; lia).
  assert (Hsh : (sh < 8)%nat) by (apply Nat.mod_upper_bound; lia).
  rewrite (ulid_window src b) by (done || lia). change 31 with (Z.ones 5). rewrite Z.land_ones, Z.shiftr_div_pow2 by lia.
  change (2 ^ 5) with 32. set (l := src ++ [0]).
  assert (Hl : digits 256 l) by (apply Forall_app; split; [done|]; apply Forall_singleton; lia).
  assert (Hlen' : length l = 17%nat) by (unfold l; rewrite length_app, Hlen; done).
  set (rest := drop (b + 2) l). assert (Hrest : length rest = (15 - b)%nat) by (unfold rest; rewrite length_drop; lia).
  assert (HV : value 256 src * 256 =
    (value 256 (take b l) * 65536 + (nth b l 0 * 256 + nth (b + 1) l 0)) * 2 ^ (8 * (15 - Z.of_nat b)) + value 256 rest).
  { transitivity (value 256 l); [unfold l; rewrite value_app; cbn; lia|].
    rewrite (split_pair l b) at 1 by lia. rewrite !value_app, !length_app. fold rest. rewrite Hrest. cbn [length].
    change (value 256 [nth b l 0; nth (b + 1) l 0]) with ((0 * 256 + nth b l 0) * 256 + nth (b + 1) l 0).
    rewrite Nat2Z.inj_add, Z.pow_add_r by lia. change (256 ^ Z.of_nat 2) with 65536.
    replace (2 ^ (8 * (15 - Z.of_nat b))) with (256 ^ Z.of_nat (15 - b)); [ring|].
    change 256 with (2 ^ 8). rewrite <- Z.pow_mul_r by lia. f_equal. lia. }
  assert (Hr : 0 <= value 256 rest < 2 ^ (8 * (15 - Z.of_nat b))).
  { replace (2 ^ (8 * (15 - Z.of_nat b))) with (256 ^ Z.of_nat (length rest)); [apply value_range; [lia|by apply Forall_drop]|].
    rewrite Hrest. change 256 with (2 ^ 8). rewrite <- Z.pow_mul_r by lia. f_equal. lia. }
  assert (Hx : 0 <= nth b l 0 < 256) by (by apply nth_digit). assert (Hy : 0 <= nth (b + 1) l 0 < 256) by (by apply nth_digit).
  rewrite <- (window (value 256 (take b l)) _ (value 256 rest) (8 * (15 - Z.of_nat b)) (16 - 5 - Z.of_nat sh)) by lia.
  rewrite <- HV, <- (Z.div_mul_cancel_r (value 256 src * 4) (32 ^ Z.of_nat (25 - i)) 64) by (try apply Z.pow_nonzero; lia).
  f_equal. f_equal; [lia|]. change 32 with (2 ^ 5). change 64 with (2 ^ 6). rewrite <- Z.pow_mul_r, <- Z.pow_add_r by lia. f_equal. lia.
Qed.

Lemma ulid_src_value now rnd :
  0 <= now < 2 ^ 48 -> length rnd = 10%nat -> digits 256 rnd ->
  length (ulid_src now rnd) = 16%nat /\ digits 256 (ulid_src now rnd) /\
  value 256 (ulid_src now rnd) = now * 2 ^ 80 + value 256 rnd.
Proof.
  intros Hnow Hlen Hrnd. unfold ulid_src. rewrite !byte_mod, !Z.shiftr_div_pow2 by lia.
  split; [by rewrite length_app, Hlen|]. split.
  - apply Forall_app. split; [|done]. repeat apply Forall_cons_2; try apply Forall_nil_2; apply Z.mod_pos_bound; lia.
  - rewrite value_app, Hlen. change (256 ^ Z.of_nat 10) with (2 ^ 80). f_equal. f_equal.
    unfold value. cbn [foldl]. change (2 ^ 40) with (256 * (256 * (256 * (256 * 256)))).
    change (2 ^ 32) with (256 * (256 * (256 * 256))). change (2 ^ 24) with (256 * (256 * 256)).
    change (2 ^ 16) with (256 * 256). change (2 ^ 8) with 256. change (2 ^ 48) with 281474976710656 in Hnow.
    rewrite <- !Z.div_div by lia. Z.to_euclidean_division_equations. lia.
Qed.

Lemma enc_compare_all :
  forallb (fun x => forallb (fun y => bool_decide (Ascii.compare (enc (Z.of_nat x)) (enc (Z.of_nat y)) =
    Z.compare (Z.of_nat x) (Z.of_nat y))) (seq 0 32)) (seq 0 32) = true.
Proof. vm_compute. reflexivity. Qed.

Lemma enc_compare x y : 0 <= x < 32 -> 0 <= y < 32 -> Ascii.compare (enc x) (enc y) = Z.compare x y.
Proof.
  intros Hx Hy. pose proof enc_compare_all as H.
  rewrite forallb_forall in H. specialize (H (Z.to_nat x)). rewrite forallb_forall in H.
  specialize (H ltac:(apply in_seq; lia) (Z.to_nat y) ltac:(apply in_seq; lia)).
  apply bool_decide_eq_true in H. by rewrite !Z2Nat.id in H by lia.
Qed.

(** Texts of equally many digits compare like the numbers they stand for. *)
Lemma encode_compare l1 : forall l2,
  length l1 = length l2 -> digits 32 l1 -> digits 32 l2 ->
  String.compare (encode l1) (encode l2) = Z.compare (value 32 l1) (value 32 l2).
Proof.
  induction l1 as [|x l1 IH]; intros [|y l2] Hlen H1 H2; try done.
  injection Hlen as Hlen. apply Forall_cons in H1 as [Hx H1], H2 as [Hy H2].
  rewrite !value_cons, Hlen. cbn [encode foldr String.compare]. rewrite enc_compare by done.
  pose proof (value_range 32 l1 ltac:(lia) H1) as R1. pose proof (value_range 32 l2 ltac:(lia) H2) as R2. rewrite Hlen in R1.
  fold (encode l1) (encode l2). rewrite (IH l2 Hlen H1 H2). clear IH.
  destruct (Z.compare_spec x y) as [->|Hlt|Hgt]; symmetry.
  - destruct (Z.compare_spec (value 32 l1) (value 32 l2)); [apply Z.compare_eq_iff|apply Z.compare_lt_iff|apply Z.compare_gt_iff]; lia.
  - apply Z.compare_lt_iff. nia.
  - apply Z.compare_gt_iff. nia.
Qed.

Lemma NewULID_value now rnd :
  0 <= now < 2 ^ 48 -> length rnd = 10%nat -> digits 256 rnd ->
  exists ds, NewULID now rnd = encode ds /\ length ds = 26%nat /\ digits 32 ds /\
    value 32 ds = (now * 2 ^ 80 + value 256 rnd) * 4.
Proof.
  intros Hnow Hlen Hrnd. destruct (ulid_src_value now rnd Hnow Hlen Hrnd) as (Hl & Hd & Hv).
  pose proof (value_range 256 _ ltac:(lia) Hd) as Hr. rewrite Hl in Hr. change (256 ^ Z.of_nat 16) with (2 ^ 128) in Hr.
  set (V := value 256 (ulid_src now rnd)) in *.
  assert (Hds : ulid_digit (ulid_src now rnd) <$> seq 0 26 = (fun i => (V * 4 / 32 ^ Z.of_nat (26 - 1 - i)) mod 32) <$> seq 0 26).
  { apply list_fmap_ext. intros i k Hk. apply lookup_seq in Hk as [-> Hk]. by apply ulid_digit_spec. }
  eexists. split; [done|]. rewrite Hds. split; [by rewrite length_fmap, length_seq|]. split.
  - apply Forall_fmap, Forall_forall. intros i _. apply Z.mod_pos_bound. lia.
  - rewrite value_digits, <- Hv. apply Z.mod_small. change (32 ^ Z.of_nat 26) with (2 ^ 130).
    change (2 ^ 130) with (4 * 2 ^ 128). lia.
Qed.

(** Identifiers sort by time: read as text, two identifiers compare
    exactly like their times, and those of the same millisecond like their
    random parts; so they are equal only when both parts are. *)
Theorem NewULID_order (now now' : Z) (rnd rnd' : list Z) :
  0 <= now < 2 ^ 48 -> 0 <= now' < 2 ^ 48 -> length rnd = 10%nat -> length rnd' = 10%nat ->
  digits 256 rnd -> digits 256 rnd' ->
  String.compare (NewULID now rnd) (NewULID now' rnd') =
  match Z.compare now now' with
  | Eq => Z.compare (value 256 rnd) (value 256 rnd')
  | c => c
  end.
Proof.
  intros Hn Hn' Hl Hl' Hd Hd'.
  destruct (NewULID_value now rnd Hn Hl Hd) as (ds & -> & Hlen & Hdig & Hv).
  destruct (NewULID_value now' rnd' Hn' Hl' Hd') as (ds' & -> & Hlen' & Hdig' & Hv').
  rewrite encode_compare, Hv, Hv' by (done || congruence).
  pose proof (value_range 256 rnd ltac:(lia) Hd) as R. rewrite Hl in R. change (256 ^ Z.of_nat 10) with (2 ^ 80) in R.
  pose proof (value_range 256 rnd' ltac:(lia) Hd') as R'. rewrite Hl' in R'. change (256 ^ Z.of_nat 10) with (2 ^ 80) in R'.
  destruct (Z.compare_spec now now') as [->|Hlt|Hgt].
  - destruct (Z.compare_spec (value 256 rnd) (value 256 rnd'));
      [apply Z.compare_eq_iff|apply Z.compare_lt_iff|apply Z.compare_gt_iff]; lia.
  - apply Z.compare_lt_iff. lia.
  - apply Z.compare_gt_iff. lia.
Qed.

Lemma NewULID_order_witness :
  String.compare (NewULID 1700000000000 (repeat 255 10)) (NewULID 1700000000001 (repeat 0 10)) = Lt.
Proof.
  rewrite NewULID_order; [reflexivity|lia|lia|reflexivity|reflexivity|..].
  all: apply Forall_forall; intros x Hx; apply list_elem_of_In, repeat_spec in Hx; lia.
Defined.

(** The first character carries five bits of the time, not three: the result
    is not in the form of the ULID specification, whose padding comes first. *)
Theorem ulid_padding_at_end : NewULID (2 ^ 48 - 1) (repeat 255 10) = "ZZZZZZZZZZZZZZZZZZZZZZZZZW".
Proof. vm_compute. reflexivity. Qed.
