(* ===== verification/Policy.v ===== *)
(** * Policy: the policy engine (internal/policy)

    Every policy instance keeps a four-state machine per node: [StateClean],
    [StatePending] while a rejection dwells, [StateActive], and
    [StateReleasing] until the release time has passed.  The evaluators decide
    from a node view whether a policy rejects the node now. *)

From stdpp Require Import base gmap strings list sorting.
From Stdlib Require Import ZArith Lia.
From S2P Require Import Prelude Types Topology Decisions.

Local Open Scope string_scope.
Local Open Scope Z_scope.
Local Open Scope list_scope.

(** ** Data (engine.go, templates.go) *)

Inductive State := StateClean | StatePending | StateActive | StateReleasing.
#[export] Instance State_eq_dec : EqDecision State.
Proof. solve_decision. Defined.

Definition State_String (s : State) : string :=
  match s with
  | StateClean => "clean" | StatePending => "pending"
  | StateActive => "active" | StateReleasing => "releasing"
  end.

Definition TemplateHealthFilter : string := "health-filter".
Definition TemplateLagFilter : string := "lag-filter".
Definition TemplatePoolSaturation : string := "pool-saturation-rejection".

Definition defaultHealthName : string := "default-health-filter".
Definition defaultLagName : string := "default-lag-filter".
Definition defaultSatPoolName : string := "default-pool-saturation-rejection".

Record TemplateTiming := MkTiming { DwellMs : Z; ReleaseMs : Z }.

(** [inst_Parameters] is nil or a map; a lookup in a nil map finds nothing. *)
Record Instance_ := MkInstance {
  inst_Name : string;
  inst_Template : string;
  inst_Scope : string;
  inst_Parameters : gmap string Z;
  inst_Timing : TemplateTiming
}.

Record perNodeState := MkPerNode { state : State; enteredAt : Time; lastCondition : string }.
#[export] Instance perNode_eta : Eta perNodeState :=
  fun p => MkPerNode (state p) (enteredAt p) (lastCondition p).

(** [hasBus] tells whether the engine has a decisions bus. *)
Record Engine := MkEngine {
  instances : gmap string Instance_;
  states : gmap string (gmap string perNodeState);
  hasBus : bool;
  TransitionsPublished : Z
}.
#[export] Instance Engine_eta : Eta Engine :=
  fun e => MkEngine (instances e) (states e) (hasBus e) (TransitionsPublished e).

(** ** Evaluators (evaluators.go) *)

Definition ReasonLivenessUp : string := "liveness:up".
Definition ReasonLivenessDegraded : string := "liveness:degraded".
Definition ReasonLivenessDown : string := "liveness:down".
Definition ReasonLivenessUnknown : string := "liveness:unknown".
Definition ReasonLagAboveThreshold : string := "lag:above_threshold".
Definition ReasonLagUnknown : string := "lag:unknown".
Definition ReasonLagIdle : string := "lag:idle".
Definition ReasonPoolSaturated : string := "pool:saturated".

Definition livenessReasons (l : Liveness) : string :=
  match l with
  | LivenessUp => ReasonLivenessUp
  | LivenessDegraded => ReasonLivenessDegraded
  | LivenessDown => ReasonLivenessDown
  | LivenessUnknown => ReasonLivenessUnknown
  end.

Definition healthEvaluate (nv : NodeView) (params : gmap string Z) : bool * string :=
  if bool_decide (nv_Liveness nv <> LivenessUp) then (true, livenessReasons (nv_Liveness nv))
  else (false, "").

Definition lagEvaluate (nv : NodeView) (params : gmap string Z) : bool * string :=
  if bool_decide (nv_ObservedRole nv <> RoleReplica) then (false, "")
  else
    let thresholdMs := match params !! "threshold_ms" with Some v => v | None => 100 end in
    match nv_ReplicationLagState nv with
    | LagStateFresh =>
      match nv_ReplicationLagMs nv with
      | Some lag => if thresholdMs <? lag then (true, ReasonLagAboveThreshold) else (false, "")
      | None => (false, "")
      end
    | LagStateUnknown | LagStateStale => (true, ReasonLagUnknown)
    | LagStateIdle => (true, ReasonLagIdle)
    | LagStateNotApplicable => (false, "")
    end.

Definition poolRejectionMap (saturated : bool) : bool * string :=
  if saturated then (true, ReasonPoolSaturated) else (false, "").

(** ** Construction *)

Definition default_instance (name template : string) (params : gmap string Z) (ms : Z) : Instance_ :=
  MkInstance name template "cluster" params (MkTiming ms ms).

Definition ensure_instance (name : string) (inst : Instance_) (e : Engine) : Engine :=
  match instances e !! name with
  | Some _ => e
  | None => e <| instances ::= <[name := inst]> |> <| states ::= <[name := ∅]> |>
  end.

Definition ensureDefaults (e : Engine) : Engine :=
  let e := ensure_instance defaultHealthName
             (default_instance defaultHealthName TemplateHealthFilter ∅ 5000) e in
  let e := ensure_instance defaultLagName
             (default_instance defaultLagName TemplateLagFilter {["threshold_ms" := 100]} 5000) e in
  ensure_instance defaultSatPoolName
    (default_instance defaultSatPoolName TemplatePoolSaturation ∅ 0) e.

Definition add_instance (e : Engine) (inst : Instance_) : Engine :=
  e <| instances ::= <[inst_Name inst := inst]> |> <| states ::= <[inst_Name inst := ∅]> |>.

Definition NewEngine (insts : list Instance_) (bus : bool) : Engine :=
  ensureDefaults (foldl add_instance (MkEngine ∅ ∅ bus 0) insts).

(** ** The state machine *)

(** [transition] on one node's state: the new state; the caller compares it
    with the old one. *)
Definition transition_state (timing : TemplateTiming) (now : Time) (reject : bool) (reason : string)
    (pns : perNodeState) : perNodeState :=
  let oldState := state pns in
  let '(newState, pns1) :=
    match oldState with
    | StateClean =>
      if reject then
        (if millis (DwellMs timing) =? 0 then StateActive else StatePending,
         pns <| enteredAt := now |> <| lastCondition := reason |>)
      else (oldState, pns)
    | StatePending =>
      if reject then
        if millis (DwellMs timing) <=? Sub now (enteredAt pns)
        then (StateActive, pns <| lastCondition := reason |>)
        else (oldState, pns)
      else (StateClean, pns <| lastCondition := "" |>)
    | StateActive =>
      if negb reject then (StateReleasing, pns <| enteredAt := now |> <| lastCondition := "" |>)
      else (oldState, pns)
    | StateReleasing =>
      if reject then (StateActive, pns <| lastCondition := reason |>)
      else if (millis (ReleaseMs timing) =? 0) || (millis (ReleaseMs timing) <=? Sub now (enteredAt pns))
      then (StateClean, pns <| lastCondition := "" |>)
      else (oldState, pns)
    end in
  if bool_decide (newState <> oldState) then
    let pns2 := pns1 <| state := newState |> in
    match newState with
    | StatePending | StateActive | StateReleasing => pns2 <| enteredAt := now |>
    | StateClean => pns2
    end
  else pns1.

Definition clean_state : perNodeState := MkPerNode StateClean time_zero "".

Definition node_state (e : Engine) (policyName nodeID : string) : option perNodeState :=
  states e !! policyName ≫= (.!! nodeID).

(** [transition]: the events it publishes and the new engine; [None] is the
    panic of an assignment into a nil map. *)
Definition transition (now : Time) (policyName : string) (inst : Instance_) (nodeID : string)
    (reject : bool) (reason : string) (e : Engine) : option (list TransitionEvent * Engine) :=
  match states e !! policyName with
  | None => None
  | Some pm =>
    let pns := match pm !! nodeID with Some p => p | None => clean_state end in
    let pns' := transition_state (inst_Timing inst) now reject reason pns in
    let e' := e <| states ::= <[policyName := <[nodeID := pns']> pm]> |> in
    if bool_decide (state pns' <> state pns) && hasBus e then
      Some ([MkTransitionEvent "" "" time_zero policyName (inst_Template inst) (inst_Scope inst)
               nodeID (State_String (state pns)) (State_String (state pns')) reason],
            e' <| TransitionsPublished ::= inc64 |>)
    else Some ([], e')
  end.

Definition evaluate (inst : Instance_) (nv : NodeView) (poolSaturated : bool) : option (bool * string) :=
  if String.eqb (inst_Template inst) TemplateHealthFilter
  then Some (healthEvaluate nv (inst_Parameters inst))
  else if String.eqb (inst_Template inst) TemplateLagFilter
  then Some (lagEvaluate nv (inst_Parameters inst))
  else if String.eqb (inst_Template inst) TemplatePoolSaturation
  then Some (poolRejectionMap poolSaturated)
  else None.

(** The loop of [EvaluateNode] over the instances, in the given order. *)
Fixpoint evaluate_loop (now : Time) (nv : NodeView) (poolSaturated : bool)
    (insts : list (string * Instance_)) (e : Engine) : option (list TransitionEvent * Engine) :=
  match insts with
  | [] => Some ([], e)
  | (name, inst) :: rest =>
    match evaluate inst nv poolSaturated with
    | None => evaluate_loop now nv poolSaturated rest e
    | Some (reject, reason) =>
      match transition now name inst (nv_ID nv) reject reason e with
      | None => None
      | Some (evs, e1) =>
        match evaluate_loop now nv poolSaturated rest e1 with
        | None => None
        | Some (evs', e2) => Some (evs ++ evs', e2)
        end
      end
    end
  end.

Definition EvaluateNode (now : Time) (ord : list string) (nv : NodeView) (poolSaturated : bool)
    (e : Engine) : option (list TransitionEvent * Engine) :=
  evaluate_loop now nv poolSaturated (visit (instances e) ord) e.

(** ** Queries *)

Definition eligible_state (s : State) : bool :=
  bool_decide (s <> StateActive) && bool_decide (s <> StateReleasing).

Definition IsEligible (e : Engine) (policyName nodeID : string) : bool :=
  match node_state e policyName nodeID with
  | Some pns => eligible_state (state pns)
  | None => true
  end.

Definition CandidateState (e : Engine) (policyName nodeID : string) : State * Time * string :=
  match node_state e policyName nodeID with
  | Some pns => (state pns, enteredAt pns, lastCondition pns)
  | None => (StateClean, time_zero, "")
  end.

Definition EvaluatePolicyState (e : Engine) (policyName nodeID : string) : bool * string :=
  match node_state e policyName nodeID with
  | Some pns => (eligible_state (state pns), lastCondition pns)
  | None => (true, "")
  end.

(** [Instances]: by name, ascending. *)
Definition name_le (a b : Instance_) : Prop := String.le (inst_Name a) (inst_Name b).
#[export] Instance name_le_dec : RelDecision name_le.
Proof. intros a b. unfold name_le. apply _. Defined.

Definition Instances (e : Engine) : list Instance_ :=
  merge_sort name_le ((map_to_list (instances e)).*2).

Record CandidateStateView := MkCandidateState {
  cs_NodeID : string; cs_State : State; cs_EnteredStateAt : Time; cs_LastCondition : string
}.

Definition CandidateStates (e : Engine) (policyName : string) : gmap string CandidateStateView :=
  match states e !! policyName with
  | Some pm => map_imap (fun id pns =>
      Some (MkCandidateState id (state pns) (enteredAt pns) (lastCondition pns))) pm
  | None => ∅
  end.

(** ** The state machine as a relation

    One observation of a node: the instant, whether the policy rejects the
    node, and why. *)

Record observation := MkObs { ob_now : Time; ob_reject : bool; ob_reason : string }.

Inductive policy_step (tm : TemplateTiming) : perNodeState -> observation -> perNodeState -> Prop :=
| clean_stays now rs e c :
    policy_step tm (MkPerNode StateClean e c) (MkObs now false rs) (MkPerNode StateClean e c)
| clean_activates now rs e c :
    DwellMs tm = 0 ->
    policy_step tm (MkPerNode StateClean e c) (MkObs now true rs) (MkPerNode StateActive now rs)
| clean_pends now rs e c :
    0 < DwellMs tm ->
    policy_step tm (MkPerNode StateClean e c) (MkObs now true rs) (MkPerNode StatePending now rs)
| pending_clears now rs e c :
    policy_step tm (MkPerNode StatePending e c) (MkObs now false rs) (MkPerNode StateClean e "")
| pending_waits now rs e c :
    now - e < DwellMs tm * 1000000 ->
    policy_step tm (MkPerNode StatePending e c) (MkObs now true rs) (MkPerNode StatePending e c)
| pending_activates now rs e c :
    now - e >= DwellMs tm * 1000000 ->
    policy_step tm (MkPerNode StatePending e c) (MkObs now true rs) (MkPerNode StateActive now rs)
| active_stays now rs e c :
    policy_step tm (MkPerNode StateActive e c) (MkObs now true rs) (MkPerNode StateActive e c)
| active_releases now rs e c :
    policy_step tm (MkPerNode StateActive e c) (MkObs now false rs) (MkPerNode StateReleasing now "")
| releasing_relapses now rs e c :
    policy_step tm (MkPerNode StateReleasing e c) (MkObs now true rs) (MkPerNode StateActive now rs)
| releasing_waits now rs e c :
    0 < ReleaseMs tm -> now - e < ReleaseMs tm * 1000000 ->
    policy_step tm (MkPerNode StateReleasing e c) (MkObs now false rs) (MkPerNode StateReleasing e c)
| releasing_clears now rs e c :
    ReleaseMs tm = 0 \/ now - e >= ReleaseMs tm * 1000000 ->
    policy_step tm (MkPerNode StateReleasing e c) (MkObs now false rs) (MkPerNode StateClean e "").
#[export] Hint Constructors policy_step : go.

Definition timing_ok (tm : TemplateTiming) : Prop :=
  0 <= DwellMs tm <= max_millis /\ 0 <= ReleaseMs tm <= max_millis.

Definition observe (tm : TemplateTiming) (p : perNodeState) (o : observation) : perNodeState :=
  transition_state tm (ob_now o) (ob_reject o) (ob_reason o) p.

Definition run (tm : TemplateTiming) (obs : list observation) (p : perNodeState) : perNodeState :=
  foldl (observe tm) p obs.

Lemma elapsed_spec (ms now e : Z) :
  0 <= ms <= max_millis -> (millis ms <=? Sub now e) = true <-> now - e >= ms * 1000000.
Proof.
  intros H. rewrite Z.leb_le, millis_id by done. rewrite <- Z.ge_le_iff.
  apply Sub_ge. unfold max_millis, min_int64, max_int64 in *. lia.
Qed.

Lemma millis_zero (ms : Z) : 0 <= ms <= max_millis -> (millis ms =? 0) = true <-> ms = 0.
Proof. intros H. rewrite Z.eqb_eq, millis_id by done. lia. Qed.

Lemma observe_step (tm : TemplateTiming) (p : perNodeState) (o : observation) :
  timing_ok tm -> policy_step tm p o (observe tm p o).
Proof.
  intros [Hd Hr]. destruct p as [s e c], o as [now rej rs]. unfold observe, transition_state. cbn.
  destruct s, rej; cbn; try constructor.
  - destruct (millis (DwellMs tm) =? 0) eqn:E; cbn.
    + constructor. by apply millis_zero.
    + constructor. assert (DwellMs tm <> 0); [|lia]. intros H.
      apply (millis_zero _ Hd) in H. congruence.
  - destruct (millis (DwellMs tm) <=? Sub now e) eqn:E; cbn.
    + constructor. by apply elapsed_spec.
    + constructor. destruct (Z.lt_ge_cases (now - e) (DwellMs tm * 1000000)); [done|].
      assert (Hge : now - e >= DwellMs tm * 1000000) by lia.
      apply (elapsed_spec _ _ _ Hd) in Hge. congruence.
  - destruct (millis (ReleaseMs tm) =? 0) eqn:E0; cbn.
    + constructor. left. by apply millis_zero.
    + destruct (millis (ReleaseMs tm) <=? Sub now e) eqn:E; cbn.
      * constructor. right. by apply elapsed_spec.
      * constructor.
        -- assert (ReleaseMs tm <> 0); [|lia]. intros H.
           apply (millis_zero _ Hr) in H. congruence.
        -- destruct (Z.lt_ge_cases (now - e) (ReleaseMs tm * 1000000)); [done|].
           assert (Hge : now - e >= ReleaseMs tm * 1000000) by lia.
           apply (elapsed_spec _ _ _ Hr) in Hge. congruence.
Qed.

Lemma policy_step_det (tm : TemplateTiming) (p : perNodeState) (o : observation) (q r : perNodeState) :
  timing_ok tm -> policy_step tm p o q -> policy_step tm p o r -> q = r.
Proof.
  intros [Hd Hr]. destruct 1; inversion 1; subst; try done; try lia;
    match goal with H : _ \/ _ |- _ => destruct H; lia end.
Qed.

(** ** Histories

    [block rej ms obs]: somewhere in [obs] there is a run of consecutive
    observations that all have [ob_reject = rej] and that spans [ms]
    milliseconds. *)

Definition uniform_from (rej : bool) (t0 : Time) (mid : list observation) : Prop :=
  Forall (fun o => ob_reject o = rej) mid /\ exists o rest, mid = o :: rest /\ ob_now o = t0.

Definition block (rej : bool) (ms : Z) (obs : list observation) : Prop :=
  exists pre mid last post t0,
    obs = pre ++ mid ++ last :: post /\ uniform_from rej t0 (mid ++ [last]) /\
    ob_now last - t0 >= ms * 1000000.

Lemma block_app rej ms obs o : block rej ms obs -> block rej ms (obs ++ [o]).
Proof.
  intros (pre & mid & last & post & t0 & -> & H). exists pre, mid, last, (post ++ [o]), t0.
  split; [|done]. by rewrite <- !app_assoc.
Qed.

Lemma uniform_snoc rej t0 mid o :
  uniform_from rej t0 mid -> ob_reject o = rej -> uniform_from rej t0 (mid ++ [o]).
Proof.
  intros [Hall (o' & rest & -> & Ht)] Ho. split.
  - apply Forall_app. split; [done|]. by constructor.
  - by exists o', (rest ++ [o]).
Qed.

Lemma uniform_one rej o : ob_reject o = rej -> uniform_from rej (ob_now o) [o].
Proof. intros H. split; [by constructor|]. by exists o, []. Qed.

Lemma block_of_uniform rej ms pre mid o :
  uniform_from rej (match mid with [] => ob_now o | o' :: _ => ob_now o' end) (mid ++ [o]) ->
  ob_now o - (match mid with [] => ob_now o | o' :: _ => ob_now o' end) >= ms * 1000000 ->
  block rej ms (pre ++ mid ++ [o]).
Proof. intros Hu Hge. by eexists pre, mid, o, [], _. Qed.

Lemma run_snoc tm obs o p : run tm (obs ++ [o]) p = observe tm (run tm obs p) o.
Proof. unfold run. by rewrite foldl_app. Qed.

(** What the state of a node says about the observations since it was clean. *)
Definition history (tm : TemplateTiming) (obs : list observation) (p : perNodeState) : Prop :=
  match state p with
  | StateClean => True
  | StatePending => exists pre mid, obs = pre ++ mid /\ uniform_from true (enteredAt p) mid
  | StateActive | StateReleasing => block true (DwellMs tm) obs
  end.

Lemma run_history tm obs :
  timing_ok tm -> history tm obs (run tm obs clean_state).
Proof.
  intros Htm. induction obs as [|o obs IH] using rev_ind; [done|]. rewrite run_snoc.
  set (p := run tm obs clean_state) in *. clearbody p.
  pose proof (observe_step tm p o Htm) as Hs. unfold history in *.
  destruct Hs as [ | | | |now rs e c Hlt|now rs e c Hge| | | | | ]; cbn in *; try done;
    try by apply block_app.
  - apply (block_of_uniform true _ obs [] (MkObs now true rs)); [by apply uniform_one|].
    rewrite H. cbn. lia.
  - exists obs, [MkObs now true rs]. split; [done|].
    change now with (ob_now (MkObs now true rs)). by apply uniform_one.
  - destruct IH as (pre & mid & -> & Hu). exists pre, (mid ++ [MkObs now true rs]).
    split; [by rewrite app_assoc|]. by apply uniform_snoc.
  - destruct IH as (pre & mid & -> & Hu). rewrite <- app_assoc.
    exists pre, mid, (MkObs now true rs), [], e. split; [done|].
    split; [by apply uniform_snoc|done].
Qed.

(** The same for the way back: what the state says about the observations
    since the node was active. *)
Definition release_history (tm : TemplateTiming) (obs : list observation) (p : perNodeState) : Prop :=
  match state p with
  | StateActive => True
  | StateReleasing => exists pre mid, obs = pre ++ mid /\ uniform_from false (enteredAt p) mid
  | StateClean | StatePending => block false (ReleaseMs tm) obs
  end.

Lemma run_release_history tm obs p0 :
  timing_ok tm -> state p0 = StateActive -> release_history tm obs (run tm obs p0).
Proof.
  intros Htm Hp0. induction obs as [|o obs IH] using rev_ind.
  { unfold release_history. cbn. by rewrite Hp0. }
  rewrite run_snoc. set (p := run tm obs p0) in *. clearbody p.
  pose proof (observe_step tm p o Htm) as Hs. unfold release_history in *.
  destruct Hs as [ | | | | | | | | |now rs e c|now rs e c Hge]; cbn in *; try done;
    try by apply block_app.
  - exists obs, [MkObs now false rs]. split; [done|].
    change now with (ob_now (MkObs now false rs)). by apply uniform_one.
  - destruct IH as (pre & mid & -> & Hu). exists pre, (mid ++ [MkObs now false rs]).
    split; [by rewrite app_assoc|]. by apply uniform_snoc.
  - destruct IH as (pre & mid & -> & Hu). rewrite <- app_assoc. destruct Hge as [Hz|Hge].
    + exists (pre ++ mid), [], (MkObs now false rs), [], now.
      rewrite <- app_assoc. split; [done|]. split; [|rewrite Hz; cbn; lia].
      change now with (ob_now (MkObs now false rs)). by apply uniform_one.
    + exists pre, mid, (MkObs now false rs), [], e. split; [done|].
      split; [by apply uniform_snoc|done].
Qed.

(** Under rejections only, a node is clean, then pending since the first one,
    then active. *)
Lemma run_rejects tm o obs p0 :
  timing_ok tm -> state p0 = StateClean ->
  Forall (fun o => ob_reject o = true) (o :: obs) ->
  let p := run tm (o :: obs) p0 in
  state p = StateActive \/
  (state p = StatePending /\ enteredAt p = ob_now o /\
   Forall (fun o' => ob_now o' - ob_now o < DwellMs tm * 1000000) (o :: obs)).
Proof.
  intros Htm Hp0 Hall. induction obs as [|o' obs IH] using rev_ind.
  - cbn. apply Forall_cons in Hall as [Ho _]. pose proof (observe_step tm p0 o Htm) as Hs.
    destruct Hs; cbn in *; try done; eauto.
    right. split; [done|]. split; [done|]. constructor; [cbn in *; lia|constructor].
  - rewrite app_comm_cons in *. apply Forall_app in Hall as [Hall Ho']. cbn zeta in *.
    rewrite run_snoc. apply Forall_cons in Ho' as [Ho' _].
    specialize (IH Hall). pose proof (observe_step tm (run tm (o :: obs) p0) o' Htm) as Hs.
    destruct Hs; cbn in *; destruct IH as [?|(? & ? & ?)]; try done; subst; eauto.
    right. split; [done|]. split; [done|]. rewrite app_comm_cons. apply Forall_app. split; [done|].
    constructor; [done|constructor].
Qed.

(** ** The engine as a whole *)

(** Every instance has its map of node states, so no handler writes into a nil
    map; the instances are filed under their names. *)
Definition engine_wf (e : Engine) : Prop :=
  dom (states e) = dom (instances e) /\
  map_Forall (fun name inst => inst_Name inst = name) (instances e).

Definition has_defaults (e : Engine) : Prop :=
  (exists i, instances e !! defaultHealthName = Some i) /\
  (exists i, instances e !! defaultLagName = Some i) /\
  (exists i, instances e !! defaultSatPoolName = Some i).

Lemma add_instance_wf e inst : engine_wf e -> engine_wf (add_instance e inst).
Proof.
  intros [Hd Hn]. split; cbn.
  - by rewrite !dom_insert_L, Hd.
  - by apply map_Forall_insert_2.
Qed.

Lemma ensure_instance_wf name inst e :
  inst_Name inst = name -> engine_wf e -> engine_wf (ensure_instance name inst e).
Proof.
  intros Hname [Hd Hn]. unfold ensure_instance. destruct (instances e !! name); [done|].
  split; cbn.
  - by rewrite !dom_insert_L, Hd.
  - by apply map_Forall_insert_2.
Qed.

Lemma ensure_instance_has name inst e :
  exists i, instances (ensure_instance name inst e) !! name = Some i.
Proof.
  unfold ensure_instance. destruct (instances e !! name) eqn:E; [eauto|]. cbn.
  rewrite lookup_insert_eq. eauto.
Qed.

Lemma ensure_instance_keeps name inst e n i :
  instances e !! n = Some i -> instances (ensure_instance name inst e) !! n = Some i.
Proof.
  intros H. unfold ensure_instance. destruct (instances e !! name) eqn:E; [done|]. cbn.
  rewrite lookup_insert_ne; [done|]. intros ->. congruence.
Qed.

Lemma NewEngine_wf insts bus : engine_wf (NewEngine insts bus).
Proof.
  unfold NewEngine, ensureDefaults. repeat (apply ensure_instance_wf; [done|]).
  assert (Hfold : forall e, engine_wf e -> engine_wf (foldl add_instance e insts)).
  { induction insts as [|i insts IH]; intros e He; [done|]. cbn. by apply IH, add_instance_wf. }
  apply Hfold. split; [cbn; by rewrite !dom_empty_L|apply map_Forall_empty].
Qed.

Lemma NewEngine_defaults insts bus : has_defaults (NewEngine insts bus).
Proof.
  unfold NewEngine, ensureDefaults. set (e := foldl _ _ _). clearbody e.
  repeat split.
  - destruct (ensure_instance_has defaultHealthName
      (default_instance defaultHealthName TemplateHealthFilter ∅ 5000) e) as [i Hi].
    exists i. by do 2 apply ensure_instance_keeps.
  - set (e1 := ensure_instance defaultHealthName _ _).
    destruct (ensure_instance_has defaultLagName
      (default_instance defaultLagName TemplateLagFilter {["threshold_ms" := 100]} 5000) e1) as [i Hi].
    exists i. by apply ensure_instance_keeps.
  - apply ensure_instance_has.
Qed.

(** What one instance does to the states of its nodes. *)
Definition policy_update (now : Time) (nv : NodeView) (sat : bool) (inst : Instance_)
    (pm : gmap string perNodeState) : gmap string perNodeState :=
  match evaluate inst nv sat with
  | None => pm
  | Some (reject, reason) =>
    <[nv_ID nv := transition_state (inst_Timing inst) now reject reason
                    (default clean_state (pm !! nv_ID nv))]> pm
  end.

Definition policy_events (now : Time) (nv : NodeView) (sat : bool) (e : Engine)
    (entry : string * Instance_) : list TransitionEvent :=
  let '(name, inst) := entry in
  match evaluate inst nv sat, states e !! name with
  | Some (reject, reason), Some pm =>
    let p := default clean_state (pm !! nv_ID nv) in
    let p' := transition_state (inst_Timing inst) now reject reason p in
    if bool_decide (state p' <> state p) && hasBus e then
      [MkTransitionEvent "" "" time_zero name (inst_Template inst) (inst_Scope inst)
         (nv_ID nv) (State_String (state p)) (State_String (state p')) reason]
    else []
  | _, _ => []
  end.

Lemma transition_spec now name inst nv rej reason sat e pm :
  evaluate inst nv sat = Some (rej, reason) -> states e !! name = Some pm ->
  exists e', transition now name inst (nv_ID nv) rej reason e =
               Some (policy_events now nv sat e (name, inst), e') /\
    instances e' = instances e /\ hasBus e' = hasBus e /\
    states e' = <[name := policy_update now nv sat inst pm]> (states e) /\
    TransitionsPublished e' =
      Nat.iter (length (policy_events now nv sat e (name, inst))) inc64 (TransitionsPublished e).
Proof.
  intros He Hpm. unfold transition, policy_events, policy_update. rewrite He, Hpm.
  assert (Hdef : (match pm !! nv_ID nv with Some p => p | None => clean_state end) =
                 default clean_state (pm !! nv_ID nv)) by (by destruct (pm !! nv_ID nv)).
  rewrite Hdef. destruct (bool_decide _ && hasBus e); (eexists; split; [reflexivity|]);
    unfold put_field; cbn; by split_and!.
Qed.

Lemma evaluate_loop_spec now nv sat es e :
  NoDup es.*1 -> (forall name inst, (name, inst) ∈ es -> is_Some (states e !! name)) ->
  exists e', evaluate_loop now nv sat es e = Some (es ≫= policy_events now nv sat e, e') /\
    instances e' = instances e /\ hasBus e' = hasBus e /\
    (forall name, states e' !! name =
       match (list_to_map es : gmap string Instance_) !! name with
       | Some inst => policy_update now nv sat inst <$> states e !! name
       | None => states e !! name
       end) /\
    TransitionsPublished e' =
      Nat.iter (length (es ≫= policy_events now nv sat e)) inc64 (TransitionsPublished e).
Proof.
  revert e. induction es as [|[name inst] es IH]; intros e Hnd Hin.
  { exists e. cbn. by split_and!. }
  cbn in Hnd. apply NoDup_cons in Hnd as [Hnin Hnd].
  destruct (Hin name inst) as [pm Hpm]; [set_solver|]. cbn [evaluate_loop].
  assert (Hrest : forall e1, hasBus e1 = hasBus e ->
            (forall n, n <> name -> states e1 !! n = states e !! n) ->
            es ≫= policy_events now nv sat e1 = es ≫= policy_events now nv sat e).
  { intros e1 Hb Hs. clear IH Hin Hnd. induction es as [|[n i] es IHes]; [done|].
    cbn. cbn in Hnin. apply not_elem_of_cons in Hnin as [Hne Hnin].
    rewrite Hs, Hb by congruence. f_equal. by apply IHes. }
  assert (Hmap : forall n, n <> name ->
            (list_to_map ((name, inst) :: es) : gmap string Instance_) !! n =
            (list_to_map es : gmap string Instance_) !! n).
  { intros n Hne. cbn. by rewrite lookup_insert_ne. }
  assert (Hmap' : (list_to_map es : gmap string Instance_) !! name = None).
  { by apply not_elem_of_list_to_map. }
  destruct (evaluate inst nv sat) as [[rej reason]|] eqn:Hev.
  - destruct (transition_spec now name inst nv rej reason sat e pm Hev Hpm)
      as (e1 & Ht & Hi1 & Hb1 & Hs1 & Hn1). rewrite Ht.
    assert (Hother : forall n, n <> name -> states e1 !! n = states e !! n).
    { intros n Hne. by rewrite Hs1, lookup_insert_ne. }
    destruct (IH e1 Hnd) as (e2 & Hloop & Hi2 & Hb2 & Hs2 & Hn2).
    { intros n i Hni. destruct (decide (n = name)) as [->|Hne].
      - rewrite Hs1, lookup_insert_eq. eauto.
      - rewrite Hother by done. apply (Hin n i). set_solver. }
    rewrite Hloop. exists e2. rewrite (Hrest e1 Hb1 Hother) in *. cbn [mbind list_bind].
    split; [done|]. split; [congruence|]. split; [congruence|]. split.
    + intros n. rewrite Hs2. destruct (decide (n = name)) as [->|Hne].
      * rewrite Hmap'. cbn. rewrite lookup_insert_eq, Hs1, lookup_insert_eq, Hpm. done.
      * by rewrite Hmap, Hother.
    + by rewrite Hn2, Hn1, length_app, Nat.add_comm, Nat.iter_add.
  - destruct (IH e Hnd) as (e2 & Hloop & Hi2 & Hb2 & Hs2 & Hn2); [intros; apply (Hin name0 inst0); set_solver|].
    rewrite Hloop. exists e2. cbn [mbind list_bind].
    assert (Hev0 : policy_events now nv sat e (name, inst) = []).
    { unfold policy_events. by rewrite Hev. }
    rewrite Hev0. split; [done|]. split; [done|]. split; [done|]. split; [|done].
    intros n. rewrite Hs2. destruct (decide (n = name)) as [->|Hne].
    + rewrite Hmap'. cbn. rewrite lookup_insert_eq, Hpm. cbn. unfold policy_update. by rewrite Hev.
    + by rewrite Hmap.
Qed.

Lemma list_to_map_visit {V} (m : gmap string V) ord :
  map_order m ord -> (list_to_map (visit m ord) : gmap string V) = m.
Proof.
  intros Hord. etrans; [|apply list_to_map_to_list].
  apply list_to_map_proper; [|by apply visit_perm].
  rewrite visit_keys by done. eauto with go.
Qed.

Lemma EvaluateNode_spec now ord nv sat e :
  engine_wf e -> map_order (instances e) ord ->
  exists e', EvaluateNode now ord nv sat e =
               Some (visit (instances e) ord ≫= policy_events now nv sat e, e') /\
    instances e' = instances e /\ hasBus e' = hasBus e /\
    (forall name, states e' !! name =
       match instances e !! name with
       | Some inst => policy_update now nv sat inst <$> states e !! name
       | None => states e !! name
       end) /\
    TransitionsPublished e' =
      Nat.iter (length (visit (instances e) ord ≫= policy_events now nv sat e)) inc64
        (TransitionsPublished e).
Proof.
  intros [Hd Hn] Hord. unfold EvaluateNode.
  destruct (evaluate_loop_spec now nv sat (visit (instances e) ord) e) as (e' & H).
  - rewrite visit_keys by done. eauto with go.
  - intros name inst Hin. apply visit_elem in Hin; [|done].
    apply elem_of_dom. rewrite Hd. apply elem_of_dom. eauto.
  - exists e'. by rewrite list_to_map_visit in H.
Qed.

Lemma EvaluateNode_wf now ord nv sat e evs e' :
  engine_wf e -> map_order (instances e) ord ->
  EvaluateNode now ord nv sat e = Some (evs, e') -> engine_wf e' /\ instances e' = instances e.
Proof.
  intros Hwf Hord Hev. destruct (EvaluateNode_spec now ord nv sat e Hwf Hord)
    as (e1 & H1 & Hi & Hb & Hs & _). rewrite H1 in Hev. injection Hev as _ <-.
  split; [|done]. destruct Hwf as [Hd Hn]. split; [|by rewrite Hi].
  rewrite Hi, <- Hd. apply set_eq. intros name. rewrite !elem_of_dom, Hs.
  destruct (instances e !! name); [|done]. by rewrite fmap_is_Some.
Qed.

(** Transition events, counted and listed, do not depend on the order either,
    up to a permutation of the events of one round. *)
Lemma EvaluateNode_order now ord1 ord2 nv sat e :
  engine_wf e -> map_order (instances e) ord1 -> map_order (instances e) ord2 ->
  exists evs1 evs2 e', EvaluateNode now ord1 nv sat e = Some (evs1, e') /\
    EvaluateNode now ord2 nv sat e = Some (evs2, e') /\ evs1 ≡ₚ evs2.
Proof.
  intros Hwf H1 H2.
  destruct (EvaluateNode_spec now ord1 nv sat e Hwf H1) as (e1 & HE1 & Hi1 & Hb1 & Hs1 & Hn1).
  destruct (EvaluateNode_spec now ord2 nv sat e Hwf H2) as (e2 & HE2 & Hi2 & Hb2 & Hs2 & Hn2).
  assert (Hperm : visit (instances e) ord1 ≫= policy_events now nv sat e
                ≡ₚ visit (instances e) ord2 ≫= policy_events now nv sat e).
  { by rewrite (visit_perm_order _ ord1 ord2 H1 H2). }
  assert (e1 = e2) as <-.
  { destruct e1 as [i1 s1 b1 n1], e2 as [i2 s2 b2 n2]. cbn in *. subst. f_equal.
    - apply map_eq. intros name. by rewrite Hs1, Hs2.
    - by rewrite (Permutation_length Hperm). }
  by do 3 eexists.
Qed.

(** ** Rounds of evaluation

    The observation loop calls [EvaluateNode] again and again; one call is a
    round: the instant, the order in which the instances are visited, the view
    of the node and whether its pool is saturated. *)

Record round := MkRound { rd_now : Time; rd_ord : list string; rd_nv : NodeView; rd_sat : bool }.

Definition rounds_ok (e : Engine) (rs : list round) : Prop :=
  Forall (fun r => map_order (instances e) (rd_ord r)) rs.

Fixpoint engine_run (rs : list round) (e : Engine) : option (list TransitionEvent * Engine) :=
  match rs with
  | [] => Some ([], e)
  | r :: rest =>
    match EvaluateNode (rd_now r) (rd_ord r) (rd_nv r) (rd_sat r) e with
    | None => None
    | Some (evs, e1) =>
      match engine_run rest e1 with
      | None => None
      | Some (evs', e2) => Some (evs ++ evs', e2)
      end
    end
  end.

(** What the policy [inst] observes of the node [id] in these rounds. *)
Definition observed (inst : Instance_) (id : string) (rs : list round) : list observation :=
  omap (fun r =>
    if String.eqb (nv_ID (rd_nv r)) id
    then (fun '(rej, reason) => MkObs (rd_now r) rej reason) <$> evaluate inst (rd_nv r) (rd_sat r)
    else None) rs.

Definition policy_node (e : Engine) (name id : string) : perNodeState :=
  default clean_state (node_state e name id).

Lemma IsEligible_node e name id :
  IsEligible e name id = eligible_state (state (policy_node e name id)).
Proof. unfold IsEligible, policy_node. by destruct (node_state e name id). Qed.

Lemma policy_node_update now nv sat inst e e' name id :
  is_Some (states e !! name) ->
  states e' !! name = policy_update now nv sat inst <$> states e !! name ->
  policy_node e' name id =
    run (inst_Timing inst) (observed inst id [MkRound now [] nv sat]) (policy_node e name id).
Proof.
  intros [pm Hpm] Hs. unfold policy_node, node_state. rewrite Hs, Hpm. cbn.
  unfold policy_update. destruct (String.eqb_spec (nv_ID nv) id) as [<-|Hne].
  - destruct (evaluate inst nv sat) as [[rej reason]|]; cbn; [|done].
    by rewrite lookup_insert_eq.
  - destruct (evaluate inst nv sat) as [[rej reason]|]; cbn; [|done].
    by rewrite lookup_insert_ne.
Qed.

Lemma observed_ord inst id now ord nv sat :
  observed inst id [MkRound now ord nv sat] = observed inst id [MkRound now [] nv sat].
Proof. done. Qed.

Lemma observed_cons inst id r rs :
  observed inst id (r :: rs) = observed inst id [r] ++ observed inst id rs.
Proof. unfold observed. cbn. by case_match. Qed.

(** Rounds never panic, and each policy runs its machine on its own observations. *)
Lemma engine_run_spec rs e :
  engine_wf e -> rounds_ok e rs ->
  exists evs e', engine_run rs e = Some (evs, e') /\ engine_wf e' /\ instances e' = instances e /\
    TransitionsPublished e' = Nat.iter (length evs) inc64 (TransitionsPublished e) /\
    (forall name inst id, instances e !! name = Some inst ->
       policy_node e' name id = run (inst_Timing inst) (observed inst id rs) (policy_node e name id)).
Proof.
  revert e. induction rs as [|[now ord nv sat] rs IH]; intros e Hwf Hok.
  { exists [], e. cbn. by split_and!. }
  apply Forall_cons in Hok as [Hord Hok]. cbn in Hord.
  destruct (EvaluateNode_spec now ord nv sat e Hwf Hord) as (e1 & H1 & Hi & Hb & Hs & Hn).
  destruct (EvaluateNode_wf _ _ _ _ _ _ _ Hwf Hord H1) as [Hwf1 _].
  destruct (IH e1 Hwf1) as (evs & e2 & H2 & Hwf2 & Hi2 & Hn2 & Hp2).
  { unfold rounds_ok. by rewrite Hi. }
  cbn [engine_run rd_now rd_ord rd_nv rd_sat]. rewrite H1, H2.
  do 2 eexists. split; [reflexivity|]. split_and!; try congruence.
  - by rewrite Hn2, Hn, length_app, Nat.add_comm, Nat.iter_add.
  - intros name inst id Hin. rewrite (Hp2 name inst id) by congruence.
    rewrite observed_cons, observed_ord. unfold run. rewrite foldl_app.
    f_equal. apply policy_node_update.
    + apply elem_of_dom. destruct Hwf as [-> _]. apply elem_of_dom. eauto.
    + by rewrite Hs, Hin.
Qed.

Definition policy_fresh (e : Engine) (name id : string) : Prop := node_state e name id = None.

(** A fresh engine has no node states. *)
Lemma NewEngine_fresh insts bus name id : policy_fresh (NewEngine insts bus) name id.
Proof.
  set (allclean := fun e : Engine => forall n pm, states e !! n = Some pm -> pm = ∅).
  assert (Hins : forall e n i, allclean e -> allclean (ensure_instance n i e)).
  { intros e n i He n' pm. unfold ensure_instance. destruct (instances e !! n); [apply He|].
    cbn. intros [[_ <-]|[_ H]]%lookup_insert_Some; [done|eauto]. }
  assert (Hfold : forall e, allclean e -> allclean (foldl add_instance e insts)).
  { induction insts as [|i insts IH]; intros e He; [done|]. cbn. apply IH.
    intros n pm. cbn. intros [[_ <-]|[_ H]]%lookup_insert_Some; [done|eauto]. }
  assert (Hall : allclean (NewEngine insts bus)).
  { unfold NewEngine, ensureDefaults. do 3 apply Hins. apply Hfold. intros n pm.
    cbn. by rewrite lookup_empty. }
  unfold policy_fresh, node_state. destruct (states _ !! name) as [pm|] eqn:E; [|done].
  by rewrite (Hall _ _ E).
Qed.

(** ** Properties *)

(** C9: The transition function of the engine is the policy state machine:
    for timings a configuration can express without overflow, one observation
    leads from a node state to another exactly when the machine has that step,
    so each step is determined and none is missing. *)
Theorem transition_state_refines (tm : TemplateTiming) (p q : perNodeState) (o : observation) :
  timing_ok tm ->
  policy_step tm p o q <-> transition_state tm (ob_now o) (ob_reject o) (ob_reason o) p = q.
Proof.
  intros Htm. split.
  - intros Hs. exact (policy_step_det tm p o _ _ Htm (observe_step tm p o Htm) Hs).
  - intros <-. exact (observe_step tm p o Htm).
Qed.

Definition demo_timing : TemplateTiming := MkTiming 5000 5000.
Definition demo_pending : perNodeState := MkPerNode StatePending 1000 ReasonLivenessDown.

Lemma transition_state_refines_witness :
  policy_step demo_timing demo_pending (MkObs 5000001000 true ReasonLivenessDown)
    (MkPerNode StateActive 5000001000 ReasonLivenessDown).
Proof.
  apply (transition_state_refines demo_timing demo_pending _ _); [|reflexivity].
  unfold timing_ok, max_millis. cbn. lia.
Defined.

(** C12: A policy excludes a node only after sustained rejection: if some rounds
    of evaluation on a fresh engine leave a node ineligible under a policy,
    then among the policy's observations of that node there is an
    uninterrupted run of rejections at least the dwell time long. *)
Theorem no_premature_exclusion (insts : list Instance_) (bus : bool) (rs : list round)
    (evs : list TransitionEvent) (e : Engine) (name id : string) (inst : Instance_) :
  engine_run rs (NewEngine insts bus) = Some (evs, e) ->
  rounds_ok (NewEngine insts bus) rs ->
  instances (NewEngine insts bus) !! name = Some inst -> timing_ok (inst_Timing inst) ->
  IsEligible e name id = false ->
  block true (DwellMs (inst_Timing inst)) (observed inst id rs).
Proof.
  intros Hrun Hok Hin Htm. rewrite IsEligible_node.
  destruct (engine_run_spec rs _ (NewEngine_wf insts bus) Hok)
    as (evs' & e' & Hrun' & _ & _ & _ & Hp).
  rewrite Hrun' in Hrun. injection Hrun as _ ->. rewrite (Hp _ _ id Hin). unfold policy_node.
  rewrite (NewEngine_fresh insts bus name id : _ = None). cbn [default].
  pose proof (run_history (inst_Timing inst) (observed inst id rs) Htm) as Hh.
  unfold history in Hh. by destruct (state _).
Qed.

Definition demo_engine : Engine := NewEngine [] true.
Definition demo_view (l : Liveness) : NodeView :=
  MkNodeView "r1" "db2" 5432 RoleReplica RoleReplica l "sys" 0 None (Some 0) LagStateFresh 0 0 0 0.
Definition demo_round (t : Time) (l : Liveness) : round :=
  MkRound t (default_order (instances demo_engine)) (demo_view l) false.
Definition demo_rounds : list round :=
  [demo_round 0 LivenessDown; demo_round 2000000000 LivenessDown; demo_round 5000000000 LivenessDown].
Definition demo_health : Instance_ :=
  default_instance defaultHealthName TemplateHealthFilter ∅ 5000.
Definition demo_run : list TransitionEvent * Engine :=
  default ([], demo_engine) (engine_run demo_rounds demo_engine).

Lemma demo_timing_ok : timing_ok demo_timing.
Proof. unfold timing_ok, max_millis. cbn. lia. Qed.

Lemma demo_rounds_ok : rounds_ok demo_engine demo_rounds.
Proof. repeat (apply Forall_cons; split; [apply default_order_ok|]). constructor. Qed.

Lemma demo_run_eq : engine_run demo_rounds demo_engine = Some (demo_run.1, demo_run.2).
Proof. by vm_compute. Qed.

Lemma no_premature_exclusion_witness :
  IsEligible (demo_run.2) defaultHealthName "r1" = false /\
  block true 5000 (observed demo_health "r1" demo_rounds).
Proof.
  split; [by vm_compute|].
  apply (no_premature_exclusion [] true demo_rounds (demo_run.1) (demo_run.2)
           defaultHealthName "r1" demo_health);
    [exact demo_run_eq|exact demo_rounds_ok|by vm_compute|exact demo_timing_ok|by vm_compute].
Defined.

(** C13: A sustained rejection does exclude the node: if a node that the policy
    holds clean is rejected in every round and one of the rounds is at least
    the dwell time after the first, then the rounds complete and leave the
    node ineligible. *)
Theorem sustained_rejection_excludes (e : Engine) (rs : list round) (name id : string)
    (inst : Instance_) (first : observation) (rest : list observation) (late : observation) :
  engine_wf e -> rounds_ok e rs ->
  instances e !! name = Some inst -> timing_ok (inst_Timing inst) ->
  state (policy_node e name id) = StateClean ->
  observed inst id rs = first :: rest ->
  Forall (fun o => ob_reject o = true) (first :: rest) ->
  late ∈ first :: rest -> ob_now late - ob_now first >= DwellMs (inst_Timing inst) * 1000000 ->
  exists evs e', engine_run rs e = Some (evs, e') /\ IsEligible e' name id = false.
Proof.
  intros Hwf Hok Hin Htm Hclean Hobs Hrej Hlate Hge.
  destruct (engine_run_spec rs e Hwf Hok) as (evs & e' & Hrun & _ & _ & _ & Hp).
  exists evs, e'. split; [done|]. rewrite IsEligible_node, (Hp _ _ _ Hin), Hobs.
  destruct (run_rejects (inst_Timing inst) first rest _ Htm Hclean Hrej) as [->|(Hpend & _ & Hall)];
    [done|].
  rewrite Forall_forall in Hall. specialize (Hall _ Hlate). lia.
Qed.

Lemma demo_engine_wf : engine_wf demo_engine.
Proof. apply NewEngine_wf. Qed.

Lemma sustained_rejection_excludes_witness :
  exists evs e', engine_run demo_rounds demo_engine = Some (evs, e') /\
                 IsEligible e' defaultHealthName "r1" = false.
Proof.
  apply (sustained_rejection_excludes demo_engine demo_rounds defaultHealthName "r1" demo_health
           (MkObs 0 true ReasonLivenessDown)
           [MkObs 2000000000 true ReasonLivenessDown; MkObs 5000000000 true ReasonLivenessDown]
           (MkObs 5000000000 true ReasonLivenessDown));
    [exact demo_engine_wf|exact demo_rounds_ok|by vm_compute|exact demo_timing_ok|by vm_compute
    |by vm_compute|by repeat constructor|by repeat constructor|by vm_compute].
Defined.

(** A policy readmits an excluded node only after a sustained recovery: if
    the policy holds the node active and after some rounds the node is
    eligible again, then among the policy's observations of those rounds there
    is an uninterrupted run of non-rejections at least the release time long. *)
Theorem no_premature_readmission (e : Engine) (rs : list round) (evs : list TransitionEvent)
    (e' : Engine) (name id : string) (inst : Instance_) :
  engine_wf e -> rounds_ok e rs ->
  instances e !! name = Some inst -> timing_ok (inst_Timing inst) ->
  state (policy_node e name id) = StateActive ->
  engine_run rs e = Some (evs, e') -> IsEligible e' name id = true ->
  block false (ReleaseMs (inst_Timing inst)) (observed inst id rs).
Proof.
  intros Hwf Hok Hin Htm Hact Hrun. rewrite IsEligible_node.
  destruct (engine_run_spec rs e Hwf Hok) as (evs' & e1 & Hrun' & _ & _ & _ & Hp).
  rewrite Hrun' in Hrun. injection Hrun as _ ->. rewrite (Hp _ _ id Hin).
  pose proof (run_release_history (inst_Timing inst) (observed inst id rs) _ Htm Hact) as Hh.
  unfold release_history in Hh. by destruct (state (run _ _ _)).
Qed.

Definition demo_recovery : list round :=
  [demo_round 6000000000 LivenessUp; demo_round 8000000000 LivenessUp; demo_round 11000000000 LivenessUp].
Definition demo_recovered : list TransitionEvent * Engine :=
  default ([], demo_engine) (engine_run demo_recovery (demo_run.2)).

Lemma demo_run_wf : engine_wf (demo_run.2) /\ instances (demo_run.2) = instances demo_engine.
Proof.
  destruct (engine_run_spec _ _ demo_engine_wf demo_rounds_ok) as (evs & e & Hrun & Hwf & Hi & _).
  rewrite demo_run_eq in Hrun. apply Some_pair_inj in Hrun as [_ ->]. by split.
Qed.

Lemma demo_recovery_ok : rounds_ok (demo_run.2) demo_recovery.
Proof.
  unfold rounds_ok. rewrite (proj2 demo_run_wf).
  repeat (apply Forall_cons; split; [apply default_order_ok|]). constructor.
Qed.

Lemma demo_recovered_eq :
  engine_run demo_recovery (demo_run.2) = Some (demo_recovered.1, demo_recovered.2).
Proof. by vm_compute. Qed.

Lemma no_premature_readmission_witness :
  IsEligible (demo_recovered.2) defaultHealthName "r1" = true /\
  block false 5000 (observed demo_health "r1" demo_recovery).
Proof.
  split; [by vm_compute|].
  apply (no_premature_readmission (demo_run.2) demo_recovery (demo_recovered.1) (demo_recovered.2)
           defaultHealthName "r1" demo_health);
    [exact (proj1 demo_run_wf)|exact demo_recovery_ok|by vm_compute|exact demo_timing_ok
    |by vm_compute|exact demo_recovered_eq|by vm_compute].
Defined.

(** A round of evaluation never writes into a nil map and does not depend
    on the order in which Go iterates the instance map: on a well-formed
    engine, two rounds that visit the instances in different orders end in the
    same engine, which is well-formed again with the same instances, and
    publish the same transition events up to their order. *)
Theorem EvaluateNode_deterministic (now : Time) (ord1 ord2 : list string) (nv : NodeView)
    (sat : bool) (e : Engine) :
  engine_wf e -> map_order (instances e) ord1 -> map_order (instances e) ord2 ->
  exists evs1 evs2 e',
    EvaluateNode now ord1 nv sat e = Some (evs1, e') /\
    EvaluateNode now ord2 nv sat e = Some (evs2, e') /\ evs1 ≡ₚ evs2 /\
    engine_wf e' /\ instances e' = instances e.
Proof.
  intros Hwf H1 H2. destruct (EvaluateNode_order now ord1 ord2 nv sat e Hwf H1 H2)
    as (evs1 & evs2 & e' & HE1 & HE2 & Hperm).
  destruct (EvaluateNode_wf _ _ _ _ _ _ _ Hwf H1 HE1) as [Hwf' Hi].
  exists evs1, evs2, e'. by split_and!.
Qed.

Lemma EvaluateNode_deterministic_witness :
  exists evs1 evs2 e',
    EvaluateNode 7 (default_order (instances demo_engine)) (demo_view LivenessDown) true demo_engine
      = Some (evs1, e') /\
    EvaluateNode 7 (reverse (default_order (instances demo_engine))) (demo_view LivenessDown) true
      demo_engine = Some (evs2, e') /\ evs1 ≡ₚ evs2 /\
    engine_wf e' /\ instances e' = instances demo_engine.
Proof.
  apply (EvaluateNode_deterministic 7 _ _ _ true demo_engine);
    [exact demo_engine_wf|apply default_order_ok|].
  unfold map_order. by rewrite reverse_Permutation.
Defined.

(** The documentation of [EvaluatePolicyState] says that a non-empty reason
    comes with an ineligible node.  A pending node is eligible and has a
    reason; a releasing node is ineligible and has none. *)
Theorem EvaluatePolicyState_reason_mismatch :
  exists e1 e2 : Engine,
    EvaluatePolicyState e1 defaultHealthName "r1" = (true, ReasonLivenessDown) /\
    EvaluatePolicyState e2 defaultHealthName "r1" = (false, "").
Proof.
  exists (default ([], demo_engine) (engine_run [demo_round 0 LivenessDown] demo_engine)).2.
  exists (default ([], demo_engine) (engine_run (demo_rounds ++ [demo_round 6000000000 LivenessUp])
            demo_engine)).2.
  split; by vm_compute.
Qed.
