(* ===== verification/Routing.v ===== *)
(** * Routing: the lease pipeline (internal/routing)

    [Lease] classifies a statement, filters the nodes of the topology through
    the policies, picks a node and takes a connection from its pool; every
    request ends in exactly one decision event and one counter.  What the call
    reads from the topology, the pools and the clock is its environment, so
    that the topology may change between two reads of one call. *)

From stdpp Require Import base gmap strings list sorting.
From Stdlib Require Import ZArith Lia.
From S2P Require Import Prelude Types Classifier Topology Decisions Policy.

Local Open Scope string_scope.
Local Open Scope Z_scope.
Local Open Scope list_scope.

(** ** Data *)

Record LeaseRequest := MkLeaseRequest {
  req_Port : string;
  req_PoolMode : string;
  req_LeaseType : string;
  req_SQL : string;
  req_PostWriteWindowActive : bool;
  req_PostWriteWindowRemainingMs : Z
}.

Record LeaseResult := MkLeaseResult {
  res_Upstream : option Conn;
  res_NodeID : NodeID;
  res_Decision : Event;
  res_Error : option error
}.
#[export] Instance LeaseResult_eta : Eta LeaseResult := fun r =>
  MkLeaseResult (res_Upstream r) (res_NodeID r) (res_Decision r) (res_Error r).

Definition empty_result : LeaseResult := MkLeaseResult None "" empty_event None.

(** The bucket bounds in nanoseconds: [d.Seconds() <= bound] for the float
    bounds 0.001, 0.005, 0.01, 0.05, 0.1, 0.5, 1 and 5. *)
Definition durationBucketBounds : list Duration :=
  [1000000; 5000000; 10000000; 50000000; 100000000; 500000000; 1000000000; 5000000000].

Record portHistogram := MkHistogram { h_sum : Z; h_count : Z; h_buckets : list Z }.

Definition new_histogram : portHistogram := MkHistogram 0 0 (replicate 8 0).

Definition h_observe (d : Duration) (h : portHistogram) : portHistogram :=
  MkHistogram (wrap64 (h_sum h + d)) (inc64 (h_count h))
    (zip_with (fun bound n => if d <=? bound then inc64 n else n) durationBucketBounds (h_buckets h)).

(** [policyEng] and [decisionsBus] are nil or point to the engine and the bus. *)
Record Pipeline := MkPipeline {
  policyEng : option Engine;
  decisionsBus : option Bus;
  readRR : Z;
  DecisionsTotal : Z;
  DecisionsLeased : Z;
  DecisionsRejected : Z;
  DecisionsFallback : Z;
  PublishedTotal : Z;
  EligibleSetRead : Z;
  EligibleSetWrite : Z;
  CompatReclassificationRejections : Z;
  decisionCounters : gmap string Z;
  decisionDurationHistograms : gmap string portHistogram;
  defaultHealthPolicyName : string;
  defaultLagPolicyName : string;
  defaultSatPolicyName : string
}.
#[export] Instance Pipeline_eta : Eta Pipeline := fun p =>
  MkPipeline (policyEng p) (decisionsBus p) (readRR p) (DecisionsTotal p) (DecisionsLeased p)
    (DecisionsRejected p) (DecisionsFallback p) (PublishedTotal p) (EligibleSetRead p)
    (EligibleSetWrite p) (CompatReclassificationRejections p) (decisionCounters p)
    (decisionDurationHistograms p) (defaultHealthPolicyName p) (defaultLagPolicyName p)
    (defaultSatPolicyName p).

(** What one call reads: the topology at each of its calls, the pools, the
    duration of the call, and what [Publish] draws (the order of the
    subscribers, the clock and a fresh id). *)
Record LeaseEnv := MkLeaseEnv {
  env_Nodes : list NodeView;
  env_ClusterID : SystemID;
  env_Primary : option NodeView;
  env_PoolFor : NodeID -> error + Manager;
  env_Acquire : Manager -> error + Conn;
  env_Since : Duration;
  env_SubOrder : list Z;
  env_Now : Time;
  env_ULID : string
}.

(** The environment of a call during which the topology does not change. *)
Definition quiet_env (t : Topology) (ord : list NodeID) (now : Time)
    (acquire : Manager -> error + Conn) (since : Duration) (subs : list Z) (ulid : string) : LeaseEnv :=
  MkLeaseEnv (Nodes t ord (fun _ => now)) (ClusterID t) (Primary t ord now) (PoolFor t)
    acquire since subs now ulid.

(** ** Construction *)

Definition first_of_template (template fallback : string) (eng : Engine) : string :=
  match list_find (fun inst => inst_Template inst = template) (Instances eng) with
  | Some (_, inst) => inst_Name inst
  | None => fallback
  end.

Definition policyDefaultHealthNameOrFirst : Engine -> string :=
  first_of_template TemplateHealthFilter "default-health-filter".
Definition policyDefaultLagNameOrFirst : Engine -> string :=
  first_of_template TemplateLagFilter "default-lag-filter".
Definition policyDefaultSatNameOrFirst : Engine -> string :=
  first_of_template TemplatePoolSaturation "default-pool-saturation-rejection".

Definition NewPipeline (eng : option Engine) (bus : option Bus) : Pipeline :=
  let name f := match eng with Some e => f e | None => "" end in
  MkPipeline eng bus 0 0 0 0 0 0 0 0 0 ∅ ∅ (name policyDefaultHealthNameOrFirst)
    (name policyDefaultLagNameOrFirst) (name policyDefaultSatNameOrFirst).

(** ** Emission *)

Definition isValidPort (port : string) : bool :=
  String.eqb port "write" || String.eqb port "read" || String.eqb port "compat".

Definition classify (port sql : string) : Class_ :=
  (Classify (MkStatement "" sql) (MkSessionState port TxIdle None)).1.

Definition counter_key (event : Event) : string :=
  let port := if isValidPort (ev_Port event) then ev_Port event else "invalid" in
  port +:+ ":" +:+ out_Kind (ev_Outcome event) +:+ ":" +:+ out_Reason (ev_Outcome event).

(** [None] is a panic of [Publish]. *)
Definition emitEvent (env : LeaseEnv) (event : Event) (p : Pipeline) : option Pipeline :=
  match decisionsBus p with
  | None => Some p
  | Some bus =>
    let p1 := p <| PublishedTotal ::= inc64 |> in
    let key := counter_key event in
    let p2 := p1 <| decisionCounters ::= fun m => <[key := inc64 (default 0 (m !! key))]> m |> in
    match Publish (env_SubOrder env) (env_Now env) (env_ULID env) (BusDecision event) bus with
    | None => None
    | Some bus' => Some (p2 <| decisionsBus := Some bus' |>)
    end
  end.

Definition classification_of (cls : Class_) (sql : string) : Classification :=
  MkClassification (Type_string (cls_Type cls)) (Source_string (cls_Source cls))
    (TruncateSQL sql 256).

(** ** Rejections recorded by the session *)

Definition read_port_write_event (sql poolMode : string) : Event :=
  MkEvent "" "" time_zero "read" poolMode "transaction"
    (classification_of (classify "read" sql) sql) []
    (MkOutcome "rejected" "" "25006" "read_port:write_attempted") None [] "client".

Definition RejectReadPortWrite (env : LeaseEnv) (sql poolMode : string) (p : Pipeline)
  : option (Event * Pipeline) :=
  let p := p <| DecisionsTotal ::= inc64 |> in
  let event := read_port_write_event sql poolMode in
  let p := p <| DecisionsRejected ::= inc64 |> in
  match emitEvent env event p with Some p' => Some (event, p') | None => None end.

Definition compat_reclassification_event (sql poolMode : string) : Event :=
  MkEvent SchemaVersion "" time_zero "compat" poolMode "transaction"
    (classification_of (classify "compat" sql) sql) []
    (MkOutcome "rejected" "" "25006" "compat:reclassification")
    (Some (MkConsistency "bounded_staleness" None None)) [] "client".

Definition RejectCompatReclassification (env : LeaseEnv) (sql poolMode : string) (p : Pipeline)
  : option (Event * Pipeline) :=
  let p := p <| DecisionsTotal ::= inc64 |> in
  let event := compat_reclassification_event sql poolMode in
  let p := p <| DecisionsRejected ::= inc64 |> <| CompatReclassificationRejections ::= inc64 |> in
  match emitEvent env event p with Some p' => Some (event, p') | None => None end.

(** ** Candidates *)

(** [EvaluatePolicyState], or the defaults when there is no engine. *)
Definition policy_state (p : Pipeline) (name : string) (id : NodeID) : bool * string :=
  match policyEng p with
  | Some eng => EvaluatePolicyState eng name id
  | None => (true, "")
  end.

Definition reason_if (b : bool) (reason : string) : list string := if b then [reason] else [].

Definition or_default (cond fallback : string) : string :=
  if String.eqb cond "" then fallback else cond.

(** [classType] is [None] for the empty type of the write and read ports. *)
Definition role_reasons (role : Role) (port : string) (classType : option Type_)
    (postWriteWindowActive : bool) : list string :=
  if String.eqb port "compat" && bool_decide (classType = Some TypeRead) && postWriteWindowActive
  then
    if bool_decide (role = RoleUnknown) then ["role:unknown"]
    else if bool_decide (role <> RolePrimary) then ["post_write_window:primary_only"]
    else []
  else
    let needsPrimary := String.eqb port "write"
      || (String.eqb port "compat" && bool_decide (classType = Some TypeWrite)) in
    let needsReplica := String.eqb port "read"
      || (String.eqb port "compat" && bool_decide (classType = Some TypeRead)) in
    if needsPrimary && bool_decide (role <> RolePrimary) then
      if bool_decide (role = RoleUnknown) then ["role:unknown"] else ["role:not_primary"]
    else if needsReplica && bool_decide (role <> RoleReplica) then
      if bool_decide (role = RoleUnknown) then ["role:unknown"] else ["role:not_replica"]
    else [].

Definition candidate_reasons (p : Pipeline) (clusterID : SystemID) (port : string)
    (classType : option Type_) (postWriteWindowActive : bool) (nv : NodeView) : list string :=
  let '(hEl, hCond) := policy_state p (defaultHealthPolicyName p) (nv_ID nv) in
  let '(lEl, lCond) := policy_state p (defaultLagPolicyName p) (nv_ID nv) in
  let '(sEl, sCond) := policy_state p (defaultSatPolicyName p) (nv_ID nv) in
  reason_if (negb (String.eqb (nv_SystemID nv) "") && negb (String.eqb (nv_SystemID nv) clusterID))
    "system_id:mismatch"
  ++ role_reasons (nv_ObservedRole nv) port classType postWriteWindowActive
  ++ reason_if (negb hEl) (or_default hCond "liveness:not_up")
  ++ reason_if (bool_decide (classType <> Some TypeWrite) && negb lEl)
       (or_default lCond "lag:policy_active")
  ++ reason_if (negb sEl) (or_default sCond "pool:saturated").

Definition candidate (p : Pipeline) (clusterID : SystemID) (port : string)
    (classType : option Type_) (postWriteWindowActive : bool) (nv : NodeView) : Candidate :=
  match candidate_reasons p clusterID port classType postWriteWindowActive nv with
  | [] => MkCandidate (nv_ID nv) true []
  | reasons => MkCandidate (nv_ID nv) false reasons
  end.

Definition filterCandidates (p : Pipeline) (clusterID : SystemID) (nodes : list NodeView)
    (port : string) (classType : option Type_) (postWriteWindowActive : bool) : list Candidate :=
  candidate p clusterID port classType postWriteWindowActive <$> nodes.

Definition eligibleNodes (candidates : list Candidate) : list NodeID :=
  cand_NodeID <$> filter (fun c => cand_Eligible c = true) candidates.

(** ** Selection *)

(** The smallest id, by a scan that starts from the first. *)
Definition smallest (eligible : list NodeID) (first : NodeID) : NodeID :=
  foldl (fun selected id => if String.ltb id selected then id else selected) first eligible.

(** [None] is the panic of an index out of range or of a modulo by zero; the
    new value of [readRR] comes with the node. *)
Definition selectNode (eligible : list NodeID) (port : string) (primary : option NodeView)
    (rr : Z) : option (NodeID * Z) :=
  if String.eqb port "write" then
    match primary with
    | Some pv =>
      if bool_decide (nv_ID pv ∈ eligible) then Some (nv_ID pv, rr)
      else (fun first => (smallest eligible first, rr)) <$> eligible !! 0%nat
    | None => (fun first => (smallest eligible first, rr)) <$> eligible !! 0%nat
    end
  else
    match eligible with
    | [] => None
    | [id] => Some (id, rr)
    | _ =>
      let rr' := uwrap64 (rr + 1) in
      (fun id => (id, rr')) <$> eligible !! Z.to_nat (rr' mod Z.of_nat (length eligible))
    end.

(** ** Lease *)

Definition active_policies (p : Pipeline) (candidates : list Candidate) : list string :=
  match policyEng p with
  | None => []
  | Some eng =>
    inst_Name <$> filter (fun inst =>
      existsb (fun c => bool_decide ((CandidateState eng (inst_Name inst) (cand_NodeID c)).1.1
                                     = StateActive)) candidates = true) (Instances eng)
  end.

Definition rejected (code reason : string) : Outcome := MkOutcome "rejected" "" code reason.
Definition consistency (mode : string) : option Consistency :=
  Some (MkConsistency mode None None).

(** The end of a rejecting path: the error and the outcome, the counter, the
    decision in the result (unless [decided] is false) and the event. *)
Definition reject_lease (env : LeaseEnv) (decided : bool) (err : error) (out : Outcome)
    (event : Event) (r : LeaseResult) (p : Pipeline) : option (LeaseResult * Pipeline) :=
  let r := r <| res_Error := Some err |> in
  let event := event <| ev_Outcome := out |> in
  let p := p <| DecisionsRejected ::= inc64 |> in
  let r := if decided then r <| res_Decision := event |> else r in
  match emitEvent env event p with Some p' => Some (r, p') | None => None end.

(** Take a connection from the pool of [chosen], whose outcome is already in
    the event; [acquired] goes on with the connection. *)
Definition acquire_from (env : LeaseEnv) (chosen : NodeID) (event : Event) (r : LeaseResult)
    (p : Pipeline)
    (acquired : Conn -> LeaseResult -> Pipeline -> option (LeaseResult * Pipeline))
  : option (LeaseResult * Pipeline) :=
  let r := r <| res_NodeID := chosen |> in
  match env_PoolFor env chosen with
  | inl err =>
    reject_lease env true (ProxyError "57P03" "[grunyas] no upstream available" (Some err))
      (rejected "57P03" "pool_lookup_failed") event r p
  | inr mgr =>
    match env_Acquire env mgr with
    | inl err =>
      reject_lease env true (ProxyError "53300" "[grunyas] pool saturated" (Some err))
        (rejected "53300" "pool:acquisition_failed") event r p
    | inr upstream => acquired upstream (r <| res_Upstream := Some upstream |>) p
    end
  end.

Definition finish (env : LeaseEnv) (event : Event) (r : LeaseResult) (p : Pipeline)
  : option (LeaseResult * Pipeline) :=
  match emitEvent env event p with
  | Some p' => Some (r <| res_Decision := event |>, p')
  | None => None
  end.

(** The consistency of a rejected request. *)
Definition rejected_consistency (port : string) (cls : Type_) (event : Event) : Event :=
  if String.eqb port "read" then event <| ev_Consistency := consistency "bounded_staleness" |>
  else if String.eqb port "write" then event <| ev_Consistency := consistency "linearizable" |>
  else if String.eqb port "compat" then
    if bool_decide (cls = TypeWrite) then event <| ev_Consistency := consistency "linearizable" |>
    else event <| ev_Consistency := consistency "bounded_staleness" |>
  else event.

(** The consistency of a granted lease. *)
Definition leased_consistency (req : LeaseRequest) (cls : Type_) (event : Event) : Event :=
  if String.eqb (req_Port req) "read"
  then event <| ev_Consistency := consistency "bounded_staleness" |>
  else if String.eqb (req_Port req) "write"
  then event <| ev_Consistency := consistency "linearizable" |>
  else if String.eqb (req_Port req) "compat" then
    if bool_decide (cls = TypeWrite) then event <| ev_Consistency := consistency "linearizable" |>
    else if req_PostWriteWindowActive req then
      event <| ev_Consistency :=
        Some (MkConsistency "post_write_window" None (Some (req_PostWriteWindowRemainingMs req))) |>
    else event <| ev_Consistency := consistency "bounded_staleness" |>
  else event.

(** The path with an empty eligible set. *)
Definition lease_none (env : LeaseEnv) (req : LeaseRequest) (cls : Type_) (event : Event)
    (p : Pipeline) : option (LeaseResult * Pipeline) :=
  let reject_empty :=
    let write := String.eqb (req_Port req) "write"
                 || (String.eqb (req_Port req) "compat" && bool_decide (cls = TypeWrite)) in
    let reason := if write then "no_primary" else "no_eligible_replica" in
    let msg := if write then "[grunyas] no primary available"
               else "[grunyas] no eligible replica available" in
    reject_lease env true (ProxyError "57P03" msg None) (rejected "57P03" reason)
      (rejected_consistency (req_Port req) cls event) empty_result p in
  if String.eqb (req_Port req) "compat" && bool_decide (cls = TypeRead) then
    match env_Primary env with
    | Some primary =>
      let chosen := nv_ID primary in
      let event := event <| ev_Outcome := MkOutcome "fallback" chosen "" "empty_eligible_set" |>
                         <| ev_Consistency := consistency "linearizable" |> in
      acquire_from env chosen event empty_result p
        (fun _ r p => finish env event r (p <| DecisionsFallback ::= inc64 |>))
    | None => reject_empty
    end
  else reject_empty.

(** The path with eligible nodes. *)
Definition lease_some (env : LeaseEnv) (req : LeaseRequest) (cls : Type_) (eligible : list NodeID)
    (event : Event) (p : Pipeline) : option (LeaseResult * Pipeline) :=
  let primary := env_Primary env in
  if String.eqb (req_Port req) "write" && bool_decide (primary = None) then
    reject_lease env false (ProxyError "57P03" "[grunyas] no primary available" None)
      (rejected "57P03" "no_primary")
      (event <| ev_Consistency := consistency "linearizable" |>) empty_result p
  else
    match selectNode eligible (req_Port req) primary (readRR p) with
    | None => None
    | Some (chosen, rr) =>
      let p := p <| readRR := rr |> in
      let event := event <| ev_Outcome := MkOutcome "leased" chosen "" "" |> in
      acquire_from env chosen event empty_result p
        (fun _ r p => finish env (leased_consistency req cls event) r
                        (p <| DecisionsLeased ::= inc64 |>))
    end.

(** The deferred observation of the duration. *)
Definition observe_duration (env : LeaseEnv) (port : string) (p : Pipeline) : Pipeline :=
  p <| decisionDurationHistograms ::= fun m =>
    <[port := h_observe (env_Since env) (default new_histogram (m !! port))]> m |>.

Definition lease_event (req : LeaseRequest) : Event :=
  MkEvent "" "" time_zero (req_Port req) (req_PoolMode req) (req_LeaseType req)
    (MkClassification "" "" "") [] (MkOutcome "" "" "" "") None [] "client".

(** The candidates of a request, in the order of the nodes. *)
Definition lease_candidates (env : LeaseEnv) (req : LeaseRequest) (p : Pipeline) : list Candidate :=
  let cls := classify (req_Port req) (req_SQL req) in
  let classType := if String.eqb (req_Port req) "compat" then Some (cls_Type cls) else None in
  filterCandidates p (env_ClusterID env) (env_Nodes env) (req_Port req) classType
    (req_PostWriteWindowActive req).

(** [Lease] after the check of the port. *)
Definition lease_valid (env : LeaseEnv) (req : LeaseRequest) (p : Pipeline)
  : option (LeaseResult * Pipeline) :=
  let cls := classify (req_Port req) (req_SQL req) in
  let event := (lease_event req) <| ev_Classification := classification_of cls (req_SQL req) |> in
  match env_Nodes env with
  | [] =>
    reject_lease env true (ProxyError "57P03" "[grunyas] no upstream available" None)
      (rejected "57P03" "no_nodes") event empty_result p
  | _ =>
    let candidates := lease_candidates env req p in
    let event := event <| ev_Candidates := candidates |>
                       <| ev_PoliciesActive := active_policies p candidates |> in
    let eligible := eligibleNodes candidates in
    let n := Z.of_nat (length eligible) in
    let p := if String.eqb (req_Port req) "read" || String.eqb (req_Port req) "compat"
             then p <| EligibleSetRead := n |> else p <| EligibleSetWrite := n |> in
    match eligible with
    | [] => lease_none env req (cls_Type cls) event p
    | _ => lease_some env req (cls_Type cls) eligible event p
    end
  end.

Definition Lease (env : LeaseEnv) (req : LeaseRequest) (p : Pipeline)
  : option (LeaseResult * Pipeline) :=
  let p := p <| DecisionsTotal ::= inc64 |> in
  if negb (isValidPort (req_Port req)) then
    reject_lease env true (ProxyError "0A000" "[grunyas] invalid port" None)
      (rejected "0A000" "invalid_port") (lease_event req) empty_result p
  else
    match lease_valid env req p with
    | Some (r, p') => Some (r, observe_duration env (req_Port req) p')
    | None => None
    end.

(** ** Policy evaluation *)

(** A pool counts as saturated when all of its connections are acquired. *)
Definition saturated (stats : PoolStats) : bool :=
  (MaxConns stats <=? AcquiredConns stats) && (0 <? MaxConns stats).

(** What [updatePolicyEvaluation] reads: the nodes, their pools, and per
    evaluated node the clock and the order of the policy instances. *)
Record EvalEnv := MkEvalEnv {
  ee_Nodes : list NodeView;
  ee_PoolFor : NodeID -> error + Manager;
  ee_PoolStats : Manager -> PoolStats;
  ee_Now : NodeID -> Time;
  ee_Order : NodeID -> list string
}.

(** The saturation map when the caller gives none. *)
Definition saturation_map (env : EvalEnv) : gmap NodeID bool :=
  foldl (fun m nv =>
    match ee_PoolFor env (nv_ID nv) with
    | inl _ => m
    | inr mgr => <[nv_ID nv := saturated (ee_PoolStats env mgr)]> m
    end) ∅ (ee_Nodes env).

Fixpoint evaluate_nodes (env : EvalEnv) (sat : gmap NodeID bool) (nodes : list NodeView) (eng : Engine)
  : option (list TransitionEvent * Engine) :=
  match nodes with
  | [] => Some ([], eng)
  | nv :: rest =>
    match EvaluateNode (ee_Now env (nv_ID nv)) (ee_Order env (nv_ID nv)) nv
            (default false (sat !! nv_ID nv)) eng with
    | None => None
    | Some (evs, eng1) =>
      match evaluate_nodes env sat rest eng1 with
      | None => None
      | Some (evs', eng2) => Some (evs ++ evs', eng2)
      end
    end
  end.

(** The transition events published on the engine's bus, in order, and the new
    pipeline.  [topo] tells whether there is a topology; without an engine the
    first node is a nil dereference, [None]. *)
Definition updatePolicyEvaluation (env : EvalEnv) (topo : bool)
    (poolSaturated : option (gmap NodeID bool)) (p : Pipeline)
  : option (list TransitionEvent * Pipeline) :=
  if negb topo then Some ([], p)
  else
    let sat := match poolSaturated with Some m => m | None => saturation_map env end in
    match policyEng p with
    | None => match ee_Nodes env with [] => Some ([], p) | _ => None end
    | Some eng =>
      match evaluate_nodes env sat (ee_Nodes env) eng with
      | None => None
      | Some (evs, eng') => Some (evs, p <| policyEng := Some eng' |>)
      end
    end.

(** The interval of the observation loop, in milliseconds. *)
Definition observation_interval (intervalMs : Z) : Z :=
  let intervalMs := if intervalMs <=? 0 then 1000 else intervalMs in
  if intervalMs <? 100 then 100 else intervalMs.

(** The loop itself: one evaluation per tick until the context is done. *)
Fixpoint observation_loop (ticks : list EvalEnv) (p : Pipeline)
  : option (list TransitionEvent * Pipeline) :=
  match ticks with
  | [] => Some ([], p)
  | env :: rest =>
    match updatePolicyEvaluation env true None p with
    | None => None
    | Some (evs, p1) =>
      match observation_loop rest p1 with
      | None => None
      | Some (evs', p2) => Some (evs ++ evs', p2)
      end
    end
  end.

(** ** Snapshots *)

Definition DecisionCountersSnapshot (p : Pipeline) : gmap string Z := decisionCounters p.

(** The buckets by their bound, in nanoseconds; the counts as [uint64]. *)
Definition DecisionDurationHistogramSnapshot (p : Pipeline) : gmap string (gmap Z Z) :=
  (fun h => list_to_map (zip durationBucketBounds (uwrap64 <$> h_buckets h)))
    <$> decisionDurationHistograms p.

Definition DecisionDurationSumSnapshot (p : Pipeline) : gmap string Z :=
  h_sum <$> decisionDurationHistograms p.

Definition DecisionDurationCountSnapshot (p : Pipeline) : gmap string Z :=
  h_count <$> decisionDurationHistograms p.

(** ** Emission: what a finished decision leaves behind *)

Definition bus_ready (env : LeaseEnv) (p : Pipeline) : Prop :=
  match decisionsBus p with Some b => bus_inv b /\ sub_order b (env_SubOrder env) | None => True end.

(** Exactly one event: published once and counted under one key, or nowhere
    when there is no bus. *)
Definition published (p p' : Pipeline) : Prop :=
  match decisionsBus p, decisionsBus p' with
  | None, None => PublishedTotal p' = PublishedTotal p /\ decisionCounters p' = decisionCounters p
  | Some b, Some b' =>
    bus_inv b' /\ subscribers b' = subscribers b /\ PublishedTotal p' = inc64 (PublishedTotal p) /\
    exists key, decisionCounters p' =
      <[key := inc64 (default 0 (decisionCounters p !! key))]> (decisionCounters p)
  | _, _ => False
  end.

(** Nothing but the bus and the counters of events changes. *)
Definition same_decisions (p p' : Pipeline) : Prop :=
  DecisionsTotal p' = DecisionsTotal p /\ DecisionsLeased p' = DecisionsLeased p /\
  DecisionsRejected p' = DecisionsRejected p /\ DecisionsFallback p' = DecisionsFallback p /\
  readRR p' = readRR p /\ policyEng p' = policyEng p.

Lemma emitEvent_spec env event p :
  bus_ready env p ->
  exists p', emitEvent env event p = Some p' /\ published p p' /\ same_decisions p p'.
Proof.
  unfold bus_ready, emitEvent, published, same_decisions.
  destruct (decisionsBus p) as [b|] eqn:Eb; [|intros _; exists p; rewrite Eb; by split_and!].
  intros [Hinv Hord]. unfold Publish. destruct (closed b).
  - eexists. split; [reflexivity|]. cbn. split_and!; eauto.
  - destruct (deliver_inv b (env_SubOrder env)
                (stamp (env_Now env) (env_ULID env) (BusDecision event)) Hinv Hord) as (b' & Hd & Hinv').
    rewrite Hd. eexists. split; [reflexivity|]. cbn.
    split_and!; eauto. by apply deliver_subscribers in Hd.
Qed.

(** One decision: exactly one of the three outcome counters goes up. *)
Definition one_outcome (p p' : Pipeline) : Prop :=
  (DecisionsLeased p' = inc64 (DecisionsLeased p) /\ DecisionsRejected p' = DecisionsRejected p /\
   DecisionsFallback p' = DecisionsFallback p) \/
  (DecisionsLeased p' = DecisionsLeased p /\ DecisionsRejected p' = inc64 (DecisionsRejected p) /\
   DecisionsFallback p' = DecisionsFallback p) \/
  (DecisionsLeased p' = DecisionsLeased p /\ DecisionsRejected p' = DecisionsRejected p /\
   DecisionsFallback p' = inc64 (DecisionsFallback p)).

Definition settled (p p' : Pipeline) : Prop :=
  DecisionsTotal p' = DecisionsTotal p /\ one_outcome p p' /\ published p p' /\
  policyEng p' = policyEng p.

Definition is_error (r : LeaseResult) : Prop :=
  res_Upstream r = None /\
  exists code msg cause, res_Error r = Some (ProxyError code msg cause) /\
    code ∈ ["0A000"; "57P03"; "53300"].

Lemma reject_lease_spec env decided code msg cause out event r p :
  bus_ready env p -> code ∈ ["0A000"; "57P03"; "53300"] -> res_Upstream r = None ->
  exists r' p', reject_lease env decided (ProxyError code msg cause) out event r p = Some (r', p') /\
    settled p p' /\ is_error r'.
Proof.
  intros Hb Hcode Hup. unfold reject_lease. cbn zeta.
  match goal with |- context [emitEvent env ?ev ?q] =>
    destruct (emitEvent_spec env ev q Hb) as (p' & -> & Hpub & Ht & Hl & Hr & Hf & _ & He) end.
  do 2 eexists. split; [reflexivity|]. split.
  - split; [done|]. split; [by right; left|done].
  - split; [by destruct decided|]. exists code, msg, cause. split; [by destruct decided|done].
Qed.

(** The request gets a connection from the pool of the node it was leased. *)
Definition granted (env : LeaseEnv) (req : LeaseRequest) (p : Pipeline) (r : LeaseResult) : Prop :=
  let eligible := eligibleNodes (lease_candidates env req p) in
  let cls := cls_Type (classify (req_Port req) (req_SQL req)) in
  exists mgr conn, res_Upstream r = Some conn /\ res_Error r = None /\
    env_PoolFor env (res_NodeID r) = inr mgr /\ env_Acquire env mgr = inr conn /\
    ((ev_Outcome (res_Decision r) = MkOutcome "leased" (res_NodeID r) "" "" /\
      res_NodeID r ∈ eligible /\
      (req_Port req = "write" ->
       exists pv, env_Primary env = Some pv /\
         (res_NodeID r = nv_ID pv \/ (nv_ID pv ∉ eligible)))) \/
     (ev_Outcome (res_Decision r) = MkOutcome "fallback" (res_NodeID r) "" "empty_eligible_set" /\
      req_Port req = "compat" /\ cls = TypeRead /\ eligible = [] /\
      exists pv, env_Primary env = Some pv /\ nv_ID pv = res_NodeID r)).

Lemma smallest_elem eligible first : first ∈ eligible -> smallest eligible first ∈ eligible.
Proof.
  unfold smallest. intros Hf.
  assert (Hgen : forall l sel, sel ∈ eligible -> (forall x, x ∈ l -> x ∈ eligible) ->
    foldl (fun s id => if String.ltb id s then id else s) sel l ∈ eligible).
  { induction l as [|x l IH]; intros sel Hsel Hin; [done|]. cbn. apply IH.
    - destruct (String.ltb x sel); [apply Hin; set_solver|done].
    - set_solver. }
  by apply Hgen.
Qed.

(** The selection never panics and stays within the eligible nodes; on the
    write port it is the primary whenever that is eligible. *)
Lemma selectNode_spec eligible port primary rr :
  eligible <> [] ->
  exists id rr', selectNode eligible port primary rr = Some (id, rr') /\ id ∈ eligible /\
    (port = "write" -> forall pv, primary = Some pv -> id = nv_ID pv \/ nv_ID pv ∉ eligible).
Proof.
  intros Hne. unfold selectNode.
  assert (Hfirst : exists first, eligible !! 0%nat = Some first /\ first ∈ eligible).
  { destruct eligible as [|x l]; [done|]. exists x. split; [done|set_solver]. }
  destruct Hfirst as (first & Hf & Hin).
  destruct (String.eqb_spec port "write") as [->|Hport].
  - destruct primary as [pv|].
    + case_bool_decide as Hpv.
      * exists (nv_ID pv), rr. split_and!; [done..|]. intros _ pv' [= <-]. by left.
      * rewrite Hf. do 2 eexists. split; [reflexivity|]. split; [by apply smallest_elem|].
        intros _ pv' [= <-]. by right.
    + rewrite Hf. do 2 eexists. split; [reflexivity|]. split; [by apply smallest_elem|done].
  - destruct eligible as [|x [|y l]]; [done| |].
    { exists x, rr. split_and!; [done|set_solver|done]. }
    set (el := x :: y :: l) in *.
    assert (Hidx : (Z.to_nat (uwrap64 (rr + 1) mod Z.of_nat (length el)) < length el)%nat).
    { assert (0 < Z.of_nat (length el)) by (subst el; cbn; lia).
      pose proof (Z.mod_pos_bound (uwrap64 (rr + 1)) (Z.of_nat (length el))). lia. }
    destruct (lookup_lt_is_Some_2 el _ Hidx) as [id Hid]. rewrite Hid. cbn.
    do 2 eexists. split; [reflexivity|]. split; [by apply list_elem_of_lookup_2 in Hid|done].
Qed.

Lemma acquire_spec env req chosen event r p acquired :
  bus_ready env p -> res_Upstream r = None ->
  (forall mgr conn, env_PoolFor env chosen = inr mgr -> env_Acquire env mgr = inr conn ->
     exists r' p', acquired conn (r <| res_NodeID := chosen |> <| res_Upstream := Some conn |>) p
                     = Some (r', p') /\ settled p p' /\ granted env req p r') ->
  exists r' p', acquire_from env chosen event r p acquired = Some (r', p') /\
    settled p p' /\ (granted env req p r' \/ is_error r').
Proof.
  intros Hb Hup Hacq. unfold acquire_from. cbn zeta.
  destruct (env_PoolFor env chosen) as [err|mgr] eqn:Ep.
  - edestruct reject_lease_spec as (r' & p' & -> & Hs & He); [exact Hb| |exact Hup|]; [set_solver|eauto 6].
  - destruct (env_Acquire env mgr) as [err|conn] eqn:Ea.
    + edestruct reject_lease_spec as (r' & p' & -> & Hs & He); [exact Hb| |exact Hup|]; [set_solver|eauto 6].
    + destruct (Hacq mgr conn) as (r' & p' & -> & Hs & Hg); eauto 6.
Qed.

Lemma finish_leased env event r p :
  bus_ready env p ->
  exists p', finish env event r (p <| DecisionsLeased ::= inc64 |>) =
               Some (r <| res_Decision := event |>, p') /\ settled p p'.
Proof.
  intros Hb. unfold finish. edestruct emitEvent_spec as (p' & -> & Hpub & Ht & Hl & Hr & Hf & _ & He);
    [exact Hb|]. eexists. split; [reflexivity|]. split; [done|]. split; [by left|done].
Qed.

Lemma finish_fallback env event r p :
  bus_ready env p ->
  exists p', finish env event r (p <| DecisionsFallback ::= inc64 |>) =
               Some (r <| res_Decision := event |>, p') /\ settled p p'.
Proof.
  intros Hb. unfold finish. edestruct emitEvent_spec as (p' & -> & Hpub & Ht & Hl & Hr & Hf & _ & He);
    [exact Hb|]. eexists. split; [reflexivity|]. split; [done|]. split; [by right; right|done].
Qed.

Lemma leased_consistency_outcome req cls event :
  ev_Outcome (leased_consistency req cls event) = ev_Outcome event.
Proof. unfold leased_consistency. by split_ifs. Qed.

Lemma lease_none_spec env req event p :
  bus_ready env p -> eligibleNodes (lease_candidates env req p) = [] ->
  let cls := cls_Type (classify (req_Port req) (req_SQL req)) in
  exists r p', lease_none env req cls event p = Some (r, p') /\
    settled p p' /\ (granted env req p r \/ is_error r).
Proof.
  intros Hb Hel cls. unfold lease_none. cbn zeta.
  assert (Hrej : forall msg out ev, exists r p',
    reject_lease env true (ProxyError "57P03" msg None) out ev empty_result p = Some (r, p') /\
    settled p p' /\ (granted env req p r \/ is_error r)).
  { intros msg out ev. edestruct reject_lease_spec as (r & p' & -> & Hs & He);
      [exact Hb| |done|]; [set_solver|eauto 6]. }
  destruct (String.eqb_spec (req_Port req) "compat") as [Hport|Hport]; [|apply Hrej].
  destruct (bool_decide (cls = TypeRead)) eqn:Hcls; [|apply Hrej]. cbn [andb].
  destruct (env_Primary env) as [pv|] eqn:Hpv; [|apply Hrej].
  apply acquire_spec; [exact Hb|done|]. intros mgr conn Hm Ha.
  edestruct finish_fallback as (p' & -> & Hs); [exact Hb|].
  do 2 eexists. split; [reflexivity|]. split; [exact Hs|].
  exists mgr, conn. cbn. split_and!; try done. right. split_and!; try done; [|by eexists].
  by apply bool_decide_eq_true in Hcls.
Qed.

Lemma lease_some_spec env req event p :
  bus_ready env p -> eligibleNodes (lease_candidates env req p) <> [] ->
  let cls := cls_Type (classify (req_Port req) (req_SQL req)) in
  exists r p', lease_some env req cls (eligibleNodes (lease_candidates env req p)) event p = Some (r, p') /\
    settled p p' /\ (granted env req p r \/ is_error r).
Proof.
  intros Hb Hel cls. unfold lease_some. cbn zeta.
  destruct (String.eqb (req_Port req) "write" && bool_decide (env_Primary env = None)) eqn:Hw.
  { edestruct reject_lease_spec as (r & p' & -> & Hs & He); [exact Hb| |done|]; [set_solver|eauto 6]. }
  destruct (selectNode_spec _ (req_Port req) (env_Primary env) (readRR p) Hel)
    as (id & rr & -> & Hin & Hwr).
  match goal with |- context [acquire_from env id ?ev ?r ?q ?k] =>
    destruct (acquire_spec env req id ev r q k) as (r' & p' & -> & Hs & Hg) end;
    [exact Hb|done| |exists r', p'; split; [done|split; [exact Hs|exact Hg]]].
  intros mgr conn Hm Ha. edestruct finish_leased as (p' & -> & Hs);
    [|do 2 eexists; split; [reflexivity|]; split; [exact Hs|]]; [exact Hb|].
  exists mgr, conn. cbn. rewrite leased_consistency_outcome. split_and!; try done.
  left. split_and!; try done. intros Hport. rewrite Hport in Hw. cbn in Hw.
  destruct (env_Primary env) as [pv|]; [|by rewrite bool_decide_eq_true_2 in Hw].
  exists pv. split; [done|]. by apply Hwr.
Qed.

Lemma lease_valid_spec env req p :
  bus_ready env p ->
  exists r p', lease_valid env req p = Some (r, p') /\ settled p p' /\
    (granted env req p r \/ is_error r).
Proof.
  intros Hb. unfold lease_valid. cbn zeta. destruct (env_Nodes env) as [|nv nvs] eqn:Hn.
  { edestruct reject_lease_spec as (r & p' & -> & Hs & He); [exact Hb| |done|]; [set_solver|eauto 6]. }
  set (event := put_field _ _). clearbody event.
  assert (Hgen : forall q, bus_ready env q -> lease_candidates env req q = lease_candidates env req p ->
    settled q = settled p ->
    exists r p', match eligibleNodes (lease_candidates env req p) with
                 | [] => lease_none env req (cls_Type (classify (req_Port req) (req_SQL req))) event q
                 | _ => lease_some env req (cls_Type (classify (req_Port req) (req_SQL req)))
                          (eligibleNodes (lease_candidates env req p)) event q
                 end = Some (r, p') /\ settled p p' /\ (granted env req p r \/ is_error r)).
  { intros q Hq Hc Hset. rewrite <- Hset, <- Hc. unfold granted. rewrite <- Hc.
    destruct (eligibleNodes (lease_candidates env req q)) as [|id ids] eqn:Hel.
    - pose proof (lease_none_spec env req event q Hq Hel) as Hx. unfold granted in Hx.
      by rewrite Hel in Hx.
    - pose proof (lease_some_spec env req event q Hq) as Hx. unfold granted in Hx.
      rewrite Hel in Hx. by apply Hx. }
  destruct (_ || _); by apply Hgen.
Qed.

Lemma observe_settled env port p p' : settled p p' -> settled p (observe_duration env port p').
Proof. done. Qed.

Lemma Lease_spec env req p :
  bus_ready env p ->
  exists r p', Lease env req p = Some (r, p') /\
    settled (p <| DecisionsTotal ::= inc64 |>) p' /\
    ((isValidPort (req_Port req) = true /\ granted env req p r) \/ is_error r).
Proof.
  intros Hb. unfold Lease. cbn zeta. destruct (isValidPort (req_Port req)) eqn:Hv; cbn [negb].
  - edestruct lease_valid_spec as (r & p' & -> & Hs & Hg); [|do 2 eexists; split; [reflexivity|]].
    { exact Hb. } split; [exact Hs|]. destruct Hg as [Hg|Hg]; [left|by right]. split; [done|exact Hg].
  - edestruct reject_lease_spec as (r & p' & -> & Hs & He); [exact Hb| |done|]; [set_solver|eauto 6].
Qed.

(** ** Eligibility, declaratively *)

Definition required_role (req : LeaseRequest) : Role :=
  if String.eqb (req_Port req) "write" then RolePrimary
  else if String.eqb (req_Port req) "read" then RoleReplica
  else match cls_Type (classify (req_Port req) (req_SQL req)) with
       | TypeWrite => RolePrimary
       | _ => if req_PostWriteWindowActive req then RolePrimary else RoleReplica
       end.

Definition allows (p : Pipeline) (name : string) (id : NodeID) : Prop :=
  match policyEng p with Some eng => IsEligible eng name id = true | None => True end.

(** A write on the compat port is the one request that lag does not filter. *)
Definition lag_filtered (req : LeaseRequest) : Prop :=
  ~ (req_Port req = "compat" /\ cls_Type (classify (req_Port req) (req_SQL req)) = TypeWrite).

Definition suitable (env : LeaseEnv) (req : LeaseRequest) (p : Pipeline) (nv : NodeView) : Prop :=
  (nv_SystemID nv = "" \/ nv_SystemID nv = env_ClusterID env) /\
  nv_ObservedRole nv = required_role req /\
  allows p (defaultHealthPolicyName p) (nv_ID nv) /\
  (lag_filtered req -> allows p (defaultLagPolicyName p) (nv_ID nv)) /\
  allows p (defaultSatPolicyName p) (nv_ID nv).

Lemma reason_if_nil b r : reason_if b r = [] <-> b = false.
Proof. by destruct b. Qed.

Lemma policy_state_allows p name id : (policy_state p name id).1 = true <-> allows p name id.
Proof.
  unfold policy_state, allows, EvaluatePolicyState, IsEligible. destruct (policyEng p); [|done].
  by destruct (node_state _ _ _).
Qed.

Lemma classify_known port sql : cls_Type (classify port sql) <> TypeUnknown.
Proof. unfold classify, Classify, classifyByKeyword. cbn. destruct (firstKeyword sql). by split_ifs. Qed.

Definition class_type (req : LeaseRequest) : option Type_ :=
  if String.eqb (req_Port req) "compat"
  then Some (cls_Type (classify (req_Port req) (req_SQL req))) else None.

Lemma role_reasons_spec req role :
  isValidPort (req_Port req) = true ->
  role_reasons role (req_Port req) (class_type req) (req_PostWriteWindowActive req) = []
  <-> role = required_role req.
Proof.
  intros [[Hp|Hp]%orb_true_elim|Hp]%orb_true_elim; apply String.eqb_eq in Hp;
    unfold role_reasons, required_role, class_type; rewrite Hp; cbn;
    pose proof (classify_known "compat" (req_SQL req)) as Hk;
    destruct (cls_Type (classify "compat" (req_SQL req)));
    destruct role, (req_PostWriteWindowActive req); cbn; done.
Qed.

Lemma class_type_write req : class_type req <> Some TypeWrite <-> lag_filtered req.
Proof.
  unfold class_type, lag_filtered. destruct (String.eqb_spec (req_Port req) "compat") as [Hp|Hp].
  - split; [intros H [_ Hc]; congruence|intros H [= Hc]; by apply H].
  - split; [by intros _ [Hc _]|done].
Qed.

Lemma candidate_reasons_spec env req p nv :
  isValidPort (req_Port req) = true ->
  candidate_reasons p (env_ClusterID env) (req_Port req) (class_type req)
    (req_PostWriteWindowActive req) nv = [] <-> suitable env req p nv.
Proof.
  intros Hv. unfold candidate_reasons, suitable.
  destruct (policy_state p (defaultHealthPolicyName p) (nv_ID nv)) as [hEl hC] eqn:Eh.
  destruct (policy_state p (defaultLagPolicyName p) (nv_ID nv)) as [lEl lC] eqn:El.
  destruct (policy_state p (defaultSatPolicyName p) (nv_ID nv)) as [sEl sC] eqn:Es.
  rewrite <- !policy_state_allows, Eh, El, Es, <- class_type_write. cbn [fst].
  rewrite !app_nil, !reason_if_nil, (role_reasons_spec req _ Hv).
  destruct (String.eqb_spec (nv_SystemID nv) ""), (String.eqb_spec (nv_SystemID nv) (env_ClusterID env));
    destruct hEl, lEl, sEl; cbn; case_bool_decide; naive_solver.
Qed.

Lemma lease_candidates_eq env req p :
  lease_candidates env req p =
  candidate p (env_ClusterID env) (req_Port req) (class_type req) (req_PostWriteWindowActive req)
    <$> env_Nodes env.
Proof. done. Qed.

Lemma candidate_fields p cid port ct w nv :
  let c := candidate p cid port ct w nv in
  cand_NodeID c = nv_ID nv /\ cand_Reasons c = candidate_reasons p cid port ct w nv /\
  (cand_Eligible c = true <-> cand_Reasons c = []).
Proof. unfold candidate. by destruct (candidate_reasons p cid port ct w nv). Qed.

Lemma eligible_spec env req p id :
  isValidPort (req_Port req) = true ->
  id ∈ eligibleNodes (lease_candidates env req p) <->
  exists nv, nv ∈ env_Nodes env /\ nv_ID nv = id /\ suitable env req p nv.
Proof.
  intros Hv. unfold eligibleNodes. rewrite lease_candidates_eq, list_elem_of_fmap.
  setoid_rewrite list_elem_of_filter. setoid_rewrite list_elem_of_fmap.
  split.
  - intros (c & -> & He & nv & -> & Hin).
    destruct (candidate_fields p (env_ClusterID env) (req_Port req) (class_type req)
                (req_PostWriteWindowActive req) nv) as (Hid & Hr & Hel).
    exists nv. split_and!; [done..|]. apply candidate_reasons_spec; [done|]. rewrite <- Hr. by apply Hel.
  - intros (nv & Hin & <- & Hs). eexists. split; [|split; [|by eexists]].
    + by destruct (candidate_fields p (env_ClusterID env) (req_Port req) (class_type req)
                (req_PostWriteWindowActive req) nv) as (-> & _).
    + destruct (candidate_fields p (env_ClusterID env) (req_Port req) (class_type req)
                (req_PostWriteWindowActive req) nv) as (_ & Hr & Hel).
      apply Hel. rewrite Hr. by apply candidate_reasons_spec.
Qed.

(** ** Accounting *)

Definition map_sum (m : gmap string Z) : Z := map_fold (fun _ v acc => v + acc) 0 m.

Lemma map_sum_insert_new m k v : m !! k = None -> map_sum (<[k := v]> m) = v + map_sum m.
Proof. intros H. unfold map_sum. apply map_fold_insert_L; [intros; lia|done]. Qed.

Lemma map_sum_insert m k v : map_sum (<[k := v]> m) = map_sum m - default 0 (m !! k) + v.
Proof.
  destruct (m !! k) as [w|] eqn:E; cbn.
  - rewrite <- (insert_delete_id m k w E) at 2. rewrite <- (insert_delete_eq m k v).
    rewrite !map_sum_insert_new by apply lookup_delete_eq. lia.
  - rewrite map_sum_insert_new by done. lia.
Qed.

Definition accounted (p : Pipeline) : Prop :=
  DecisionsTotal p = wrap64 (DecisionsLeased p + DecisionsRejected p + DecisionsFallback p) /\
  match decisionsBus p with
  | None => PublishedTotal p = 0 /\ decisionCounters p = ∅
  | Some b => bus_inv b /\ PublishedTotal p = DecisionsTotal p /\
              PublishedTotal p = wrap64 (map_sum (decisionCounters p))
  end.

Lemma inc64_wrap64 x : inc64 (wrap64 x) = wrap64 (x + 1).
Proof. apply wrap64_add_l. Qed.

Lemma settled_accounted p p' :
  accounted p -> settled (p <| DecisionsTotal ::= inc64 |>) p' -> accounted p'.
Proof.
  intros [Htot Hpub] (Ht & Ho & Hp & _). unfold accounted, published, one_outcome in *. cbn in *.
  split.
  - rewrite Ht, Htot, inc64_wrap64. apply wrap64_eq.
    destruct Ho as [(-> & -> & ->)|[(-> & -> & ->)|(-> & -> & ->)]]; unfold inc64;
      [|rewrite (Z.add_comm (DecisionsLeased p) (wrap64 _)), <- Z.add_assoc
       |rewrite (Z.add_comm _ (wrap64 _))];
      rewrite <- ?Z.add_assoc, (Z.add_mod (wrap64 _)), wrap64_mod, <- Z.add_mod by lia;
      f_equal; lia.
  - destruct (decisionsBus p) as [b|], (decisionsBus p') as [b'|]; try done.
    + destruct Hpub as (Hinv & HpT & Hsum), Hp as (Hinv' & _ & HpT' & key & Hc).
      split; [done|]. split; [congruence|]. rewrite HpT', Hc, map_sum_insert, Hsum, inc64_wrap64.
      unfold inc64. apply wrap64_eq.
      rewrite (Z.add_mod _ (wrap64 _)), wrap64_mod, <- Z.add_mod by lia. f_equal. lia.
    + by destruct Hp as [-> ->].
Qed.

(** The operations on a pipeline, those of the bus' other users included. *)
Inductive pipeline_step : Pipeline -> string -> Pipeline -> Prop :=
| step_lease env req p r p' :
    bus_ready env p -> Lease env req p = Some (r, p') -> pipeline_step p "lease" p'
| step_read_write env sql mode p e p' :
    bus_ready env p -> RejectReadPortWrite env sql mode p = Some (e, p') ->
    pipeline_step p "read_port_write" p'
| step_reclassify env sql mode p e p' :
    bus_ready env p -> RejectCompatReclassification env sql mode p = Some (e, p') ->
    pipeline_step p "reclassification" p'
| step_evaluate env topo sat p evs p' :
    updatePolicyEvaluation env topo sat p = Some (evs, p') -> pipeline_step p "evaluate" p'
| step_bus p b op b' :
    decisionsBus p = Some b -> 0 <= bufSize b -> bus_step b op b' ->
    pipeline_step p "bus" (p <| decisionsBus := Some b' |>).

Lemma RejectReadPortWrite_spec env sql mode p :
  bus_ready env p ->
  exists e p', RejectReadPortWrite env sql mode p = Some (e, p') /\
    settled (p <| DecisionsTotal ::= inc64 |>) p'.
Proof.
  intros Hb. unfold RejectReadPortWrite. cbn zeta.
  edestruct emitEvent_spec as (p' & -> & Hpub & Ht & Hl & Hr & Hf & _ & He); [exact Hb|].
  do 2 eexists. split; [reflexivity|]. split; [done|]. split; [by right; left|done].
Qed.

Lemma RejectCompat_spec env sql mode p :
  bus_ready env p ->
  exists e p', RejectCompatReclassification env sql mode p = Some (e, p') /\
    settled (p <| DecisionsTotal ::= inc64 |>) p'.
Proof.
  intros Hb. unfold RejectCompatReclassification. cbn zeta.
  edestruct emitEvent_spec as (p' & -> & Hpub & Ht & Hl & Hr & Hf & _ & He); [exact Hb|].
  do 2 eexists. split; [reflexivity|]. split; [done|]. split; [by right; left|done].
Qed.

Lemma pipeline_step_accounted p l p' : accounted p -> pipeline_step p l p' -> accounted p'.
Proof.
  intros Hacc Hst. destruct Hst as [env req p r p' Hb HL|env sql mode p e p' Hb HR
    |env sql mode p e p' Hb HR|env topo sat p evs p' Hu|p b op b' Hbus Hsz Hst].
  - destruct (Lease_spec env req p Hb) as (r1 & p1 & HL1 & Hs & _).
    rewrite HL1 in HL. injection HL as _ <-. by apply (settled_accounted p).
  - destruct (RejectReadPortWrite_spec env sql mode p Hb) as (e1 & p1 & HR1 & Hs).
    rewrite HR1 in HR. injection HR as _ <-. by apply (settled_accounted p).
  - destruct (RejectCompat_spec env sql mode p Hb) as (e1 & p1 & HR1 & Hs).
    rewrite HR1 in HR. injection HR as _ <-. by apply (settled_accounted p).
  - unfold updatePolicyEvaluation in Hu. destruct topo; cbn in Hu; [|by injection Hu as _ <-].
    destruct (policyEng p); [|destruct (ee_Nodes env); [by injection Hu as _ <-|done]].
    destruct (evaluate_nodes _ _ _ _) as [[evs' eng']|]; [|done]. by injection Hu as _ <-.
  - destruct Hacc as [Htot Hpub]. split; [done|]. cbn. rewrite Hbus in Hpub.
    destruct Hpub as (Hinv & HpT & Hsum). split; [|done]. by apply (bus_step_inv b op b').
Qed.

Lemma NewPipeline_accounted eng bus :
  match bus with Some b => bus_inv b | None => True end -> accounted (NewPipeline eng bus).
Proof. intros H. unfold accounted, NewPipeline. cbn. by destruct bus. Qed.


(** C1: A lease request always gets an answer, and a connection only from a
    node that may serve it.  [Lease] does not panic; it returns either a
    connection or an error with one of its SQLSTATE codes.  A connection comes
    from the pool of a node that was observed in the role the request needs
    (the primary for writes and inside a post-write window, a replica for
    other reads), belongs to the cluster and is admitted by the health, the
    saturation and, unless the request is a compat-port write, the lag policy;
    or, for a read on the compat port when no node is suitable, from the pool
    of the single primary. *)
Theorem Lease_serves_suitable_node (env : LeaseEnv) (req : LeaseRequest) (p : Pipeline) :
  bus_ready env p ->
  exists r p', Lease env req p = Some (r, p') /\
    (is_error r \/
     exists mgr conn, res_Upstream r = Some conn /\ res_Error r = None /\
       env_PoolFor env (res_NodeID r) = inr mgr /\ env_Acquire env mgr = inr conn /\
       ((exists nv, nv ∈ env_Nodes env /\ nv_ID nv = res_NodeID r /\ suitable env req p nv) \/
        (req_Port req = "compat" /\ cls_Type (classify (req_Port req) (req_SQL req)) = TypeRead /\
         (forall nv, nv ∈ env_Nodes env -> ~ suitable env req p nv) /\
         exists pv, env_Primary env = Some pv /\ nv_ID pv = res_NodeID r))).
Proof.
  intros Hb. destruct (Lease_spec env req p Hb) as (r & p' & HL & _ & Hg).
  exists r, p'. split; [done|]. destruct Hg as [[Hv Hg]|He]; [right|by left].
  destruct Hg as (mgr & conn & Hup & Herr & Hpool & Hacq & Hcase). exists mgr, conn.
  split_and!; [done..|]. destruct Hcase as [(_ & Hin & _)|(_ & Hc & Hcl & Hel & Hp)].
  - left. by apply eligible_spec.
  - right. split_and!; [done..| |done]. intros nv Hin Hs.
    assert (Hin' : nv_ID nv ∈ eligibleNodes (lease_candidates env req p)).
    { apply eligible_spec; [done|]. by exists nv. }
    rewrite Hel in Hin'. by apply not_elem_of_nil in Hin'.
Qed.

(** A topology with a primary "a" and a replica "b", and a pipeline on it. *)
Definition demo_cluster : Topology :=
  UpdateObservedRole "b" PRoleReplica (UpdateObservedRole "a" PRolePrimary demo_topology).
Definition demo_env (t : Topology) : LeaseEnv :=
  quiet_env t ["a"; "b"] 7 (fun m => inr m) 1000 [] "id".
Definition demo_pipeline : Pipeline := NewPipeline (Some demo_engine) (Some (NewBus 2 1)).
Definition demo_request (port sql : string) : LeaseRequest :=
  MkLeaseRequest port "transaction" "transaction" sql false 0.

Lemma demo_bus_ready t : bus_ready (demo_env t) demo_pipeline.
Proof. split; [by apply NewBus_inv|]. change ([] ≡ₚ elements (∅ : gset Z)). by vm_compute. Qed.

Definition demo_leased (t : Topology) (port sql : string) (p : Pipeline) : LeaseResult * Pipeline :=
  default (empty_result, p) (Lease (demo_env t) (demo_request port sql) p).


Lemma Lease_serves_suitable_node_witness :
  exists r p', Lease (demo_env demo_cluster) (demo_request "read" "select 1") demo_pipeline
                 = Some (r, p') /\
    res_NodeID (demo_leased demo_cluster "read" "select 1" demo_pipeline).1 = "b".
Proof.
  destruct (Lease_serves_suitable_node (demo_env demo_cluster) (demo_request "read" "select 1")
              demo_pipeline (demo_bus_ready demo_cluster)) as (r & p' & HL & _).
  exists r, p'. split; [exact HL|by vm_compute].
Defined.

(** The candidates of a decision event explain it: there is one for each
    node seen, in order and under its id; it is eligible exactly when the node
    is suitable for the request, and an ineligible one always says why. *)
Theorem candidates_explain (env : LeaseEnv) (req : LeaseRequest) (p : Pipeline) :
  isValidPort (req_Port req) = true ->
  Forall2 (fun nv c => cand_NodeID c = nv_ID nv /\
             (cand_Eligible c = true <-> suitable env req p nv) /\
             (cand_Reasons c = [] <-> cand_Eligible c = true))
    (env_Nodes env) (lease_candidates env req p).
Proof.
  intros Hv. rewrite lease_candidates_eq. apply Forall2_fmap_r, Forall_Forall2_diag, Forall_forall.
  intros nv _. destruct (candidate_fields p (env_ClusterID env) (req_Port req) (class_type req)
    (req_PostWriteWindowActive req) nv) as (Hid & Hr & Hel).
  split; [done|]. split; [|done]. by rewrite Hel, Hr, candidate_reasons_spec.
Qed.

Lemma candidates_explain_witness :
  Forall2 (fun nv c => cand_NodeID c = nv_ID nv /\
             (cand_Eligible c = true <->
                suitable (demo_env demo_cluster) (demo_request "read" "select 1") demo_pipeline nv) /\
             (cand_Reasons c = [] <-> cand_Eligible c = true))
    (env_Nodes (demo_env demo_cluster))
    (lease_candidates (demo_env demo_cluster) (demo_request "read" "select 1") demo_pipeline).
Proof.
  exact (candidates_explain (demo_env demo_cluster) (demo_request "read" "select 1") demo_pipeline
           eq_refl).
Defined.

(** *** Round robin *)

(** [k] selections in a row over the same eligible nodes. *)
Fixpoint select_many (k : nat) (eligible : list NodeID) (port : string) (primary : option NodeView)
    (rr : Z) : option (list NodeID * Z) :=
  match k with
  | O => Some ([], rr)
  | S k =>
    match selectNode eligible port primary rr with
    | None => None
    | Some (id, rr1) =>
      match select_many k eligible port primary rr1 with
      | None => None
      | Some (ids, rr2) => Some (id :: ids, rr2)
      end
    end
  end.

Lemma selectNode_rr eligible port primary rr :
  port <> "write" -> (1 < length eligible)%nat -> 0 <= rr < 2 ^ 64 - 1 ->
  exists id, selectNode eligible port primary rr = Some (id, rr + 1) /\
    eligible !! Z.to_nat ((rr + 1) mod Z.of_nat (length eligible)) = Some id.
Proof.
  intros Hport Hlen Hrr. unfold selectNode. apply String.eqb_neq in Hport. rewrite Hport.
  destruct eligible as [|x [|y l]]; cbn in Hlen; [lia|lia|]. set (el := x :: y :: l) in *.
  assert (Hw : uwrap64 (rr + 1) = rr + 1) by (apply Z.mod_small; lia). cbn zeta. rewrite Hw.
  assert (Hidx : (Z.to_nat ((rr + 1) mod Z.of_nat (length el)) < length el)%nat).
  { pose proof (Z.mod_pos_bound (rr + 1) (Z.of_nat (length el))). cbn in *. lia. }
  destruct (lookup_lt_is_Some_2 el _ Hidx) as [id Hid]. rewrite Hid. by exists id.
Qed.

Lemma select_many_lookup k eligible port primary rr :
  port <> "write" -> (1 < length eligible)%nat -> 0 <= rr -> rr + Z.of_nat k < 2 ^ 64 ->
  exists ids, select_many k eligible port primary rr = Some (ids, rr + Z.of_nat k) /\
    length ids = k /\
    forall i, (i < k)%nat ->
      ids !! i = eligible !! Z.to_nat ((rr + 1 + Z.of_nat i) mod Z.of_nat (length eligible)).
Proof.
  intros Hport Hlen. revert rr. induction k as [|k IH]; intros rr Hrr Hk.
  { exists []. cbn. rewrite Z.add_0_r. split_and!; [done..|]. intros i Hi. lia. }
  destruct (selectNode_rr eligible port primary rr Hport Hlen) as (id & Hsel & Hid); [lia|].
  destruct (IH (rr + 1)) as (ids & Hmany & Hl & Hlook); [lia|lia|].
  exists (id :: ids). cbn [select_many]. rewrite Hsel, Hmany. split_and!.
  - by replace (rr + Z.of_nat (S k)) with (rr + 1 + Z.of_nat k) by lia.
  - cbn. lia.
  - intros [|i] Hi; cbn [lookup list_lookup].
    + rewrite Z.add_0_r. done.
    + rewrite Hlook by lia.
      by replace (rr + 1 + Z.of_nat (S i)) with (rr + 1 + 1 + Z.of_nat i) by lia.
Qed.



(** *** Writes go to the single primary *)

Lemma quiet_nodes t ord now acquire since subs ulid nv :
  map_order (nodes t) ord -> nv ∈ env_Nodes (quiet_env t ord now acquire since subs ulid) ->
  exists ns, nodes t !! nv_ID nv = Some ns /\ nv = nodeView t now (nv_ID nv) ns.
Proof.
  intros Hord. cbn. unfold Nodes. intros ([id ns] & -> & Hin)%list_elem_of_fmap.
  apply visit_elem in Hin; [|done]. cbn. by exists ns.
Qed.


Lemma demo_order t : dom (nodes t) = {["a"; "b"]} -> map_order (nodes t) ["a"; "b"].
Proof. intros H. unfold map_order. rewrite H. apply (bool_decide_unpack _). by vm_compute. Qed.


(** *** Where the code departs from its documentation *)

(** "b" belongs to another cluster and is permanently excluded, yet both nodes
    report themselves primary; "a" has just failed its health policy. *)
Definition foreign_topology : Topology :=
  let t := (UpdateSystemID "b" "S2" (UpdateSystemID "a" "S1" demo_topology).2).2 in
  UpdateObservedRole "b" PRolePrimary (UpdateObservedRole "a" PRolePrimary t).
Definition view_of_a (l : Liveness) : NodeView :=
  MkNodeView "a" "localhost" 5432 RolePrimary RolePrimary l "S1" 0 None None LagStateNotApplicable
    0 5000 5000 2000.
Definition a_failed_engine : Engine :=
  let r t := MkRound t (default_order (instances demo_engine)) (view_of_a LivenessDown) false in
  (default ([], demo_engine) (engine_run [r 0; r 5000000000] demo_engine)).2.

(** The write port then leases the excluded node of the foreign cluster: the
    guard for split brain counts only nodes that are not excluded, and the
    fallback of [selectNode] takes whatever is eligible. *)
Theorem write_port_leases_excluded_node :
  let p := NewPipeline (Some a_failed_engine) None in
  excluded "b" foreign_topology /\
  exists r p', Lease (demo_env foreign_topology) (demo_request "write" "insert") p = Some (r, p') /\
    res_NodeID r = "b" /\ is_Some (res_Upstream r).
Proof.
  split; [|do 2 eexists; split; [by vm_compute|by split; [|eexists]]].
  eexists. split; by vm_compute.
Qed.

(** Two nodes report themselves primary. *)
Definition split_brain : Topology :=
  UpdateObservedRole "b" PRolePrimary (UpdateObservedRole "a" PRolePrimary demo_topology).

(** The write port refuses, the compat port leases a write. *)
Theorem compat_port_writes_under_split_brain :
  (exists r p', Lease (demo_env split_brain) (demo_request "write" "insert") demo_pipeline = Some (r, p') /\
     res_Upstream r = None) /\
  (exists r p', Lease (demo_env split_brain) (demo_request "compat" "insert") demo_pipeline = Some (r, p') /\
     is_Some (res_Upstream r)).
Proof. split; do 2 eexists; (split; [by vm_compute|]); [done|by eexists]. Qed.

(** "a" was a lagging replica and has been promoted. *)
Definition lagging_engine : Engine :=
  let nv := MkNodeView "a" "localhost" 5432 RoleReplica RoleReplica LivenessUp "S1" 0 None (Some 900)
              LagStateFresh 0 5000 5000 2000 in
  let r t := MkRound t (default_order (instances demo_engine)) nv false in
  (default ([], demo_engine) (engine_run [r 0; r 5000000000] demo_engine)).2.

(** The lag policy keeps the new primary from the write port, although the
    lag filter is documented to apply to reads only. *)
Theorem lag_policy_blocks_write_port :
  let p := NewPipeline (Some lagging_engine) None in
  (exists r p', Lease (demo_env demo_cluster) (demo_request "write" "insert") p = Some (r, p') /\
     res_Upstream r = None) /\
  (exists r p', Lease (demo_env demo_cluster) (demo_request "compat" "insert") p = Some (r, p') /\
     is_Some (res_Upstream r)).
Proof. split; do 2 eexists; (split; [by vm_compute|]); [done|by eexists]. Qed.

(** The reason "system_id:mismatch" is never given for a topology that the
    probes can reach: a foreign identifier is not stored, and the exclusion
    flag is not looked at. *)
Theorem mismatch_reason_unreachable (t0 t : Topology) (fs : list inflight) (ord : list NodeID)
    (now : Time) (acquire : Manager -> error + Conn) (since : Duration) (subs : list Z)
    (ulid : string) (req : LeaseRequest) (p : Pipeline) (nv : NodeView) :
  initial t0 -> rtc topo_step (t0, []) (t, fs) -> map_order (nodes t) ord ->
  let env := quiet_env t ord now acquire since subs ulid in
  nv ∈ env_Nodes env -> nv_SystemID nv = "" \/ nv_SystemID nv = env_ClusterID env.
Proof.
  intros Hinit Hsteps Hord env Hnv.
  destruct (quiet_nodes t ord now acquire since subs ulid nv Hord Hnv) as (ns & Hns & ->).
  destruct (topo_inv_reachable _ _ Hinit Hsteps) as [Hagree _]. exact (Hagree _ _ Hns).
Qed.
