(* ===== verification/Counters.v ===== *)
(** * Counters: the pipeline's metrics under concurrency (internal/routing/pipeline.go)

    [Routing.v] has the keyed counters of decisions and the histograms of
    durations as maps that an event or an observation updates at once.  In the
    code they are [sync.Map]s of pointers to cells of atomics, which every
    session updates at the same time: a cell is looked up, made if there is
    none ([loadOrStoreInt64], [loadOrStoreHistogram]), and then changed by one
    atomic operation after the other.  Here these are the steps of goroutines,
    and what they leave is shown to be what the maps of [Routing.v] hold. *)

From stdpp Require Import base gmap strings list.
From Stdlib Require Import ZArith Lia.
From S2P Require Import Prelude GoStrings Types Classifier Topology Decisions Policy Routing.

Local Open Scope Z_scope.
Local Open Scope list_scope.

(** ** Functions one after the other *)

Definition apply_all {V} (fs : list (V -> V)) (v : V) : V := foldl (fun v f => f v) v fs.

Lemma apply_all_app {V} (fs gs : list (V -> V)) (v : V) : apply_all (fs ++ gs) v = apply_all gs (apply_all fs v).
Proof. apply foldl_app. Qed.

(** The order of functions that commute does not matter. *)
Lemma apply_all_perm {V} (C : (V -> V) -> Prop) (fs gs : list (V -> V)) :
  (forall f g, C f -> C g -> forall v, f (g v) = g (f v)) ->
  fs ≡ₚ gs -> Forall C fs -> forall v, apply_all fs v = apply_all gs v.
Proof.
  intros Hc Hp. induction Hp as [|f fs gs Hp IH|f g fs|fs gs hs H1 IH1 H2 IH2]; intros HC v; [done|..].
  - inversion_clear HC. by apply IH.
  - inversion_clear HC as [|? ? Hg HC']. inversion_clear HC' as [|? ? Hf HC'']. cbn. by rewrite Hc.
  - rewrite IH1, IH2; [done| |done]. by rewrite <- H1.
Qed.

(** ** The goroutines

    A cell holds a [V]; an update with the argument [a] is the atomic
    operations [parts a]. *)

Section keyed.
Context {V A : Type} (new : V) (parts : A -> list (V -> V)).

(** Where a goroutine is: outside, before [Load], before [LoadOrStore] (with a
    new cell at hand), or at the operations it still has to do on its cell. *)
Inductive CtPos :=
| CtIdle
| CtLoad (key : string) (a : A)
| CtLoadOrStore (key : string) (a : A)
| CtUpdate (key : string) (r : nat) (rest : list (V -> V)).

Record CtState := MkCtState {
  ct_map : gmap string nat;
  ct_cells : gmap nat V;
  ct_threads : list CtPos }.

Inductive CtLabel := CtBegin (key : string) (a : A) | CtTau.

(** The steps of goroutine [i]. *)
Inductive ct_step (s : CtState) : CtLabel -> CtState -> Prop :=
| ct_begin i key a :
    ct_threads s !! i = Some CtIdle ->
    ct_step s (CtBegin key a) (MkCtState (ct_map s) (ct_cells s) (<[i := CtLoad key a]> (ct_threads s)))
| ct_hit i key a r :
    ct_threads s !! i = Some (CtLoad key a) -> ct_map s !! key = Some r ->
    ct_step s CtTau (MkCtState (ct_map s) (ct_cells s) (<[i := CtUpdate key r (parts a)]> (ct_threads s)))
| ct_miss i key a :
    ct_threads s !! i = Some (CtLoad key a) -> ct_map s !! key = None ->
    ct_step s CtTau (MkCtState (ct_map s) (ct_cells s) (<[i := CtLoadOrStore key a]> (ct_threads s)))
| ct_found i key a r :
    ct_threads s !! i = Some (CtLoadOrStore key a) -> ct_map s !! key = Some r ->
    ct_step s CtTau (MkCtState (ct_map s) (ct_cells s) (<[i := CtUpdate key r (parts a)]> (ct_threads s)))
| ct_stored i key a r :
    ct_threads s !! i = Some (CtLoadOrStore key a) -> ct_map s !! key = None -> ct_cells s !! r = None ->
    ct_step s CtTau
      (MkCtState (<[key := r]> (ct_map s)) (<[r := new]> (ct_cells s)) (<[i := CtUpdate key r (parts a)]> (ct_threads s)))
| ct_atomic i key r f rest :
    ct_threads s !! i = Some (CtUpdate key r (f :: rest)) ->
    ct_step s CtTau (MkCtState (ct_map s) (alter f r (ct_cells s)) (<[i := CtUpdate key r rest]> (ct_threads s)))
| ct_return i key r :
    ct_threads s !! i = Some (CtUpdate key r []) ->
    ct_step s CtTau (MkCtState (ct_map s) (ct_cells s) (<[i := CtIdle]> (ct_threads s))).

Definition ct_init (n : nat) : CtState := MkCtState ∅ ∅ (replicate n CtIdle).

(** What [Range] would find. *)
Definition ct_value (s : CtState) (key : string) : option V := r ← ct_map s !! key; ct_cells s !! r.

(** The updates that were begun, in order. *)
Definition begun (ls : list CtLabel) : list (string * A) :=
  omap (fun l => match l with CtBegin key a => Some (key, a) | CtTau => None end) ls.

(** ** The invariant

    The operations for a key are those that were done on its cell and those
    that goroutines still have to do. *)

Definition pending_of (key : string) (p : CtPos) : list (V -> V) :=
  match p with
  | CtIdle => []
  | CtLoad k a | CtLoadOrStore k a => if decide (k = key) then parts a else []
  | CtUpdate k r rest => if decide (k = key) then rest else []
  end.

Definition pending (key : string) (ths : list CtPos) : list (V -> V) := ths ≫= pending_of key.

Definition demanded (key : string) (ops : list (string * A)) : list (V -> V) :=
  ops ≫= fun o => if decide (o.1 = key) then parts o.2 else [].

(** A goroutine that has not found its cell yet. *)
Definition looking (key : string) (p : CtPos) : Prop :=
  match p with CtLoad k _ | CtLoadOrStore k _ => k = key | _ => False end.

Record ct_inv (ops : list (string * A)) (s : CtState) : Prop := {
  inv_work : forall key, exists fs,
    fs ++ pending key (ct_threads s) ≡ₚ demanded key ops /\
    match ct_map s !! key with
    | Some r => ct_cells s !! r = Some (apply_all fs new)
    | None => fs = []
    end;
  inv_cells : forall key key' r, ct_map s !! key = Some r -> ct_map s !! key' = Some r -> key = key';
  inv_refs : forall i key r rest, ct_threads s !! i = Some (CtUpdate key r rest) -> ct_map s !! key = Some r;
  inv_begun : forall key r, ct_map s !! key = Some r -> key ∈ ops.*1;
  inv_looks : forall i key p, ct_threads s !! i = Some p -> looking key p -> key ∈ ops.*1;
  inv_found : forall key, key ∈ ops.*1 ->
    is_Some (ct_map s !! key) \/ exists i p, ct_threads s !! i = Some p /\ looking key p }.

Lemma pending_insert (ths : list CtPos) (i : nat) (q p : CtPos) :
  ths !! i = Some q -> exists others : string -> list (V -> V), forall key,
    pending key ths ≡ₚ pending_of key q ++ others key /\
    pending key (<[i := p]> ths) ≡ₚ pending_of key p ++ others key.
Proof.
  intros Hi. exists (fun key => pending key (take i ths) ++ pending key (drop (S i) ths)). intros key.
  assert (Hlt := lookup_lt_Some _ _ _ Hi). unfold pending. split.
  - rewrite <- (take_drop_middle ths i q Hi) at 1. rewrite bind_app, bind_cons. solve_Permutation.
  - rewrite insert_take_drop by done. rewrite bind_app, bind_cons. solve_Permutation.
Qed.

Lemma threads_insert (ths : list CtPos) (i j : nat) (q p x : CtPos) :
  ths !! i = Some q -> <[i := p]> ths !! j = Some x -> (j = i /\ x = p) \/ (j <> i /\ ths !! j = Some x).
Proof.
  intros Hi Hj. destruct (decide (j = i)) as [->|Hne].
  - rewrite list_lookup_insert_eq in Hj by (by eapply lookup_lt_Some). left. by simplify_eq.
  - rewrite list_lookup_insert_ne in Hj by done. by right.
Qed.

(** A goroutine moves on and no cell changes. *)
Lemma inv_move ops m cells ths i q p :
  ct_inv ops (MkCtState m cells ths) -> ths !! i = Some q ->
  (forall key, pending_of key p = pending_of key q) ->
  (forall key r rest, p = CtUpdate key r rest -> m !! key = Some r) ->
  (forall key, looking key p -> looking key q) ->
  (forall key, looking key q -> looking key p \/ is_Some (m !! key)) ->
  ct_inv ops (MkCtState m cells (<[i := p]> ths)).
Proof.
  intros [Hw Hc Hr Hb Hl Hf] Hi Hpend Hupd Hlook Hfound. cbn in *.
  destruct (pending_insert ths i q p Hi) as (others & Ho). split; cbn; try done.
  - intros key. destruct (Hw key) as (fs & Hp & Hv). exists fs. split; [|done]. destruct (Ho key) as [Ho1 Ho2].
    by rewrite Ho2, Hpend, <- Ho1.
  - intros j key r rest Hj. destruct (threads_insert _ _ _ _ _ _ Hi Hj) as [[-> E]|[_ Hj']]; [by eapply Hupd|by eapply Hr].
  - intros j key x Hj Hx. destruct (threads_insert _ _ _ _ _ _ Hi Hj) as [[-> ->]|[_ Hj']]; eauto.
  - intros key Hk. destruct (Hf key Hk) as [Hm|(j & x & Hj & Hx)]; [by left|].
    destruct (decide (j = i)) as [->|Hne].
    + rewrite Hi in Hj. injection Hj as <-. destruct (Hfound key Hx) as [Hp|Hm]; [right|by left].
      exists i, p. split; [|done]. apply list_lookup_insert_eq. by eapply lookup_lt_Some.
    + right. exists j, x. by rewrite list_lookup_insert_ne.
Qed.

(** A new cell is stored. *)
Lemma inv_store ops m cells ths key r :
  ct_inv ops (MkCtState m cells ths) -> m !! key = None -> cells !! r = None -> key ∈ ops.*1 ->
  ct_inv ops (MkCtState (<[key := r]> m) (<[r := new]> cells) ths).
Proof.
  intros [Hw Hc Hr Hb Hl Hf] Hm Hcell Hop. cbn in *.
  assert (Hold : forall k r', m !! k = Some r' -> r' <> r /\ k <> key).
  { intros k r' Hk. destruct (Hw k) as (fs & _ & Hv). rewrite Hk in Hv. split; congruence. }
  split; cbn.
  - intros k. destruct (Hw k) as (fs & Hp & Hv). exists fs. split; [done|].
    destruct (decide (k = key)) as [->|Hne].
    + rewrite lookup_insert_eq, lookup_insert_eq. rewrite Hm in Hv. by subst fs.
    + rewrite lookup_insert_ne by done. destruct (m !! k) as [r'|] eqn:Hk; [|done].
      destruct (Hold k r' Hk). by rewrite lookup_insert_ne.
  - intros k k' r' Hk Hk'. apply lookup_insert_Some in Hk as [[<- <-]|[Hne Hk]];
      apply lookup_insert_Some in Hk' as [[<- Er]|[Hne' Hk']]; try done.
    + by destruct (Hold k' r Hk').
    + subst r'. by destruct (Hold k r Hk).
    + by eapply Hc.
  - intros i k r' rest Hi. specialize (Hr i k r' rest Hi). destruct (Hold k r' Hr). by rewrite lookup_insert_ne.
  - intros k r' Hk. apply lookup_insert_Some in Hk as [[<- _]|[_ Hk]]; [done|by eapply Hb].
  - done.
  - intros k Hk. destruct (Hf k Hk) as [[r' Hk']|Hk']; [left|by right].
    destruct (Hold k r' Hk'). rewrite lookup_insert_ne by done. by exists r'.
Qed.

(** One atomic operation. *)
Lemma inv_atomic ops m cells ths i key r f rest :
  ct_inv ops (MkCtState m cells ths) -> ths !! i = Some (CtUpdate key r (f :: rest)) ->
  ct_inv ops (MkCtState m (alter f r cells) (<[i := CtUpdate key r rest]> ths)).
Proof.
  intros [Hw Hc Hr Hb Hl Hf] Hi. cbn in *. assert (Hm := Hr _ _ _ _ Hi).
  destruct (pending_insert ths i _ (CtUpdate key r rest) Hi) as (others & Ho). split; cbn; try done.
  - intros k. destruct (Hw k) as (fs & Hp & Hv). destruct (Ho k) as [Ho1 Ho2]. cbn in Ho1, Ho2.
    destruct (decide (k = key)) as [->|Hne].
    + rewrite decide_True in Ho1, Ho2 by done. exists (fs ++ [f]). split.
      * rewrite Ho2, <- Hp, Ho1. solve_Permutation.
      * rewrite Hm in Hv |- *. by rewrite lookup_alter_eq, Hv, apply_all_app.
    + rewrite decide_False in Ho1, Ho2 by congruence. exists fs. split; [by rewrite Ho2, <- Hp, Ho1|].
      destruct (m !! k) as [r'|] eqn:Hk; [|done]. rewrite lookup_alter_ne; [done|]. intros ->. apply Hne. by eapply Hc.
  - intros j k r' rest' Hj. destruct (threads_insert _ _ _ _ _ _ Hi Hj) as [[-> [= -> -> ->]]|[_ Hj']]; [done|by eapply Hr].
  - intros j k x Hj Hx. destruct (threads_insert _ _ _ _ _ _ Hi Hj) as [[-> ->]|[_ Hj']]; [done|by eapply Hl].
  - intros k Hk. destruct (Hf k Hk) as [Hs|(j & x & Hj & Hx)]; [by left|right]. exists j, x. split; [|done].
    rewrite list_lookup_insert_ne; [done|]. intros <-. rewrite Hi in Hj. by injection Hj as <-.
Qed.

(** A new update. *)
Lemma inv_begin ops m cells ths i key a :
  ct_inv ops (MkCtState m cells ths) -> ths !! i = Some CtIdle ->
  ct_inv (ops ++ [(key, a)]) (MkCtState m cells (<[i := CtLoad key a]> ths)).
Proof.
  intros [Hw Hc Hr Hb Hl Hf] Hi. cbn in *.
  destruct (pending_insert ths i _ (CtLoad key a) Hi) as (others & Ho).
  assert (Hin : forall k, k ∈ ops.*1 -> k ∈ (ops ++ [(key, a)]).*1).
  { intros k Hk. rewrite fmap_app. by apply elem_of_app; left. }
  split; cbn; try done.
  - intros k. destruct (Hw k) as (fs & Hp & Hv). exists fs. split; [|done]. destruct (Ho k) as [Ho1 Ho2].
    cbn in Ho1, Ho2. rewrite Ho2. unfold demanded in *. rewrite bind_app, <- Hp, Ho1, bind_cons. cbn.
    rewrite app_nil_r. solve_Permutation.
  - intros j k r rest Hj. destruct (threads_insert _ _ _ _ _ _ Hi Hj) as [[-> E]|[_ Hj']]; [done|by eapply Hr].
  - intros k r Hk. by eapply Hin, Hb.
  - intros j k x Hj Hx. destruct (threads_insert _ _ _ _ _ _ Hi Hj) as [[-> ->]|[_ Hj']]; [|by eapply Hin, Hl].
    cbn in Hx. subst k. rewrite fmap_app. apply elem_of_app. right. by left.
  - intros k Hk. rewrite fmap_app in Hk. apply elem_of_app in Hk as [Hk|Hk].
    + destruct (Hf k Hk) as [Hs|(j & x & Hj & Hx)]; [by left|right]. exists j, x. split; [|done].
      rewrite list_lookup_insert_ne; [done|]. intros <-. rewrite Hi in Hj. by injection Hj as <-.
    + apply list_elem_of_singleton in Hk as ->. right. exists i, (CtLoad key a). split; [|done].
      apply list_lookup_insert_eq. by eapply lookup_lt_Some.
Qed.

Lemma ct_inv_step ops s l s' : ct_inv ops s -> ct_step s l s' -> ct_inv (ops ++ begun [l]) s'.
Proof.
  destruct s as [m cells ths]. intros Hinv Hst. destruct Hst; cbn in *; rewrite ?app_nil_r.
  - by apply inv_begin.
  - eapply inv_move; [done|done|done|by intros ? ? ? [= <- <- _]|done|]. intros k Hk. cbn in Hk. subst k. right. by exists r.
  - eapply inv_move; [done|done|done|done|done|]. intros k Hk. by left.
  - eapply inv_move; [done|done|done|by intros ? ? ? [= <- <- _]|done|]. intros k Hk. cbn in Hk. subst k. right. by exists r.
  - eapply inv_move; [apply inv_store; [done|done|done|by eapply inv_looks]|done|done| |done|].
    + intros ? ? ? [= <- <- _]. apply lookup_insert_eq.
    + intros k Hk. cbn in Hk. subst k. right. rewrite lookup_insert_eq. by exists r.
  - by apply inv_atomic.
  - eapply inv_move; [done|done| |done|done|done]. intros k. cbn. by case_decide.
Qed.

Lemma ct_inv_init n : ct_inv [] (ct_init n).
Proof.
  assert (Hth : forall i p, replicate n CtIdle !! i = Some p -> p = CtIdle).
  { intros i p Hi. by apply lookup_replicate in Hi as [-> _]. }
  split; cbn; try done.
  - intros key. exists []. split; [|by rewrite lookup_empty]. cbn. unfold pending. clear Hth. by induction n.
  - intros i key r rest Hi. by apply Hth in Hi.
  - intros i key p Hi. by apply Hth in Hi as ->.
  - intros key Hk. by apply elem_of_nil in Hk.
Qed.

Lemma ct_reachable n ls s : steps ct_step (ct_init n) ls s -> ct_inv (begun ls) s.
Proof.
  assert (H : forall s0 ls0 s1, steps ct_step s0 ls0 s1 -> forall ops, ct_inv ops s0 -> ct_inv (ops ++ begun ls0) s1).
  { intros s0 ls0 s1 Hs. induction Hs as [s0|s0 l s1 ls0 s2 Hst Hs IH]; intros ops Hinv; [by rewrite app_nil_r|].
    specialize (IH _ (ct_inv_step _ _ _ _ Hinv Hst)). unfold begun in *.
    change (l :: ls0) with ([l] ++ ls0). by rewrite omap_app, app_assoc. }
  intros Hs. exact (H _ _ _ Hs [] (ct_inv_init n)).
Qed.

(** ** The maps of the sequential model *)

Context (op : A -> V -> V) (ok : V -> Prop) (C : (V -> V) -> Prop).
Context (Hok : ok new) (Hop : forall a v, ok v -> op a v = apply_all (parts a) v /\ ok (op a v)).
Context (Hparts : forall a, Forall C (parts a)).
Context (Hcomm : forall f g, C f -> C g -> forall v, f (g v) = g (f v)).

Definition update_at (m : gmap string V) (o : string * A) : gmap string V :=
  <[o.1 := op o.2 (default new (m !! o.1))]> m.

Lemma demanded_snoc key ops k a :
  demanded key (ops ++ [(k, a)]) = demanded key ops ++ (if decide (k = key) then parts a else []).
Proof. unfold demanded. rewrite bind_app. cbn. by rewrite app_nil_r. Qed.

Lemma demanded_none key ops : key ∉ ops.*1 -> demanded key ops = [].
Proof.
  intros Hin. induction ops as [|[k a] ops IH]; [done|]. unfold demanded. rewrite bind_cons. cbn in *.
  rewrite decide_False; [apply IH|]; intros ?; apply Hin; [by right|subst; by left].
Qed.

Lemma updates_lookup (ops : list (string * A)) (key : string) :
  ok (apply_all (demanded key ops) new) /\
  foldl update_at ∅ ops !! key = if decide (key ∈ ops.*1) then Some (apply_all (demanded key ops) new) else None.
Proof.
  induction ops as [|[k a] ops [IHok IH]] using rev_ind; [by rewrite decide_False by apply not_elem_of_nil|].
  rewrite foldl_snoc. unfold update_at at 1. cbn [fst snd]. rewrite demanded_snoc, apply_all_app, fmap_app.
  destruct (decide (k = key)) as [->|Hne].
  - assert (Hd : default new (foldl update_at ∅ ops !! key) = apply_all (demanded key ops) new).
    { rewrite IH. case_decide as Hin; [done|]. by rewrite (demanded_none _ _ Hin). }
    destruct (Hop a _ IHok) as [E1 E2].
    rewrite lookup_insert_eq, decide_True by (apply elem_of_app; right; by left). by rewrite Hd, <- E1.
  - rewrite lookup_insert_ne by done. split; [done|]. rewrite IH. apply decide_ext.
    rewrite elem_of_app. cbn. rewrite list_elem_of_singleton. naive_solver.
Qed.

Definition quiescent (s : CtState) : Prop := Forall (fun p => p = CtIdle) (ct_threads s).

(** When no update is under way, [Range] finds what the updates one after the
    other leave. *)
Lemma ct_refines n ls s :
  steps ct_step (ct_init n) ls s -> quiescent s -> forall key, ct_value s key = foldl update_at ∅ (begun ls) !! key.
Proof.
  intros Hs Hq key. destruct (ct_reachable n ls s Hs) as [Hw _ _ Hb _ Hf].
  destruct (Hw key) as (fs & Hp & Hv). destruct (updates_lookup (begun ls) key) as [_ ->].
  assert (Hnone : pending key (ct_threads s) = []).
  { clear -Hq. unfold quiescent in Hq. unfold pending. induction Hq as [|p ths -> _ IH]; [done|]. by rewrite bind_cons, IH. }
  rewrite Hnone, app_nil_r in Hp. unfold ct_value. destruct (ct_map s !! key) as [r|] eqn:Hr; cbn.
  - rewrite decide_True by (by eapply Hb). rewrite Hv. f_equal. symmetry. apply (apply_all_perm C); [done|by symmetry|].
    clear -Hparts. unfold demanded. generalize (begun ls). intros ops. induction ops as [|[k a] ops IH]; [by constructor|].
    rewrite bind_cons. apply Forall_app. split; [cbn; case_decide; [apply Hparts|by constructor]|done].
  - rewrite decide_False; [done|]. intros Hk. destruct (Hf key Hk) as [[r Hr']|(i & p & Hi & Hl)]; [congruence|].
    by rewrite (Forall_lookup_1 _ _ _ _ Hq Hi) in Hl.
Qed.

End keyed.

(** ** The two maps of the pipeline *)

(** [Add(1)] on a counter. *)
Definition counter_parts (_ : unit) : list (Z -> Z) := [inc64].

Definition add_sum (d : Duration) (h : portHistogram) : portHistogram :=
  MkHistogram (wrap64 (h_sum h + d)) (h_count h) (h_buckets h).
Definition add_count (h : portHistogram) : portHistogram :=
  MkHistogram (h_sum h) (inc64 (h_count h)) (h_buckets h).
Definition add_bucket (i : nat) (h : portHistogram) : portHistogram :=
  MkHistogram (h_sum h) (h_count h) (alter inc64 i (h_buckets h)).

(** The atomic operations of [observe], in order. *)
Definition observe_parts (d : Duration) : list (portHistogram -> portHistogram) :=
  add_sum d :: add_count ::
  (imap (fun i bound => (i, bound)) durationBucketBounds ≫= fun '(i, bound) => if d <=? bound then [add_bucket i] else []).

Inductive histogram_op : (portHistogram -> portHistogram) -> Prop :=
| op_sum d : histogram_op (add_sum d)
| op_count : histogram_op add_count
| op_bucket i : histogram_op (add_bucket i).

Lemma observe_parts_ops d : Forall histogram_op (observe_parts d).
Proof.
  constructor; [constructor|]. constructor; [constructor|]. apply Forall_forall. intros f Hf.
  apply list_elem_of_bind in Hf as ([i b] & Hf & _). destruct (d <=? b); [|by apply elem_of_nil in Hf].
  apply list_elem_of_singleton in Hf as ->. constructor.
Qed.

Lemma histogram_ops_commute f g : histogram_op f -> histogram_op g -> forall h, f (g h) = g (f h).
Proof.
  intros [d| |i] [d'| |j] [s c b]; unfold add_sum, add_count, add_bucket; cbn; try done; f_equal.
  - rewrite !wrap64_add_l. f_equal. lia.
  - destruct (decide (i = j)) as [->|Hne]; [done|]. by apply list_alter_alter_ne.
Qed.

(** The operations of [observe] are the observation of [Routing.v]. *)
Lemma observe_whole d h :
  length (h_buckets h) = 8%nat -> h_observe d h = apply_all (observe_parts d) h /\ length (h_buckets (h_observe d h)) = 8%nat.
Proof.
  destruct h as [s c b]. cbn. intros Hb. do 8 (destruct b as [|? b]; [done|]). destruct b; [|done].
  split; [|done]. unfold h_observe, observe_parts, durationBucketBounds. cbn.
  repeat match goal with |- context [d <=? ?x] => destruct (d <=? x) end; reflexivity.
Qed.

(** The sequential model: events emitted one after the other, and
    observations. *)
Fixpoint emit_all (evs : list (LeaseEnv * Event)) (p : Pipeline) : option Pipeline :=
  match evs with
  | [] => Some p
  | (env, event) :: evs => p' ← emitEvent env event p; emit_all evs p'
  end.

Definition observe_all (obs : list (LeaseEnv * string)) (p : Pipeline) : Pipeline :=
  foldl (fun p o => observe_duration o.1 o.2 p) p obs.

Definition counted (evs : list (LeaseEnv * Event)) : list (string * unit) := (fun e => (counter_key e.2, tt)) <$> evs.
Definition timed_by (obs : list (LeaseEnv * string)) : list (string * Duration) := (fun o => (o.2, env_Since o.1)) <$> obs.

Definition count_at := update_at (V := Z) 0 (fun _ : unit => inc64).
Definition observe_at := update_at new_histogram h_observe.

Lemma emit_all_counters (evs : list (LeaseEnv * Event)) : forall p p' : Pipeline,
  is_Some (decisionsBus p) -> emit_all evs p = Some p' ->
  decisionCounters p' = foldl count_at (decisionCounters p) (counted evs).
Proof.
  induction evs as [|[env ev] evs IH]; intros p p' [b Hb] Hp; [by injection Hp as <-|].
  cbn in Hp. apply bind_Some in Hp as (p1 & H1 & Hp). unfold emitEvent in H1. rewrite Hb in H1.
  destruct (Publish _ _ _ _ b) as [b'|]; [|done]. injection H1 as <-. apply IH in Hp; [|by eexists]. exact Hp.
Qed.

Lemma observe_all_histograms (obs : list (LeaseEnv * string)) : forall p : Pipeline,
  decisionDurationHistograms (observe_all obs p) = foldl observe_at (decisionDurationHistograms p) (timed_by obs).
Proof. induction obs as [|o obs IH]; intros p; [done|]. apply IH. Qed.

(** C36: the counters and the histograms of the pipeline lose nothing under
    concurrency.  However many sessions count decisions and observe durations
    at once, and however their lookups, the creation of cells and the atomic
    additions interleave: once no update is under way, every key holds what
    emitting the events and observing the durations one after the other
    leaves, and there are no other keys. *)
Theorem concurrent_metrics_exact (n1 n2 : nat) ls1 ls2 s1 s2 (evs : list (LeaseEnv * Event))
    (obs : list (LeaseEnv * string)) (p p' : Pipeline) :
  steps (ct_step 0 counter_parts) (ct_init n1) ls1 s1 -> quiescent s1 -> begun ls1 = counted evs ->
  steps (ct_step new_histogram observe_parts) (ct_init n2) ls2 s2 -> quiescent s2 -> begun ls2 = timed_by obs ->
  is_Some (decisionsBus p) -> decisionCounters p = ∅ -> decisionDurationHistograms p = ∅ -> emit_all evs p = Some p' ->
  (forall key, ct_value s1 key = DecisionCountersSnapshot p' !! key) /\
  (forall key, ct_value s2 key = decisionDurationHistograms (observe_all obs p) !! key).
Proof.
  intros H1 Hq1 Hb1 H2 Hq2 Hb2 Hbus Hc Hh Hp. split; intros key.
  - unfold DecisionCountersSnapshot. rewrite (emit_all_counters evs p p' Hbus Hp), Hc, <- Hb1.
    apply (ct_refines 0 counter_parts _ (fun _ => True) (fun f => f = inc64)) with (n := n1); try done.
    + intros a. by constructor.
    + by intros f g -> ->.
  - rewrite observe_all_histograms, Hh, <- Hb2.
    apply (ct_refines new_histogram observe_parts _ (fun h => length (h_buckets h) = 8%nat) histogram_op) with (n := n2);
      try done; [apply observe_whole|apply observe_parts_ops|apply histogram_ops_commute].
Qed.

(** Two sessions count the first decision under a key at the same time, and one
    duration is observed. *)
Definition demo_event : Event := read_port_write_event "delete from t" "session".
Definition demo_emissions : list (LeaseEnv * Event) :=
  [(demo_env demo_cluster, demo_event); (demo_env demo_cluster, demo_event)].
Definition demo_observations : list (LeaseEnv * string) := [(demo_env demo_cluster, "read"%string)].

(** Both look in vain, the first stores its cell, the second finds it. *)
Lemma race_runs (key : string) : exists s,
  steps (ct_step 0 counter_parts) (ct_init 2) ([CtBegin key tt; CtBegin key tt] ++ replicate 8 CtTau) s
  /\ quiescent s.
Proof.
  eexists. split; [cbn [app replicate ct_init]|].
  - do 2 (eapply steps_cons; [first [apply (ct_begin _ _ _ 0); reflexivity|apply (ct_begin _ _ _ 1); reflexivity]|cbn]).
    eapply steps_cons; [apply (ct_miss _ _ _ 0 key tt); reflexivity|cbn].
    eapply steps_cons; [apply (ct_miss _ _ _ 1 key tt); reflexivity|cbn].
    eapply steps_cons; [apply (ct_stored _ _ _ 0 key tt 0); reflexivity|cbn].
    eapply steps_cons; [apply (ct_found _ _ _ 1 key tt 0); [reflexivity|apply lookup_insert_eq]|cbn].
    eapply steps_cons; [eapply (ct_atomic _ _ _ 1); reflexivity|cbn].
    eapply steps_cons; [eapply (ct_atomic _ _ _ 0); reflexivity|cbn].
    eapply steps_cons; [eapply (ct_return _ _ _ 0); reflexivity|cbn].
    eapply steps_cons; [eapply (ct_return _ _ _ 1); reflexivity|cbn]. apply steps_nil.
  - by repeat constructor.
Qed.

Lemma observation_runs (port : string) : exists s,
  steps (ct_step new_histogram observe_parts) (ct_init 1) (CtBegin port (env_Since (demo_env demo_cluster)) :: replicate 13 CtTau) s
  /\ quiescent s.
Proof.
  eexists. split; [cbn [replicate ct_init]|].
  - eapply steps_cons; [apply (ct_begin _ _ _ 0); reflexivity|cbn].
    eapply steps_cons; [eapply (ct_miss _ _ _ 0); reflexivity|cbn].
    eapply steps_cons; [eapply (ct_stored _ _ _ 0 _ _ 0); reflexivity|cbn].
    do 10 (eapply steps_cons; [eapply (ct_atomic _ _ _ 0); reflexivity|cbn]).
    eapply steps_cons; [eapply (ct_return _ _ _ 0); reflexivity|cbn]. apply steps_nil.
  - by repeat constructor.
Qed.

Lemma concurrent_metrics_exact_witness : exists (s1 : CtState (V := Z) (A := unit)) (s2 : CtState (V := portHistogram) (A := Duration)),
  ct_value s1 (counter_key demo_event) = Some 2 /\
  ct_value s2 "read"%string = Some (MkHistogram 1000 1 [1; 1; 1; 1; 1; 1; 1; 1]).
Proof.
  destruct (race_runs (counter_key demo_event)) as (s1 & H1 & Hq1).
  destruct (observation_runs "read"%string) as (s2 & H2 & Hq2). exists s1, s2.
  destruct (emit_all demo_emissions demo_pipeline) as [p'|] eqn:Hp; [|vm_compute in Hp; discriminate Hp].
  destruct (concurrent_metrics_exact 2 1 _ _ s1 s2 demo_emissions demo_observations demo_pipeline p' H1 Hq1 eq_refl
    H2 Hq2 eq_refl ltac:(by eexists) eq_refl eq_refl Hp) as [Hc Hh].
  rewrite Hc, Hh. vm_compute in Hp. injection Hp as <-. by vm_compute.
Defined.
