(* ===== verification/Messaging.v ===== *)
(** * Messaging: protocol messages and their dispatch (internal/server/messaging)

    The messages of the wire protocol with the fields the proxy looks at; the
    other ones carry their payload untouched.  [queryUsesSessionState] decides
    which simple queries pin the connection to the session. *)

From stdpp Require Import base list strings.
From Stdlib Require Import ZArith Lia Ascii String.
From S2P Require Import Prelude GoStrings Types Classifier.

Local Open Scope string_scope.
Local Open Scope list_scope.

(** ** Messages *)

Inductive FrontendMessage :=
| Query (String_ : string)
| Parse (Name : string) (Query_ : string)
| Bind (payload : string)
| Describe (payload : string)
| Execute (payload : string)
| Sync
| Flush
| CloseMsg (payload : string)
| CopyData (payload : string)
| CopyDone
| CopyFail (payload : string)
| Terminate
| OtherFrontend (payload : string).
#[export] Instance FrontendMessage_eq_dec : EqDecision FrontendMessage.
Proof. solve_decision. Defined.

Inductive BackendMessage :=
| ReadyForQuery (TxStatus : ascii)
| ErrorResponse (Severity Code Message : string)
| CommandComplete (CommandTag : string)
| PortalSuspended
| NoData
| RowDescription (payload : string)
| CloseComplete
| ParseComplete
| BindComplete
| ParameterStatus (payload : string)
| AuthenticationOk
| OtherBackend (payload : string).
#[export] Instance BackendMessage_eq_dec : EqDecision BackendMessage.
Proof. solve_decision. Defined.

(** ** Session state in simple queries (session_state.go) *)

(** The loop of [stripLeadingComments]; [fuel] bounds the comments, which
    shorten the text. *)
Fixpoint strip_leading (fuel : nat) (stmt : string) : string :=
  match fuel with
  | O => ""
  | S fuel =>
    let trimmed := TrimSpace stmt in
    if HasPrefix trimmed "--" then
      match Index trimmed newline with
      | Some idx => strip_leading fuel (sdrop (idx + 1) trimmed)
      | None => ""
      end
    else if HasPrefix trimmed "/*" then
      match Index trimmed "*/" with
      | Some idx => strip_leading fuel (sdrop (idx + 2) trimmed)
      | None => ""
      end
    else trimmed
  end.

Definition stripLeadingComments (stmt : string) : string :=
  strip_leading (S (String.length stmt)) stmt.

(** One statement of the query text: does it leave state in the session? *)
Definition statement_pins (stmt : string) : bool :=
  let stmt := TrimSpace stmt in
  if String.eqb stmt "" then false
  else
    let normalized := ToLower (stripLeadingComments stmt) in
    if HasPrefix normalized "set " then negb (HasPrefix normalized "set local")
    else HasPrefix normalized "prepare ".

Definition queryUsesSessionState (query : string) : bool :=
  existsb statement_pins (split_byte ";" query).

(** ** Dispatch (dispatch.go): whether the message pins the session; every
    message is sent on unchanged. *)
Definition Process_pins (msg : FrontendMessage) : bool :=
  match msg with
  | Query q => queryUsesSessionState q
  | _ => false
  end.

(** ** Lemmas *)

Lemma length_trim_right (fuel : nat) (f : rune -> bool) (s : string) :
  (String.length (trim_right fuel f s) <= String.length s)%nat.
Proof.
  revert s. induction fuel as [|fuel IH]; intros s;
    (destruct s as [|c s]; [done|]); set (t := String c s); change t with (String c s) at 1;
    cbn [trim_right]; fold t; destruct (DecodeLastRune t) as [r w]; destruct (f r); try done.
  - cbn. lia.
  - etrans; [apply IH|]. rewrite length_stake. lia.
Qed.

Lemma length_TrimSpace (s : string) : (String.length (TrimSpace s) <= String.length s)%nat.
Proof.
  unfold TrimSpace, TrimRightFunc. etrans; [apply length_trim_right|].
  apply length_TrimLeftFunc.
Qed.

Lemma strip_leading_enough (n m : nat) (s : string) :
  (String.length s < n)%nat -> (String.length s < m)%nat -> strip_leading n s = strip_leading m s.
Proof.
  revert m s. induction n as [|n IH]; intros m s Hn Hm; [lia|].
  destruct m as [|m]; [lia|]. cbn [strip_leading]. cbn zeta.
  pose proof (length_TrimSpace s) as Hlen.
  case_match; [|case_match; [|done]].
  - case_match eqn:E; [|done]. apply Index_bound in E; [|done]. cbn in E.
    apply IH; rewrite length_sdrop; lia.
  - case_match eqn:E; [|done]. apply Index_bound in E; [|done]. cbn in E.
    apply IH; rewrite length_sdrop; lia.
Qed.

Lemma split_byte_nonempty (sep : ascii) (s : string) : split_byte sep s <> [].
Proof. destruct s as [|c s]; cbn; [done|]. by repeat case_match. Qed.

Lemma split_byte_append (sep : ascii) (a b : string) :
  split_byte sep (a +:+ String sep b) = split_byte sep a ++ split_byte sep b.
Proof.
  induction a as [|c a IH].
  - rewrite append_nil_l. cbn. by rewrite Ascii.eqb_refl.
  - rewrite append_cons. cbn. rewrite IH. destruct (Ascii.eqb c sep); [done|].
    pose proof (split_byte_nonempty sep a) as Hne. by destruct (split_byte sep a).
Qed.

(** ** Properties *)

(** Stripping the leading comments of a statement terminates on every text
    and follows the loop of the source: it trims the text, drops one line or
    block comment and starts again, or stops at the first other byte. *)
Theorem stripLeadingComments_eq (stmt : string) :
  stripLeadingComments stmt =
  let trimmed := TrimSpace stmt in
  if HasPrefix trimmed "--" then
    match Index trimmed newline with
    | Some idx => stripLeadingComments (sdrop (idx + 1) trimmed)
    | None => ""
    end
  else if HasPrefix trimmed "/*" then
    match Index trimmed "*/" with
    | Some idx => stripLeadingComments (sdrop (idx + 2) trimmed)
    | None => ""
    end
  else trimmed.
Proof.
  unfold stripLeadingComments at 1. cbn [strip_leading]. cbn zeta.
  pose proof (length_TrimSpace stmt) as Hlen.
  case_match; [|case_match; [|done]].
  - case_match eqn:E; [|done]. apply Index_bound in E; [|done]. cbn in E.
    apply strip_leading_enough; rewrite ?length_sdrop; lia.
  - case_match eqn:E; [|done]. apply Index_bound in E; [|done]. cbn in E.
    apply strip_leading_enough; rewrite ?length_sdrop; lia.
Qed.

(** A query text pins its session exactly when one of its statements does:
    joining two texts with a semicolon pins if and only if one of them pins,
    and dispatch pins on no message but a simple query. *)
Theorem Process_pins_by_statement (a b : string) (msg : FrontendMessage) :
  Process_pins (Query (a +:+ String ";" b)) = Process_pins (Query a) || Process_pins (Query b) /\
  (Process_pins msg = true -> exists q, msg = Query q).
Proof.
  split.
  - unfold Process_pins, queryUsesSessionState. rewrite split_byte_append. apply existsb_app.
  - destruct msg; try done. eauto.
Qed.
