(* ===== verification/UpstreamClient.v ===== *)
(** * UpstreamClient: resetting a connection before it returns to its pool
    (internal/pool/upstream_client/session_client.go)

    A [SessionClient] owns one connection of the pgx library, which is outside
    the program: [PgxConn] is the interface the client calls, [PgxLaws] what it
    relies on.  The receive loops have no bound of their own but the deadline
    of the reset; [fuel] counts the messages that arrive before it. *)

From stdpp Require Import base list strings.
From Stdlib Require Import ZArith Lia Ascii.
From S2P Require Import Prelude Types Messaging.

Local Open Scope string_scope.
Local Open Scope list_scope.

Class PgxConn (C : Type) := {
  pgx_TxStatus : C -> ascii;
  pgx_Send : FrontendMessage -> C -> C;
  pgx_Flush : C -> option error * C;
  pgx_Receive : C -> (error + BackendMessage) * C;
  pgx_Release : C -> C;
  pgx_Close : C -> option error * C
}.

Definition errorf (prefix : string) (err : error) : error :=
  OtherError (prefix +:+ ": " +:+ Error err) (Some err).

Section client.
Context {C : Type} {Pgx : PgxConn C}.

(** [Send] only buffers, and never fails. *)
Definition Send (msgs : list FrontendMessage) (c : C) : C := foldl (fun c m => pgx_Send m c) c msgs.

Fixpoint drainToReady (fuel : nat) (c : C) : option (option error * C) :=
  match fuel with
  | O => None
  | S fuel =>
    match pgx_Receive c with
    | (inl err, c) => Some (Some (errorf "drain receive" err), c)
    | (inr (ReadyForQuery _), c) => Some (None, c)
    | (inr _, c) => drainToReady fuel c
    end
  end.

Fixpoint receive_loop (fuel : nat) (query : string) (commandCompleteSeen : bool) (queryErr : option error)
    (c : C) : option (option error * C) :=
  match fuel with
  | O => None
  | S fuel =>
    match pgx_Receive c with
    | (inl err, c) => Some (Some (errorf ("receive " +:+ query +:+ " response") err), c)
    | (inr (ReadyForQuery _), c) =>
      if commandCompleteSeen then Some (queryErr, c) else receive_loop fuel query commandCompleteSeen queryErr c
    | (inr (CommandComplete _), c) => receive_loop fuel query true queryErr c
    | (inr (ErrorResponse severity code message), c) =>
      receive_loop fuel query true
        (Some (OtherError (query +:+ " failed: " +:+ severity +:+ " " +:+ code +:+ " (" +:+ message +:+ ")") None)) c
    | (inr _, c) => receive_loop fuel query commandCompleteSeen queryErr c
    end
  end.

Definition simpleQuery (fuel : nat) (query : string) (c : C) : option (option error * C) :=
  match pgx_Flush (Send [Query query] c) with
  | (Some err, c) => Some (Some (errorf ("flush " +:+ query) err), c)
  | (None, c) => receive_loop fuel query false None c
  end.

(** [DISCARD ALL], the last part of [reset]. *)
Definition discard (fuel : nat) (discardAll : bool) (c : C) : option (option error * C) :=
  if discardAll then simpleQuery fuel "DISCARD ALL" c else Some (None, c).

Definition reset (fuel : nat) (discardAll : bool) (c : C) : option (option error * C) :=
  let c := (pgx_Flush (Send [Sync] c)).2 in
  '(err, c) ← drainToReady fuel c;
  match err with
  | Some err => Some (Some (errorf "drain pending messages" err), c)
  | None =>
    if negb (Ascii.eqb (pgx_TxStatus c) "I"%char) then
      '(err, c) ← simpleQuery fuel "ROLLBACK" c;
      match err with Some err => Some (Some err, c) | None => discard fuel discardAll c end
    else discard fuel discardAll c
  end.

Definition Release (fuel : nat) (discardAll : bool) (c : C) : option (option error * C) :=
  '(err, c) ← reset fuel discardAll c;
  match err with Some err => Some (Some err, c) | None => Some (None, pgx_Release c) end.

Definition Kill (c : C) : option error * C := pgx_Close c.

End client.

(** ** What the client relies on

    [inbox] holds the messages that the backend has sent, or has been asked to
    send, and that were not received yet, in order; [outbox] what is buffered;
    [backend_tx] the status of the transaction on the backend; [executed] the
    commands of the reset that the backend has run. *)

Definition is_ready (m : BackendMessage) : bool := match m with ReadyForQuery _ => true | _ => false end.
Definition ends_command (m : BackendMessage) : bool :=
  match m with ReadyForQuery _ | CommandComplete _ | ErrorResponse _ _ _ => true | _ => false end.
Definition ends_cycle (m : FrontendMessage) : bool := match m with Query _ | Sync => true | _ => false end.

Definition no_ready (l : list BackendMessage) : Prop := Forall (fun m => is_ready m = false) l.

Class PgxLaws (C : Type) {Pgx : PgxConn C} := {
  inbox : C -> list BackendMessage;
  outbox : C -> list FrontendMessage;
  backend_tx : C -> ascii;
  executed : C -> list string;
  (* ReceiveMessage hands out the messages in order and remembers the status *)
  law_receive c m rest : inbox c = m :: rest ->
    exists c', pgx_Receive c = (inr m, c') /\ inbox c' = rest /\ outbox c' = outbox c /\
      backend_tx c' = backend_tx c /\ executed c' = executed c /\
      pgx_TxStatus c' = match m with ReadyForQuery st => st | _ => pgx_TxStatus c end;
  (* a Sync ends the pipeline with one ReadyForQuery; alone it changes nothing *)
  law_sync c : Forall (fun m => ends_cycle m = false) (outbox c) ->
    exists c' l, pgx_Flush (pgx_Send Sync c) = (None, c') /\ outbox c' = [] /\ executed c' = executed c /\
      no_ready l /\ inbox c' = inbox c ++ l ++ [ReadyForQuery (backend_tx c')] /\
      (outbox c = [] -> l = [] /\ backend_tx c' = backend_tx c);
  (* ROLLBACK always succeeds, DISCARD ALL does outside a transaction *)
  law_command c q : outbox c = [] ->
    q = "ROLLBACK" \/ q = "DISCARD ALL" /\ backend_tx c = "I"%char ->
    exists c' l tag, pgx_Flush (pgx_Send (Query q) c) = (None, c') /\ outbox c' = [] /\
      executed c' = executed c ++ [q] /\ backend_tx c' = "I"%char /\
      Forall (fun m => ends_command m = false) l /\
      inbox c' = inbox c ++ l ++ [CommandComplete tag; ReadyForQuery "I"%char]
}.

(** ** Lemmas *)

Section laws.
Context {C : Type} {Pgx : PgxConn C} {Laws : PgxLaws C}.

(** What receiving does not change. *)
Definition same_backend (c c' : C) : Prop :=
  outbox c' = outbox c /\ backend_tx c' = backend_tx c /\ executed c' = executed c.

Lemma same_backend_trans c1 c2 c3 : same_backend c1 c2 -> same_backend c2 c3 -> same_backend c1 c3.
Proof. unfold same_backend. intuition congruence. Qed.

Lemma drainToReady_spec p : forall fuel c st rest,
  inbox c = p ++ ReadyForQuery st :: rest -> no_ready p -> (length p < fuel)%nat ->
  exists c', drainToReady fuel c = Some (None, c') /\ inbox c' = rest /\ same_backend c c' /\ pgx_TxStatus c' = st.
Proof.
  induction p as [|m p IH]; intros fuel c st rest Hin Hp Hf; (destruct fuel as [|fuel]; [cbn in Hf; lia|]); cbn.
  - destruct (law_receive c _ _ Hin) as (c' & -> & Hi & Ho & Hb & He & Ht). exists c'. done.
  - apply Forall_cons in Hp as [Hm Hp].
    destruct (law_receive c _ _ Hin) as (c1 & -> & Hi & Ho & Hb & He & Ht).
    destruct (IH fuel c1 st rest Hi Hp) as (c' & Hd & Hi' & Hsame & Hst); [cbn in Hf; lia|].
    exists c'. split; [by destruct m|]. split; [done|]. split; [|done].
    apply (same_backend_trans c c1); [done|exact Hsame].
Qed.

(** Until the command has completed, everything else is skipped: stale
    [ReadyForQuery] messages too. *)
Lemma receive_loop_skip p : forall fuel c q rest,
  inbox c = p ++ rest -> Forall (fun m => is_ready m || negb (ends_command m) = true) p ->
  exists c', receive_loop (length p + fuel) q false None c = receive_loop fuel q false None c' /\
    inbox c' = rest /\ same_backend c c'.
Proof.
  induction p as [|m p IH]; intros fuel c q rest Hin Hp; [by exists c|].
  apply Forall_cons in Hp as [Hm Hp]. cbn.
  destruct (law_receive c _ _ Hin) as (c1 & -> & Hi & Ho & Hb & He & Ht).
  destruct (IH fuel c1 q rest Hi Hp) as (c' & Hd & Hi' & Hsame).
  exists c'. split; [by destruct m|]. split; [done|].
  apply (same_backend_trans c c1); [done|exact Hsame].
Qed.

Lemma receive_loop_more q b e : forall fuel c r n,
  receive_loop fuel q b e c = Some r -> receive_loop (fuel + n) q b e c = Some r.
Proof.
  intros fuel. revert b e. induction fuel as [|fuel IH]; intros b e c r n H; [done|]. cbn in *.
  destruct (pgx_Receive c) as [[err|m] c']; [done|]. destruct m; try (by apply IH). destruct b; [done|by apply IH].
Qed.

Lemma drainToReady_more : forall fuel c r n,
  drainToReady fuel c = Some r -> drainToReady (fuel + n) c = Some r.
Proof.
  induction fuel as [|fuel IH]; intros c r n H; [done|]. cbn in *.
  destruct (pgx_Receive c) as [[err|m] c']; [done|]. destruct m; try (by apply IH). done.
Qed.

(** A command of the reset, behind messages that end no command: it runs, and
    its answer is the last thing received. *)
Lemma simpleQuery_spec c q :
  outbox c = [] -> Forall (fun m => is_ready m || negb (ends_command m) = true) (inbox c) ->
  q = "ROLLBACK" \/ q = "DISCARD ALL" /\ backend_tx c = "I"%char ->
  exists bound c', (forall fuel, (bound <= fuel)%nat -> simpleQuery fuel q c = Some (None, c')) /\
    inbox c' = [] /\ outbox c' = [] /\ backend_tx c' = "I"%char /\ pgx_TxStatus c' = "I"%char /\
    executed c' = executed c ++ [q].
Proof.
  intros Ho Hstale Hq. destruct (law_command c q Ho Hq) as (c1 & l & tag & Hf & Ho1 & He1 & Hb1 & Hl & Hi1).
  assert (Hskip : Forall (fun m => is_ready m || negb (ends_command m) = true) (inbox c ++ l)).
  { apply Forall_app. split; [done|]. eapply Forall_impl; [exact Hl|]. intros m Hm. rewrite Hm. by destruct (is_ready m). }
  rewrite app_assoc in Hi1.
  destruct (receive_loop_skip _ 2 c1 q _ Hi1 Hskip) as (c2 & Hr & Hi2 & Ho2 & Hb2 & He2).
  destruct (law_receive c2 _ _ Hi2) as (c3 & Hr3 & Hi3 & Ho3 & Hb3 & He3 & Ht3).
  destruct (law_receive c3 _ _ Hi3) as (c4 & Hr4 & Hi4 & Ho4 & Hb4 & He4 & Ht4).
  exists (length (inbox c ++ l) + 2)%nat, c4. split.
  - intros fuel Hfuel. unfold simpleQuery, Send. cbn [foldl]. rewrite Hf.
    replace fuel with (length (inbox c ++ l) + 2 + (fuel - (length (inbox c ++ l) + 2)))%nat by lia.
    apply receive_loop_more. rewrite Hr. cbn. rewrite Hr3. by rewrite Hr4.
  - rewrite Hi4, Ho4, Ho3, Ho2, Ho1, Hb4, Hb3, Hb2, Hb1, Ht4, He4, He3, He2, He1. done.
Qed.

(** What a client may leave behind: a request that was not answered yet, or,
    before a [DISCARD ALL], one complete answer that nobody received. *)
Definition resettable (discardAll : bool) (c : C) : Prop :=
  (no_ready (inbox c) /\ Forall (fun m => ends_cycle m = false) (outbox c)) \/
  (discardAll = true /\ outbox c = [] /\
   exists p, no_ready p /\ inbox c = p ++ [ReadyForQuery (backend_tx c)]).

(** After the Sync and the drain, only a stale [ReadyForQuery] can be left. *)
Lemma drained_spec discardAll c :
  resettable discardAll c ->
  exists bound c', (forall fuel, (bound <= fuel)%nat ->
      drainToReady fuel (pgx_Flush (Send [Sync] c)).2 = Some (None, c')) /\
    outbox c' = [] /\ executed c' = executed c /\ pgx_TxStatus c' = backend_tx c' /\
    (inbox c' = [] \/ discardAll = true /\ exists st, inbox c' = [ReadyForQuery st]).
Proof.
  intros Hres.
  assert (Hcyc : Forall (fun m => ends_cycle m = false) (outbox c)).
  { destruct Hres as [[_ H]|(_ & H & _)]; [done|by rewrite H]. }
  destruct (law_sync c Hcyc) as (c1 & l & Hf & Ho1 & He1 & Hl & Hi1 & Hquiet).
  unfold Send. cbn [foldl]. rewrite Hf. cbn [snd].
  assert (Hgo : forall p st rest, inbox c1 = p ++ ReadyForQuery st :: rest -> no_ready p -> st = backend_tx c1 ->
    (rest = [] \/ discardAll = true /\ exists st', rest = [ReadyForQuery st']) ->
    exists bound c', (forall fuel, (bound <= fuel)%nat -> drainToReady fuel c1 = Some (None, c')) /\
      outbox c' = [] /\ executed c' = executed c /\ pgx_TxStatus c' = backend_tx c' /\
      (inbox c' = [] \/ discardAll = true /\ exists st, inbox c' = [ReadyForQuery st])).
  { intros p st rest Hin Hp Hst Hrest.
    destruct (drainToReady_spec p (S (length p)) c1 st rest Hin Hp) as (c' & Hd & Hi' & (Ho' & Hb' & He') & Ht); [lia|].
    exists (S (length p)), c'. rewrite Ho', He', Ht, Hst, Hb', Hi', Ho1, He1. split; [|done].
    intros fuel Hfuel. replace fuel with (S (length p) + (fuel - S (length p)))%nat by lia. by apply drainToReady_more. }
  destruct Hres as [[Hnone _]|(Hd & Ho & p & Hp & Hin)].
  - apply (Hgo (inbox c ++ l) (backend_tx c1) []); [by rewrite Hi1, <- app_assoc|by apply Forall_app|done|by left].
  - destruct (Hquiet Ho) as [-> Hb]. apply (Hgo p (backend_tx c) [ReadyForQuery (backend_tx c1)]).
    + by rewrite Hi1, Hin, <- app_assoc.
    + done.
    + by rewrite Hb.
    + right. split; [done|]. by eexists.
Qed.

End laws.

(** ** A backend on the other end of a wire

    Answers every request at once; it serves as an instance of the laws. *)

Record Wire := MkWire {
  w_in : list BackendMessage; w_out : list FrontendMessage; w_tx : ascii; w_status : ascii;
  w_executed : list string
}.

Definition answer (m : FrontendMessage) (w : Wire) : Wire :=
  match m with
  | Sync => MkWire (w_in w ++ [ReadyForQuery (w_tx w)]) (w_out w) (w_tx w) (w_status w) (w_executed w)
  | Query q =>
    let tx := if String.eqb q "ROLLBACK" then "I"%char else w_tx w in
    MkWire (w_in w ++ [CommandComplete q; ReadyForQuery tx]) (w_out w) tx (w_status w) (w_executed w ++ [q])
  | Parse _ _ => MkWire (w_in w ++ [ParseComplete]) (w_out w) (w_tx w) (w_status w) (w_executed w)
  | Bind _ => MkWire (w_in w ++ [BindComplete]) (w_out w) (w_tx w) (w_status w) (w_executed w)
  | _ => w
  end.

#[export] Instance Wire_conn : PgxConn Wire := {|
  pgx_TxStatus := w_status;
  pgx_Send m w := MkWire (w_in w) (w_out w ++ [m]) (w_tx w) (w_status w) (w_executed w);
  pgx_Flush w :=
    (None, foldl (fun w m => answer m w) (MkWire (w_in w) [] (w_tx w) (w_status w) (w_executed w)) (w_out w));
  pgx_Receive w :=
    match w_in w with
    | [] => (inl (OtherError "context deadline exceeded" None), w)
    | m :: rest =>
      (inr m, MkWire rest (w_out w) (w_tx w) (match m with ReadyForQuery st => st | _ => w_status w end) (w_executed w))
    end;
  pgx_Release w := w;
  pgx_Close w := (None, w)
|}.

Lemma answer_pipeline ms : forall w,
  Forall (fun m => ends_cycle m = false) ms ->
  exists l, no_ready l /\ (ms = [] -> l = []) /\
    foldl (fun w m => answer m w) w ms = MkWire (w_in w ++ l) (w_out w) (w_tx w) (w_status w) (w_executed w).
Proof.
  induction ms as [|m ms IH]; intros w H.
  { exists []. cbn. rewrite app_nil_r. split; [apply Forall_nil_2|]. by destruct w. }
  apply Forall_cons in H as [Hm H]. cbn. destruct (IH (answer m w) H) as (l & Hl & _ & ->).
  exists (match m with Parse _ _ => [ParseComplete] | Bind _ => [BindComplete] | _ => [] end ++ l).
  split; [|split; [done|]]; destruct m; try done; cbn; rewrite <- ?app_assoc; try done; by apply Forall_cons_2.
Qed.

Lemma Wire_receive c m rest :
  w_in c = m :: rest ->
  exists c', pgx_Receive c = (inr m, c') /\ w_in c' = rest /\ w_out c' = w_out c /\
    w_tx c' = w_tx c /\ w_executed c' = w_executed c /\
    pgx_TxStatus c' = match m with ReadyForQuery st => st | _ => pgx_TxStatus c end.
Proof. intros H. eexists. cbn. rewrite H. done. Qed.

Lemma Wire_sync c :
  Forall (fun m => ends_cycle m = false) (w_out c) ->
  exists c' l, pgx_Flush (pgx_Send Sync c) = (None, c') /\ w_out c' = [] /\ w_executed c' = w_executed c /\
    no_ready l /\ w_in c' = w_in c ++ l ++ [ReadyForQuery (w_tx c')] /\
    (w_out c = [] -> l = [] /\ w_tx c' = w_tx c).
Proof.
  intros H.
  destruct (answer_pipeline _ (MkWire (w_in c) [] (w_tx c) (w_status c) (w_executed c)) H) as (l & Hl & Hnil & He).
  eexists _, l. cbn. rewrite foldl_app, He. cbn. rewrite <- app_assoc. auto 10.
Qed.

Lemma Wire_command c q :
  w_out c = [] -> q = "ROLLBACK" \/ q = "DISCARD ALL" /\ w_tx c = "I"%char ->
  exists c' l tag, pgx_Flush (pgx_Send (Query q) c) = (None, c') /\ w_out c' = [] /\
    w_executed c' = w_executed c ++ [q] /\ w_tx c' = "I"%char /\
    Forall (fun m => ends_command m = false) l /\
    w_in c' = w_in c ++ l ++ [CommandComplete tag; ReadyForQuery "I"%char].
Proof.
  intros Ho Hq. eexists _, [], q. cbn. rewrite Ho. split; [done|].
  destruct Hq as [->|[-> Hb]]; cbn; rewrite ?Hb; repeat split; by apply Forall_nil_2.
Qed.

#[export] Instance Wire_laws : PgxLaws Wire := {|
  inbox := w_in; outbox := w_out; backend_tx := w_tx; executed := w_executed;
  law_receive := Wire_receive; law_sync := Wire_sync; law_command := Wire_command
|}.

(** ** Properties *)


(** A session ends inside a transaction, in the middle of an extended query. *)
Definition demo_wire : Wire := MkWire [] [Parse "s" "SELECT 1"; Bind "s"] "T"%char "T"%char [].


(** In transaction mode a client that goes away while its simple query is being
    answered leaves a [ReadyForQuery] behind: the drain stops at the one of the
    query, and the answer to the Sync stays in the connection that returns to
    the pool, where the next session receives it. *)
Theorem stale_ready_returns_to_pool :
  exists c', Release 10 false (MkWire [CommandComplete "SELECT 1"; ReadyForQuery "I"%char] [] "I"%char "T"%char []) = Some (None, c') /\
    w_in c' = [ReadyForQuery "I"%char].
Proof. eexists. split; vm_compute; reflexivity. Qed.

(** With two answers outstanding the second one is taken for that of
    [DISCARD ALL], whose own answer stays behind. *)
Theorem stale_completion_is_accepted :
  exists c', Release 10 true (MkWire [CommandComplete "SELECT 1"; ReadyForQuery "I"%char;
      CommandComplete "SELECT 2"; ReadyForQuery "I"%char] [] "I"%char "I"%char []) = Some (None, c') /\
    w_in c' = [ReadyForQuery "I"%char; CommandComplete "DISCARD ALL"; ReadyForQuery "I"%char].
Proof. eexists. split; vm_compute; reflexivity. Qed.
