(* ===== verification/Session.v ===== *)
(** * Session: one client connection (internal/server/session)

    The main loop of a session handles one event at a time: a message from the
    client, a message from the leased upstream, an error of a read loop, a
    request to release the upstream, the end of the context.  A handler runs in
    a small monad: it reads and writes the session, calls the server through
    the interface [ProxyServer], and records what it does to the two
    connections; whether an I/O operation fails and what the clock says is
    given from outside. *)

From stdpp Require Import base gmap strings list.
From Stdlib Require Import ZArith Lia Ascii.
From S2P Require Import Prelude GoStrings Types Classifier Messaging.

Local Open Scope string_scope.
Local Open Scope Z_scope.
Local Open Scope list_scope.

(** ** The post-write window *)

Record PostWriteWindow := MkWindow { OpenedAt : Time; DurationMs : Z }.

Definition Active (w : PostWriteWindow) (now : Time) : bool :=
  (0 <? DurationMs w) && negb (IsZero (OpenedAt w)) &&
  (Sub now (OpenedAt w) <? millis (DurationMs w)).

Definition RemainingMs (w : PostWriteWindow) (now : Time) : Z :=
  if negb (Active w now) then 0
  else wrap64 (DurationMs w - Milliseconds (Sub now (OpenedAt w))).

(** ** Session state *)

(** [upstream] is nil or the leased connection, whose read loop then runs;
    [compatTransactionFirstClass] is [None] for the empty type. *)
Record Session := MkSession {
  upstream : option Conn;
  poolMode : PoolMode;
  lastActive : Time;
  loopsStarted : bool;
  pendingBegin : option FrontendMessage;
  swallowingBeginResponse : bool;
  compatTxState : TxState;
  compatTransactionFirstClass : option Type_;
  compatLeasedNodeID : string;
  compatLeasedRole : string;
  postWriteWindow : PostWriteWindow;
  awaitingRollbackResult : bool;
  compatPrepared : option (gmap string Class_)
}.
#[export] Instance Session_eta : Eta Session := fun s =>
  MkSession (upstream s) (poolMode s) (lastActive s) (loopsStarted s) (pendingBegin s)
    (swallowingBeginResponse s) (compatTxState s) (compatTransactionFirstClass s)
    (compatLeasedNodeID s) (compatLeasedRole s) (postWriteWindow s) (awaitingRollbackResult s)
    (compatPrepared s).

(** [Initialize]: the zero value but for the time of creation. *)
Definition Initialize (now : Time) : Session :=
  MkSession None PoolModeSession now false None false TxIdle None "" "" (MkWindow time_zero 0)
    false None.

(** [LastActive]: the stored nanoseconds, the zero time when they are zero. *)
Definition LastActive (s : Session) : Time := lastActive s.

(** ** The server, as the session sees it

    [None] is a panic of the call. *)

Class ProxyServer (S : Type) := {
  srv_Port : S -> string;
  srv_AcquireUpstream : S -> option ((error + Conn) * S);
  srv_AcquireUpstreamLease : string -> bool -> Z -> S -> option ((error + UpstreamLease) * S);
  srv_RejectReadPortWrite : string -> string -> S -> option S;
  srv_RejectCompatReclassification : string -> string -> S -> option S
}.

(** ** What a session does to the outside

    The flag of an operation tells whether it succeeded. *)

Inductive Effect :=
| DownSend (m : BackendMessage) (ok : bool)
| DownFlush (ok : bool)
| UpSend (c : Conn) (m : FrontendMessage) (ok : bool)
| UpFlush (c : Conn) (ok : bool)
| Attached (c : Conn)
| Released (c : Conn)
| Killed (c : Conn)
| AckUpstream
| AckDownstream
| SessionClosed.

#[export] Instance Conn_eq_dec : EqDecision Conn := Nat.eq_dec.
#[export] Instance Effect_eq_dec : EqDecision Effect.
Proof. solve_decision. Defined.

(** ** The handler monad *)

Record World (S : Type) := MkWorld {
  w_sess : Session;
  w_srv : S;
  w_trace : list Effect;
  w_faults : list bool;
  w_clock : list Time
}.
Arguments MkWorld {S}.
Arguments w_sess {S}.
Arguments w_srv {S}.
Arguments w_trace {S}.
Arguments w_faults {S}.
Arguments w_clock {S}.

(** [Exit]: [Run] returns.  [Panic]: a nil dereference or a panic of a callee. *)
Inductive Res (A : Type) := Val (a : A) | Exit | Panic.
Arguments Val {A}.
Arguments Exit {A}.
Arguments Panic {A}.

Definition M (S A : Type) : Type := World S -> Res A * World S.

Definition M_ret {S A} (a : A) : M S A := fun w => (Val a, w).
Definition M_bind {S A B} (m : M S A) (k : A -> M S B) : M S B := fun w =>
  match m w with
  | (Val a, w') => k a w'
  | (Exit, w') => (Exit, w')
  | (Panic, w') => (Panic, w')
  end.
Notation "'let!' x ':=' m 'in' k" := (M_bind m (fun x => k))
  (at level 200, x pattern, m at level 100, k at level 200) : go_scope.
Notation "m ';!' k" := (M_bind m (fun _ => k)) (at level 199, right associativity) : go_scope.

Definition exit_ {S A} : M S A := fun w => (Exit, w).
Definition panic {S A} : M S A := fun w => (Panic, w).
Definition get {S} : M S Session := fun w => (Val (w_sess w), w).
Definition modify {S} (f : Session -> Session) : M S unit := fun w =>
  (Val tt, MkWorld (f (w_sess w)) (w_srv w) (w_trace w) (w_faults w) (w_clock w)).
Definition emit {S} (e : Effect) : M S unit := fun w =>
  (Val tt, MkWorld (w_sess w) (w_srv w) (w_trace w ++ [e]) (w_faults w) (w_clock w)).

(** The next instant, and whether the next operation fails; past the end of
    what is given, the zero time and no failure. *)
Definition now {S} : M S Time := fun w =>
  (Val (default time_zero (head (w_clock w))),
   MkWorld (w_sess w) (w_srv w) (w_trace w) (w_faults w) (tail (w_clock w))).
Definition fault {S} : M S bool := fun w =>
  (Val (default false (head (w_faults w))),
   MkWorld (w_sess w) (w_srv w) (w_trace w) (tail (w_faults w)) (w_clock w)).

(** An I/O operation: whether it failed. *)
Definition attempt {S} (op : bool -> Effect) : M S bool :=
  let! failed := fault in emit (op (negb failed)) ;! M_ret failed.

Definition call {S A} (f : S -> option (A * S)) : M S A := fun w =>
  match f (w_srv w) with
  | Some (a, s) => (Val a, MkWorld (w_sess w) s (w_trace w) (w_faults w) (w_clock w))
  | None => (Panic, w)
  end.
Definition call_ {S} (f : S -> option S) : M S unit :=
  call (fun s => match f s with Some s' => Some (tt, s') | None => None end).

Definition down_send {S} (m : BackendMessage) : M S bool := attempt (DownSend m).
Definition down_flush {S} : M S bool := attempt DownFlush.

(** The acknowledgement to a read loop, or the end of the context. *)
Definition ack {S} (e : Effect) : M S unit :=
  let! done_ := fault in if done_ : bool then exit_ else emit e.

(** ** Statements *)

Definition isTransactionStart (sql : string) : bool :=
  let s := TrimSpace (ToLower sql) in
  if String.eqb s "begin" || HasPrefix s "begin " then true
  else String.eqb s "start transaction" || HasPrefix s "start transaction ".

Definition isCommit (sql : string) : bool :=
  let s := TrimSpace (ToLower sql) in String.eqb s "commit" || HasPrefix s "commit ".

Definition isRollback (sql : string) : bool :=
  let s := TrimSpace (ToLower sql) in String.eqb s "rollback" || HasPrefix s "rollback ".

(** The SQL text of a message, empty for the ones without. *)
Definition sql_of (msg : FrontendMessage) : string :=
  match msg with Query q => q | Parse _ q => q | _ => "" end.

Definition is_query (msg : FrontendMessage) : bool := match msg with Query _ => true | _ => false end.
Definition is_parse (msg : FrontendMessage) : bool := match msg with Parse _ _ => true | _ => false end.

Section handlers.
Context {S : Type} `{Srv : ProxyServer S}.

Definition port : M S string := fun w => (Val (srv_Port (w_srv w)), w).

(** ** The upstream lease *)

Definition attach (c : Conn) : M S unit :=
  modify (fun s => s <| upstream := Some c |>) ;! emit (Attached c).

Definition acquireUpstream : M S (option error) :=
  let! s := get in
  match upstream s with
  | Some _ => M_ret None
  | None =>
    let! r := call srv_AcquireUpstream in
    match r with
    | inl err => M_ret (Some err)
    | inr c => attach c ;! M_ret None
    end
  end.

Definition setUpstreamLease (lease : UpstreamLease) : M S unit := attach (lease_Client lease).

Definition releaseUpstream : M S unit :=
  let! s := get in
  match upstream s with
  | None => M_ret tt
  | Some c =>
    modify (fun s => s <| upstream := None |>) ;!
    let! failed := fault in
    if failed : bool then emit (Killed c) else emit (Released c)
  end.

Definition switchToSessionMode : M S unit :=
  modify (fun s => if bool_decide (poolMode s = PoolModeSession) then s
                   else s <| poolMode := PoolModeSession |>).

(** ** Closing *)

(** [CloseWithError]: errors of the last words are ignored. *)
Definition CloseWithError (severity code message : string) : M S unit :=
  down_send (ErrorResponse severity code message) ;! down_flush ;! emit SessionClosed.

(** The deferred calls when [Run] returns. *)
Definition run_exit : M S unit := releaseUpstream ;! emit SessionClosed.

(** ** The compat port *)

(** An error response with a [ReadyForQuery]; true when the flush failed. *)
Definition sendCompatError (code message : string) (txStatus : Ascii.ascii) : M S bool :=
  down_send (ErrorResponse "ERROR" code ("[grunyas] " +:+ message)) ;!
  down_send (ReadyForQuery txStatus) ;!
  down_flush.

Definition resetCompatState (s : Session) : Session :=
  s <| compatTxState := TxIdle |> <| compatTransactionFirstClass := Some TypeUnknown |>
    <| compatLeasedNodeID := "" |> <| compatLeasedRole := "" |> <| awaitingRollbackResult := false |>.

Definition handleCompatReadyForQuery (txStatus : Ascii.ascii) : M S unit :=
  if Ascii.eqb txStatus "I"%char then
    let! s := get in
    (if negb (awaitingRollbackResult s)
        && bool_decide (compatTransactionFirstClass s = Some TypeWrite)
        && String.eqb (compatLeasedRole s) "primary"
     then let! t := now in
          modify (fun s => s <| postWriteWindow := MkWindow t (DurationMs (postWriteWindow s)) |>)
     else M_ret tt) ;!
    modify resetCompatState
  else if Ascii.eqb txStatus "E"%char then
    modify (fun s => s <| compatTxState := TxInFailedTransaction |>
                       <| compatTransactionFirstClass := Some TypeUnknown |>)
  else M_ret tt.

(** The failed-transaction short-circuit. *)
Definition compat_failed (msg : FrontendMessage) : M S (bool * option error) :=
  match msg with
  | Query q =>
    if isRollback q then
      modify (fun s => s <| awaitingRollbackResult := true |>) ;! M_ret (false, None)
    else
      let! failed := sendCompatError "25P02"
        "current transaction is aborted, commands ignored until end of transaction block" "E"%char in
      M_ret (negb failed, None)
  | Sync =>
    down_send (ReadyForQuery "E"%char) ;!
    let! failed := down_flush in
    M_ret (negb failed, None)
  | Terminate => M_ret (false, None)
  | _ => M_ret (true, None)
  end.

(** A lease for [sql] at the given instant, recorded in the session. *)
Definition lease_for (sql : string) : M S (option error) :=
  let! t := now in
  let! s := get in
  let! r := call (srv_AcquireUpstreamLease sql (Active (postWriteWindow s) t)
                    (RemainingMs (postWriteWindow s) t)) in
  match r with
  | inl err => M_ret (Some err)
  | inr lease =>
    setUpstreamLease lease ;!
    modify (fun s => s <| compatLeasedNodeID := lease_NodeID lease |>
                       <| compatLeasedRole := lease_Role lease |>) ;!
    M_ret None
  end.

(** The lease of a statement, which opens the transaction's state. *)
Definition open_transaction (sql : string) (cls : Type_) : M S (bool * option error) :=
  let! err := lease_for sql in
  match err with
  | Some e => M_ret (false, Some e)
  | None =>
    modify (fun s =>
      s <| compatTransactionFirstClass := Some cls |>
        <| compatTxState := if bool_decide (cls = TypeWrite) then TxInTransactionWrite
                            else TxInTransactionRead |>) ;!
    modify (fun s => if isRollback sql then s <| awaitingRollbackResult := true |> else s) ;!
    M_ret (false, None)
  end.

(** The statement runs on the upstream that is already leased. *)
Definition inherit_state (sql : string) (cls : Type_) : M S (bool * option error) :=
  modify (fun s =>
    if bool_decide (cls = TypeWrite) then s <| compatTxState := TxInTransactionWrite |>
    else if bool_decide (compatTxState s = TxIdle) then s <| compatTxState := TxInTransactionRead |>
    else s) ;!
  modify (fun s => if isRollback sql then s <| awaitingRollbackResult := true |> else s) ;!
  M_ret (false, None).

(** A write in a transaction leased to a replica. *)
Definition reclassified (s : Session) (sql : string) (cls : Type_) : bool :=
  bool_decide (is_Some (upstream s)) && String.eqb (compatLeasedRole s) "replica"
  && bool_decide (cls = TypeWrite) && negb (isCommit sql) && negb (isRollback sql).

Definition reclassification_message : string :=
  "write attempted in transaction leased to replica (compat port)".

(** Its rejection: a [Parse] gets only the error, the client's [Sync] the rest. *)
Definition reject_reclassified (msg : FrontendMessage) (sql : string) : M S (bool * option error) :=
  let! s := get in
  call_ (srv_RejectCompatReclassification sql (PoolMode_string (poolMode s))) ;!
  modify (fun s => s <| compatTxState := TxInFailedTransaction |>) ;!
  if is_parse msg then
    down_send (ErrorResponse "ERROR" "25006" ("[grunyas] " +:+ reclassification_message)) ;!
    let! failed := down_flush in
    M_ret (negb failed, None)
  else
    let! failed := sendCompatError "25006" reclassification_message "E"%char in
    M_ret (negb failed, None).

(** Classify a statement and remember its class when it is named. *)
Definition classify_statement (stmt : Statement) : M S Type_ :=
  let! s := get in
  let '(cls, cs) := Classify stmt (MkSessionState "compat" (compatTxState s) (compatPrepared s)) in
  modify (fun s => s <| compatPrepared := Prepared cs |>) ;!
  M_ret (cls_Type cls).

Definition compat_statement (msg : FrontendMessage) (stmt : Statement) (sql : string)
  : M S (bool * option error) :=
  let! cls := classify_statement stmt in
  let! s := get in
  if reclassified s sql cls then reject_reclassified msg sql
  else if bool_decide (is_Some (upstream s)) then inherit_state sql cls
  else open_transaction sql cls.

(** [handleCompatSQL]: whether the message was dealt with here, and the error
    of a lease. *)
Definition handleCompatSQL (msg : FrontendMessage) (sql : string) : M S (bool * option error) :=
  let! s := get in
  if bool_decide (compatTxState s = TxInFailedTransaction) then compat_failed msg
  else
    match msg with
    | Query _ => compat_statement msg (MkStatement "" sql) sql
    | Parse name _ => compat_statement msg (MkStatement name sql) sql
    | _ =>
      match upstream s with
      | Some _ => M_ret (false, None)
      | None =>
        let! err := lease_for "" in
        M_ret (false, err)
      end
    end.

(** ** Messages from the upstream *)

(** The end of a complete response, at which the client's buffer is flushed. *)
Definition flushes_downstream (msg : BackendMessage) : bool :=
  match msg with
  | ReadyForQuery _ | ErrorResponse _ _ _ | CommandComplete _ | PortalSuspended | NoData
  | RowDescription _ | CloseComplete | ParseComplete | BindComplete => true
  | _ => false
  end.

Definition touch : M S unit :=
  let! t := now in modify (fun s => s <| lastActive := t |>).

(** The upstream's answer to a replayed BEGIN is swallowed up to its
    [ReadyForQuery]. *)
Definition swallow_begin (msg : BackendMessage) : M S unit :=
  (match msg with
   | ReadyForQuery st =>
     modify (fun s => s <| swallowingBeginResponse := false |>) ;!
     if Ascii.eqb st "T"%char then M_ret tt
     else
       down_send (ErrorResponse "ERROR" "25P02"
         "[grunyas] upstream BEGIN failed; transaction aborted") ;!
       down_send (ReadyForQuery "I"%char) ;!
       let! failed := down_flush in
       if failed : bool then exit_ else M_ret tt
   | _ => M_ret tt
   end) ;!
  ack AckUpstream.

Definition handle_upstream (msg : BackendMessage) : M S unit :=
  touch ;!
  let! s := get in
  if swallowingBeginResponse s then swallow_begin msg
  else
    let! failed := down_send msg in
    if failed : bool then exit_
    else
      (if flushes_downstream msg then
         let! failed := down_flush in if failed : bool then exit_ else M_ret tt
       else M_ret tt) ;!
      let! prt := port in
      match msg with
      | ReadyForQuery st =>
        (if String.eqb prt "compat" && bool_decide (poolMode s = PoolModeTransaction)
         then handleCompatReadyForQuery st else M_ret tt) ;!
        if bool_decide (poolMode s = PoolModeTransaction) && Ascii.eqb st "I"%char
        then releaseUpstream
        else ack AckUpstream
      | _ => ack AckUpstream
      end.

(** ** Messages from the client *)

(** The class of a message on the read port. *)
Definition read_port_class (sql : string) : Type_ :=
  cls_Type (Classify (MkStatement "" sql) (MkSessionState "read" TxIdle None)).1.

Definition reject_read_port (sql : string) : M S unit :=
  down_send (ErrorResponse "ERROR" "25006" "[grunyas] write attempted on read port") ;!
  down_send (ReadyForQuery "I"%char) ;!
  let! failed := down_flush in
  if failed : bool then exit_
  else
    let! s := get in
    call_ (srv_RejectReadPortWrite sql (PoolMode_string (poolMode s))) ;!
    ack AckDownstream.

(** BEGIN is answered here and replayed before the next statement. *)
Definition buffer_begin (msg : FrontendMessage) : M S unit :=
  modify (fun s => s <| pendingBegin := Some msg |>) ;!
  let! failed := down_send (CommandComplete "BEGIN") in
  if failed : bool then exit_
  else
    let! failed := down_send (ReadyForQuery "T"%char) in
    if failed : bool then exit_
    else
      let! failed := down_flush in
      if failed : bool then exit_ else ack AckDownstream.

Definition acquire_failed (err : error) : M S unit :=
  let code := CodeFromErr err "53300" in
  let! s := get in
  match pendingBegin s with
  | Some _ =>
    modify (fun s => s <| pendingBegin := None |>) ;!
    down_send (ErrorResponse "ERROR" code ("[grunyas] " +:+ Error err)) ;!
    down_send (ReadyForQuery "I"%char) ;!
    let! failed := down_flush in
    if failed : bool then exit_ else ack AckDownstream
  | None => CloseWithError "FATAL" code (Error err) ;! exit_
  end.

(** [messaging.Process]: the send; a nil upstream is dereferenced. *)
Definition process (msg : FrontendMessage) : M S bool :=
  let! s := get in
  match upstream s with
  | None => panic
  | Some c => attempt (UpSend c msg)
  end.

Definition flushes_upstream (msg : FrontendMessage) : bool :=
  match msg with Query _ | Sync | Flush | CopyDone | CopyFail _ => true | _ => false end.

Definition replay_begin : M S unit :=
  let! s := get in
  match pendingBegin s with
  | None => M_ret tt
  | Some b =>
    let! failed := process b in
    if failed : bool then exit_
    else modify (fun s => s <| swallowingBeginResponse := true |> <| pendingBegin := None |>)
  end.

Definition forward (msg : FrontendMessage) : M S unit :=
  replay_begin ;!
  let! failed := process msg in
  if failed : bool then exit_
  else
    (if Process_pins msg then switchToSessionMode else M_ret tt) ;!
    if flushes_upstream msg then
      let! s := get in
      match upstream s with
      | None => panic
      | Some c => let! failed := attempt (UpFlush c) in if failed : bool then exit_ else M_ret tt
      end
    else M_ret tt.

Definition handle_downstream (msg : FrontendMessage) : M S unit :=
  touch ;!
  match msg with
  | Terminate => exit_
  | _ =>
    let sql := sql_of msg in
    let! prt := port in
    let! s := get in
    if String.eqb prt "read" && bool_decide (read_port_class sql = TypeWrite)
    then reject_read_port sql
    else if is_query msg && String.eqb prt "compat" && isTransactionStart sql
            && bool_decide (pendingBegin s = None)
    then buffer_begin msg
    else
      let! r := (if String.eqb prt "compat" then handleCompatSQL msg sql
                 else let! e := acquireUpstream in M_ret (false, e)) in
      match r with
      | (_, Some err) => acquire_failed err
      | (handled, None) =>
        (if handled : bool then M_ret tt else forward msg) ;! ack AckDownstream
      end
  end.

(** ** The main loop *)

Inductive SessEvent :=
| FromUpstream (m : BackendMessage)
| FromDownstream (m : option FrontendMessage)
| LoopError
| ReleaseRequested
| ContextDone.

Definition handle_event (e : SessEvent) : M S unit :=
  match e with
  | FromUpstream m => handle_upstream m
  | FromDownstream (Some m) => handle_downstream m
  | FromDownstream None => exit_
  | LoopError => exit_
  | ReleaseRequested => releaseUpstream
  | ContextDone => exit_
  end.

(** ** Connection setup: the part of [Run] before the loop *)

Definition configure (serverMode : PoolMode) (ports : gmap string PortConfig) (prt : string)
    (s : Session) : Session :=
  let s := s <| poolMode := serverMode |> in
  let s := match ports !! prt with
           | Some pc =>
             if String.eqb (pc_PoolMode pc) "" then s
             else match PoolModeFromString (pc_PoolMode pc) with
                  | Some m => s <| poolMode := m |>
                  | None => s
                  end
           | None => s
           end in
  if String.eqb prt "compat" then
    s <| compatPrepared := Some ∅ |>
      <| postWriteWindow ::= fun w =>
           MkWindow (OpenedAt w)
             (match ports !! "compat" with Some pc => pc_PostWriteWindowMs pc | None => 1000 end) |>
  else s.

(** [startup] and [authErr] are the results of the client's startup and of the
    authentication. *)
Definition start (startup : error + (string * string)) (authErr : option error)
    (serverMode : PoolMode) (ports : gmap string PortConfig) : M S unit :=
  match startup with
  | inl _ => exit_
  | inr _ =>
    match authErr with
    | Some err => CloseWithError "FATAL" (CodeFromErr err "28P01") (Error err) ;! exit_
    | None =>
      let! prt := port in
      modify (configure serverMode ports prt) ;!
      let! s := get in
      (if bool_decide (poolMode s = PoolModeSession) then
         let! err := acquireUpstream in
         match err with
         | Some e => CloseWithError "FATAL" (CodeFromErr e "53300") (Error e) ;! exit_
         | None => M_ret tt
         end
       else M_ret tt) ;!
      let! failed := down_send AuthenticationOk in
      if failed : bool then exit_
      else
        let! failed := fault in
        if failed : bool then exit_
        else
          let! done_ := fault in
          if done_ : bool then exit_
          else modify (fun s => s <| loopsStarted := true |>)
    end
  end.

(** A run of the session: the setup, then the events until one of them ends
    it; when [Run] returns its deferred calls run.  While the session waits
    for its next event, other sessions use the server. *)
Fixpoint loop (es : list (SessEvent * (S -> S))) : M S unit :=
  match es with
  | [] => M_ret tt
  | (e, other) :: es =>
    (fun w => (Val tt, MkWorld (w_sess w) (other (w_srv w)) (w_trace w) (w_faults w) (w_clock w))) ;!
    handle_event e ;! loop es
  end.

Definition deferred (m : M S unit) : M S unit := fun w =>
  match m w with
  | (Val _, w') => (Val tt, w')
  | (Exit, w') => match run_exit w' with (_, w'') => (Exit, w'') end
  | (Panic, w') => match run_exit w' with (_, w'') => (Panic, w'') end
  end.

Definition Run (startup : error + (string * string)) (authErr : option error)
    (serverMode : PoolMode) (ports : gmap string PortConfig) (es : list (SessEvent * (S -> S)))
  : M S unit :=
  deferred (start startup authErr serverMode ports ;! loop es).

(** ** Reasoning about handlers

    [keeps f m]: the handler leaves the observation [f] as it was, however it
    ends. *)

Definition keeps {B A} (f : World S -> B) (m : M S A) : Prop := forall w, f (m w).2 = f w.

Lemma keeps_ret {B A} (f : World S -> B) (a : A) : keeps f (M_ret a).
Proof. done. Qed.

Lemma keeps_exit {B A} (f : World S -> B) : keeps (A := A) f exit_.
Proof. done. Qed.

Lemma keeps_panic {B A} (f : World S -> B) : keeps (A := A) f panic.
Proof. done. Qed.

Lemma keeps_get {B} (f : World S -> B) : keeps f get.
Proof. done. Qed.

Lemma keeps_port {B} (f : World S -> B) : keeps f port.
Proof. done. Qed.

Lemma keeps_bind {B A C} (f : World S -> B) (m : M S A) (k : A -> M S C) :
  keeps f m -> (forall a, keeps f (k a)) -> keeps f (M_bind m k).
Proof.
  intros Hm Hk w. unfold M_bind. specialize (Hm w). destruct (m w) as [[a| |] w'] eqn:E; cbn in *;
    [|done..]. rewrite <- Hm. apply Hk.
Qed.

(** The effects that move leases, and the upstream a session holds. *)
Definition lease_effect (e : Effect) : bool :=
  match e with Attached _ | Released _ | Killed _ => true | _ => false end.
Definition leases (w : World S) : list Effect * option Conn :=
  (filter (fun e => lease_effect e = true) (w_trace w), upstream (w_sess w)).

(** The acknowledgements given to the read loops. *)
Definition is_ack (e : Effect) : bool :=
  match e with AckUpstream | AckDownstream => true | _ => false end.
Definition acks (w : World S) : list Effect := filter (fun e => is_ack e = true) (w_trace w).

Lemma filter_snoc_false (p : Effect -> bool) (tr : list Effect) (e : Effect) :
  p e = false -> filter (fun e => p e = true) (tr ++ [e]) = filter (fun e => p e = true) tr.
Proof. intros He. rewrite filter_app. cbn. rewrite decide_False by congruence. apply app_nil_r. Qed.

Lemma filter_snoc_true (p : Effect -> bool) (tr : list Effect) (e : Effect) :
  p e = true -> filter (fun e => p e = true) (tr ++ [e]) = filter (fun e => p e = true) tr ++ [e].
Proof. intros He. rewrite filter_app. cbn. by rewrite decide_True. Qed.

Lemma keeps_acks_emit e : is_ack e = false -> keeps acks (emit e).
Proof. intros He w. unfold acks, emit. cbn. by apply filter_snoc_false. Qed.

Lemma keeps_acks_modify f : keeps acks (modify f).
Proof. done. Qed.

Lemma keeps_acks_now : keeps acks now.
Proof. done. Qed.

Lemma keeps_acks_fault : keeps acks fault.
Proof. done. Qed.

Lemma keeps_acks_call {A} (f : S -> option (A * S)) : keeps acks (call f).
Proof. intros w. unfold call. by destruct (f (w_srv w)) as [[a s]|]. Qed.

Lemma keeps_acks_attempt op : is_ack (op true) = false -> is_ack (op false) = false -> keeps acks (attempt op).
Proof.
  intros Ht Hf. unfold attempt. apply keeps_bind; [done|]. intros failed.
  apply keeps_bind; [|done]. apply keeps_acks_emit. by destruct failed.
Qed.

Lemma keeps_leases_emit e : lease_effect e = false -> keeps leases (emit e).
Proof. intros He w. unfold leases, emit. cbn. by rewrite filter_snoc_false. Qed.

Lemma keeps_leases_modify f : (forall s, upstream (f s) = upstream s) -> keeps leases (modify f).
Proof. intros Hf w. unfold leases, modify. cbn. by rewrite Hf. Qed.

Lemma keeps_leases_now : keeps leases now.
Proof. done. Qed.

Lemma keeps_leases_fault : keeps leases fault.
Proof. done. Qed.

Lemma keeps_leases_call {A} (f : S -> option (A * S)) : keeps leases (call f).
Proof. intros w. unfold call. by destruct (f (w_srv w)) as [[a s]|]. Qed.

Lemma keeps_leases_attempt op :
  lease_effect (op true) = false -> lease_effect (op false) = false -> keeps leases (attempt op).
Proof.
  intros Ht Hf. unfold attempt. apply keeps_bind; [done|]. intros failed.
  apply keeps_bind; [|done]. apply keeps_leases_emit. by destruct failed.
Qed.

Ltac keeps_step :=
  lazymatch goal with
  | |- keeps _ (M_bind _ _) => apply keeps_bind; [|intros ?]
  | |- keeps _ (if ?b then _ else _) => destruct b
  | |- keeps _ (match ?x with _ => _ end) => destruct x
  | |- keeps _ (let '(_, _) := ?x in _) => destruct x
  | |- keeps _ (M_ret _) => apply keeps_ret
  | |- keeps _ exit_ => apply keeps_exit
  | |- keeps _ panic => apply keeps_panic
  | |- keeps _ get => apply keeps_get
  | |- keeps _ port => apply keeps_port
  | |- keeps acks (emit _) => by apply keeps_acks_emit
  | |- keeps acks (modify _) => apply keeps_acks_modify
  | |- keeps acks now => apply keeps_acks_now
  | |- keeps acks fault => apply keeps_acks_fault
  | |- keeps acks (call _) => apply keeps_acks_call
  | |- keeps acks (attempt _) => by apply keeps_acks_attempt
  | |- keeps leases (emit _) => by apply keeps_leases_emit
  | |- keeps leases (modify _) => apply keeps_leases_modify; intros ?; by repeat case_match
  | |- keeps leases now => apply keeps_leases_now
  | |- keeps leases fault => apply keeps_leases_fault
  | |- keeps leases (call _) => apply keeps_leases_call
  | |- keeps leases (attempt _) => by apply keeps_leases_attempt
  | |- keeps _ _ => solve [auto with go]
  end.
Ltac keeps_solve := repeat keeps_step.

(** *** Handlers that give no acknowledgement *)

Lemma acks_acquireUpstream : keeps acks acquireUpstream.
Proof. unfold acquireUpstream, attach. keeps_solve. Qed.

Lemma acks_releaseUpstream : keeps acks releaseUpstream.
Proof. unfold releaseUpstream. keeps_solve. Qed.

Lemma acks_lease_for sql : keeps acks (lease_for sql).
Proof. unfold lease_for, setUpstreamLease, attach. keeps_solve. Qed.

Lemma acks_sendCompatError code msg st : keeps acks (sendCompatError code msg st).
Proof. unfold sendCompatError, down_send, down_flush. keeps_solve. Qed.
#[local] Hint Resolve acks_acquireUpstream acks_releaseUpstream acks_lease_for acks_sendCompatError : go.

Lemma acks_handleCompatSQL msg sql : keeps acks (handleCompatSQL msg sql).
Proof.
  unfold handleCompatSQL, compat_failed, compat_statement, classify_statement, reject_reclassified,
    inherit_state, open_transaction, down_send, down_flush, call_. keeps_solve.
Qed.

Lemma acks_handleRFQ st : keeps acks (handleCompatReadyForQuery st).
Proof. unfold handleCompatReadyForQuery. keeps_solve. Qed.

Lemma acks_forward msg : keeps acks (forward msg).
Proof. unfold forward, replay_begin, process, switchToSessionMode. keeps_solve. Qed.
#[local] Hint Resolve acks_handleCompatSQL acks_handleRFQ acks_forward : go.

(** *** Handlers that acknowledge exactly once when they return *)

Definition acked (e : Effect) (m : M S unit) : Prop := forall w,
  match m w with
  | (Val _, w') => acks w' = acks w ++ [e]
  | (_, w') => acks w' = acks w
  end.

Lemma acked_bind {A} e (m : M S A) (k : A -> M S unit) :
  keeps acks m -> (forall a, acked e (k a)) -> acked e (M_bind m k).
Proof.
  intros Hm Hk w. unfold M_bind. specialize (Hm w). destruct (m w) as [[a| |] w']; cbn in *; [|done..].
  specialize (Hk a w'). by rewrite Hm in Hk.
Qed.

Lemma acked_ack e : is_ack e = true -> acked e (ack e).
Proof.
  intros He w. unfold ack, M_bind, fault, exit_, emit. cbn.
  destruct (default false (head (w_faults w))); [done|]. unfold acks. cbn.
  by apply filter_snoc_true.
Qed.

Lemma acked_exit e : acked e exit_.
Proof. done. Qed.

Ltac acked_step :=
  lazymatch goal with
  | |- acked _ (M_bind _ _) => apply acked_bind; [keeps_solve|intros ?]
  | |- acked _ (if ?b then _ else _) => destruct b
  | |- acked _ (match ?x with _ => _ end) => destruct x
  | |- acked _ (ack _) => by apply acked_ack
  | |- acked _ exit_ => apply acked_exit
  end.
Ltac acked_solve := repeat acked_step.

Lemma acked_downstream msg : acked AckDownstream (handle_downstream msg).
Proof.
  unfold handle_downstream, touch, acquire_failed, buffer_begin, reject_read_port, CloseWithError,
    down_send, down_flush, call_. acked_solve.
Qed.

Lemma acked_swallow msg : acked AckUpstream (swallow_begin msg).
Proof. unfold swallow_begin, down_send, down_flush. acked_solve. Qed.

Definition acked_or_released (m : M S unit) : Prop := forall w,
  match m w with
  | (Val _, w') => acks w' = acks w ++ [AckUpstream] \/ (acks w' = acks w /\ upstream (w_sess w') = None)
  | (_, w') => acks w' = acks w
  end.

Lemma acked_is_or m : acked AckUpstream m -> acked_or_released m.
Proof. intros H w. specialize (H w). destruct (m w) as [[[]| |] w']; [by left|done..]. Qed.

Lemma acked_or_bind {A} (m : M S A) (k : A -> M S unit) :
  keeps acks m -> (forall a, acked_or_released (k a)) -> acked_or_released (M_bind m k).
Proof.
  intros Hm Hk w. unfold M_bind. specialize (Hm w). destruct (m w) as [[a| |] w']; cbn in *; [|done..].
  specialize (Hk a w'). by rewrite Hm in Hk.
Qed.

Lemma acked_or_release : acked_or_released releaseUpstream.
Proof.
  intros w. unfold releaseUpstream, M_bind, get. cbn. destruct (upstream (w_sess w)) eqn:E; [|by right].
  cbn. destruct (default false (head (w_faults w))); right; unfold acks; cbn;
    by rewrite filter_snoc_false.
Qed.

Lemma acked_upstream msg : acked_or_released (handle_upstream msg).
Proof.
  unfold handle_upstream, touch, down_send, down_flush.
  repeat lazymatch goal with
  | |- acked_or_released (M_bind _ _) => apply acked_or_bind; [keeps_solve|intros ?]
  | |- acked_or_released (if ?b then _ else _) => destruct b
  | |- acked_or_released (match ?x with _ => _ end) => destruct x
  | |- acked_or_released releaseUpstream => apply acked_or_release
  | |- acked_or_released (ack _) => by apply acked_is_or, acked_ack
  | |- acked_or_released (swallow_begin _) => apply acked_is_or, acked_swallow
  | |- acked_or_released exit_ => done
  end.
Qed.

(** *** Leases are returned exactly once *)

Definition attached_conns (tr : list Effect) : list Conn :=
  omap (fun e => match e with Attached c => Some c | _ => None end) tr.
Definition returned_conns (tr : list Effect) : list Conn :=
  omap (fun e => match e with Released c | Killed c => Some c | _ => None end) tr.

(** Every lease ever attached has been returned to its pool or killed, but for
    the one the session holds. *)
Definition conserved (w : World S) : Prop :=
  attached_conns (w_trace w) ≡ₚ returned_conns (w_trace w) ++ option_list (upstream (w_sess w)).

Lemma omap_filter_lease {B} (f : Effect -> option B) (tr : list Effect) :
  (forall e, lease_effect e = false -> f e = None) ->
  omap f tr = omap f (filter (fun e => lease_effect e = true) tr).
Proof.
  intros Hf. induction tr as [|e tr IH]; [done|]. cbn.
  destruct (lease_effect e) eqn:He.
  - rewrite decide_True by done. cbn. by rewrite IH.
  - rewrite decide_False by congruence. by rewrite Hf.
Qed.

Lemma conserved_leases (w w' : World S) : leases w' = leases w -> conserved w -> conserved w'.
Proof.
  unfold leases, conserved, attached_conns, returned_conns. intros [= Htr Hup].
  rewrite !(omap_filter_lease _ (w_trace w')), !(omap_filter_lease _ (w_trace w)), Htr, Hup
    by (by intros []). done.
Qed.

(** [preserves P m]: the handler keeps the invariant when started where [P]
    holds, however it ends. *)
Definition preserves {A} (P : Session -> Prop) (m : M S A) : Prop :=
  forall w, P (w_sess w) -> conserved w -> conserved (m w).2.

Definition no_upstream (s : Session) : Prop := upstream s = None.
Definition any (s : Session) : Prop := True.

Lemma preserves_keeps {A} P (m : M S A) : keeps leases m -> preserves P m.
Proof. intros Hk w _. by apply conserved_leases. Qed.

Lemma preserves_bind {A B} P (m : M S A) (k : A -> M S B) :
  preserves P m -> (forall a, preserves any (k a)) -> preserves P (M_bind m k).
Proof.
  intros Hm Hk w HP Hc. unfold M_bind. specialize (Hm w HP Hc).
  destruct (m w) as [[a| |] w']; cbn in *; [|done..]. by apply Hk.
Qed.

(** A handler that leaves the leases alone keeps the precondition too. *)
Lemma preserves_frame {A B} (m : M S A) (k : A -> M S B) :
  keeps leases m -> (forall a, preserves no_upstream (k a)) -> preserves no_upstream (M_bind m k).
Proof.
  intros Hm Hk w HP Hc. unfold M_bind. specialize (Hm w) as Hw.
  pose proof (conserved_leases _ _ Hw Hc) as Hc'. injection Hw as _ Hup.
  destruct (m w) as [[a| |] w']; cbn in *; [|done..]. apply Hk; [|done].
  unfold no_upstream in *. congruence.
Qed.

Lemma preserves_get {A} P (k : Session -> M S A) :
  (forall s, P s -> preserves (fun s' => s' = s) (k s)) -> preserves P (M_bind get k).
Proof. intros Hk w HP Hc. unfold M_bind, get. cbn. by apply Hk. Qed.

Lemma preserves_weaken {A} (P Q : Session -> Prop) (m : M S A) :
  (forall s, P s -> Q s) -> preserves Q m -> preserves P m.
Proof. intros H Hm w HP. apply Hm. auto. Qed.

Lemma preserves_attach c : preserves no_upstream (attach c).
Proof.
  intros w Hup Hc. unfold attach, conserved, attached_conns, returned_conns, no_upstream in *. cbn.
  rewrite !omap_app. cbn. rewrite Hup in Hc. cbn in Hc. rewrite !app_nil_r in *. by rewrite Hc.
Qed.

Lemma preserves_release : preserves any releaseUpstream.
Proof.
  intros w _ Hc. unfold releaseUpstream, M_bind, get. cbn.
  destruct (upstream (w_sess w)) as [c|] eqn:Hup; [|done]. cbn.
  unfold conserved, attached_conns, returned_conns in *. rewrite Hup in Hc.
  destruct (default false (head (w_faults w))); cbn; rewrite !omap_app; cbn; rewrite !app_nil_r; done.
Qed.

Lemma preserves_lease_for sql : preserves no_upstream (lease_for sql).
Proof.
  unfold lease_for. apply preserves_frame; [keeps_solve|intros t].
  apply preserves_frame; [keeps_solve|intros s].
  apply preserves_frame; [keeps_solve|intros [e|l]].
  - by apply preserves_keeps, keeps_ret.
  - apply preserves_bind; [apply preserves_attach|intros _]. apply preserves_keeps. keeps_solve.
Qed.

Lemma preserves_acquire : preserves any acquireUpstream.
Proof.
  unfold acquireUpstream. apply preserves_get. intros s _. destruct (upstream s) as [c|] eqn:Hup.
  - by apply preserves_keeps, keeps_ret.
  - apply (preserves_weaken _ no_upstream); [by intros s' ->|].
    apply preserves_frame; [keeps_solve|intros [e|c]].
    + by apply preserves_keeps, keeps_ret.
    + apply preserves_bind; [apply preserves_attach|intros _]. by apply preserves_keeps, keeps_ret.
Qed.

Lemma leases_sendCompatError code msg st : keeps leases (sendCompatError code msg st).
Proof. unfold sendCompatError, down_send, down_flush. keeps_solve. Qed.

Lemma leases_classify stmt : keeps leases (classify_statement stmt).
Proof. unfold classify_statement. keeps_solve. Qed.

Lemma leases_forward msg : keeps leases (forward msg).
Proof. unfold forward, replay_begin, process, switchToSessionMode. keeps_solve. Qed.

Lemma leases_handleRFQ st : keeps leases (handleCompatReadyForQuery st).
Proof. unfold handleCompatReadyForQuery. keeps_solve. Qed.

Lemma leases_ack e : lease_effect e = false -> keeps leases (ack e).
Proof. intros He. unfold ack. keeps_solve. Qed.

Lemma leases_compat_failed msg : keeps leases (compat_failed msg).
Proof.
  unfold compat_failed, down_send, down_flush.
  pose proof leases_sendCompatError. keeps_solve; auto.
Qed.

Lemma leases_reject msg sql : keeps leases (reject_reclassified msg sql).
Proof.
  unfold reject_reclassified, down_send, down_flush, call_.
  pose proof leases_sendCompatError. keeps_solve; auto.
Qed.
#[local] Hint Resolve leases_sendCompatError leases_classify leases_forward leases_handleRFQ
  leases_compat_failed leases_reject : go.

Lemma preserves_open sql cls : preserves no_upstream (open_transaction sql cls).
Proof.
  unfold open_transaction. apply preserves_bind; [apply preserves_lease_for|intros [e|]].
  - by apply preserves_keeps, keeps_ret.
  - apply preserves_keeps. keeps_solve.
Qed.

Lemma preserves_statement msg stmt sql : preserves any (compat_statement msg stmt sql).
Proof.
  unfold compat_statement. apply preserves_bind; [apply preserves_keeps; auto with go|intros cls].
  apply preserves_get. intros s _. destruct (reclassified s sql cls); [apply preserves_keeps; auto with go|].
  case_bool_decide as Hup.
  - apply preserves_keeps. unfold inherit_state. keeps_solve.
  - apply (preserves_weaken _ no_upstream); [|apply preserves_open].
    intros s' ->. unfold no_upstream. by destruct (upstream s); [destruct Hup|].
Qed.

Lemma preserves_handleCompatSQL msg sql : preserves any (handleCompatSQL msg sql).
Proof.
  unfold handleCompatSQL. apply preserves_get. intros s _.
  case_bool_decide; [apply preserves_keeps; auto with go|].
  assert (Hother : preserves (fun s' => s' = s)
    (match upstream s with
     | Some _ => M_ret (false, None)
     | None => let! err := lease_for "" in M_ret (false, err)
     end)).
  { destruct (upstream s) eqn:Hup; [by apply preserves_keeps, keeps_ret|].
    apply (preserves_weaken _ no_upstream); [by intros s' ->|].
    apply preserves_bind; [apply preserves_lease_for|intros e]. by apply preserves_keeps, keeps_ret. }
  destruct msg; try exact Hother; apply (preserves_weaken _ any); try done; apply preserves_statement.
Qed.

Lemma preserves_downstream msg : preserves any (handle_downstream msg).
Proof.
  unfold handle_downstream. apply preserves_bind; [apply preserves_keeps; unfold touch; keeps_solve|intros _].
  assert (Hrest : preserves any (let sql := sql_of msg in
    let! prt := port in
    let! s := get in
    if String.eqb prt "read" && bool_decide (read_port_class sql = TypeWrite)
    then reject_read_port sql
    else if is_query msg && String.eqb prt "compat" && isTransactionStart sql
            && bool_decide (pendingBegin s = None)
    then buffer_begin msg
    else
      let! r := (if String.eqb prt "compat" then handleCompatSQL msg sql
                 else let! e := acquireUpstream in M_ret (false, e)) in
      match r with
      | (_, Some err) => acquire_failed err
      | (handled, None) =>
        (if handled : bool then M_ret tt else forward msg) ;! ack AckDownstream
      end)).
  { cbn zeta. apply preserves_bind; [by apply preserves_keeps, keeps_port|intros prt].
    apply preserves_bind; [by apply preserves_keeps, keeps_get|intros s].
    destruct (String.eqb prt "read" && _).
    { apply preserves_keeps. unfold reject_read_port, down_send, down_flush, call_, ack. keeps_solve. }
    destruct (is_query msg && _ && _ && _).
    { apply preserves_keeps. unfold buffer_begin, down_send, down_flush, ack. keeps_solve. }
    apply preserves_bind.
    - destruct (String.eqb prt "compat"); [apply preserves_handleCompatSQL|].
      apply preserves_bind; [apply preserves_acquire|intros e]. by apply preserves_keeps, keeps_ret.
    - intros [handled [e|]]; apply preserves_keeps.
      + unfold acquire_failed, CloseWithError, down_send, down_flush, ack. keeps_solve.
      + unfold ack. keeps_solve. }
  destruct msg; try exact Hrest. by apply preserves_keeps, keeps_exit.
Qed.

Lemma preserves_upstream msg : preserves any (handle_upstream msg).
Proof.
  unfold handle_upstream, touch, swallow_begin, down_send, down_flush, ack.
  repeat lazymatch goal with
  | |- preserves _ (M_bind _ _) => apply preserves_bind; [|intros ?]
  | |- preserves _ (if ?b then _ else _) => destruct b
  | |- preserves _ (match ?x with _ => _ end) => destruct x
  | |- preserves _ releaseUpstream => apply preserves_release
  | |- preserves _ _ => apply preserves_keeps; keeps_step
  end.
Qed.

Lemma preserves_event e : preserves any (handle_event e).
Proof.
  destruct e as [m|[m|]| | |]; cbn.
  - apply preserves_upstream.
  - apply preserves_downstream.
  - by apply preserves_keeps, keeps_exit.
  - by apply preserves_keeps, keeps_exit.
  - apply preserves_release.
  - by apply preserves_keeps, keeps_exit.
Qed.

Lemma preserves_loop es : preserves any (loop es).
Proof.
  induction es as [|[e other] es IH]; cbn; [by apply preserves_keeps, keeps_ret|].
  apply preserves_bind; [by intros w _|intros _].
  apply preserves_bind; [apply preserves_event|intros _]. exact IH.
Qed.

Lemma preserves_start startup authErr mode ports : preserves any (start startup authErr mode ports).
Proof.
  unfold start, CloseWithError, down_send, down_flush.
  repeat lazymatch goal with
  | |- preserves _ (M_bind _ _) => apply preserves_bind; [|intros ?]
  | |- preserves _ (if ?b then _ else _) => destruct b
  | |- preserves _ (match ?x with _ => _ end) => destruct x
  | |- preserves _ acquireUpstream => apply preserves_acquire
  | |- preserves _ (modify (configure _ _ _)) =>
      apply preserves_keeps, keeps_leases_modify; intros ?; unfold configure; by repeat case_match
  | |- preserves _ _ => apply preserves_keeps; keeps_step
  end.
Qed.

(** *** No nil upstream is dereferenced

    [holds k m q]: started where [k] holds of the session and the server, the
    handler does not panic, and [q] holds when it returns. *)

Definition holds {A} (k : Session -> S -> Prop) (m : M S A) (q : A -> Session -> S -> Prop) : Prop :=
  forall w, k (w_sess w) (w_srv w) ->
    match m w with
    | (Val a, w') => q a (w_sess w') (w_srv w')
    | (Exit, _) => True
    | (Panic, _) => False
    end.

Lemma holds_bind {A B} k (m : M S A) q (n : A -> M S B) r :
  holds k m q -> (forall a, holds (q a) (n a) r) -> holds k (M_bind m n) r.
Proof.
  intros Hm Hn w Hk. unfold M_bind. specialize (Hm w Hk).
  destruct (m w) as [[a| |] w']; [by apply Hn|done..].
Qed.

Lemma holds_ret {A} (k : Session -> S -> Prop) (a : A) : holds k (M_ret a) (fun a' s v => a' = a /\ k s v).
Proof. by intros w Hk. Qed.

Lemma holds_exit {A} k (q : A -> Session -> S -> Prop) : holds k exit_ q.
Proof. by intros w Hk. Qed.

Lemma holds_get k : holds k get (fun s s' v => s' = s /\ k s v).
Proof. by intros w Hk. Qed.

Lemma holds_port (k : Session -> S -> Prop) : holds k port (fun p s v => srv_Port v = p /\ k s v).
Proof. by intros w Hk. Qed.

Lemma holds_emit k e : holds k (emit e) (fun _ => k).
Proof. by intros w Hk. Qed.

Lemma holds_now k : holds k now (fun _ => k).
Proof. by intros w Hk. Qed.

Lemma holds_fault k : holds k fault (fun _ => k).
Proof. by intros w Hk. Qed.

Lemma holds_attempt k op : holds k (attempt op) (fun _ => k).
Proof. by intros w Hk. Qed.

Lemma holds_modify (k q : Session -> S -> Prop) f :
  (forall s v, k s v -> q (f s) v) -> holds k (modify f) (fun _ => q).
Proof. intros H w Hk. cbn. by apply H. Qed.

Lemma holds_conseq {A} (k k' : Session -> S -> Prop) (m : M S A) q q' :
  (forall s v, k s v -> k' s v) -> (forall a s v, q a s v -> q' a s v) ->
  holds k' m q -> holds k m q'.
Proof.
  intros Hk Hq Hm w Hw. specialize (Hm w (Hk _ _ Hw)).
  destruct (m w) as [[a| |] w']; auto.
Qed.

Lemma holds_pre {A} (k k' : Session -> S -> Prop) (m : M S A) q :
  (forall s v, k s v -> k' s v) -> holds k' m q -> holds k m q.
Proof. intros Hk Hm w Hw. apply Hm. auto. Qed.

Lemma holds_ack k e : holds k (ack e) (fun _ => k).
Proof.
  unfold ack. eapply holds_bind; [apply holds_fault|]. intros [|]; [apply holds_exit|apply holds_emit].
Qed.
End handlers.
#[export] Hint Resolve holds_port holds_emit holds_now holds_fault holds_attempt holds_ack holds_exit : go.

(** The laws of a server: on its invariant no call panics, a call keeps the
    invariant and the port, and a lease on the compat port is on a replica only
    for a read outside the post-write window. *)
Class ProxyLaws (S : Type) `{ProxyServer S} := {
  srv_inv : S -> Prop;
  law_acquire v : srv_inv v ->
    exists r v', srv_AcquireUpstream v = Some (r, v') /\ srv_inv v' /\ srv_Port v' = srv_Port v;
  law_lease sql act rem v : srv_inv v ->
    exists r v', srv_AcquireUpstreamLease sql act rem v = Some (r, v') /\ srv_inv v' /\
      srv_Port v' = srv_Port v;
  law_read_port sql mode v : srv_inv v ->
    exists v', srv_RejectReadPortWrite sql mode v = Some v' /\ srv_inv v' /\ srv_Port v' = srv_Port v;
  law_reclassification sql mode v : srv_inv v ->
    exists v', srv_RejectCompatReclassification sql mode v = Some v' /\ srv_inv v' /\
      srv_Port v' = srv_Port v;
  law_replica sql act rem v lease v' : srv_inv v -> srv_Port v = "compat" ->
    srv_AcquireUpstreamLease sql act rem v = Some (inr lease, v') -> lease_Role lease = "replica" ->
    act = false /\
    cls_Type (Classify (MkStatement "" sql) (MkSessionState "compat" TxIdle None)).1 <> TypeWrite
}.

Section safety.
Context {S : Type} {Srv : ProxyServer S} {Laws : ProxyLaws S}.

(** On the compat port, a session in a failed transaction still holds its upstream. *)
Definition inv (s : Session) (v : S) : Prop :=
  srv_inv v /\
  (srv_Port v = "compat" -> compatTxState s = TxInFailedTransaction -> is_Some (upstream s)).
Definition leased (s : Session) (v : S) : Prop := inv s v /\ is_Some (upstream s).

Lemma holds_call {A} (k : Session -> S -> Prop) (f : S -> option (A * S)) (q : A -> Session -> S -> Prop) :
  (forall s v, k s v -> exists a v', f v = Some (a, v') /\ q a s v') -> holds k (call f) q.
Proof.
  intros H w Hk. unfold call. destruct (H _ _ Hk) as (a & v' & -> & Hq). exact Hq.
Qed.

Lemma holds_leased {A} (m : M S A) : holds leased m (fun _ => leased) -> holds leased m (fun _ => inv).
Proof. apply holds_conseq; [done|]. by intros a s v [H _]. Qed.

Lemma inv_attach s v c : inv s v -> leased (s <| upstream := Some c |>) v.
Proof. intros [H1 H2]. split; [split|]; cbn; eauto. Qed.

Lemma holds_attach c : holds inv (attach c) (fun _ => leased).
Proof.
  unfold attach. eapply holds_bind; [apply (holds_modify inv leased)|intros []; auto with go].
  intros s v. apply inv_attach.
Qed.

Definition lease_result (r : option error) (s : Session) (v : S) : Prop :=
  match r with Some _ => inv s v | None => leased s v end.

Lemma holds_acquireUpstream : holds inv acquireUpstream lease_result.
Proof.
  unfold acquireUpstream. eapply holds_bind; [apply holds_get|]. intros s.
  destruct (upstream s) as [c|] eqn:Hup.
  - intros w [Hs Hi]. cbn. rewrite Hs. split; [done|]. by rewrite Hup.
  - eapply holds_bind; [apply (holds_call _ _ (fun _ => inv))|].
    + intros s' v [-> [Hv Hf]]. destruct (law_acquire v Hv) as (r & v' & -> & Hv' & Hp).
      exists r, v'. split; [done|]. split; [done|]. by rewrite Hp.
    + intros [e|c]; [by intros w Hw|]. eapply holds_bind; [apply holds_attach|]. by intros [] w Hw.
Qed.

(** Outside a failed transaction. *)
Definition fine (s : Session) (v : S) : Prop := inv s v /\ compatTxState s <> TxInFailedTransaction.

Lemma holds_lease_for sql :
  holds fine (lease_for sql)
    (fun r s v => match r with Some _ => inv s v | None => leased s v /\ fine s v end).
Proof.
  unfold lease_for. eapply holds_bind; [apply holds_now|intros t].
  eapply holds_bind; [apply holds_get|intros s].
  eapply holds_bind; [apply (holds_call _ _ (fun _ => fine))|].
  - intros s' v [-> [[Hv Hf] Hn]].
    destruct (law_lease sql (Active (postWriteWindow s) t) (RemainingMs (postWriteWindow s) t) v Hv)
      as (r & v' & -> & Hv' & Hp).
    exists r, v'. split; [done|]. split; [|done]. split; [done|]. by rewrite Hp.
  - intros [e|l]; [by intros w [Hw _]|].
    intros w [[Hv Hf] Hn]. cbn. split; split; cbn; eauto; split; cbn; eauto.
Qed.

Lemma holds_open sql cls :
  holds fine (open_transaction sql cls)
    (fun r s v => match r with (_, Some _) => inv s v | (_, None) => leased s v end).
Proof.
  unfold open_transaction. eapply holds_bind; [apply holds_lease_for|].
  intros [e|]; [by intros w Hw|]. intros w [[[Hv _] Hup] [_ Hn]]. cbn.
  split; [split; [done|]|]; by destruct (isRollback sql).
Qed.

Definition compat_result (r : bool * option error) (s : Session) (v : S) : Prop :=
  match r with (_, Some _) => inv s v | (true, None) => inv s v | (false, None) => leased s v end.

Lemma compat_result_open r s v :
  match r with (_, Some _) => inv s v | (_, None) => leased s v end -> compat_result r s v.
Proof. destruct r as [[] []]; try done. by intros [H _]. Qed.

Lemma holds_sendCompatError k code msg st :
  holds k (sendCompatError (S := S) code msg st) (fun _ => k).
Proof. unfold sendCompatError. do 2 (eapply holds_bind; [apply holds_attempt|intros ?]). apply holds_attempt. Qed.

Lemma compat_result_any (b : bool) s v : leased s v -> compat_result (b, None) s v.
Proof. intros H. destruct b; [apply H|exact H]. Qed.

Lemma holds_compat_failed msg :
  msg <> Terminate -> holds leased (compat_failed msg) compat_result.
Proof.
  intros Hmsg. unfold compat_failed. destruct msg; try done;
    try (by intros w Hw; apply (compat_result_any true)).
  - destruct (isRollback _).
    + intros w Hw. exact Hw.
    + eapply holds_bind; [apply holds_sendCompatError|]. intros failed w Hw.
      by apply compat_result_any.
  - eapply holds_bind; [apply holds_attempt|intros ?].
    eapply holds_bind; [apply holds_attempt|intros failed w Hw]. by apply compat_result_any.
Qed.

Lemma holds_reject msg sql : holds leased (reject_reclassified msg sql) compat_result.
Proof.
  unfold reject_reclassified. eapply holds_bind; [apply holds_get|intros s].
  eapply holds_bind; [apply (holds_call _ _ (fun _ => leased))|].
  { intros s' v [-> [[Hv Hf] Hup]].
    destruct (law_reclassification sql (PoolMode_string (poolMode s)) v Hv) as (v' & -> & Hv' & Hp).
    exists tt, v'. split; [done|]. split; [|done]. split; [done|]. by rewrite Hp. }
  intros ?. eapply holds_bind; [apply (holds_modify leased leased)|].
  { intros s' v [[Hv Hf] Hup]. by split; [split|]. }
  intros ?. destruct (is_parse msg).
  - eapply holds_bind; [apply holds_attempt|intros ?].
    eapply holds_bind; [apply holds_attempt|intros failed w Hw]. by apply compat_result_any.
  - eapply holds_bind; [apply holds_sendCompatError|intros failed w Hw]. by apply compat_result_any.
Qed.

Lemma holds_inherit sql cls : holds (fun s v => leased s v /\ fine s v) (inherit_state sql cls) compat_result.
Proof.
  intros w [[[Hv Hf] Hup] [_ Hn]]. cbn. split; [split; [done|]|]; repeat case_match; cbn; eauto.
Qed.

Lemma holds_statement msg stmt sql : holds fine (compat_statement msg stmt sql) compat_result.
Proof.
  unfold compat_statement. eapply holds_bind with (q := fun _ => fine).
  { unfold classify_statement. eapply holds_bind; [apply holds_get|intros s].
    destruct (Classify _ _) as [cls cs]. intros w [Hs Hw]. cbn. rewrite Hs. exact Hw. }
  intros cls. eapply holds_bind; [apply holds_get|intros s].
  destruct (reclassified s sql cls) eqn:Hr.
  - eapply holds_conseq; [|done|apply holds_reject]. intros s' v [-> [Hi Hn]]. split; [done|].
    unfold reclassified in Hr. by destruct (bool_decide_reflect (is_Some (upstream s))).
  - case_bool_decide as Hup.
    + eapply holds_conseq; [|done|apply holds_inherit]. intros s' v [-> Hfine]. split; [|done].
      split; [apply Hfine|done].
    + eapply holds_conseq; [|apply compat_result_open|apply holds_open]. by intros s' v [-> Hfine].
Qed.

Lemma holds_handleCompatSQL msg sql :
  msg <> Terminate ->
  holds (fun s v => srv_Port v = "compat" /\ inv s v) (handleCompatSQL msg sql) compat_result.
Proof.
  intros Hmsg. unfold handleCompatSQL. eapply holds_bind; [apply holds_get|intros s].
  case_bool_decide as Hf.
  { eapply holds_conseq; [|done|by apply holds_compat_failed].
    intros s' v [-> [Hp Hi]]. split; [done|]. by apply Hi. }
  assert (Hother : holds (fun s' v => s' = s /\ srv_Port v = "compat" /\ inv s v)
    (match upstream s with
     | Some _ => M_ret (false, None)
     | None => let! err := lease_for "" in M_ret (false, err)
     end) compat_result).
  { destruct (upstream s) eqn:Hup.
    - intros w [Hs [_ Hi]]. cbn. rewrite Hs. split; [done|]. by rewrite Hup.
    - eapply holds_bind.
      + eapply holds_pre; [|apply holds_lease_for]. intros s' v [-> [_ Hi]]. by split.
      + intros [e|] w Hw; cbn; [done|apply Hw]. }
  destruct msg; try done; try exact Hother;
    (eapply holds_pre; [|apply holds_statement]); intros s' v [-> [_ Hi]]; by split.
Qed.

Lemma holds_process msg : holds leased (process msg) (fun _ => leased).
Proof.
  unfold process. eapply holds_bind; [apply holds_get|intros s].
  destruct (upstream s) as [c|] eqn:Hup.
  - eapply holds_pre; [|apply holds_attempt]. by intros s' v [-> Hl].
  - intros w [Hs [_ Hsome]]. rewrite Hup in Hsome. by destruct Hsome.
Qed.

Lemma holds_replay : holds leased replay_begin (fun _ => leased).
Proof.
  unfold replay_begin. eapply holds_bind; [apply holds_get|intros s].
  destruct (pendingBegin s) as [b|].
  - eapply holds_bind.
    + eapply holds_pre; [|apply holds_process]. by intros s' v [-> Hl].
    + intros [|]; [apply holds_exit|]. apply (holds_modify leased leased). by intros s' v Hl.
  - intros w [Hs Hl]. cbn. by rewrite Hs.
Qed.

Lemma holds_forward msg : holds leased (forward msg) (fun _ => leased).
Proof.
  unfold forward. eapply holds_bind; [apply holds_replay|intros ?].
  eapply holds_bind; [apply holds_process|intros [|]]; [apply holds_exit|].
  eapply holds_bind with (q := fun _ => leased).
  { destruct (Process_pins msg); [|by intros w Hw].
    apply (holds_modify leased leased). intros s v Hl. by case_bool_decide. }
  intros ?. destruct (flushes_upstream msg); [|by intros w Hw].
  eapply holds_bind; [apply holds_get|intros s].
  destruct (upstream s) as [c|] eqn:Hup.
  - eapply holds_bind; [apply holds_attempt|intros [|]]; [apply holds_exit|].
    intros w [Hs Hl]. cbn. by rewrite Hs.
  - intros w [Hs [_ Hsome]]. rewrite Hup in Hsome. by destruct Hsome.
Qed.

Lemma holds_touch k :
  (forall s v t, k s v -> k (s <| lastActive := t |>) v) -> holds (S := S) k touch (fun _ => k).
Proof.
  intros H. unfold touch. eapply holds_bind; [apply holds_now|intros t].
  apply (holds_modify k k). auto.
Qed.

Lemma holds_reject_read_port sql : holds inv (reject_read_port sql) (fun _ => inv).
Proof.
  unfold reject_read_port. do 2 (eapply holds_bind; [apply holds_attempt|intros ?]).
  eapply holds_bind; [apply holds_attempt|intros [|]]; [apply holds_exit|].
  eapply holds_bind; [apply holds_get|intros s].
  eapply holds_bind; [apply (holds_call _ _ (fun _ => inv))|intros ?; apply holds_ack].
  intros s' v [-> [Hv Hf]].
  destruct (law_read_port sql (PoolMode_string (poolMode s)) v Hv) as (v' & -> & Hv' & Hp).
  exists tt, v'. split; [done|]. split; [done|]. by rewrite Hp.
Qed.

Lemma holds_buffer_begin msg : holds inv (buffer_begin msg) (fun _ => inv).
Proof.
  unfold buffer_begin. eapply holds_bind; [by apply (holds_modify inv inv)|intros ?].
  do 3 (eapply holds_bind; [apply holds_attempt|intros [|]]; [apply holds_exit|]).
  apply holds_ack.
Qed.

Lemma holds_acquire_failed err : holds inv (acquire_failed err) (fun _ => inv).
Proof.
  unfold acquire_failed. eapply holds_bind; [apply holds_get|intros s].
  destruct (pendingBegin s).
  - eapply holds_bind with (q := fun _ => inv).
    { apply holds_modify. by intros s' v [-> Hi]. }
    intros ?. do 2 (eapply holds_bind; [apply holds_attempt|intros ?]).
    eapply holds_bind; [apply holds_attempt|intros [|]]; [apply holds_exit|apply holds_ack].
  - unfold CloseWithError. eapply holds_bind; [|intros ?; apply holds_exit].
    do 2 (eapply holds_bind; [apply holds_attempt|intros ?]). apply holds_emit.
Qed.

Lemma holds_downstream msg : holds inv (handle_downstream msg) (fun _ => inv).
Proof.
  unfold handle_downstream. eapply holds_bind; [by apply (holds_touch inv)|intros ?].
  destruct (decide (msg = Terminate)) as [->|Hmsg]; [apply holds_exit|].
  assert (Hrest : holds inv (let sql := sql_of msg in
    let! prt := port in
    let! s := get in
    if String.eqb prt "read" && bool_decide (read_port_class sql = TypeWrite)
    then reject_read_port sql
    else if is_query msg && String.eqb prt "compat" && isTransactionStart sql
            && bool_decide (pendingBegin s = None)
    then buffer_begin msg
    else
      let! r := (if String.eqb prt "compat" then handleCompatSQL msg sql
                 else let! e := acquireUpstream in M_ret (false, e)) in
      match r with
      | (_, Some err) => acquire_failed err
      | (handled, None) =>
        (if handled : bool then M_ret tt else forward msg) ;! ack AckDownstream
      end) (fun _ => inv)); [|by destruct msg].
  cbn zeta. eapply holds_bind; [apply holds_port|intros prt].
  eapply holds_bind with (q := fun _ s v => srv_Port v = prt /\ inv s v); [by intros w Hw|intros s].
  destruct (_ && _); [eapply holds_pre; [|apply holds_reject_read_port]; by intros s' v [_ Hi]|].
  destruct (_ && _ && _ && _); [eapply holds_pre; [|apply holds_buffer_begin]; by intros s' v [_ Hi]|].
  eapply holds_bind with (q := compat_result).
  - destruct (String.eqb_spec prt "compat") as [->|_]; [by apply holds_handleCompatSQL|].
    eapply holds_bind; [eapply holds_pre; [|apply holds_acquireUpstream]; by intros s' v [_ Hi]|].
    by intros [e|] w Hw.
  - intros [handled [e|]]; [by destruct handled; apply holds_acquire_failed|].
    eapply holds_bind with (q := fun _ => inv); [|intros ?; apply holds_ack].
    destruct handled; [by intros w Hw|]. apply holds_leased, holds_forward.
Qed.

(** The transaction is over, as far as the compat port is concerned. *)
Definition over (s : Session) (v : S) : Prop :=
  leased s v /\ (srv_Port v = "compat" -> compatTxState s <> TxInFailedTransaction).

Lemma holds_handleRFQ st :
  holds leased (handleCompatReadyForQuery st)
    (fun _ => if Ascii.eqb st "I"%char then over else leased).
Proof.
  unfold handleCompatReadyForQuery. destruct (Ascii.eqb st "I"%char).
  - eapply holds_bind; [apply holds_get|intros s].
    eapply holds_bind with (q := fun _ => leased).
    { destruct (_ && _ && _).
      - eapply holds_bind; [apply holds_now|intros t]. apply holds_modify. by intros s' v [-> Hl].
      - intros w [Hs Hl]. cbn. by rewrite Hs. }
    intros ?. apply holds_modify. intros s' v [[Hv _] Hup]. by split; [split; [split|]|].
  - destruct (Ascii.eqb st "E"%char); [|by intros w Hw].
    apply holds_modify. intros s' v [[Hv _] Hup]. by split; [split|].
Qed.

Lemma holds_release : holds over releaseUpstream (fun _ => inv).
Proof.
  unfold releaseUpstream. intros w [[[Hv Hf] Hup] Hn]. unfold M_bind, get. cbn.
  destruct (upstream (w_sess w)); [|done]. cbn.
  destruct (default false (head (w_faults w))); cbn; split; try done; intros Hp Hx; by apply Hn in Hp.
Qed.

Lemma holds_upstream msg : holds leased (handle_upstream msg) (fun _ => inv).
Proof.
  unfold handle_upstream. eapply holds_bind; [by apply (holds_touch leased)|intros ?].
  eapply holds_bind; [apply holds_get|intros s]. apply (holds_pre _ leased); [by intros s' v [-> Hl]|].
  destruct (swallowingBeginResponse s).
  { unfold swallow_begin. apply holds_leased. eapply holds_bind with (q := fun _ => leased);
      [|intros ?; apply holds_ack].
    destruct msg; try by intros w Hw. eapply holds_bind; [by apply (holds_modify leased leased)|intros ?].
    destruct (Ascii.eqb TxStatus "T"%char); [by intros w Hw|].
    do 2 (eapply holds_bind; [apply holds_attempt|intros ?]).
    eapply holds_bind; [apply holds_attempt|intros [|]]; [apply holds_exit|by intros w Hw]. }
  eapply holds_bind; [apply holds_attempt|intros [|]]; [apply holds_exit|].
  eapply holds_bind with (q := fun _ => leased).
  { destruct (flushes_downstream msg); [|by intros w Hw].
    eapply holds_bind; [apply holds_attempt|intros [|]]; [apply holds_exit|by intros w Hw]. }
  intros ?. eapply holds_bind; [apply holds_port|intros prt].
  assert (Hack : holds (fun s v => srv_Port v = prt /\ leased s v) (ack AckUpstream) (fun _ => inv)).
  { eapply holds_pre; [|apply holds_leased, holds_ack]. by intros s' v [_ Hl]. }
  destruct msg as [st| | | | | | | | | | | ]; try exact Hack.
  eapply holds_bind with (q := fun _ => if bool_decide (poolMode s = PoolModeTransaction)
                                          && Ascii.eqb st "I"%char then over else leased).
  - destruct (String.eqb_spec prt "compat") as [->|Hne]; cbn [andb].
    + case_bool_decide; cbn [andb].
      * eapply holds_pre; [|apply holds_handleRFQ]. by intros s' v [_ Hl].
      * intros w [_ Hw]. exact Hw.
    + intros w [Hp Hw]. cbn. destruct (_ && _); [|done]. split; [done|]. intros Hc. congruence.
  - intros ?. destruct (_ && _); [apply holds_release|]. apply holds_leased, holds_ack.
Qed.
End safety.

(** ** Properties *)

(** C6: A session never leaks or double-returns a connection: however its
    client, its upstreams, the I/O operations and the server behave, every
    connection it ever attached has been returned to its pool (or killed when
    the reset failed) exactly once when [Run] returns, and while it waits for
    its next event the only one outstanding is the upstream it holds. *)
Theorem session_returns_leases {S : Type} {Srv : ProxyServer S} (startup : error + (string * string))
    (authErr : option error) (mode : PoolMode) (ports : gmap string PortConfig)
    (es : list (SessEvent * (S -> S))) (w : World S) :
  w_trace w = [] -> upstream (w_sess w) = None ->
  match Run startup authErr mode ports es w with
  | (Val _, w') =>
    attached_conns (w_trace w') ≡ₚ returned_conns (w_trace w') ++ option_list (upstream (w_sess w'))
  | (_, w') =>
    attached_conns (w_trace w') ≡ₚ returned_conns (w_trace w') /\ upstream (w_sess w') = None
  end.
Proof.
  intros Htr Hup.
  assert (Hc : conserved w) by (unfold conserved; by rewrite Htr, Hup).
  assert (Hbody : conserved ((start startup authErr mode ports ;! loop es) w).2).
  { apply (preserves_bind any); [apply preserves_start|intros _; apply preserves_loop|done..]. }
  unfold Run, deferred. destruct ((start startup authErr mode ports ;! loop es) w) as [r w1].
  cbn in Hbody.
  assert (Hexit : attached_conns (w_trace (run_exit w1).2) ≡ₚ returned_conns (w_trace (run_exit w1).2)
                  /\ upstream (w_sess (run_exit w1).2) = None).
  { unfold run_exit. pose proof (preserves_release w1 I Hbody) as Hrel.
    pose proof (acked_or_release w1) as Hup1. unfold M_bind.
    assert (Hval : exists w2, releaseUpstream w1 = (Val tt, w2) /\ upstream (w_sess w2) = None).
    { unfold releaseUpstream, M_bind, get. cbn. destruct (upstream (w_sess w1)) eqn:E; [|by eexists].
      cbn. destruct (default false (head (w_faults w1))); by eexists. }
    destruct Hval as (w2 & Heq & Hnone). rewrite Heq in Hrel |- *. cbn in Hrel |- *.
    unfold conserved in Hrel. rewrite Hnone, app_nil_r in Hrel. split; [|done].
    unfold attached_conns, returned_conns in *. rewrite !omap_app. cbn. by rewrite !app_nil_r. }
  destruct r as [[]| |]; [exact Hbody|by destruct (run_exit w1)..].
Qed.

(** The hand-over with the read loops is exact: a handled client message is
    acknowledged exactly once and nothing else is; a handled upstream message
    is either acknowledged exactly once or ends with the upstream released,
    which stops its read loop; a handler that ends the session acknowledges
    nothing.  So no read loop reuses a buffer that is still in use, none waits
    forever, and none is acknowledged twice. *)
Theorem ack_protocol {S : Type} {Srv : ProxyServer S} (w : World S) (m : FrontendMessage) (b : BackendMessage) :
  (match handle_downstream m w with
   | (Val _, w') => acks w' = acks w ++ [AckDownstream]
   | (_, w') => acks w' = acks w
   end) /\
  (match handle_upstream b w with
   | (Val _, w') =>
     acks w' = acks w ++ [AckUpstream] \/ (acks w' = acks w /\ upstream (w_sess w') = None)
   | (_, w') => acks w' = acks w
   end).
Proof. split; [exact (acked_downstream m w)|exact (acked_upstream b w)]. Qed.

(** The events a running session can see: an upstream message only while it
    holds an upstream, and no request to release before it is closed; the other
    sessions keep the server's invariant and its port. *)
Fixpoint valid_run {S} {Srv : ProxyServer S} {Laws : ProxyLaws S} (es : list (SessEvent * (S -> S)))
    (w : World S) : Prop :=
  match es with
  | [] => True
  | (e, other) :: es =>
    let w1 := MkWorld (w_sess w) (other (w_srv w)) (w_trace w) (w_faults w) (w_clock w) in
    srv_inv (w_srv w1) /\ srv_Port (w_srv w1) = srv_Port (w_srv w) /\
    match e with
    | FromUpstream _ => is_Some (upstream (w_sess w))
    | ReleaseRequested => False
    | _ => True
    end /\
    match handle_event e w1 with (Val _, w2) => valid_run es w2 | _ => True end
  end.

(** No event of a valid run makes a handler panic. *)
Lemma valid_run_safe {S : Type} {Srv : ProxyServer S} {Laws : ProxyLaws S}
    (es : list (SessEvent * (S -> S))) (w : World S) :
  srv_inv (w_srv w) -> compatTxState (w_sess w) <> TxInFailedTransaction -> valid_run es w ->
  (loop es w).1 <> Panic.
Proof.
  intros Hv Hn. assert (Hinv : inv (w_sess w) (w_srv w)) by (split; [done|by intros _ ?]).
  clear Hv Hn. revert w Hinv. induction es as [|[e other] es IH]; intros w Hinv Hvalid; [done|].
  cbn [loop]. cbn in Hvalid. destruct Hvalid as (Hsrv & Hport & He & Hrest).
  unfold M_bind at 1. set (w1 := MkWorld (w_sess w) _ _ _ _) in *.
  assert (Hinv1 : inv (w_sess w1) (w_srv w1)).
  { destruct Hinv as [_ Hf]. split; [done|]. cbn in *. by rewrite Hport. }
  assert (Hev : holds (fun s v => inv s v /\ (match e with FromUpstream _ => is_Some (upstream s)
                        | ReleaseRequested => False | _ => True end)) (handle_event e) (fun _ => inv)).
  { destruct e as [m|[m|]| | |]; cbn.
    - apply (holds_pre _ leased); [done|apply holds_upstream].
    - apply (holds_pre _ inv); [by intros ? ? []|apply holds_downstream].
    - apply holds_exit.
    - apply holds_exit.
    - by intros ? [_ []].
    - apply holds_exit. }
  specialize (Hev w1 (conj Hinv1 He)). unfold M_bind.
  destruct (handle_event e w1) as [[[]| |] w2]; [|done..]. by apply IH.
Qed.

(** C7: A running session never dereferences a nil upstream: from a fresh
    session, and with a server that keeps its promises, no sequence of client
    messages, upstream messages, I/O failures and loop errors makes a handler
    panic. *)
Theorem session_never_panics {S : Type} {Srv : ProxyServer S} {Laws : ProxyLaws S}
    (es : list (SessEvent * (S -> S))) (w : World S) :
  srv_inv (w_srv w) -> compatTxState (w_sess w) <> TxInFailedTransaction -> valid_run es w ->
  (loop es w).1 <> Panic.
Proof. apply valid_run_safe. Qed.

(** *** A server for the examples: it leases one connection, reads to a replica *)

Record DemoServer := MkDemoServer { ds_port : string; ds_rejections : Z }.

Definition demo_lease (sql : string) (act : bool) : UpstreamLease :=
  if bool_decide (cls_Type (Classify (MkStatement "" sql) (MkSessionState "compat" TxIdle None)).1
                  = TypeRead) && negb act
  then MkUpstreamLease 1%nat "b" "replica" else MkUpstreamLease 0%nat "a" "primary".

#[export] Instance demo_server : ProxyServer DemoServer := {|
  srv_Port := ds_port;
  srv_AcquireUpstream v := Some (inr 0%nat, v);
  srv_AcquireUpstreamLease sql act _ v := Some (inr (demo_lease sql act), v);
  srv_RejectReadPortWrite _ _ v := Some (MkDemoServer (ds_port v) (ds_rejections v + 1));
  srv_RejectCompatReclassification _ _ v := Some (MkDemoServer (ds_port v) (ds_rejections v + 1))
|}.

#[export] Instance demo_laws : ProxyLaws DemoServer.
Proof.
  refine {| srv_inv := fun _ => True |}; [cbn; eauto 6..|].
  intros sql act rem v lease v' _ _ [= <- _]. unfold demo_lease. destruct act.
  - by rewrite andb_false_r.
  - rewrite andb_true_r. case_bool_decide as Hc; [|done]. intros _. split; [done|]. congruence.
Defined.

Definition demo_session (prt : string) (mode : PoolMode) : Session :=
  configure mode ∅ prt (Initialize 5).
Definition demo_world (prt : string) (faults : list bool) (clock : list Time) : World DemoServer :=
  MkWorld (demo_session prt PoolModeTransaction) (MkDemoServer prt 0) [] faults clock.

Definition same_server : DemoServer -> DemoServer := fun v => v.

(** BEGIN, a read, a write that is rejected, the rollback and its answers. *)
Definition demo_events : list (SessEvent * (DemoServer -> DemoServer)) :=
  (fun e => (e, same_server)) <$>
  [FromDownstream (Some (Query "BEGIN")); FromDownstream (Some (Query "select 1"));
   FromUpstream (ReadyForQuery "T"%char); FromUpstream (ReadyForQuery "T"%char);
   FromDownstream (Some (Query "insert into t values (1)"));
   FromDownstream (Some (Query "rollback")); FromUpstream (ReadyForQuery "I"%char)].

Lemma session_returns_leases_witness :
  attached_conns (w_trace (Run (inr ("u", "p")) None PoolModeTransaction ∅ demo_events
                             (demo_world "compat" [] [])).2)
  ≡ₚ returned_conns (w_trace (Run (inr ("u", "p")) None PoolModeTransaction ∅ demo_events
                             (demo_world "compat" [] [])).2) ++ [].
Proof.
  pose proof (session_returns_leases (inr ("u", "p")) None PoolModeTransaction ∅ demo_events
    (demo_world "compat" [] []) eq_refl eq_refl) as Hx.
  destruct (Run _ _ _ _ _ _) as [[[]| |] w'] eqn:E; vm_compute in E;
    [|discriminate E|discriminate E].
  injection E as <-. exact Hx.
Defined.

Lemma session_never_panics_witness : (loop demo_events (demo_world "compat" [] [])).1 <> Panic.
Proof.
  apply (session_never_panics demo_events (demo_world "compat" [] [])); [exact I|discriminate|].
  vm_compute. repeat (split; [done|]). repeat (split; [by eexists|]). eauto 30.
Defined.

(** *** The post-write window *)

(** The post-write window is open exactly from the commit for its duration,
    and what it reports as remaining is consistent with that: between 1 and
    the duration while open, 0 otherwise. *)
Theorem window_spec (w : PostWriteWindow) (t : Time) :
  0 <= DurationMs w <= max_millis -> 0 < OpenedAt w <= t ->
  (Active w t = true <-> t - OpenedAt w < DurationMs w * 1000000) /\
  (Active w t = true -> 1 <= RemainingMs w t <= DurationMs w) /\
  (Active w t = false -> RemainingMs w t = 0).
Proof.
  intros Hd Ho. set (e := Sub t (OpenedAt w)).
  assert (Hlt : (e <? millis (DurationMs w)) = true <-> t - OpenedAt w < DurationMs w * 1000000).
  { rewrite Z.ltb_lt, millis_id by done. apply Sub_lt. unfold max_millis, min_int64, max_int64 in *. lia. }
  assert (Hact : Active w t = true <-> t - OpenedAt w < DurationMs w * 1000000).
  { unfold Active. fold e. rewrite !andb_true_iff, Hlt, negb_true_iff, Z.ltb_lt.
    unfold IsZero. rewrite Z.eqb_neq. split; [tauto|]. intros H. lia. }
  split; [done|]. split; intros Ha; unfold RemainingMs; rewrite Ha; cbn; [|done].
  apply Hact in Ha. assert (He : e = t - OpenedAt w).
  { apply Sub_id. unfold int64_range, min_int64, max_int64, max_millis in *. lia. }
  fold e. rewrite He. unfold Milliseconds.
  assert (Hq : 0 <= (t - OpenedAt w) ÷ 1000000 < DurationMs w).
  { split; [apply Z.quot_pos; lia|]. apply Z.quot_lt_upper_bound; lia. }
  rewrite wrap64_id; [lia|]. unfold int64_range, min_int64, max_int64, max_millis in *. lia.
Qed.

Lemma window_spec_witness :
  Active (MkWindow 1000000000 1000) 1500000000 = true /\
  1 <= RemainingMs (MkWindow 1000000000 1000) 1500000000 <= 1000.
Proof.
  split; [reflexivity|].
  apply (window_spec (MkWindow 1000000000 1000) 1500000000);
    [unfold max_millis; cbn; lia|cbn; lia|reflexivity].
Defined.

(** *** Writes in a transaction that reads from a replica *)

(** The session's view of a statement's class. *)
Definition session_class (s : Session) (msg : FrontendMessage) : Type_ :=
  cls_Type (Classify (MkStatement (match msg with Parse name _ => name | _ => "" end) (sql_of msg))
              (MkSessionState "compat" (compatTxState s) (compatPrepared s))).1.

(** What the client is told. *)
Definition rejection (msg : FrontendMessage) : list Effect :=
  DownSend (ErrorResponse "ERROR" "25006" ("[grunyas] " +:+ reclassification_message)) true ::
  (if is_parse msg then [] else [DownSend (ReadyForQuery "E"%char) true]) ++ [DownFlush true].

(** The world after the time stamp of an event. *)
Definition touched {S} (w : World S) : World S :=
  MkWorld ((w_sess w) <| lastActive := default time_zero (head (w_clock w)) |>) (w_srv w) (w_trace w)
    (w_faults w) (tail (w_clock w)).

(** On the compat port every message but a buffered BEGIN goes through
    [handleCompatSQL]. *)
Lemma downstream_compat_eq {S : Type} {Srv : ProxyServer S} (msg : FrontendMessage) (w : World S) :
  srv_Port (w_srv w) = "compat" -> msg <> Terminate ->
  is_query msg && isTransactionStart (sql_of msg) && bool_decide (pendingBegin (w_sess w) = None) = false ->
  handle_downstream msg w =
  (let! r := handleCompatSQL msg (sql_of msg) in
   match r with
   | (_, Some err) => acquire_failed err
   | (handled, None) => (if handled : bool then M_ret tt else forward msg) ;! ack AckDownstream
   end) (touched w).
Proof.
  intros Hport Hmsg Hb.
  assert (Hx : is_query msg && String.eqb "compat" "compat" && isTransactionStart (sql_of msg)
               && bool_decide (pendingBegin (w_sess w) = None) = false).
  { change (String.eqb "compat" "compat") with true. by rewrite andb_true_r. }
  unfold handle_downstream, touch, M_bind at 1 2, now, modify.
  assert (Hrest : (let! prt := port in
    let! s := get in
    if String.eqb prt "read" && bool_decide (read_port_class (sql_of msg) = TypeWrite)
    then reject_read_port (sql_of msg)
    else if is_query msg && String.eqb prt "compat" && isTransactionStart (sql_of msg)
            && bool_decide (pendingBegin s = None)
    then buffer_begin msg
    else
      let! r := (if String.eqb prt "compat" then handleCompatSQL msg (sql_of msg)
                 else let! e := acquireUpstream in M_ret (false, e)) in
      match r with
      | (_, Some err) => acquire_failed err
      | (handled, None) =>
        (if handled : bool then M_ret tt else forward msg) ;! ack AckDownstream
      end) (touched w) =
    (let! r := handleCompatSQL msg (sql_of msg) in
     match r with
     | (_, Some err) => acquire_failed err
     | (handled, None) => (if handled : bool then M_ret tt else forward msg) ;! ack AckDownstream
     end) (touched w)).
  { unfold M_bind at 1 2, port, get, touched. cbn [w_srv w_sess]. rewrite Hport.
    change (pendingBegin ((w_sess w) <| lastActive := default time_zero (head (w_clock w)) |>))
      with (pendingBegin (w_sess w)). rewrite Hx. done. }
  destruct msg; try exact Hrest. done.
Qed.


(** A transaction that reads from a replica. *)
Definition reading : Session :=
  (demo_session "compat" PoolModeTransaction)
    <| upstream := Some 1%nat |> <| compatLeasedRole := "replica" |> <| compatLeasedNodeID := "b" |>
    <| compatTxState := TxInTransactionRead |> <| compatTransactionFirstClass := Some TypeRead |>.


(** When the flush of the rejection fails, the write that was just rejected is
    forwarded to the replica all the same: [handleCompatSQL] reports it as not
    handled, although its comment says the caller should abort. *)
Theorem rejected_write_forwarded_on_flush_failure :
  let w := MkWorld reading (MkDemoServer "compat" 0) [] [false; false; true] [7] in
  exists w', handle_downstream (Query "insert into t values (1)") w = (Val tt, w') /\
    UpSend 1%nat (Query "insert into t values (1)") true ∈ w_trace w'.
Proof. eexists. split; [by vm_compute|]. apply (bool_decide_unpack _). by vm_compute. Qed.

(** On the read port every message without SQL text counts as a write: a Sync
    is refused like an INSERT. *)
Theorem read_port_refuses_sync :
  exists w', handle_downstream Sync (demo_world "read" [] [7]) = (Val tt, w') /\
    w_trace w' = [DownSend (ErrorResponse "ERROR" "25006" "[grunyas] write attempted on read port") true;
                  DownSend (ReadyForQuery "I"%char) true; DownFlush true; AckDownstream].
Proof. eexists. split; [by vm_compute|]. done. Qed.

(** A session in a failed transaction. *)
Definition failed_session : Session := reading <| compatTxState := TxInFailedTransaction |>.

(** "ROLLBACK;" with its semicolon is not recognised and the transaction
    cannot be left with it. *)
Theorem rollback_with_semicolon_is_refused :
  exists w', handle_downstream (Query "ROLLBACK;")
               (MkWorld failed_session (MkDemoServer "compat" 0) [] [] [7]) = (Val tt, w') /\
    compatTxState (w_sess w') = TxInFailedTransaction /\
    attached_conns (w_trace w') = [] /\ UpSend 1%nat (Query "ROLLBACK;") true ∉ w_trace w'.
Proof. eexists. split; [by vm_compute|]. split_and!; [done|done|]. apply (bool_decide_unpack _). by vm_compute. Qed.

(** A BEGIN in a failed transaction is answered as if it had opened one. *)
Theorem begin_in_failed_transaction_is_answered :
  exists w', handle_downstream (Query "BEGIN")
               (MkWorld failed_session (MkDemoServer "compat" 0) [] [] [7]) = (Val tt, w') /\
    w_trace w' = [DownSend (CommandComplete "BEGIN") true; DownSend (ReadyForQuery "T"%char) true;
                  DownFlush true; AckDownstream].
Proof. eexists. split; [by vm_compute|]. done. Qed.

(** A request to release that is taken before the end of the context leaves a
    failed transaction without upstream; a ROLLBACK then dereferences nil. *)
Theorem rollback_after_release_panics :
  (loop [(ReleaseRequested, same_server); (FromDownstream (Some (Query "ROLLBACK")), same_server)]
     (MkWorld failed_session (MkDemoServer "compat" 0) [] [] [7])).1 = Panic.
Proof. by vm_compute. Qed.

(** A transaction that began with a read on the primary and then wrote does
    not open the post-write window at its commit. *)
Theorem late_write_opens_no_window :
  let s := (demo_session "compat" PoolModeTransaction)
    <| upstream := Some 0%nat |> <| compatLeasedRole := "primary" |>
    <| compatTxState := TxInTransactionRead |> <| compatTransactionFirstClass := Some TypeRead |> in
  let es := (fun e => (e, same_server)) <$>
    [FromDownstream (Some (Query "insert into t values (1)")); FromUpstream (ReadyForQuery "T"%char);
     FromDownstream (Some (Query "commit")); FromUpstream (ReadyForQuery "I"%char)] in
  let w' := (loop es (MkWorld s (MkDemoServer "compat" 0) [] [] [7; 8; 9; 10; 11])).2 in
  UpSend 0%nat (Query "commit") true ∈ w_trace w' /\ OpenedAt (postWriteWindow (w_sess w')) = time_zero.
Proof. split; [apply (bool_decide_unpack _); by vm_compute|by vm_compute]. Qed.

(** The cached class of a prepared statement outlives its Close: no handler
    forgets it.  A statement parsed again under the same name with a write is
    still taken for the read it was, and goes to the replica. *)
Theorem closed_statement_keeps_its_class :
  let es := (fun e => (e, same_server)) <$>
    [FromDownstream (Some (Parse "s1" "select 1")); FromDownstream (Some (CloseMsg "S s1"));
     FromDownstream (Some (Parse "s1" "insert into t values (1)"))] in
  let w' := (loop es (MkWorld reading (MkDemoServer "compat" 0) [] [] [7; 8; 9])).2 in
  UpSend 1%nat (Parse "s1" "insert into t values (1)") true ∈ w_trace w' /\
  compatLeasedRole (w_sess w') = "replica".
Proof. split; [apply (bool_decide_unpack _); by vm_compute|by vm_compute]. Qed.

(** *** The buffered BEGIN *)

Lemma buffer_begin_eq {S : Type} {Srv : ProxyServer S} (s : Session) (v : S) (tr : list Effect)
    (t : Time) (clock : list Time) (b : string) :
  srv_Port v = "compat" -> isTransactionStart b = true -> pendingBegin s = None ->
  handle_downstream (Query b) (MkWorld s v tr [] (t :: clock)) =
  (Val tt, MkWorld (s <| lastActive := t |> <| pendingBegin := Some (Query b) |>) v
             (tr ++ [DownSend (CommandComplete "BEGIN") true; DownSend (ReadyForQuery "T"%char) true;
                     DownFlush true; AckDownstream]) [] clock).
Proof.
  intros Hport Hb Hp. unfold handle_downstream, touch, M_bind at 1 2, now, modify.
  cbn [w_sess w_srv w_trace w_faults w_clock sql_of head default tail].
  unfold M_bind at 1 2, port, get. cbn [w_srv w_sess is_query]. rewrite Hport, Hb.
  change (String.eqb "compat" "read") with false. change (String.eqb "compat" "compat") with true.
  cbn [andb]. rewrite bool_decide_eq_true_2 by exact Hp. cbn.
  unfold emit. cbn. by rewrite <- !app_assoc.
Qed.

(** [open_transaction] without failures. *)
Lemma open_transaction_eq {S : Type} {Srv : ProxyServer S} (s : Session) (v v' : S) (tr : list Effect)
    (t : Time) (clock : list Time) (sql : string) (cls : Type_) (lease : UpstreamLease) :
  srv_AcquireUpstreamLease sql (Active (postWriteWindow s) t) (RemainingMs (postWriteWindow s) t) v
    = Some (inr lease, v') ->
  exists s', open_transaction sql cls (MkWorld s v tr [] (t :: clock)) =
      (Val (false, None), MkWorld s' v' (tr ++ [Attached (lease_Client lease)]) [] clock) /\
    upstream s' = Some (lease_Client lease) /\ pendingBegin s' = pendingBegin s /\
    compatLeasedRole s' = lease_Role lease /\ compatTransactionFirstClass s' = Some cls /\
    compatTxState s' = (if bool_decide (cls = TypeWrite) then TxInTransactionWrite
                        else TxInTransactionRead) /\
    poolMode s' = poolMode s /\ swallowingBeginResponse s' = swallowingBeginResponse s.
Proof.
  intros Hl. unfold open_transaction, lease_for, M_bind, now, get, call, modify.
  cbn -[Active RemainingMs]. rewrite Hl. cbn.
  eexists. split; [reflexivity|]. by destruct (isRollback sql).
Qed.

Lemma process_eq {S : Type} (s : Session) (v : S) (tr : list Effect) (clock : list Time) (c : Conn)
    (msg : FrontendMessage) :
  upstream s = Some c ->
  process msg (MkWorld s v tr [] clock) = (Val false, MkWorld s v (tr ++ [UpSend c msg true]) [] clock).
Proof. intros Hup. unfold process, M_bind, get. cbn [w_sess]. by rewrite Hup. Qed.

(** Forwarding a query after the buffered BEGIN, without failures. *)
Lemma forward_begin_eq {S : Type} (s : Session) (v : S) (tr : list Effect) (clock : list Time) (c : Conn)
    (b : FrontendMessage) (q : string) :
  upstream s = Some c -> pendingBegin s = Some b ->
  exists s', forward (Query q) (MkWorld s v tr [] clock) =
      (Val tt, MkWorld s' v (tr ++ [UpSend c b true; UpSend c (Query q) true; UpFlush c true]) [] clock) /\
    upstream s' = Some c /\ pendingBegin s' = None /\ swallowingBeginResponse s' = true.
Proof.
  intros Hup Hp.
  assert (Hreplay : replay_begin (MkWorld s v tr [] clock) = (Val tt,
    MkWorld (s <| swallowingBeginResponse := true |> <| pendingBegin := None |>) v
      (tr ++ [UpSend c b true]) [] clock)).
  { unfold replay_begin, M_bind at 1, get. cbn [w_sess]. rewrite Hp. unfold M_bind at 1.
    by rewrite (process_eq s v tr clock c b Hup). }
  set (s1 := s <| swallowingBeginResponse := true |> <| pendingBegin := None |>) in Hreplay.
  set (s2 := if Process_pins (Query q) then
               (if bool_decide (poolMode s1 = PoolModeSession) then s1 else s1 <| poolMode := PoolModeSession |>)
             else s1).
  assert (Hs2 : upstream s2 = Some c /\ pendingBegin s2 = None /\ swallowingBeginResponse s2 = true).
  { subst s2. destruct (Process_pins (Query q)); [case_bool_decide|]; by split_and!. }
  exists s2. split; [|done]. unfold forward, M_bind at 1. rewrite Hreplay. unfold M_bind at 1.
  rewrite (process_eq s1 v _ clock c (Query q) Hup).
  assert (Hpin : (if Process_pins (Query q) then switchToSessionMode else M_ret tt)
      (MkWorld s1 v ((tr ++ [UpSend c b true]) ++ [UpSend c (Query q) true]) [] clock)
      = (Val tt, MkWorld s2 v ((tr ++ [UpSend c b true]) ++ [UpSend c (Query q) true]) [] clock)).
  { subst s2. by destruct (Process_pins (Query q)). }
  unfold M_bind at 1. rewrite Hpin. cbn [flushes_upstream]. unfold M_bind at 1, get. cbn [w_sess].
  destruct Hs2 as [-> _]. cbn. by rewrite <- !app_assoc.
Qed.

(** The two messages of a BEGIN's answer, swallowed. *)
Lemma swallowed_eq {S : Type} {Srv : ProxyServer S} (s : Session) (v : S) (tr : list Effect) (t1 t2 : Time) :
  swallowingBeginResponse s = true ->
  loop [(FromUpstream (CommandComplete "BEGIN"), fun v : S => v);
        (FromUpstream (ReadyForQuery "T"%char), fun v => v)] (MkWorld s v tr [] [t1; t2]) =
  (Val tt, MkWorld (s <| lastActive := t1 |> <| lastActive := t2 |> <| swallowingBeginResponse := false |>)
             v (tr ++ [AckUpstream; AckUpstream]) [] []).
Proof.
  intros Hs. unfold loop, handle_event, handle_upstream, touch, M_bind, now, modify, get. cbn.
  rewrite Hs. cbn. rewrite Hs. cbn. by rewrite <- app_assoc.
Qed.

(** A buffered BEGIN is answered once and replayed once: on the compat port
    a client's BEGIN gets its answer at once without a lease; the next
    statement leases an upstream, which receives the BEGIN and then the
    statement, in this order; and the upstream's own answer to the BEGIN is
    not passed on. *)
Theorem begin_replayed_once {S : Type} {Srv : ProxyServer S} (s : Session) (v v' : S)
    (tr : list Effect) (t1 t2 t3 t4 t5 : Time) (b q : string) (lease : UpstreamLease) :
  srv_Port v = "compat" ->
  upstream s = None -> pendingBegin s = None -> compatTxState s = TxIdle ->
  isTransactionStart b = true ->
  srv_AcquireUpstreamLease q (Active (postWriteWindow s) t3) (RemainingMs (postWriteWindow s) t3) v
    = Some (inr lease, v') ->
  let c := lease_Client lease in
  let es := [FromDownstream (Some (Query b)); FromDownstream (Some (Query q));
             FromUpstream (CommandComplete "BEGIN"); FromUpstream (ReadyForQuery "T"%char)] in
  exists s', loop ((fun e => (e, fun v => v)) <$> es) (MkWorld s v tr [] [t1; t2; t3; t4; t5]) =
    (Val tt, MkWorld s' v' (tr ++
       [DownSend (CommandComplete "BEGIN") true; DownSend (ReadyForQuery "T"%char) true;
        DownFlush true; AckDownstream;
        Attached c; UpSend c (Query b) true; UpSend c (Query q) true; UpFlush c true; AckDownstream;
        AckUpstream; AckUpstream]) [] []) /\
    pendingBegin s' = None /\ swallowingBeginResponse s' = false /\ upstream s' = Some c.
Proof.
  intros Hport Hup Hpend Hst Hb Hlease c es.
  cbn [fmap list_fmap es loop]. unfold M_bind at 1 2. cbn [w_sess w_srv w_trace w_faults w_clock handle_event].
  rewrite buffer_begin_eq by done. set (s1 := s <| lastActive := t1 |> <| pendingBegin := Some (Query b) |>).
  set (tr1 := tr ++ _). unfold M_bind at 1 2.
  cbn [w_sess w_srv w_trace w_faults w_clock handle_event].
  rewrite downstream_compat_eq; [|done|done|by rewrite andb_false_r].
  change (touched (MkWorld s1 v tr1 [] [t2; t3; t4; t5]))
    with (MkWorld (s1 <| lastActive := t2 |>) v tr1 [] [t3; t4; t5]).
  unfold M_bind at 1. cbn [sql_of].
  assert (Hsql : exists s2, handleCompatSQL (Query q) q
      (MkWorld (s1 <| lastActive := t2 |>) v tr1 [] [t3; t4; t5]) =
      (Val (false, None), MkWorld s2 v' (tr1 ++ [Attached c]) [] [t4; t5]) /\
    upstream s2 = Some c /\ pendingBegin s2 = Some (Query b)).
  { unfold handleCompatSQL, M_bind at 1, get. cbn [w_sess].
    rewrite bool_decide_eq_false_2 by (change (compatTxState s <> TxInFailedTransaction); by rewrite Hst).
    unfold compat_statement, classify_statement, M_bind, get, modify, M_ret.
    cbn [w_sess w_srv w_trace w_faults w_clock]. destruct (Classify _ _) as [cls cs].
    cbn [w_sess w_srv w_trace w_faults w_clock].
    set (s2 := put_field _ (s1 <| lastActive := t2 |>)).
    assert (Hup2 : upstream s2 = None) by exact Hup.
    unfold reclassified. rewrite Hup2. cbn [andb]. rewrite bool_decide_eq_false_2 by (by intros []).
    cbn [andb]. destruct (open_transaction_eq s2 v v' tr1 t3 [t4; t5] q (cls_Type cls) lease Hlease)
      as (s3 & Heq & Hu & Hp & _).
    exists s3. by split_and!. }
  destruct Hsql as (s2 & -> & Hu2 & Hp2). cbn match.
  destruct (forward_begin_eq s2 v' (tr1 ++ [Attached c]) [t4; t5] c (Query b) q Hu2 Hp2)
    as (s3 & Hfwd & Hu3 & Hp3 & Hsw). unfold M_bind at 1. rewrite Hfwd.
  set (tr2 := (tr1 ++ [Attached c]) ++ _).
  change (ack AckDownstream (MkWorld s3 v' tr2 [] [t4; t5]))
    with (Val tt, MkWorld s3 v' (tr2 ++ [AckDownstream]) [] [t4; t5]).
  cbn match. pose proof (swallowed_eq s3 v' (tr2 ++ [AckDownstream]) t4 t5 Hsw) as Hend.
  eexists. split; [etrans; [exact Hend|]; subst tr2 tr1; by rewrite <- !app_assoc|by split_and!].
Qed.

Lemma begin_replayed_once_witness :
  exists s', loop ((fun e => (e, fun v => v)) <$>
      [FromDownstream (Some (Query "BEGIN")); FromDownstream (Some (Query "select 1"));
       FromUpstream (CommandComplete "BEGIN"); FromUpstream (ReadyForQuery "T"%char)])
      (MkWorld (demo_session "compat" PoolModeTransaction) (MkDemoServer "compat" 0) [] [] [1; 2; 3; 4; 5]) =
    (Val tt, MkWorld s' (MkDemoServer "compat" 0) ([] ++
       [DownSend (CommandComplete "BEGIN") true; DownSend (ReadyForQuery "T"%char) true;
        DownFlush true; AckDownstream;
        Attached 1%nat; UpSend 1%nat (Query "BEGIN") true; UpSend 1%nat (Query "select 1") true;
        UpFlush 1%nat true; AckDownstream; AckUpstream; AckUpstream]) [] []) /\
    pendingBegin s' = None /\ swallowingBeginResponse s' = false /\ upstream s' = Some 1%nat.
Proof.
  apply (begin_replayed_once (demo_session "compat" PoolModeTransaction) (MkDemoServer "compat" 0)
    (MkDemoServer "compat" 0) [] 1 2 3 4 5 "BEGIN" "select 1" (MkUpstreamLease 1%nat "b" "replica"));
    by vm_compute.
Defined.

(** *** Reading one's own writes *)

(** An observation of the session alone. *)
Definition sees {S B} (g : Session -> B) (w : World S) : B := g (w_sess w).

Lemma sees_modify {S B} (g : Session -> B) (f : Session -> Session) :
  (forall s, g (f s) = g s) -> keeps (sees (S := S) g) (modify f).
Proof. intros H w. apply H. Qed.

Lemma sees_call {S A B} (g : Session -> B) (f : S -> option (A * S)) : keeps (sees g) (call f).
Proof. intros w. unfold call. by destruct (f (w_srv w)) as [[a v]|]. Qed.

Ltac sees_solve :=
  repeat lazymatch goal with
  | |- keeps _ (M_bind _ _) => apply keeps_bind; [|intros ?]
  | |- keeps _ (if ?b then _ else _) => destruct b
  | |- keeps _ (match ?x with _ => _ end) => destruct x
  | |- keeps _ (modify _) => apply sees_modify; intros ?; by repeat case_match
  | |- keeps _ (call _) => apply sees_call
  | |- keeps _ _ => done
  end.

Lemma role_forward {S} (msg : FrontendMessage) : keeps (sees (S := S) compatLeasedRole) (forward msg).
Proof. unfold forward, replay_begin, process, switchToSessionMode. sees_solve. Qed.

Lemma role_ack {S} (e : Effect) : keeps (sees (S := S) compatLeasedRole) (ack e).
Proof. unfold ack. sees_solve. Qed.

Lemma role_acquire_failed {S} {Srv : ProxyServer S} (err : error) :
  keeps (sees (S := S) compatLeasedRole) (acquire_failed err).
Proof. unfold acquire_failed, CloseWithError, down_send, down_flush, ack. sees_solve. Qed.

Lemma role_buffer {S} (msg : FrontendMessage) : keeps (sees (S := S) compatLeasedRole) (buffer_begin msg).
Proof. unfold buffer_begin, down_send, down_flush, ack. sees_solve. Qed.

(** The commit of a write on the primary opens the window. *)
Lemma commit_opens_window {S : Type} {Srv : ProxyServer S} (s : Session) (v : S) (tr : list Effect)
    (faults : list bool) (t1 t0 : Time) (clock : list Time) (c : Conn) (w1 : World S) :
  srv_Port v = "compat" -> upstream s = Some c -> poolMode s = PoolModeTransaction ->
  swallowingBeginResponse s = false -> compatTransactionFirstClass s = Some TypeWrite ->
  compatLeasedRole s = "primary" -> awaitingRollbackResult s = false ->
  handle_upstream (ReadyForQuery "I"%char) (MkWorld s v tr faults (t1 :: t0 :: clock)) = (Val tt, w1) ->
  upstream (w_sess w1) = None /\ postWriteWindow (w_sess w1) = MkWindow t0 (DurationMs (postWriteWindow s)) /\
  compatTxState (w_sess w1) = TxIdle /\ compatLeasedRole (w_sess w1) = "" /\ w_clock w1 = clock.
Proof.
  intros Hport Hup Hmode Hsw Hfirst Hrole Haw.
  unfold handle_upstream, touch, M_bind at 1 2, now, modify. cbn [w_sess w_srv w_trace w_faults w_clock].
  unfold M_bind at 1, get. cbn -[handleCompatReadyForQuery releaseUpstream].
  rewrite Hsw. unfold attempt, M_bind, fault, emit, M_ret, exit_, port. cbn -[handleCompatReadyForQuery releaseUpstream].
  destruct (default false (head faults)); [done|]. cbn -[handleCompatReadyForQuery releaseUpstream].
  destruct (default false (head (tail faults))); [done|]. cbn -[handleCompatReadyForQuery releaseUpstream].
  rewrite Hport, Hmode, bool_decide_eq_true_2 by done. unfold M_bind, get, now, modify. cbn.
  rewrite Haw, Hfirst, Hrole, bool_decide_eq_true_2 by done. cbn. rewrite Hup. cbn.
  destruct (default false (head (tail (tail faults)))); cbn; intros [= <-]; by split_and!.
Qed.

(** A lease taken while the window is open is never on a replica. *)
Lemma lease_in_window {S : Type} {Srv : ProxyServer S} {Laws : ProxyLaws S} (sql : string) (w : World S)
    (r : option error) (w' : World S) :
  srv_inv (w_srv w) -> srv_Port (w_srv w) = "compat" -> compatLeasedRole (w_sess w) = "" ->
  Active (postWriteWindow (w_sess w)) (default time_zero (head (w_clock w))) = true ->
  lease_for sql w = (Val r, w') -> compatLeasedRole (w_sess w') <> "replica".
Proof.
  intros Hv Hport Hrole Hact. unfold lease_for, M_bind, now, get, call.
  cbn [w_sess w_srv w_trace w_faults w_clock]. rewrite Hact.
  destruct (srv_AcquireUpstreamLease _ _ _ _) as [[[err|lease] v']|] eqn:El; [| |done]; cbn.
  - intros [= _ <-]. cbn. by rewrite Hrole.
  - intros [= _ <-]. cbn. intros Hrep. by destruct (law_replica _ _ _ _ _ _ Hv Hport El Hrep).
Qed.

Lemma compat_role_in_window {S : Type} {Srv : ProxyServer S} {Laws : ProxyLaws S} (msg : FrontendMessage)
    (sql : string) (w : World S) (r : bool * option error) (w' : World S) :
  srv_inv (w_srv w) -> srv_Port (w_srv w) = "compat" -> upstream (w_sess w) = None ->
  compatLeasedRole (w_sess w) = "" -> compatTxState (w_sess w) = TxIdle ->
  Active (postWriteWindow (w_sess w)) (default time_zero (head (w_clock w))) = true ->
  handleCompatSQL msg sql w = (Val r, w') -> compatLeasedRole (w_sess w') <> "replica".
Proof.
  intros Hv Hport Hup Hrole Hst Hact. unfold handleCompatSQL, M_bind at 1, get.
  rewrite bool_decide_eq_false_2 by (by rewrite Hst).
  assert (Hstmt : forall stmt, compat_statement msg stmt sql w = (Val r, w') ->
            compatLeasedRole (w_sess w') <> "replica").
  { intros stmt. unfold compat_statement, classify_statement, M_bind at 1 2 3, get, modify, M_ret.
    destruct (Classify _ _) as [cls cs]. unfold M_bind at 1, get.
    set (w2 := MkWorld (put_field _ (w_sess w)) (w_srv w) _ _ _). cbn zeta match.
    unfold reclassified. change (upstream (w_sess w2)) with (upstream (w_sess w)). rewrite Hup.
    rewrite bool_decide_eq_false_2 by (by intros []). cbn [andb].
    unfold open_transaction, M_bind at 1.
    destruct (lease_for sql w2) as [[[e|]| |] w3] eqn:El; [| |done..];
      pose proof (lease_in_window sql w2 _ w3 Hv Hport Hrole Hact El) as Hne.
    - by intros [= _ <-].
    - cbn. intros [= _ <-]. cbn. by destruct (isRollback sql). }
  assert (Hother : (match upstream (w_sess w) with
      | Some _ => M_ret (false, None)
      | None => let! err := lease_for "" in M_ret (false, err)
      end) w = (Val r, w') -> compatLeasedRole (w_sess w') <> "replica").
  { rewrite Hup. unfold M_bind. destruct (lease_for "" w) as [[e| |] w3] eqn:El; [|done..].
    intros [= _ <-]. exact (lease_in_window "" w e w3 Hv Hport Hrole Hact El). }
  destruct msg; first [exact (Hstmt _)|exact Hother].
Qed.

(** A BEGIN that is buffered. *)
Lemma downstream_buffer_eq {S : Type} {Srv : ProxyServer S} (msg : FrontendMessage) (w : World S) :
  srv_Port (w_srv w) = "compat" ->
  is_query msg && isTransactionStart (sql_of msg) && bool_decide (pendingBegin (w_sess w) = None) = true ->
  handle_downstream msg w = buffer_begin msg (touched w).
Proof.
  intros Hport Hbegin. destruct msg as [q| | | | | | | | | | | | ]; try done.
  unfold handle_downstream, touch, M_bind at 1 2, now, modify, M_bind at 1 2, port, get.
  cbn [w_sess w_srv is_query] in *. apply andb_true_iff in Hbegin as [Hb Hp]. cbn [andb] in Hb.
  rewrite Hport, Hb. change (String.eqb "compat" "read") with false.
  change (String.eqb "compat" "compat") with true. cbn [andb]. apply bool_decide_eq_true in Hp.
  by rewrite bool_decide_eq_true_2 by exact Hp.
Qed.

(** After the commit, no lease inside the window is on a replica. *)
Lemma window_lease_not_replica {S : Type} {Srv : ProxyServer S} {Laws : ProxyLaws S} (s : Session) (v v2 : S)
    (tr : list Effect) (faults : list bool) (t1 t0 t2 t3 : Time) (clock : list Time) (c : Conn)
    (msg : FrontendMessage) (w1 w2 : World S) :
  srv_Port v = "compat" -> srv_Port v2 = "compat" -> srv_inv v2 ->
  upstream s = Some c -> poolMode s = PoolModeTransaction ->
  swallowingBeginResponse s = false -> compatTransactionFirstClass s = Some TypeWrite ->
  compatLeasedRole s = "primary" -> awaitingRollbackResult s = false ->
  Active (MkWindow t0 (DurationMs (postWriteWindow s))) t3 = true ->
  handle_upstream (ReadyForQuery "I"%char) (MkWorld s v tr faults (t1 :: t0 :: t2 :: t3 :: clock))
    = (Val tt, w1) ->
  handle_downstream msg (MkWorld (w_sess w1) v2 (w_trace w1) (w_faults w1) (w_clock w1)) = (Val tt, w2) ->
  compatLeasedRole (w_sess w2) <> "replica".
Proof.
  intros Hport Hport2 Hinv Hup Hmode Hsw Hfirst Hrole Haw Hact Hrfq Hmsg.
  destruct (commit_opens_window _ _ _ _ _ _ _ _ _ Hport Hup Hmode Hsw Hfirst Hrole Haw Hrfq)
    as (Hup1 & Hw1 & Hst1 & Hrole1 & Hclock1).
  set (w := MkWorld (w_sess w1) v2 _ _ _) in Hmsg.
  destruct (decide (msg = Terminate)) as [->|Hterm]; [done|].
  destruct (is_query msg && isTransactionStart (sql_of msg) && bool_decide (pendingBegin (w_sess w) = None))
    eqn:Hbegin.
  - rewrite (downstream_buffer_eq msg w Hport2 Hbegin) in Hmsg.
    pose proof (role_buffer msg (touched w)) as Hk. rewrite Hmsg in Hk.
    unfold sees in Hk. cbn in Hk. rewrite Hk, Hrole1. done.
  - rewrite (downstream_compat_eq msg w Hport2 Hterm Hbegin) in Hmsg. unfold M_bind at 1 in Hmsg.
    destruct (handleCompatSQL msg (sql_of msg) (touched w)) as [[[h oe]| |] w'] eqn:Ec; [|done..].
    apply compat_role_in_window in Ec; [|done..|by cbn; rewrite Hw1, Hclock1].
    destruct oe as [err|].
    + pose proof (role_acquire_failed err w') as Hk. rewrite Hmsg in Hk. unfold sees in Hk. cbn in Hk.
      by rewrite Hk.
    + assert (Hk : keeps (sees compatLeasedRole)
        ((if h then M_ret tt else forward msg) ;! ack (S := S) AckDownstream)).
      { apply keeps_bind; [|intros ?; apply role_ack]. destruct h; [done|apply role_forward]. }
      specialize (Hk w'). rewrite Hmsg in Hk. unfold sees in Hk. cbn in Hk. by rewrite Hk.
Qed.

(** A client reads its own writes: when a transaction that wrote on the
    primary commits on the compat port, the session gives its connection back
    and opens the post-write window; whatever the client sends next while the
    window is open, a lease taken for it is never on a replica. *)
Theorem reads_own_writes {S : Type} {Srv : ProxyServer S} {Laws : ProxyLaws S} (s : Session) (v v2 : S)
    (tr : list Effect) (faults : list bool) (t1 t0 t2 t3 : Time) (clock : list Time) (c : Conn)
    (msg : FrontendMessage) (w1 w2 : World S) :
  srv_Port v = "compat" -> srv_Port v2 = "compat" -> srv_inv v2 ->
  upstream s = Some c -> poolMode s = PoolModeTransaction ->
  swallowingBeginResponse s = false -> compatTransactionFirstClass s = Some TypeWrite ->
  compatLeasedRole s = "primary" -> awaitingRollbackResult s = false ->
  Active (MkWindow t0 (DurationMs (postWriteWindow s))) t3 = true ->
  handle_upstream (ReadyForQuery "I"%char) (MkWorld s v tr faults (t1 :: t0 :: t2 :: t3 :: clock))
    = (Val tt, w1) ->
  handle_downstream msg (MkWorld (w_sess w1) v2 (w_trace w1) (w_faults w1) (w_clock w1)) = (Val tt, w2) ->
  compatLeasedRole (w_sess w2) <> "replica".
Proof. apply window_lease_not_replica. Qed.

(** A transaction that wrote on the primary. *)
Definition writing : Session :=
  (demo_session "compat" PoolModeTransaction)
    <| upstream := Some 0%nat |> <| compatLeasedRole := "primary" |> <| compatLeasedNodeID := "a" |>
    <| compatTxState := TxInTransactionWrite |> <| compatTransactionFirstClass := Some TypeWrite |>.
Definition committed : World DemoServer :=
  (handle_upstream (ReadyForQuery "I"%char) (MkWorld writing (MkDemoServer "compat" 0) [] [] [9; 10; 11; 12])).2.
Definition reread : World DemoServer :=
  (handle_downstream (Query "select 1") (MkWorld (w_sess committed) (MkDemoServer "compat" 0)
     (w_trace committed) (w_faults committed) (w_clock committed))).2.

Lemma reads_own_writes_witness :
  compatLeasedRole (w_sess reread) <> "replica" /\ upstream (w_sess reread) = Some 0%nat.
Proof.
  split; [|by vm_compute].
  apply (reads_own_writes writing (MkDemoServer "compat" 0) (MkDemoServer "compat" 0) [] [] 9 10 11 12 []
    0%nat (Query "select 1") committed reread); first [exact I|vm_compute; reflexivity].
Defined.
