(* ===== verification/ReadLoops.v ===== *)
(** * ReadLoops: the goroutines of a session (internal/server/session/session.go)

    A session has a main loop ([Run], whose handlers are in the file Session),
    a read loop for its client, a read loop for each upstream connection while
    it is leased, and whoever calls [Close].  Here they are a step relation:
    the unbuffered channels are rendezvous, the contexts and the [sync.Once]
    are fields.  A message that a read loop has received stays valid until the
    loop receives the next one, which is what the acknowledgements are for. *)

From stdpp Require Import base gmap list.
From Stdlib Require Import ZArith Lia.
From S2P Require Import Prelude.

(** ** State *)

(** Where a message comes from: the client, or the upstream of a lease. *)
Inductive Src := FromDown | FromUp (c : Z).
#[export] Instance Src_eq_dec : EqDecision Src.
Proof. solve_decision. Defined.

(** A read loop that has received [k] messages: in [Receive], offering the last
    one to the main loop, waiting for its acknowledgement, or returned. *)
Inductive LoopSt := Reading (k : nat) | Offering (k : nat) | AwaitAck (k : nat) | Finished.

(** What follows a call of [releaseUpstream], and one of [Close]. *)
Inductive After := ToSelect | ToClose.
Inductive AfterClose := ThenLeave | ThenGone.

(** The position of [Run]: startup, the select, a handler, an acknowledgement,
    waiting for a read loop in [releaseUpstream], a return, inside [Close]. *)
Inductive MainSt :=
| Booting
| Selecting
| Handling (src : Src) (k : nat)
| Acking (src : Src) (k : nat)
| Releasing (c : Z) (next : After)
| Leaving
| CallsClose (next : AfterClose)
| Gone.

Definition after (next : After) : MainSt :=
  match next with ToSelect => Selecting | ToClose => CallsClose ThenGone end.
Definition after_close (next : AfterClose) : MainSt :=
  match next with ThenLeave => Leaving | ThenGone => Gone end.

(** [closeOnce] and the position of the function it runs. *)
Inductive OnceSt := OnceFree | RequestRelease | CancelCtx | CloseConn | ReadStarted | WaitLoops | OnceDone.
#[export] Instance OnceSt_eq_dec : EqDecision OnceSt.
Proof. solve_decision. Defined.

Record Threads := MkThreads {
  rl_main : MainSt;
  rl_down : option LoopSt;
  rl_up : gmap Z LoopSt;
  rl_upstream : option Z;
  rl_cancelled : gset Z;
  rl_ctxDone : bool;
  rl_connClosed : bool;
  rl_started : bool;
  rl_errCh : bool;
  rl_releaseCh : bool;
  rl_once : OnceSt;
  rl_released : gset Z;
  rl_handled : list (Src * nat)
}.
#[export] Instance Threads_eta : Eta Threads := fun s =>
  MkThreads (rl_main s) (rl_down s) (rl_up s) (rl_upstream s) (rl_cancelled s) (rl_ctxDone s) (rl_connClosed s)
    (rl_started s) (rl_errCh s) (rl_releaseCh s) (rl_once s) (rl_released s) (rl_handled s).

Definition rl_init : Threads :=
  MkThreads Booting None ∅ None ∅ false false false false false OnceFree ∅ [].

Definition loop (src : Src) (s : Threads) : option LoopSt :=
  match src with FromDown => rl_down s | FromUp c => rl_up s !! c end.

Definition set_loop (src : Src) (st : LoopSt) (s : Threads) : Threads :=
  match src with
  | FromDown => s <| rl_down := Some st |>
  | FromUp c => s <| rl_up ::= <[c := st]> |>
  end.

(** The context of a read loop is done. *)
Definition interrupted (src : Src) (s : Threads) : bool :=
  match src with
  | FromDown => rl_ctxDone s
  | FromUp c => rl_ctxDone s || bool_decide (c ∈ rl_cancelled s)
  end.

(** [Receive] fails by itself: the client's connection is closed, the context
    of the upstream is done. *)
Definition unblocked (src : Src) (s : Threads) : bool :=
  match src with FromDown => rl_connClosed s | FromUp _ => interrupted src s end.

(** The two acknowledgement channels. *)
Definition same_channel (a b : Src) : Prop :=
  match a, b with FromDown, FromDown => True | FromUp _, FromUp _ => True | _, _ => False end.

Definition all_finished (s : Threads) : Prop := forall src st, loop src s = Some st -> st = Finished.

(** ** Steps

    The last three labels are what the peers, the server or other goroutines
    do; the first three are the session's own progress. *)
Inductive ThreadLabel := OnMain | OnLoop | OnClose | PeerSends | PeerFails | AskedToEnd.

Definition internal (l : ThreadLabel) : bool :=
  match l with OnMain | OnLoop | OnClose => true | _ => false end.

(** The body of both read loops. *)
Inductive read_loop (src : Src) : Threads -> ThreadLabel -> Threads -> Prop :=
| rl_receive s k :
    loop src s = Some (Reading k) -> read_loop src s PeerSends (set_loop src (Offering (S k)) s)
| rl_fail s k l :
    loop src s = Some (Reading k) -> (l = OnLoop /\ unblocked src s = true) \/ l = PeerFails ->
    read_loop src s l
      ((set_loop src Finished s) <| rl_errCh := rl_errCh s || negb (interrupted src s) |>)
| rl_not_taken s k :
    loop src s = Some (Offering k) -> interrupted src s = true ->
    read_loop src s OnLoop (set_loop src Finished s)
| rl_not_acked s k :
    loop src s = Some (AwaitAck k) -> interrupted src s = true ->
    read_loop src s OnLoop (set_loop src Finished s).

Definition downstreamReadLoop := read_loop FromDown.
Definition upstreamReadLoop (c : Z) := read_loop (FromUp c).

(** The first half of [releaseUpstream], up to the wait for the read loop. *)
Definition begin_release (next : After) (s : Threads) : Threads :=
  match rl_upstream s with
  | None => s <| rl_main := after next |>
  | Some c =>
    s <| rl_upstream := None |> <| rl_cancelled ::= fun x => {[c]} ∪ x |> <| rl_main := Releasing c next |>
  end.

(** [Run] and what its handlers do to the goroutines. *)
Inductive main_step : Threads -> ThreadLabel -> Threads -> Prop :=
| ms_attach s c :
    rl_main s = Booting \/ (exists k, rl_main s = Handling FromDown k) ->
    rl_upstream s = None -> rl_up s !! c = None ->
    main_step s OnMain ((set_loop (FromUp c) (Reading 0) s) <| rl_upstream := Some c |>)
| ms_start s :
    rl_main s = Booting -> rl_ctxDone s = false ->
    main_step s OnMain ((set_loop FromDown (Reading 0) s) <| rl_started := true |> <| rl_main := Selecting |>)
| ms_no_start s :
    rl_main s = Booting -> rl_ctxDone s = true -> main_step s OnMain (s <| rl_main := Leaving |>)
| ms_recv s src k :
    rl_main s = Selecting -> loop src s = Some (Offering k) ->
    main_step s OnMain
      ((set_loop src (AwaitAck k) s) <| rl_main := Handling src k |> <| rl_handled ::= fun h => h ++ [(src, k)] |>)
| ms_down_closed s :
    rl_main s = Selecting -> loop FromDown s = Some Finished -> main_step s OnMain (s <| rl_main := Leaving |>)
| ms_err s :
    rl_main s = Selecting -> rl_errCh s = true ->
    main_step s OnMain (s <| rl_errCh := false |> <| rl_main := Leaving |>)
| ms_release_requested s :
    rl_main s = Selecting -> rl_releaseCh s = true ->
    main_step s OnMain (begin_release ToSelect (s <| rl_releaseCh := false |>))
| ms_ctx s :
    rl_main s = Selecting -> rl_ctxDone s = true -> main_step s OnMain (s <| rl_main := Leaving |>)
| ms_detach s c k :
    rl_main s = Handling (FromUp c) k -> main_step s OnMain (begin_release ToSelect s)
| ms_handled s src k :
    rl_main s = Handling src k -> main_step s OnMain (s <| rl_main := Acking src k |>)
| ms_ack s src k w j :
    rl_main s = Acking src k -> same_channel src w -> loop w s = Some (AwaitAck j) ->
    main_step s OnMain ((set_loop w (Reading j) s) <| rl_main := Selecting |>)
| ms_ack_ctx s src k :
    rl_main s = Acking src k -> rl_ctxDone s = true -> main_step s OnMain (s <| rl_main := Leaving |>)
| ms_return s :
    rl_main s = Booting \/ (exists src k, rl_main s = Handling src k) ->
    main_step s OnMain (s <| rl_main := Leaving |>)
| ms_close_with_error s :
    rl_main s = Booting \/ (exists k, rl_main s = Handling FromDown k) ->
    main_step s OnMain (s <| rl_main := CallsClose ThenLeave |>)
| ms_leave s :
    rl_main s = Leaving -> main_step s OnMain (begin_release ToClose s)
| ms_released s c next :
    rl_main s = Releasing c next -> loop (FromUp c) s = Some Finished ->
    main_step s OnMain (s <| rl_released ::= fun r => {[c]} ∪ r |> <| rl_main := after next |>)
| ms_closed s next :
    rl_main s = CallsClose next -> rl_once s = OnceDone -> main_step s OnMain (s <| rl_main := after_close next |>).

(** [Close], the end of the server's context, and calls of [Close] by others. *)
Inductive close_step : Threads -> ThreadLabel -> Threads -> Prop :=
| cs_call s next :
    rl_main s = CallsClose next -> rl_once s = OnceFree -> close_step s OnClose (s <| rl_once := RequestRelease |>)
| cs_ask s : rl_once s = OnceFree -> close_step s AskedToEnd (s <| rl_once := RequestRelease |>)
| cs_server_done s : close_step s AskedToEnd (s <| rl_ctxDone := true |>)
| cs_release s :
    rl_once s = RequestRelease -> close_step s OnClose (s <| rl_releaseCh := true |> <| rl_once := CancelCtx |>)
| cs_cancel s :
    rl_once s = CancelCtx -> close_step s OnClose (s <| rl_ctxDone := true |> <| rl_once := CloseConn |>)
| cs_conn s :
    rl_once s = CloseConn -> close_step s OnClose (s <| rl_connClosed := true |> <| rl_once := ReadStarted |>)
| cs_started s :
    rl_once s = ReadStarted ->
    close_step s OnClose (s <| rl_once := if rl_started s then WaitLoops else OnceDone |>)
| cs_wait s :
    rl_once s = WaitLoops -> all_finished s -> close_step s OnClose (s <| rl_once := OnceDone |>).

Inductive rl_step (s : Threads) (l : ThreadLabel) (s' : Threads) : Prop :=
| by_main (Hst : main_step s l s')
| by_down (Hst : downstreamReadLoop s l s')
| by_up (c : Z) (Hst : upstreamReadLoop c s l s')
| by_close (Hst : close_step s l s').

(** The loops share their proofs. *)
Lemma rl_step_cases (s : Threads) (l : ThreadLabel) (s' : Threads) :
  rl_step s l s' -> main_step s l s' \/ (exists src, read_loop src s l s') \/ close_step s l s'.
Proof. intros [H|H|c H|H]; eauto. Qed.

(** ** Updates of the state *)

Lemma loop_set (src src' : Src) (st : LoopSt) (s : Threads) :
  loop src' (set_loop src st s) = if decide (src' = src) then Some st else loop src' s.
Proof.
  destruct src as [|c], src' as [|c']; cbn; try done.
  destruct (decide (FromUp c' = FromUp c)) as [[= ->]|Hne]; [by rewrite lookup_insert_eq|].
  rewrite lookup_insert_ne; [done|congruence].
Qed.

Lemma set_loop_fields (src : Src) (st : LoopSt) (s : Threads) :
  rl_main (set_loop src st s) = rl_main s /\ rl_upstream (set_loop src st s) = rl_upstream s /\
  rl_cancelled (set_loop src st s) = rl_cancelled s /\ rl_ctxDone (set_loop src st s) = rl_ctxDone s /\
  rl_connClosed (set_loop src st s) = rl_connClosed s /\ rl_started (set_loop src st s) = rl_started s /\
  rl_once (set_loop src st s) = rl_once s /\ rl_released (set_loop src st s) = rl_released s /\
  rl_handled (set_loop src st s) = rl_handled s.
Proof. by destruct src. Qed.

(** A change that leaves the loops alone. *)
Lemma loop_ext (s s' : Threads) (src : Src) :
  rl_down s' = rl_down s -> rl_up s' = rl_up s -> loop src s' = loop src s.
Proof. intros H1 H2. destruct src; cbn; congruence. Qed.

(** ** Invariants *)

(** The upstream the main loop holds or waits for. *)
Definition held (s : Threads) : option Z :=
  match rl_main s with Releasing c _ => Some c | _ => rl_upstream s end.

(** Only the connection that is held has a read loop; every other one that was
    ever leased has been given back. *)
Definition leases_ok (s : Threads) : Prop :=
  (forall c st, rl_up s !! c = Some st -> held s = Some c \/ (st = Finished /\ c ∈ rl_released s)) /\
  (forall c, held s = Some c -> is_Some (rl_up s !! c) /\ c ∉ rl_released s) /\
  (forall c, c ∈ rl_released s -> rl_up s !! c = Some Finished) /\
  (forall c next, rl_main s = Releasing c next -> rl_upstream s = None /\ c ∈ rl_cancelled s) /\
  (rl_main s = Gone \/ rl_main s = CallsClose ThenGone -> rl_upstream s = None).

(** The message being handled is still the last one its loop received. *)
Definition buffer_ok (s : Threads) : Prop :=
  forall src k, rl_main s = Handling src k \/ rl_main s = Acking src k ->
    (loop src s = Some (AwaitAck k) \/ loop src s = Some Finished) /\
    (forall c, src = FromUp c -> rl_upstream s = Some c).

(** The numbers of the messages handled so far. *)
Definition numbers (src : Src) (h : list (Src * nat)) : list nat :=
  omap (fun e => if decide (e.1 = src) then Some e.2 else None) h.

Definition in_step (n : nat) (st : option LoopSt) : Prop :=
  match st with
  | None => n = 0
  | Some (Reading k) => n = k
  | Some (Offering k) => k = S n
  | Some (AwaitAck k) => n = k
  | Some Finished => True
  end.

Definition order_ok (s : Threads) : Prop :=
  forall src, exists n, numbers src (rl_handled s) = seq 1 n /\ in_step n (loop src s).

(** What [Close] has done so far; the client's loop starts with the main loop. *)
Definition close_ok (s : Threads) : Prop :=
  (match rl_once s with OnceFree | RequestRelease | CancelCtx => True | _ => rl_ctxDone s = true end) /\
  (match rl_once s with ReadStarted | WaitLoops | OnceDone => rl_connClosed s = true | _ => True end) /\
  (rl_main s = Gone -> rl_once s = OnceDone) /\
  (rl_main s = Booting -> rl_down s = None).

Ltac step_cases Hst :=
  apply rl_step_cases in Hst as [Hst|[[src Hst]|Hst]]; destruct Hst.

Lemma begin_release_fields (next : After) (s : Threads) :
  rl_down (begin_release next s) = rl_down s /\ rl_up (begin_release next s) = rl_up s /\
  rl_handled (begin_release next s) = rl_handled s /\ rl_released (begin_release next s) = rl_released s /\
  rl_once (begin_release next s) = rl_once s /\ rl_ctxDone (begin_release next s) = rl_ctxDone s /\
  rl_connClosed (begin_release next s) = rl_connClosed s.
Proof. unfold begin_release. by destruct (rl_upstream s). Qed.

Lemma order_same (s s' : Threads) :
  rl_down s' = rl_down s -> rl_up s' = rl_up s -> rl_handled s' = rl_handled s -> order_ok s -> order_ok s'.
Proof. intros H1 H2 H3 Ho src. rewrite H3, (loop_ext s s') by done. apply Ho. Qed.

(** One loop moves on without a message being handled. *)
Lemma order_move (s s' : Threads) (src : Src) (st : LoopSt) :
  rl_down s' = rl_down (set_loop src st s) -> rl_up s' = rl_up (set_loop src st s) -> rl_handled s' = rl_handled s ->
  (forall n, in_step n (loop src s) -> in_step n (Some st)) -> order_ok s -> order_ok s'.
Proof.
  intros H1 H2 H3 Himp Ho src'. rewrite H3, (loop_ext (set_loop src st s) s'), loop_set by done.
  destruct (Ho src') as (n & Hn & Hs). exists n. split; [done|]. destruct (decide (src' = src)) as [->|]; auto.
Qed.

Lemma numbers_snoc (src src' : Src) (k : nat) (h : list (Src * nat)) :
  numbers src' (h ++ [(src, k)]) = numbers src' h ++ (if decide (src = src') then [k] else []).
Proof. unfold numbers. rewrite omap_app. cbn. by destruct (decide (src = src')). Qed.

Lemma order_step (s s' : Threads) (l : ThreadLabel) : rl_step s l s' -> close_ok s -> order_ok s -> order_ok s'.
Proof.
  intros Hst (_ & _ & _ & Hboot) Ho.
  assert (Hh : forall src st, rl_handled (set_loop src st s) = rl_handled s) by (by intros []).
  step_cases Hst; try (by apply (order_same s));
    try (eapply order_same; [apply begin_release_fields..|by apply (order_same s)]);
    try (apply (order_move s _ src Finished); [done..|apply Hh|done|done]).
  - apply (order_move s _ (FromUp c) (Reading 0)); try done. cbn. by rewrite H1.
  - apply (order_move s _ FromDown (Reading 0)); try done. cbn. by rewrite Hboot.
  - intros src'. destruct (Ho src') as (n & Hn & Hs).
    rewrite (loop_ext (set_loop src (AwaitAck k) s)), loop_set by done.
    change (rl_handled (put_field _ _)) with (rl_handled (set_loop src (AwaitAck k) s) ++ [(src, k)]).
    rewrite Hh, numbers_snoc, Hn. destruct (decide (src' = src)) as [->|Hne].
    + rewrite decide_True by done. rewrite H0 in Hs. cbn in Hs. subst k. exists (S n). split; [|done].
      by rewrite seq_S.
    + rewrite decide_False by done. exists n. by rewrite app_nil_r.
  - apply (order_move s _ w (Reading j)); [done..|apply Hh| |done]. by rewrite H1.
  - apply (order_move s _ src (Offering (S k))); [done..|apply Hh| |done]. rewrite H. cbn. intros n ->. done.
Qed.

(** *** The message being handled *)

Definition not_handling (m : MainSt) : Prop := match m with Handling _ _ | Acking _ _ => False | _ => True end.

Lemma out_of_handlers (s : Threads) : not_handling (rl_main s) -> buffer_ok s.
Proof. intros H src k [E|E]; by rewrite E in H. Qed.

Lemma buffer_step (s s' : Threads) (l : ThreadLabel) :
  rl_step s l s' -> leases_ok s -> buffer_ok s -> buffer_ok s'.
Proof.
  intros Hst (L1 & L2 & _ & L4 & _) Hb.
  assert (Hloops : forall src st m, rl_main m = rl_main s -> rl_upstream m = rl_upstream s ->
    rl_down m = rl_down (set_loop src st s) -> rl_up m = rl_up (set_loop src st s) ->
    (forall k, loop src s = Some (AwaitAck k) \/ loop src s = Some Finished -> st = Finished) -> buffer_ok m).
  { intros src st m Hm Hu Hd1 Hd2 Hf src' k. rewrite Hm, Hu. intros H. destruct (Hb src' k H) as [H1 H2].
    split; [|done]. rewrite (loop_ext (set_loop src st s) m), loop_set by done.
    destruct (decide (src' = src)) as [->|]; [right|done]. f_equal. by eapply Hf. }
  assert (Hsame : forall m, rl_main m = rl_main s -> rl_upstream m = rl_upstream s ->
    rl_down m = rl_down s -> rl_up m = rl_up s -> buffer_ok m).
  { intros m Hm Hu Hd1 Hd2 src' k. rewrite Hm, Hu, (loop_ext s m) by done. apply Hb. }
  step_cases Hst; try (apply out_of_handlers; by cbn);
    try (apply out_of_handlers; unfold begin_release; by case_match); try (by apply Hsame);
    try (apply out_of_handlers; by destruct next).
  - intros src' k Hk. cbn in Hk. assert (src' = FromDown) as ->.
    { destruct H as [H|[k' H]]; rewrite H in Hk; destruct Hk; congruence. }
    destruct (Hb FromDown k Hk) as [Hd _]. split; [exact Hd|done].
  - intros src' k' [E|E]; cbn in E; [injection E as <- <-|done]. split.
    + left. rewrite (loop_ext (set_loop src (AwaitAck k) s)), loop_set by done. by rewrite decide_True.
    + intros c ->. cbn. cbn in H0. destruct (L1 c _ H0) as [Hh|[? _]]; [|done]. unfold held in Hh. by rewrite H in Hh.
  - intros src' k' [E|E]; cbn in E; [done|injection E as <- <-]. rewrite (loop_ext s) by done. apply Hb. by left.
  - eapply (Hloops src); [by destruct src..|]. rewrite H. by intros k' [E|E].
  - eapply (Hloops src); [by destruct src..|done].
  - eapply (Hloops src); [by destruct src..|done].
  - eapply (Hloops src); [by destruct src..|done].
Qed.

(** *** The leases *)

(** The leases see the main loop, the upstream and the upstream loops only. *)
Lemma leases_same (s s' : Threads) :
  leases_ok s -> rl_up s' = rl_up s -> rl_upstream s' = rl_upstream s -> rl_released s' = rl_released s ->
  rl_cancelled s' = rl_cancelled s ->
  (rl_main s' = rl_main s \/ ((forall c next, rl_main s <> Releasing c next) /\
     (forall c next, rl_main s' <> Releasing c next) /\
     (rl_main s' = Gone \/ rl_main s' = CallsClose ThenGone -> rl_upstream s = None))) ->
  leases_ok s'.
Proof.
  intros (L1 & L2 & L3 & L4 & L5) Hu Hup Hr Hc Hm.
  assert (Hheld : held s' = held s).
  { unfold held. destruct Hm as [->|(Hm1 & Hm2 & _)]; [by rewrite Hup|]. rewrite Hup.
    destruct (rl_main s), (rl_main s'); first [done|exfalso; by eapply Hm1|exfalso; by eapply Hm2]. }
  unfold leases_ok. rewrite Hheld, Hu, Hup, Hr, Hc. split_and!; try done.
  - intros c next E. destruct Hm as [Hm|(_ & Hm & _)]; [apply (L4 c next); congruence|by edestruct Hm].
  - intros E. destruct Hm as [Hm|(_ & _ & Hm)]; [apply L5; by rewrite <- Hm|by apply Hm].
Qed.

(** A loop of a held connection, or the client's, moves on. *)
Lemma leases_loop (s s' : Threads) (src : Src) (st : LoopSt) :
  leases_ok s -> (forall c, src = FromUp c -> st = Finished \/ held s = Some c) ->
  (forall c, src = FromUp c -> is_Some (rl_up s !! c)) ->
  rl_up s' = rl_up (set_loop src st s) -> rl_main s' = rl_main s -> rl_upstream s' = rl_upstream s ->
  rl_released s' = rl_released s -> rl_cancelled s' = rl_cancelled s ->
  leases_ok s'.
Proof.
  intros Hl Hst Hsome Hu Hm Hup Hr Hc. destruct src as [|c]; [apply (leases_same s); auto|].
  specialize (Hst c eq_refl). specialize (Hsome c eq_refl). destruct Hl as (L1 & L2 & L3 & L4 & L5).
  assert (Hheld : held s' = held s) by (unfold held; by rewrite Hm, Hup).
  unfold leases_ok. rewrite Hheld, Hu, Hm, Hup, Hr, Hc. cbn.
  assert (Hcase : held s = Some c \/ st = Finished /\ c ∈ rl_released s).
  { destruct Hsome as [st0 H0]. destruct (L1 c st0 H0) as [|[_ Hin]]; [by left|].
    destruct Hst; [by right|by left]. }
  split_and!; try done.
  - intros d st' Hd. destruct (decide (d = c)) as [->|Hne].
    + rewrite lookup_insert_eq in Hd. by injection Hd as <-.
    + rewrite lookup_insert_ne in Hd by congruence. eauto.
  - intros d Hd. destruct (L2 d Hd) as [H1 H2]. split; [|done].
    destruct (decide (d = c)) as [->|]; [by rewrite lookup_insert_eq|by rewrite lookup_insert_ne by congruence].
  - intros d Hd. destruct (decide (d = c)) as [->|]; [|rewrite lookup_insert_ne by congruence; auto].
    rewrite lookup_insert_eq. destruct Hcase as [Hc'|[-> _]]; [|done]. by destruct (L2 c Hc').
Qed.

Lemma leases_begin (next : After) (s : Threads) :
  leases_ok s -> (forall c n, rl_main s <> Releasing c n) -> leases_ok (begin_release next s).
Proof.
  intros Hl Hm. unfold begin_release. destruct (rl_upstream s) as [c|] eqn:E.
  - destruct Hl as (L1 & L2 & L3 & L4 & L5).
    assert (Hheld : held s = Some c) by (unfold held; destruct (rl_main s) eqn:Em; try done; exfalso; by eapply Hm).
    split_and!; cbn.
    + intros d st Hd. destruct (L1 d st Hd) as [Hh|]; [left|by right]. congruence.
    + intros d [= <-]. by apply L2.
    + done.
    + intros d n [= <- <-]. split; [done|set_solver].
    + done.
  - apply (leases_same s); try done. right. split; [done|]. by destruct next.
Qed.

Lemma leases_attach (s : Threads) (c : Z) :
  leases_ok s -> rl_main s = Booting \/ (exists k, rl_main s = Handling FromDown k) ->
  rl_upstream s = None -> rl_up s !! c = None ->
  leases_ok ((set_loop (FromUp c) (Reading 0) s) <| rl_upstream := Some c |>).
Proof.
  intros (L1 & L2 & L3 & L4 & L5) Hm Hu Hc.
  assert (Hheld : held s = None) by (unfold held; destruct Hm as [->|[k ->]]; done).
  assert (Hheld' : held ((set_loop (FromUp c) (Reading 0) s) <| rl_upstream := Some c |>) = Some c)
    by (unfold held; cbn; destruct Hm as [->|[k ->]]; done).
  assert (Hr : c ∉ rl_released s) by (intros Hin; apply L3 in Hin; congruence).
  unfold leases_ok. rewrite Hheld'. cbn. split_and!.
  - intros d st Hd. destruct (decide (d = c)) as [->|]; [by left|].
    rewrite lookup_insert_ne in Hd by congruence. destruct (L1 d st Hd); [congruence|by right].
  - intros d [= <-]. by rewrite lookup_insert_eq.
  - intros d Hd. rewrite lookup_insert_ne; [by apply L3|congruence].
  - intros d next Hd. destruct Hm as [Hm|[k Hm]]; congruence.
  - intros Hd. destruct Hm as [Hm|[k Hm]]; destruct Hd; congruence.
Qed.

Lemma leases_released (s : Threads) (c : Z) (next : After) :
  leases_ok s -> rl_main s = Releasing c next -> loop (FromUp c) s = Some Finished ->
  leases_ok (s <| rl_released ::= fun r => {[c]} ∪ r |> <| rl_main := after next |>).
Proof.
  intros (L1 & L2 & L3 & L4 & L5) Hm Hc. destruct (L4 c next Hm) as [Hu _].
  assert (Hheld : held s = Some c) by (unfold held; by rewrite Hm).
  unfold leases_ok. assert (Hheld' : held (s <| rl_released ::= fun r => {[c]} ∪ r |> <| rl_main := after next |>) = None)
    by (unfold held; cbn; by destruct next).
  rewrite Hheld'. cbn in *. split_and!; try done.
  - intros d st Hd. right. destruct (L1 d st Hd) as [Hh|[-> Hin]]; [|split; [done|set_solver]].
    assert (d = c) as -> by congruence. split; [congruence|set_solver].
  - intros d [->%elem_of_singleton|Hd]%elem_of_union; auto.
  - by destruct next.
Qed.

Lemma leases_step (s s' : Threads) (l : ThreadLabel) :
  rl_step s l s' -> buffer_ok s -> leases_ok s -> leases_ok s'.
Proof.
  intros Hst Hb Hl.
  assert (Hopen : forall c st, loop (FromUp c) s = Some st -> st <> Finished -> held s = Some c).
  { intros c st H Hne. by destruct (proj1 Hl c st H) as [|[? _]]. }
  assert (Hmove : forall src st m, (forall c, src = FromUp c -> st = Finished \/ held s = Some c) ->
    is_Some (loop src s) -> rl_up m = rl_up (set_loop src st s) -> rl_main m = rl_main s ->
    rl_upstream m = rl_upstream s -> rl_released m = rl_released s -> rl_cancelled m = rl_cancelled s -> leases_ok m).
  { intros src st m H1 H2. apply leases_loop; [done|done|]. by intros c ->. }
  step_cases Hst; try (by apply leases_begin; [|rewrite H]);
    try (by apply (leases_same s); auto; right; rewrite H; cbn; naive_solver congruence).
  - by apply leases_attach.
  - apply (leases_same (set_loop src (AwaitAck k) s)); try done.
    + eapply (Hmove src (AwaitAck k)); [|by rewrite H0|by destruct src..].
      intros c ->. right. by eapply Hopen.
    + right. destruct (set_loop_fields src (AwaitAck k) s) as (-> & _). rewrite H. by split_and!; [done|done|intros [E|E]].
  - apply leases_begin; [by apply (leases_same s); auto|cbn; by rewrite H].
  - apply (leases_same (set_loop w (Reading j) s)); try done.
    + eapply (Hmove w (Reading j)); [|by rewrite H1|by destruct w..]. intros c ->. right. by eapply Hopen.
    + right. destruct (set_loop_fields w (Reading j) s) as (-> & _). rewrite H. by split_and!; [done|done|intros [E|E]].
  - apply (leases_same s); try done. right. destruct H as [H|(src & k & H)]; rewrite H; by split_and!; [done|done|intros [E|E]].
  - apply (leases_same s); try done. right. destruct H as [H|(k & H)]; rewrite H; by split_and!; [done|done|intros [E|E]].
  - by apply leases_released.
  - apply (leases_same s); try done. right. rewrite H.
    destruct next; (split_and!; [done|done|intros [E|E]; try done]). apply Hl. by right.
  - eapply (Hmove src (Offering (S k))); [|by rewrite H|by destruct src..].
    intros c ->. right. by eapply Hopen.
  - eapply (Hmove src Finished); [by left|by rewrite H|by destruct src..].
  - eapply (Hmove src Finished); [by left|by rewrite H|by destruct src..].
  - eapply (Hmove src Finished); [by left|by rewrite H|by destruct src..].
Qed.

Lemma close_step_ok (s s' : Threads) (l : ThreadLabel) : rl_step s l s' -> close_ok s -> close_ok s'.
Proof.
  intros Hst (C1 & C2 & C3 & C4).
  assert (Hsame : forall m, rl_once m = rl_once s -> rl_ctxDone m = rl_ctxDone s -> rl_connClosed m = rl_connClosed s ->
    (rl_main m = Gone -> rl_once s = OnceDone) -> (rl_main m = Booting -> rl_down m = None) -> close_ok m).
  { intros m E1 E2 E3 E4 E5. unfold close_ok. rewrite E1, E2, E3. done. }
  assert (Hrel : forall next m, rl_once m = rl_once s -> rl_ctxDone m = rl_ctxDone s ->
    rl_connClosed m = rl_connClosed s -> close_ok (begin_release next m)).
  { intros next m E1 E2 E3. destruct (begin_release_fields next m) as (_ & _ & _ & _ & F1 & F2 & F3).
    apply Hsame; [congruence..| |]; unfold begin_release; destruct (rl_upstream m), next; intros E; cbn in E; discriminate. }
  assert (Hloop : forall src st m, is_Some (loop src s) -> rl_once m = rl_once s -> rl_ctxDone m = rl_ctxDone s ->
    rl_connClosed m = rl_connClosed s -> rl_main m = rl_main s -> rl_down m = rl_down (set_loop src st s) -> close_ok m).
  { intros src st m Hs E1 E2 E3 E4 E5. apply Hsame; try done; rewrite E4; [done|]. intros Hb. rewrite E5.
    destruct src; cbn in *; [|by auto]. rewrite (C4 Hb) in Hs. by destruct Hs. }
  step_cases Hst; try (by apply Hrel); try (by apply Hsame); try (apply Hsame; by try destruct src);
    try (eapply (Hloop src); [by rewrite H|by destruct src..]).
  - apply Hsame; by destruct w.
  - apply Hsame; by destruct next.
  - apply Hsame; by destruct next.
  - split_and!; cbn; try done. intros E. rewrite (C3 E) in H0. done.
  - split_and!; cbn; try done. intros E. rewrite (C3 E) in H. done.
  - split_and!; cbn; try done. by destruct (rl_once s).
  - split_and!; cbn; try done. intros E. rewrite (C3 E) in H. done.
  - split_and!; cbn; try done. intros E. rewrite (C3 E) in H. done.
  - rewrite H in C1. split_and!; cbn; try done. intros E. rewrite (C3 E) in H. done.
  - rewrite H in C1, C2. split_and!; cbn; try (by destruct (rl_started s)); try done.
    intros E. rewrite (C3 E) in H. done.
  - rewrite H in C1, C2. by split_and!.
Qed.

Definition threads_inv (s : Threads) : Prop := leases_ok s /\ buffer_ok s /\ order_ok s /\ close_ok s.

Lemma threads_step (s s' : Threads) (l : ThreadLabel) : threads_inv s -> rl_step s l s' -> threads_inv s'.
Proof.
  intros (H1 & H2 & H3 & H4) Hst. split_and!.
  - by eapply leases_step.
  - by eapply buffer_step.
  - by eapply order_step.
  - by eapply close_step_ok.
Qed.

Lemma threads_reachable (ls : list ThreadLabel) (s : Threads) : steps rl_step rl_init ls s -> threads_inv s.
Proof.
  apply (steps_invariant rl_step threads_inv); [|intros s1 l s2; apply threads_step].
  split_and!.
  - split_and!; cbn; try done; set_solver.
  - by apply out_of_handlers.
  - intros src. exists 0. by destruct src.
  - by split_and!.
Qed.

(** ** Properties *)


(** ** The end of a session

    Runs of the session's own steps, after which the invariants still hold. *)
Definition runs_to (s s' : Threads) : Prop :=
  exists ls, steps rl_step s ls s' /\ Forall (fun l => internal l = true) ls.

Lemma runs_refl (s : Threads) : runs_to s s.
Proof. exists []. split; [apply steps_nil|done]. Qed.

Lemma runs_step (s s1 s2 : Threads) (l : ThreadLabel) :
  rl_step s l s1 -> internal l = true -> runs_to s1 s2 -> runs_to s s2.
Proof. intros Hst Hl (ls & Hr & Hi). exists (l :: ls). split; [by econstructor|by constructor]. Qed.

Lemma runs_one (s s' : Threads) (l : ThreadLabel) : rl_step s l s' -> internal l = true -> runs_to s s'.
Proof. intros H1 H2. eapply runs_step; [done..|apply runs_refl]. Qed.

Lemma runs_trans (s s1 s2 : Threads) : runs_to s s1 -> runs_to s1 s2 -> runs_to s s2.
Proof. intros (ls & Hr & Hi). revert Hi. induction Hr; [done|]. intros [Hl Hi]%Forall_cons Hn. eapply runs_step; eauto. Qed.

Lemma runs_inv (s s' : Threads) : runs_to s s' -> threads_inv s -> threads_inv s'.
Proof.
  intros (ls & Hr & _) Hi. by eapply (steps_invariant rl_step threads_inv); [|intros s1 l s2; apply threads_step|].
Qed.

Definition once_rank (o : OnceSt) : nat :=
  match o with
  | OnceFree => 5 | RequestRelease => 4 | CancelCtx => 3 | CloseConn => 2 | ReadStarted => 1 | WaitLoops | OnceDone => 0
  end.

(** [Close] gets to its wait by itself. *)
Lemma closer_runs (n : nat) : forall s : Threads, (once_rank (rl_once s) <= n)%nat -> rl_once s <> OnceFree ->
  exists s', runs_to s s' /\ (rl_once s' = WaitLoops \/ rl_once s' = OnceDone).
Proof.
  assert (Hnext : forall n s s1, (forall s, (once_rank (rl_once s) <= n)%nat -> rl_once s <> OnceFree ->
      exists s', runs_to s s' /\ (rl_once s' = WaitLoops \/ rl_once s' = OnceDone)) ->
    close_step s OnClose s1 -> (once_rank (rl_once s1) <= n)%nat -> rl_once s1 <> OnceFree ->
    exists s', runs_to s s' /\ (rl_once s' = WaitLoops \/ rl_once s' = OnceDone)).
  { intros m s s1 IH Hst Hr Hf. destruct (IH s1 Hr Hf) as (s' & Hrun & Hs'). exists s'. split; [|done].
    eapply runs_step; [by apply by_close|done..]. }
  induction n as [|n IH]; intros s Hn Hf.
  - exists s. split; [apply runs_refl|]. destruct (rl_once s); cbn in Hn; auto; lia.
  - destruct (rl_once s) eqn:E; try done; cbn in Hn; try (exists s; split; [apply runs_refl|by auto]).
    + eapply Hnext; [done|by apply cs_release|cbn; lia|done].
    + eapply Hnext; [done|by apply cs_cancel|cbn; lia|done].
    + eapply Hnext; [done|by apply cs_conn|cbn; lia|done].
    + eapply Hnext; [done|by apply cs_started|cbn; destruct (rl_started s); cbn; lia|cbn; by destruct (rl_started s)].
Qed.

(** What the main loop and [Close] see, the loops aside. *)
Definition same_rest (s s' : Threads) : Prop :=
  rl_main s' = rl_main s /\ rl_once s' = rl_once s /\ rl_ctxDone s' = rl_ctxDone s /\
  rl_connClosed s' = rl_connClosed s /\ rl_upstream s' = rl_upstream s.

Lemma loop_finishes (s : Threads) (src : Src) :
  rl_ctxDone s = true -> rl_connClosed s = true -> is_Some (loop src s) ->
  exists s', runs_to s s' /\ same_rest s s' /\
    forall src', loop src' s' = if decide (src' = src) then Some Finished else loop src' s.
Proof.
  intros Hctx Hconn [st Hst].
  assert (Hi : interrupted src s = true) by (destruct src; cbn; by rewrite Hctx).
  assert (Hu : unblocked src s = true) by (by destruct src).
  assert (Hby : forall s', read_loop src s OnLoop s' -> runs_to s s').
  { intros s' H. eapply runs_one; [|by instantiate (1 := OnLoop)]. destruct src as [|c]; [by apply by_down|by apply (by_up _ _ _ c)]. }
  assert (Hdone : forall s', read_loop src s OnLoop s' -> rl_down s' = rl_down (set_loop src Finished s) ->
    rl_up s' = rl_up (set_loop src Finished s) -> same_rest s s' ->
    exists s', runs_to s s' /\ same_rest s s' /\
      forall src', loop src' s' = if decide (src' = src) then Some Finished else loop src' s).
  { intros s' H Hd Hup Hr. exists s'. split; [auto|]. split; [done|]. intros src'.
    by rewrite (loop_ext (set_loop src Finished s)), loop_set. }
  destruct st as [k|k|k|].
  - eapply Hdone; [eapply rl_fail; eauto|by destruct src..].
  - eapply Hdone; [by eapply rl_not_taken|by destruct src..].
  - eapply Hdone; [by eapply rl_not_acked|by destruct src..].
  - exists s. split; [apply runs_refl|]. split; [done|]. intros src'. by destruct (decide (src' = src)) as [->|].
Qed.

Lemma loops_finish (s : Threads) :
  threads_inv s -> rl_ctxDone s = true -> rl_connClosed s = true ->
  exists s', runs_to s s' /\ rl_once s' = rl_once s /\ rl_ctxDone s' = true /\ all_finished s'.
Proof.
  intros Hinv Hctx Hconn.
  assert (Hsrc : forall s src, rl_ctxDone s = true -> rl_connClosed s = true -> exists s', runs_to s s' /\ same_rest s s' /\
    (forall st, loop src s' = Some st -> st = Finished) /\ (forall src', src' <> src -> loop src' s' = loop src' s)).
  { intros t src H1 H2. destruct (loop src t) as [st|] eqn:E.
    - destruct (loop_finishes t src H1 H2) as (t' & R & Rest & L); [by rewrite E|]. exists t'. split_and!; try done.
      + intros st'. rewrite L, decide_True by done. congruence.
      + intros src' Hne. by rewrite L, decide_False.
    - exists t. split_and!; try done; [apply runs_refl|]. intros st. congruence. }
  destruct (Hsrc s FromDown Hctx Hconn) as (s1 & R1 & (M1 & O1 & X1 & N1 & U1) & F1 & K1).
  assert (Hheld1 : held s1 = held s) by (unfold held; by rewrite M1, U1).
  destruct (Hsrc s1 (match held s with Some c => FromUp c | None => FromDown end)) as (s2 & R2 & (M2 & O2 & X2 & N2 & U2) & F2 & K2);
    [congruence..|].
  exists s2. split; [by eapply runs_trans|]. split; [congruence|]. split; [congruence|].
  intros src st E. destruct (decide (src = match held s with Some c => FromUp c | None => FromDown end)) as [->|Hne]; [by apply F2|].
  rewrite K2 in E by done. destruct src as [|c]; [by apply F1|].
  destruct (runs_inv _ _ R1 Hinv) as ((L1 & _) & _). destruct (L1 c st E) as [Hh|[? _]]; [|done].
  rewrite Hheld1 in Hh. by rewrite Hh in Hne.
Qed.

Definition main_rank (m : MainSt) : nat :=
  match m with
  | Booting | Handling _ _ => 9
  | Acking _ _ | Releasing _ ToSelect => 8
  | Selecting | CallsClose ThenLeave => 7
  | Leaving => 6
  | Releasing _ ToClose => 5
  | CallsClose ThenGone => 4
  | Gone => 0
  end.

Definition settled (s : Threads) : Prop := rl_once s = OnceDone /\ rl_ctxDone s = true /\ all_finished s.

Lemma main_progress (s : Threads) :
  threads_inv s -> settled s -> rl_main s <> Gone ->
  exists s', main_step s OnMain s' /\ settled s' /\ (main_rank (rl_main s') < main_rank (rl_main s))%nat.
Proof.
  intros ((_ & L2 & _) & _) (Ho & Hctx & Hf) Hg.
  assert (Hkeep : forall s', rl_once s' = rl_once s -> rl_ctxDone s' = rl_ctxDone s -> rl_down s' = rl_down s ->
    rl_up s' = rl_up s -> settled s').
  { intros s' E1 E2 E3 E4. split_and!; [congruence..|]. intros src st. rewrite (loop_ext s) by done. apply Hf. }
  assert (Hrel : forall next, settled (begin_release next s)).
  { intros next. destruct (begin_release_fields next s) as (F1 & F2 & _ & _ & F3 & F4 & _). by apply Hkeep. }
  destruct (rl_main s) as [| |src k|src k|c next| |next|] eqn:E; try done.
  - eexists. split; [by apply ms_no_start|]. split; [by apply Hkeep|cbn; lia].
  - eexists. split; [by apply ms_ctx|]. split; [by apply Hkeep|cbn; lia].
  - eexists. split; [by eapply ms_handled|]. split; [by apply Hkeep|cbn; lia].
  - eexists. split; [by eapply ms_ack_ctx|]. split; [by apply Hkeep|cbn; lia].
  - destruct (L2 c) as [[st Hc] _]; [unfold held; by rewrite E|].
    eexists. split; [eapply ms_released; [done|]; cbn; rewrite Hc; f_equal; by apply (Hf (FromUp c))|].
    split; [by apply Hkeep|]. destruct next; cbn; lia.
  - eexists. split; [by apply ms_leave|]. split; [by apply Hrel|]. unfold begin_release. case_match; cbn; lia.
  - eexists. split; [by eapply ms_closed|]. split; [by apply Hkeep|]. destruct next; cbn; lia.
Qed.

Lemma main_finishes (n : nat) : forall s : Threads, (main_rank (rl_main s) <= n)%nat -> threads_inv s -> settled s ->
  exists s', runs_to s s' /\ rl_main s' = Gone /\ settled s'.
Proof.
  induction n as [|n IH]; intros s Hn Hi Hs.
  - exists s. split; [apply runs_refl|]. split; [|done]. destruct (rl_main s) as [| | | |? []| |[]|]; cbn in Hn; done || lia.
  - destruct (decide (main_rank (rl_main s) = 0%nat)) as [Hz|Hz]; [apply IH; [lia|done..]|].
    destruct (main_progress s Hi Hs) as (s1 & Hst & Hs1 & Hr); [intros E; by rewrite E in Hz|].
    assert (Hst' : rl_step s OnMain s1) by (by apply by_main).
    destruct (IH s1) as (s' & R & E & Hs'); [lia|by eapply threads_step|done|].
    exists s'. split; [|done]. by eapply runs_step.
Qed.

(** Everything has returned and every lease has been given back. *)
Definition ended (s : Threads) : Prop :=
  rl_main s = Gone /\ rl_once s = OnceDone /\ all_finished s /\ (forall c, is_Some (rl_up s !! c) -> c ∈ rl_released s).

Lemma closing_ends (s : Threads) : threads_inv s -> rl_once s <> OnceFree -> exists s', runs_to s s' /\ ended s'.
Proof.
  intros Hi Hf.
  destruct (closer_runs _ s (Nat.le_refl _) Hf) as (s1 & R1 & Ho1). pose proof (runs_inv _ _ R1 Hi) as Hi1.
  destruct (loops_finish s1 Hi1) as (s2 & R2 & Ho2 & Hc2 & Hf2).
  { destruct Hi1 as (_ & _ & _ & C1 & _). by destruct Ho1 as [E|E]; rewrite E in C1. }
  { destruct Hi1 as (_ & _ & _ & _ & C2 & _). by destruct Ho1 as [E|E]; rewrite E in C2. }
  assert (Hwait : exists s3, runs_to s2 s3 /\ settled s3).
  { destruct Ho1 as [E|E]; [|exists s2; split; [apply runs_refl|split; [congruence|done]]].
    exists (s2 <| rl_once := OnceDone |>). split; [|by split_and!].
    eapply runs_one; [apply by_close, cs_wait; [congruence|done]|done]. }
  destruct Hwait as (s3 & R3 & Hs3).
  assert (R : runs_to s s3) by (by eapply runs_trans, runs_trans).
  destruct (main_finishes _ s3 (Nat.le_refl _) (runs_inv _ _ R Hi) Hs3) as (s4 & R4 & Hg & Ho4 & _ & Hf4).
  assert (R' : runs_to s s4) by (by eapply runs_trans).
  exists s4. split; [done|]. destruct (runs_inv _ _ R' Hi) as ((L1 & _ & _ & _ & L5) & _).
  split_and!; try done. intros c [st Hc]. destruct (L1 c st Hc) as [Hh|[_ Hin]]; [|done].
  unfold held in Hh. rewrite Hg, L5 in Hh by (by left). done.
Qed.


(** A query is forwarded and its answer is being handled when somebody asks the
    session to close. *)
Definition demo_threads : Threads :=
  MkThreads (Handling (FromUp 1) 1) (Some (Reading 1)) {[1%Z := AwaitAck 1]} (Some 1%Z) ∅ false false true false false
    RequestRelease ∅ [(FromDown, 1); (FromUp 1, 1)].

Lemma demo_threads_run :
  steps rl_step rl_init
    [OnMain; PeerSends; OnMain; OnMain; OnMain; OnMain; PeerSends; OnMain; AskedToEnd] demo_threads.
Proof.
  eapply steps_cons; [apply by_main; by apply ms_start|].
  eapply steps_cons; [apply by_down; by eapply (rl_receive _ _ 0)|].
  eapply steps_cons; [apply by_main; by eapply (ms_recv _ FromDown 1)|].
  eapply steps_cons; [apply by_main; by eapply (ms_attach _ 1); [right; exists 1| |]|].
  eapply steps_cons; [apply by_main; by eapply (ms_handled _ FromDown 1)|].
  eapply steps_cons; [apply by_main; by eapply (ms_ack _ FromDown 1 FromDown 1)|].
  eapply steps_cons; [apply (by_up _ _ _ 1); by eapply (rl_receive _ _ 0)|].
  eapply steps_cons; [apply by_main; by eapply (ms_recv _ (FromUp 1) 1)|].
  eapply steps_cons; [apply by_close; by apply cs_ask|].
  match goal with |- steps _ ?s _ _ => replace s with demo_threads; [apply steps_nil|] end.
  by vm_compute.
Qed.



(** ** Where the program does something else *)

(** [Close] called by another goroutine waits for the read loops, not for the
    main loop: it can return while the session still holds its upstream. *)
Theorem close_returns_with_lease_held :
  exists ls s, steps rl_step rl_init ls s /\ rl_once s = OnceDone /\ rl_upstream s = Some 1%Z /\
    1%Z ∉ rl_released s /\ rl_main s = Handling (FromUp 1) 1.
Proof.
  exists ([OnMain; PeerSends; OnMain; OnMain; OnMain; OnMain; PeerSends; OnMain; AskedToEnd]
          ++ [OnClose; OnClose; OnClose; OnClose; OnLoop; OnLoop; OnClose]).
  eexists. split.
  - eapply steps_app; [exact demo_threads_run|].
    eapply steps_cons; [apply by_close; by apply cs_release|].
    eapply steps_cons; [apply by_close; by apply cs_cancel|].
    eapply steps_cons; [apply by_close; by apply cs_conn|].
    eapply steps_cons; [apply by_close; by apply cs_started|].
    eapply steps_cons; [apply by_down; eapply (rl_fail _ _ 1); [done|by left]|].
    eapply steps_cons; [apply (by_up _ _ _ 1); by eapply (rl_not_acked _ _ 1)|].
    eapply steps_cons; [apply by_close; apply cs_wait; [done|]|apply steps_nil].
    intros [|c] st; cbn; [congruence|]. intros [[_ <-]|[Hne H]]%lookup_insert_Some; [done|].
    rewrite lookup_singleton_ne in H by done. done.
  - split_and!; [done|done|cbn; set_solver|done].
Qed.
