(* ===== verification/SessionThreads.v ===== *)
(** * SessionThreads: the handlers of a session against its goroutines

    [Session.v] runs the handlers of the main loop one event at a time;
    [ReadLoops.v] has the main loop among the other goroutines and abstracts
    from what a handler does.  Here every run of the handlers is shown to be a
    run of the goroutines: a lease that a handler attaches starts a read loop,
    a release waits for it, an acknowledgement lets it read on, and the end of
    the session is the way to [Close].  So what [ReadLoops.v] shows about the
    goroutines holds of sessions that run these handlers. *)

From stdpp Require Import base gmap strings list.
From Stdlib Require Import ZArith Lia Ascii.
From S2P Require Import Prelude GoStrings Types Classifier Messaging Session ReadLoops.

Local Open Scope string_scope.
Local Open Scope Z_scope.
Local Open Scope list_scope.

(** ** The relation

    A session holds an upstream when its goroutines do, and as many leases were
    attached and returned in the trace as the goroutines have started and given
    back. *)

Definition is_closed (e : Effect) : bool := match e with SessionClosed => true | _ => false end.

Section simulation.
Context {S : Type} `{Srv : ProxyServer S}.

Record tracked (w : World S) (th : Threads) : Prop := {
  tr_upstream : upstream (w_sess w) = None <-> rl_upstream th = None;
  tr_attached : length (attached_conns (w_trace w)) = size (rl_up th);
  tr_returned : length (returned_conns (w_trace w)) = size (rl_released th);
  tr_inv : threads_inv th }.

(** Where a handler runs: before the loop, or for the message [k] of [src]. *)
Inductive place := Boot | In (src : Src) (k : nat).

Definition at_place (p : place) (th : Threads) : Prop :=
  match p with
  | Boot => rl_main th = Booting /\ rl_ctxDone th = false
  | In src k =>
    rl_main th = Handling src k /\ ReadLoops.loop src th = Some (AwaitAck k)
    /\ (forall c, src = FromUp c -> rl_upstream th = Some c)
  end.

(** The loop of [src] waits for its peer. *)
Definition awaits_peer (src : Src) (th : Threads) : Prop := exists j, ReadLoops.loop src th = Some (Reading j).

(** The other loops wait for their peers. *)
Definition others_waiting (p : place) (th : Threads) : Prop :=
  match p with
  | Boot => forall c, rl_upstream th = Some c -> awaits_peer (FromUp c) th
  | In src k =>
    (src <> FromDown -> awaits_peer FromDown th) /\
    (forall c, rl_upstream th = Some c -> src <> FromUp c -> awaits_peer (FromUp c) th)
  end.

Definition inside (p : place) (w : World S) (th : Threads) : Prop :=
  tracked w th /\ at_place p th /\ others_waiting p th.

(** Between two events. *)
Definition idle (w : World S) (th : Threads) : Prop :=
  tracked w th /\ rl_main th = Selecting /\ awaits_peer FromDown th /\
  (forall c, rl_upstream th = Some c -> awaits_peer (FromUp c) th).

(** [Run] is about to return: [CloseWithError] has been called, or not. *)
Definition leaving (w : World S) (th : Threads) : Prop :=
  tracked w th /\
  (rl_main th = Leaving \/ (rl_main th = CallsClose ThenLeave /\ SessionClosed ∈ w_trace w)).

(** ** Pieces of handlers

    [tracks P p m]: from a state of the session with [P], the goroutines can do
    what [m] does, and are at the same place again; when [m] ends the session,
    they may have left for [Close]. *)

Definition tracks {A} (P : Session -> Prop) (p : place) (m : M S A) : Prop :=
  forall w th, P (w_sess w) -> inside p w th ->
    match m w with
    | (Val _, w') => exists th', runs_to th th' /\ inside p w' th'
    | (Exit, w') => exists th', runs_to th th' /\ (inside p w' th' \/ leaving w' th')
    | (Panic, _) => True
    end.

(** What the relation sees of a world. *)
Definition seen (w : World S) : list Effect * option Conn :=
  (base.filter (fun e => (lease_effect e || is_closed e) = true) (w_trace w), upstream (w_sess w)).

Lemma seen_conns (w w' : World S) :
  seen w' = seen w ->
  attached_conns (w_trace w') = attached_conns (w_trace w) /\ returned_conns (w_trace w') = returned_conns (w_trace w)
  /\ upstream (w_sess w') = upstream (w_sess w).
Proof.
  unfold seen. intros [= Htr Hup].
  assert (Hf : forall (B : Type) (f : Effect -> option B) (tr : list Effect), (forall e, (lease_effect e || is_closed e) = false -> f e = None) ->
    omap f tr = omap f (base.filter (fun e => (lease_effect e || is_closed e) = true) tr)).
  { intros B f tr Hf. induction tr as [|e tr IH]; [done|]. rewrite filter_cons. cbn.
    destruct (lease_effect e || is_closed e) eqn:He.
    - rewrite decide_True by done. cbn. by rewrite IH.
    - rewrite decide_False by congruence. by rewrite Hf. }
  unfold attached_conns, returned_conns.
  rewrite !(Hf _ _ (w_trace w')), !(Hf _ _ (w_trace w)), Htr by (by intros []). done.
Qed.

Lemma tracked_seen (w w' : World S) th : seen w' = seen w -> tracked w th -> tracked w' th.
Proof.
  intros Hs [H1 H2 H3 H4]. apply seen_conns in Hs as (Ha & Hr & Hu). split; [by rewrite Hu|by rewrite Ha|by rewrite Hr|done].
Qed.

Lemma inside_seen p (w w' : World S) th : seen w' = seen w -> inside p w th -> inside p w' th.
Proof. intros Hs (Ht & Hp & Ho). split; [by eapply tracked_seen|done]. Qed.

Lemma tracks_keeps {A} P p (m : M S A) : keeps seen m -> tracks P p m.
Proof.
  intros Hk w th _ Hin. specialize (Hk w). destruct (m w) as [[a| |] w']; [| |done].
  - exists th. split; [apply runs_refl|]. by eapply inside_seen.
  - exists th. split; [apply runs_refl|left]. by eapply inside_seen.
Qed.

Lemma tracks_bind {A B} P p (m : M S A) (k : A -> M S B) :
  tracks P p m -> (forall a, tracks any p (k a)) -> tracks P p (M_bind m k).
Proof.
  intros Hm Hk w th HP Hin. unfold M_bind. specialize (Hm w th HP Hin). destruct (m w) as [[a| |] w']; [|done|done].
  destruct Hm as (th1 & Hrun & Hin1). specialize (Hk a w' th1 I Hin1).
  destruct (k a w') as [[b| |] w'']; [| |done].
  all: destruct Hk as (th2 & Hrun2 & H2); exists th2; split; [by eapply runs_trans|done].
Qed.

Lemma tracks_frame {A B} p (m : M S A) (k : A -> M S B) :
  keeps seen m -> (forall a, tracks no_upstream p (k a)) -> tracks no_upstream p (M_bind m k).
Proof.
  intros Hm Hk w th HP Hin. unfold M_bind. specialize (Hm w). destruct (m w) as [[a| |] w'] eqn:E; cbn in Hm.
  - apply Hk; [|by eapply inside_seen]. apply seen_conns in Hm as (_ & _ & Hu). unfold no_upstream in *. congruence.
  - exists th. split; [apply runs_refl|left]. by eapply inside_seen.
  - done.
Qed.

Lemma tracks_get {A} P p (k : Session -> M S A) :
  (forall s, P s -> tracks (fun s' => s' = s) p (k s)) -> tracks P p (M_bind get k).
Proof. intros Hk w th HP Hin. unfold M_bind, get. by apply Hk. Qed.

Lemma tracks_weaken {A} (P Q : Session -> Prop) p (m : M S A) :
  (forall s, P s -> Q s) -> tracks Q p m -> tracks P p m.
Proof. intros H Hm w th HP. apply Hm. auto. Qed.

(** ** A lease is attached *)

Lemma runs_main th th' : main_step th OnMain th' -> runs_to th th'.
Proof. intros H. by eapply runs_one; [apply by_main|]. Qed.

Lemma fresh_lease (th : Threads) : exists c, rl_up th !! c = None.
Proof. exists (fresh (dom (rl_up th))). apply not_elem_of_dom, is_fresh. Qed.

Lemma tracks_attach p c : (forall src k, p = In src k -> src = FromDown) -> tracks no_upstream p (attach c).
Proof.
  intros Hp w th Hup ([Hu Ha Hr Hinv] & Hplace & Hothers). cbn.
  destruct (fresh_lease th) as [d Hd]. assert (Hnone : rl_upstream th = None) by (by apply Hu).
  set (th' := (set_loop (FromUp d) (Reading 0) th) <| rl_upstream := Some d |>).
  assert (Hstep : main_step th OnMain th').
  { apply ms_attach; [|done|done]. destruct p as [|src k]; [left; by destruct Hplace|right].
    rewrite (Hp src k eq_refl) in Hplace. exists k. by destruct Hplace. }
  exists th'. split; [by apply runs_main|].
  assert (Hread : forall e, rl_upstream th' = Some e -> awaits_peer (FromUp e) th').
  { intros e [= <-]. exists 0%nat. cbn. by rewrite lookup_insert_eq. }
  split_and!.
  - split; cbn.
    + done.
    + unfold attached_conns in *. rewrite omap_app, length_app, map_size_insert_None by done. cbn. lia.
    + unfold returned_conns in *. rewrite omap_app, length_app. cbn. lia.
    + eapply threads_step; [done|by apply by_main].
  - destruct p as [|src k]; [done|]. pose proof (Hp src k eq_refl) as ->. by destruct Hplace as (H1 & H2 & _).
  - destruct p as [|src k]; [done|]. pose proof (Hp src k eq_refl) as ->. split; [done|]. auto.
Qed.

(** ** Pieces that the relation does not see *)

Lemma seen_emit e : (lease_effect e || is_closed e) = false -> keeps seen (emit e).
Proof.
  intros He w. unfold seen, emit. cbn. rewrite filter_app, (filter_cons_False _ e); [|congruence].
  by rewrite filter_nil, app_nil_r.
Qed.

Lemma seen_modify f : (forall s, upstream (f s) = upstream s) -> keeps seen (modify f).
Proof. intros Hf w. unfold seen, modify. cbn. by rewrite Hf. Qed.

Lemma seen_call {A} (f : S -> option (A * S)) : keeps seen (call f).
Proof. intros w. unfold call. by destruct (f (w_srv w)) as [[a s]|]. Qed.

Lemma seen_attempt op :
  (lease_effect (op true) || is_closed (op true)) = false ->
  (lease_effect (op false) || is_closed (op false)) = false -> keeps seen (attempt op).
Proof.
  intros Ht Hf. unfold attempt. apply keeps_bind; [done|]. intros failed.
  apply keeps_bind; [|done]. apply seen_emit. by destruct failed.
Qed.

Ltac seen_step :=
  lazymatch goal with
  | |- keeps _ (M_bind _ _) => apply keeps_bind; [|intros ?]
  | |- keeps _ (if ?b then _ else _) => destruct b
  | |- keeps _ (match ?x with _ => _ end) => destruct x
  | |- keeps _ (M_ret _) => apply keeps_ret
  | |- keeps _ exit_ => apply keeps_exit
  | |- keeps _ panic => apply keeps_panic
  | |- keeps _ get => apply keeps_get
  | |- keeps _ port => apply keeps_port
  | |- keeps _ now => done
  | |- keeps _ fault => done
  | |- keeps _ (emit _) => by apply seen_emit
  | |- keeps _ (modify _) => apply seen_modify; intros ?; by repeat case_match
  | |- keeps _ (call _) => apply seen_call
  | |- keeps _ (attempt _) => by apply seen_attempt
  | |- keeps _ _ => solve [auto with go]
  end.
Ltac seen_solve := repeat seen_step.

Lemma seen_sendCompatError code msg st : keeps seen (sendCompatError code msg st).
Proof. unfold sendCompatError, down_send, down_flush. seen_solve. Qed.

Lemma seen_classify stmt : keeps seen (classify_statement stmt).
Proof. unfold classify_statement. seen_solve. Qed.

Lemma seen_forward msg : keeps seen (forward msg).
Proof. unfold forward, replay_begin, process, switchToSessionMode. seen_solve. Qed.

Lemma seen_handleRFQ st : keeps seen (handleCompatReadyForQuery st).
Proof. unfold handleCompatReadyForQuery. seen_solve. Qed.
#[local] Hint Resolve seen_sendCompatError seen_classify seen_forward seen_handleRFQ : go.

Lemma seen_compat_failed msg : keeps seen (compat_failed msg).
Proof. unfold compat_failed, down_send, down_flush. seen_solve. Qed.

Lemma seen_reject msg sql : keeps seen (reject_reclassified msg sql).
Proof. unfold reject_reclassified, down_send, down_flush, call_. seen_solve. Qed.
#[local] Hint Resolve seen_compat_failed seen_reject : go.

(** ** Leases *)

Section attaching.
Context (p : place) (Hp : forall src k, p = In src k -> src = FromDown).

Lemma tracks_lease_for sql : tracks no_upstream p (lease_for sql).
Proof.
  unfold lease_for. apply tracks_frame; [seen_solve|intros t]. apply tracks_frame; [seen_solve|intros s].
  apply tracks_frame; [seen_solve|intros [e|l]].
  - by apply tracks_keeps, keeps_ret.
  - apply tracks_bind; [by apply tracks_attach|intros _]. apply tracks_keeps. seen_solve.
Qed.

Lemma tracks_acquire : tracks any p acquireUpstream.
Proof.
  unfold acquireUpstream. apply tracks_get. intros s _. destruct (upstream s) as [c|] eqn:Hup.
  - by apply tracks_keeps, keeps_ret.
  - apply (tracks_weaken _ no_upstream); [by intros s' ->|].
    apply tracks_frame; [seen_solve|intros [e|c]].
    + by apply tracks_keeps, keeps_ret.
    + apply tracks_bind; [by apply tracks_attach|intros _]. by apply tracks_keeps, keeps_ret.
Qed.

Lemma tracks_statement msg stmt sql : tracks any p (compat_statement msg stmt sql).
Proof.
  unfold compat_statement. apply tracks_bind; [apply tracks_keeps; auto with go|intros cls].
  apply tracks_get. intros s _. destruct (reclassified s sql cls); [apply tracks_keeps; auto with go|].
  case_bool_decide as Hup.
  - apply tracks_keeps. unfold inherit_state. seen_solve.
  - apply (tracks_weaken _ no_upstream).
    { intros s' ->. unfold no_upstream. by destruct (upstream s); [destruct Hup|]. }
    unfold open_transaction. apply tracks_bind; [apply tracks_lease_for|intros e]. apply tracks_keeps. seen_solve.
Qed.

Lemma tracks_handleCompatSQL msg sql : tracks any p (handleCompatSQL msg sql).
Proof.
  unfold handleCompatSQL. apply tracks_get. intros s _.
  case_bool_decide; [apply tracks_keeps; auto with go|].
  assert (Hother : tracks (fun s' => s' = s) p
    (match upstream s with
     | Some _ => M_ret (false, None)
     | None => let! err := lease_for "" in M_ret (false, err)
     end)).
  { destruct (upstream s) eqn:Hup; [by apply tracks_keeps, keeps_ret|].
    apply (tracks_weaken _ no_upstream); [by intros s' ->|].
    apply tracks_bind; [apply tracks_lease_for|intros e]. by apply tracks_keeps, keeps_ret. }
  destruct msg; try exact Hother; apply (tracks_weaken _ any); try done; apply tracks_statement.
Qed.

End attaching.

(** ** Ends of handlers

    [concludes P p m]: like [tracks], but at the end of [m] the main loop is
    back at its select, or leaves. *)

Definition concludes (P : Session -> Prop) (p : place) (m : M S unit) : Prop :=
  forall w th, P (w_sess w) -> inside p w th ->
    match m w with
    | (Val _, w') => exists th', runs_to th th' /\ idle w' th'
    | (Exit, w') => exists th', runs_to th th' /\ leaving w' th'
    | (Panic, _) => True
    end.

Lemma tracked_main (w : World S) th m :
  tracked w th -> threads_inv (th <| rl_main := m |>) -> tracked w (th <| rl_main := m |>).
Proof. intros [H1 H2 H3 _] Hinv. by split. Qed.

Lemma tracked_runs (w : World S) th m :
  tracked w th -> main_step th OnMain (th <| rl_main := m |>) -> tracked w (th <| rl_main := m |>).
Proof. intros Ht Hst. apply tracked_main; [done|]. eapply threads_step; [apply Ht|by apply by_main]. Qed.

Lemma inside_leaves p (w : World S) th : inside p w th -> exists th', runs_to th th' /\ leaving w th'.
Proof.
  intros (Ht & Hp & _).
  assert (Hst : main_step th OnMain (th <| rl_main := Leaving |>)).
  { apply ms_return. destruct p as [|src k]; destruct Hp as [Hp _]; [by left|right; eauto]. }
  exists (th <| rl_main := Leaving |>). split; [by apply runs_main|]. split; [by apply tracked_runs|by left].
Qed.

Lemma concludes_bind {A} P p (m : M S A) (k : A -> M S unit) :
  tracks P p m -> (forall a, concludes any p (k a)) -> concludes P p (M_bind m k).
Proof.
  intros Hm Hk w th HP Hin. unfold M_bind. specialize (Hm w th HP Hin). destruct (m w) as [[a| |] w']; [| |done].
  - destruct Hm as (th1 & Hrun & Hin1). specialize (Hk a w' th1 I Hin1).
    destruct (k a w') as [[b| |] w'']; [| |done].
    all: destruct Hk as (th2 & Hrun2 & H2); exists th2; split; [by eapply runs_trans|done].
  - destruct Hm as (th1 & Hrun & [Hin1|Hl]); [|by exists th1].
    destruct (inside_leaves _ _ _ Hin1) as (th2 & Hrun2 & H2). exists th2. split; [by eapply runs_trans|done].
Qed.

Lemma concludes_exit P p : concludes P p exit_.
Proof. intros w th _ Hin. by apply (inside_leaves p). Qed.

(** Setting a loop that exists does not change how many there are. *)
Lemma set_loop_size src st st' th :
  ReadLoops.loop src th = Some st -> size (rl_up (set_loop src st' th)) = size (rl_up th).
Proof. destruct src as [|c]; cbn; [done|]. intros H. by rewrite map_size_insert_Some by eauto. Qed.

Lemma reading_set src src' k th : awaits_peer src' th -> awaits_peer src' (set_loop src (Reading k) th).
Proof. intros [j Hj]. unfold awaits_peer. rewrite loop_set. destruct (decide (src' = src)); eauto. Qed.

(** The acknowledgement: the loop reads on, the main loop selects. *)
Lemma acknowledged src k (w : World S) th :
  inside (In src k) w th ->
  exists th', runs_to th th' /\ idle w th'.
Proof.
  intros (Ht & (Hm & Hl & Hc) & Hd & Hu).
  set (th1 := th <| rl_main := Acking src k |>).
  set (th2 := (set_loop src (Reading k) th1) <| rl_main := Selecting |>).
  assert (H1 : main_step th OnMain th1) by (by eapply ms_handled).
  assert (Hl1 : ReadLoops.loop src th1 = Some (AwaitAck k)) by (by destruct src).
  assert (H2 : main_step th1 OnMain th2) by (eapply ms_ack; [done|by destruct src|done]).
  exists th2. split; [eapply runs_trans; by apply runs_main|].
  assert (Hset : forall src', awaits_peer src' th -> awaits_peer src' th2).
  { intros src' Hr. apply (reading_set src src' k) in Hr. by destruct src, src'. }
  assert (Hsrc : awaits_peer src th2).
  { exists k. destruct src as [|c]; cbn; [done|by rewrite lookup_insert_eq]. }
  split_and!.
  - destruct Ht as [T1 T2 T3 T4]. split.
    + by destruct src.
    + rewrite T2. symmetry. change (rl_up th2) with (rl_up (set_loop src (Reading k) th1)).
      by rewrite (set_loop_size _ _ _ _ Hl1).
    + rewrite T3. by destruct src.
    + eapply threads_step; [|by apply by_main]. eapply threads_step; [done|by apply by_main].
  - done.
  - destruct (decide (src = FromDown)) as [->|Hne]; auto.
  - intros c Hcu. assert (Hcu' : rl_upstream th = Some c) by (by destruct src).
    destruct (decide (src = FromUp c)) as [->|Hne]; auto.
Qed.

Lemma concludes_ack P src k e : (lease_effect e || is_closed e) = false -> concludes P (In src k) (ack e).
Proof.
  intros He w th _ Hin. unfold ack, M_bind, fault. cbn.
  set (w1 := MkWorld _ _ _ _ _). assert (Hin1 : inside (In src k) w1 th) by (by apply (inside_seen _ w)).
  destruct (default false (head (w_faults w))); cbn.
  - by apply (inside_leaves (In src k)).
  - apply (acknowledged src k). eapply inside_seen; [|exact Hin1]. by apply (seen_emit e He w1).
Qed.

(** [CloseWithError] and a return. *)
Lemma concludes_close P p sev code msg :
  (forall src k, p = In src k -> src = FromDown) -> concludes P p (CloseWithError sev code msg ;! exit_).
Proof.
  intros Hp w th _ (Ht & Hpl & _). cbn.
  assert (Hst : main_step th OnMain (th <| rl_main := CallsClose ThenLeave |>)).
  { apply ms_close_with_error. destruct p as [|src k]; [left; by destruct Hpl|right].
    rewrite (Hp src k eq_refl) in Hpl. exists k. by destruct Hpl. }
  exists (th <| rl_main := CallsClose ThenLeave |>). split; [by apply runs_main|].
  split; [|right; split; [done|apply elem_of_app; right; left]].
  apply tracked_runs; [|done]. destruct Ht as [T1 T2 T3 T4]. split; cbn; try done.
  - unfold attached_conns in *. rewrite !omap_app, !length_app. cbn. lia.
  - unfold returned_conns in *. rewrite !omap_app, !length_app. cbn. lia.
Qed.

(** ** A release *)

Lemma loop_interrupted c th st :
  c ∈ rl_cancelled th -> rl_up th !! c = Some st ->
  exists th', runs_to th th' /\ rl_up th' = <[c := Finished]> (rl_up th) /\ rl_down th' = rl_down th
    /\ rl_main th' = rl_main th /\ rl_upstream th' = rl_upstream th /\ rl_released th' = rl_released th.
Proof.
  intros Hc Hst.
  assert (Hi : interrupted (FromUp c) th = true).
  { cbn. rewrite bool_decide_eq_true_2 by done. apply orb_true_r. }
  assert (Hby : forall th', read_loop (FromUp c) th OnLoop th' -> runs_to th th').
  { intros th' H. eapply runs_one; [by apply (by_up _ _ _ c)|done]. }
  destruct st as [k|k|k|].
  - eexists. split; [apply Hby; eapply rl_fail; eauto|done].
  - eexists. split; [apply Hby; by eapply rl_not_taken|done].
  - eexists. split; [apply Hby; by eapply rl_not_acked|done].
  - exists th. split_and!; try done; [apply runs_refl|]. by rewrite insert_id.
Qed.

(** The main loop releases the upstream [c]: it waits for the read loop to end
    and gives the connection back. *)
Lemma upstream_released c k (w w' : World S) th :
  inside (In (FromUp c) k) w th -> upstream (w_sess w') = None ->
  attached_conns (w_trace w') = attached_conns (w_trace w) ->
  length (returned_conns (w_trace w')) = Datatypes.S (length (returned_conns (w_trace w))) ->
  exists th', runs_to th th' /\ idle w' th'.
Proof.
  intros (Ht & (Hm & Hl & Hc) & Hd & Hu) Hup Hatt Hret. specialize (Hc c eq_refl).
  set (th1 := begin_release ToSelect th).
  assert (H1 : main_step th OnMain th1) by (by eapply ms_detach).
  assert (E1 : th1 = th <| rl_upstream := None |> <| rl_cancelled ::= fun x => {[c]} ∪ x |> <| rl_main := Releasing c ToSelect |>).
  { unfold th1, begin_release. by rewrite Hc. }
  destruct (loop_interrupted c th1 (AwaitAck k)) as (th2 & Hrun2 & U2 & D2 & M2 & P2 & R2).
  { rewrite E1. cbn. set_solver. }
  { rewrite E1. exact Hl. }
  set (th3 := th2 <| rl_released ::= fun r => {[c]} ∪ r |> <| rl_main := after ToSelect |>).
  assert (H3 : main_step th2 OnMain th3).
  { eapply ms_released; [by rewrite M2, E1|]. cbn. rewrite U2. by rewrite lookup_insert_eq. }
  assert (Hruns : runs_to th th3).
  { eapply runs_trans; [by apply runs_main|]. eapply runs_trans; [done|by apply runs_main]. }
  exists th3. split; [done|]. destruct Ht as [T1 T2 T3 T4].
  assert (Hnew : c ∉ rl_released th).
  { destruct T4 as ((_ & L2 & _) & _). apply (L2 c). unfold held. by rewrite Hm. }
  split_and!.
  - split.
    + split; [intros _|done]. cbn. rewrite P2, E1. done.
    + rewrite Hatt, T2. cbn. rewrite U2, E1. cbn. symmetry. apply map_size_insert_Some. eauto.
    + rewrite Hret, T3. cbn. rewrite R2, E1. cbn. rewrite size_union, size_singleton; [done|]. clear -Hnew. set_solver.
    + by eapply runs_inv.
  - done.
  - destruct (Hd ltac:(done)) as [j Hj]. exists j. cbn. rewrite D2, E1. exact Hj.
  - intros d Hd'. cbn in Hd'. rewrite P2, E1 in Hd'. done.
Qed.

Lemma concludes_release P c k : concludes P (In (FromUp c) k) releaseUpstream.
Proof.
  intros w th _ Hin. unfold releaseUpstream, M_bind, get. cbn.
  destruct (upstream (w_sess w)) as [conn|] eqn:Hup.
  - cbn. destruct (default false (head (w_faults w))); cbn; apply (upstream_released c k w); try done.
    all: cbn; unfold attached_conns, returned_conns; rewrite omap_app; cbn; first [by rewrite app_nil_r|by rewrite length_app, Nat.add_1_r].
  - destruct Hin as ([T1 _ _ _] & (_ & _ & Hc) & _). apply T1 in Hup. by rewrite (Hc c eq_refl) in Hup.
Qed.

(** ** The handlers *)

Ltac conclude_step :=
  lazymatch goal with
  | |- concludes _ _ (M_bind _ _) => apply concludes_bind; [apply tracks_keeps; seen_solve|intros ?]
  | |- concludes _ _ (if ?b then _ else _) => destruct b
  | |- concludes _ _ (match ?x with _ => _ end) => destruct x
  | |- concludes _ _ exit_ => apply concludes_exit
  | |- concludes _ _ (ack _) => by apply concludes_ack
  | |- concludes _ _ releaseUpstream => apply concludes_release
  end.
Ltac conclude := repeat conclude_step.

Lemma concludes_upstream c k msg : concludes any (In (FromUp c) k) (handle_upstream msg).
Proof. unfold handle_upstream, swallow_begin, touch, down_send, down_flush. conclude. Qed.

Lemma from_client k : forall src j, In FromDown k = In src j -> src = FromDown.
Proof. by intros src j [= <- _]. Qed.

Lemma concludes_acquire_failed k err : concludes any (In FromDown k) (acquire_failed err).
Proof.
  unfold acquire_failed, down_send, down_flush. cbn zeta.
  apply concludes_bind; [apply tracks_keeps; seen_solve|intros s]. destruct (pendingBegin s); [conclude|].
  apply concludes_close, from_client.
Qed.

Lemma concludes_downstream k msg : concludes any (In FromDown k) (handle_downstream msg).
Proof.
  unfold handle_downstream. apply concludes_bind; [apply tracks_keeps; unfold touch; seen_solve|intros _].
  destruct msg; try apply concludes_exit; cbn zeta;
    (apply concludes_bind; [apply tracks_keeps; seen_solve|intros prt]);
    (apply concludes_bind; [apply tracks_keeps; seen_solve|intros s]);
    (destruct (String.eqb prt "read" && _);
      [unfold reject_read_port, down_send, down_flush, call_; conclude|]);
    (destruct (is_query _ && _ && _ && _); [unfold buffer_begin, down_send, down_flush; conclude|]);
    (apply concludes_bind;
      [destruct (String.eqb prt "compat");
        [apply tracks_handleCompatSQL, from_client|
         apply tracks_bind; [apply tracks_acquire, from_client|intros ?; apply tracks_keeps; seen_solve]]
      |intros [handled [e|]]; [apply concludes_acquire_failed|conclude]]).
Qed.

(** ** Events *)

(** Runs by what they show: the steps of the peers and of other goroutines. *)
Definition performs (th : Threads) (obs : list ThreadLabel) (th' : Threads) : Prop :=
  exists ls, steps rl_step th ls th' /\ base.filter (fun l => internal l = false) ls = obs.

Lemma performs_internal th th' : runs_to th th' -> performs th [] th'.
Proof.
  intros (ls & Hs & Hi). exists ls. split; [done|]. clear Hs.
  induction Hi as [|l ls Hl Hi IH]; [done|]. by rewrite filter_cons_False; [|congruence].
Qed.

Lemma performs_trans th1 obs1 th2 obs2 th3 :
  performs th1 obs1 th2 -> performs th2 obs2 th3 -> performs th1 (obs1 ++ obs2) th3.
Proof.
  intros (l1 & Hs1 & <-) (l2 & Hs2 & <-). exists (l1 ++ l2). split; [by eapply steps_app|by rewrite filter_app].
Qed.

Lemma performs_one th l th' : rl_step th l th' -> internal l = false -> performs th [l] th'.
Proof. intros Hst Hl. exists [l]. split; [by eapply steps_cons; [|apply steps_nil]|by rewrite filter_cons_True]. Qed.

(** What happens outside the session for an event. *)
Definition outside (e : SessEvent) : ThreadLabel :=
  match e with
  | FromUpstream _ | FromDownstream (Some _) => PeerSends
  | FromDownstream None | LoopError => PeerFails
  | ReleaseRequested | ContextDone => AskedToEnd
  end.

(** The main loop leaves its select after a step from outside. *)
Lemma leaves_select (w : World S) th l th1 th2 :
  tracked w th -> rl_step th l th1 -> internal l = false -> main_step th1 OnMain th2 -> rl_main th2 = Leaving ->
  rl_upstream th2 = rl_upstream th -> rl_up th2 = rl_up th -> rl_released th2 = rl_released th ->
  exists th', performs th [l] th' /\ leaving w th'.
Proof.
  intros [T1 T2 T3 T4] Hst Hl Hm Hlv Hup Hups Hrel. exists th2. split.
  - apply (performs_trans _ [l] th1 []); [by apply performs_one|]. by apply performs_internal, runs_main.
  - split; [|by left]. split; [by rewrite Hup|by rewrite Hups|by rewrite Hrel|].
    eapply threads_step; [|by apply by_main]. by eapply threads_step.
Qed.

(** A message arrives and the main loop takes it. *)
Lemma delivered src (w : World S) th :
  idle w th -> (forall c, src = FromUp c -> rl_upstream th = Some c) ->
  exists k th', performs th [PeerSends] th' /\ inside (In src k) w th'.
Proof.
  intros ([T1 T2 T3 T4] & Hsel & Hd & Hu) Hsrc.
  assert (Hr : awaits_peer src th) by (destruct src as [|c]; auto).
  destruct Hr as [j Hj]. pose (th1 := set_loop src (Offering (Datatypes.S j)) th).
  assert (H1 : read_loop src th PeerSends th1) by (by apply rl_receive).
  assert (Hl1 : ReadLoops.loop src th1 = Some (Offering (Datatypes.S j))).
  { unfold th1. rewrite loop_set. by rewrite decide_True. }
  pose proof (ms_recv th1 src (Datatypes.S j)) as H2. rewrite Hl1 in H2.
  specialize (H2 ltac:(by destruct src) eq_refl).
  set (th2 := put_field _ _) in H2. exists (Datatypes.S j), th2.
  assert (Hst1 : rl_step th PeerSends th1) by (destruct src as [|c]; [by apply by_down|by apply (by_up _ _ _ c)]).
  assert (Hother : forall src', src' <> src -> awaits_peer src' th -> awaits_peer src' th2).
  { intros src' Hne [i Hi]. exists i. transitivity (ReadLoops.loop src' (set_loop src (AwaitAck (Datatypes.S j)) th1)).
    { by destruct src'. }
    unfold th1. rewrite !loop_set, !decide_False by done. done. }
  split; [|split_and!].
  - apply (performs_trans _ [PeerSends] th1 []); [by apply performs_one|]. by apply performs_internal, runs_main.
  - split.
    + rewrite T1. by destruct src.
    + rewrite T2. symmetry. transitivity (size (rl_up th1)).
      * apply (set_loop_size src (Offering (Datatypes.S j))). exact Hl1.
      * by eapply set_loop_size.
    + rewrite T3. by destruct src.
    + eapply threads_step; [|by apply by_main]. by eapply threads_step.
  - split; [by destruct src|]. split.
    + transitivity (ReadLoops.loop src (set_loop src (AwaitAck (Datatypes.S j)) th1)); [by destruct src|].
      rewrite loop_set. by rewrite decide_True.
    + intros c Hc. specialize (Hsrc c Hc). by destruct src.
  - split; [intros Hne; by apply Hother|].
    intros c Hc Hne. apply Hother; [done|]. apply Hu. by destruct src.
Qed.

(** One event: what happens outside, then the handler. *)
Definition occurs (e : SessEvent) (w : World S) : Prop :=
  match e with FromUpstream _ => is_Some (upstream (w_sess w)) | ReleaseRequested => False | _ => True end.

Lemma event_simulated e (w : World S) th :
  idle w th -> occurs e w ->
  match handle_event e w with
  | (Val _, w') => exists th', performs th [outside e] th' /\ idle w' th'
  | (Exit, w') => exists th', performs th [outside e] th' /\ leaving w' th'
  | (Panic, _) => True
  end.
Proof.
  intros Hidle Hocc.
  assert (Hmsg : forall src (m : M S unit), outside e = PeerSends ->
    (forall c, src = FromUp c -> rl_upstream th = Some c) -> (forall k, concludes any (In src k) m) ->
    match m w with
    | (Val _, w') => exists th', performs th [outside e] th' /\ idle w' th'
    | (Exit, w') => exists th', performs th [outside e] th' /\ leaving w' th'
    | (Panic, _) => True
    end).
  { intros src m -> Hsrc Hm. destruct (delivered src w th Hidle Hsrc) as (k & th1 & Hp1 & Hin).
    specialize (Hm k w th1 I Hin). destruct (m w) as [[u| |] w']; [| |done].
    all: destruct Hm as (th2 & Hrun & Hend); exists th2; split; [|done].
    all: apply (performs_trans _ [PeerSends] th1 []); [done|by apply performs_internal]. }
  destruct Hidle as (Ht & Hsel & [j Hj] & Hu).
  assert (Hfail := rl_fail FromDown th j PeerFails Hj (or_intror eq_refl)).
  destruct e as [m|[m|]| | |].
  - cbn in Hocc. destruct (rl_upstream th) as [c|] eqn:Hc.
    + apply (Hmsg (FromUp c)); [done|by intros d [= <-]|]. intros k. apply concludes_upstream.
    + destruct Ht as [T1 _ _ _]. apply T1 in Hc. rewrite Hc in Hocc. by destruct Hocc.
  - apply (Hmsg FromDown); [done..|]. intros k. apply concludes_downstream.
  - eapply leaves_select; [done|by apply by_down|done|by apply ms_down_closed|done..].
  - destruct (rl_ctxDone th) eqn:Hctx.
    + eapply leaves_select; [done|by apply by_down|done|by apply ms_ctx|done..].
    + eapply leaves_select; [done|by apply by_down|done|apply ms_err; [done|]|done..].
      cbn. rewrite Hctx. apply orb_true_r.
  - done.
  - eapply leaves_select; [done|apply by_close, cs_server_done|done|by apply ms_ctx|done..].
Qed.

(** ** The whole session *)

(** The events a session can see: an upstream message only while it holds an
    upstream, and no request to release before it is closed. *)
Fixpoint possible (es : list (SessEvent * (S -> S))) (w : World S) : Prop :=
  match es with
  | [] => True
  | (e, other) :: es =>
    let w1 := MkWorld (w_sess w) (other (w_srv w)) (w_trace w) (w_faults w) (w_clock w) in
    occurs e w1 /\ match handle_event e w1 with (Val _, w2) => possible es w2 | _ => True end
  end.

Definition observed (es : list (SessEvent * (S -> S))) : list ThreadLabel := (fun e => outside e.1) <$> es.

Lemma loop_simulated es : forall (w : World S) th, idle w th -> possible es w ->
  match Session.loop es w with
  | (Val _, w') => exists th', performs th (observed es) th' /\ idle w' th'
  | (Exit, w') => exists n th', performs th (observed (take n es)) th' /\ leaving w' th'
  | (Panic, _) => True
  end.
Proof.
  induction es as [|[e other] es IH]; intros w th Hidle Hposs; cbn.
  { exists th. split; [by apply performs_internal, runs_refl|done]. }
  cbn in Hposs. unfold M_bind. set (w1 := MkWorld _ _ _ _ _) in *. destruct Hposs as [Hocc Hposs].
  assert (Hidle1 : idle w1 th).
  { destruct Hidle as (Ht & Hrest). split; [by apply (tracked_seen w)|done]. }
  pose proof (event_simulated e w1 th Hidle1 Hocc) as Hev.
  destruct (handle_event e w1) as [[u| |] w2]; [| |done].
  - destruct Hev as (th1 & Hp1 & Hidle2). specialize (IH w2 th1 Hidle2 Hposs).
    destruct (Session.loop es w2) as [[u'| |] w3]; [| |done].
    + destruct IH as (th2 & Hp2 & Hend). exists th2. split; [by apply (performs_trans _ [_] th1)|done].
    + destruct IH as (n & th2 & Hp2 & Hend). exists (Datatypes.S n), th2.
      split; [by apply (performs_trans _ [_] th1)|done].
  - destruct Hev as (th1 & Hp1 & Hend). exists 1%nat, th1. split; [|done]. cbn. by rewrite take_0.
Qed.

Lemma boot_only : forall src k, Boot = In src k -> src = FromDown.
Proof. done. Qed.

(** The last step of the setup: the loops start. *)
Lemma concludes_started P : concludes P Boot (modify (fun s => s <| loopsStarted := true |>)).
Proof.
  intros w th _ ([T1 T2 T3 T4] & [Hm Hctx] & Hu). cbn.
  pose proof (ms_start th Hm Hctx) as Hst. eexists. split; [by apply runs_main|].
  split_and!; [|done|by exists 0%nat|done].
  split; [done..|]. eapply threads_step; [done|by apply by_main].
Qed.

(** The end of a session in the middle of the setup. *)
Lemma tracks_close p sev code msg :
  (forall src k, p = In src k -> src = FromDown) -> tracks (A := unit) any p (CloseWithError sev code msg ;! exit_).
Proof.
  intros Hp w th HP Hin. destruct (concludes_close any p sev code msg Hp w th HP Hin) as (th' & Hrun & Hl).
  exists th'. split; [done|by right].
Qed.

Lemma concludes_start startup authErr mode ports : concludes any Boot (start startup authErr mode ports).
Proof.
  unfold start. destruct startup as [e|u]; [apply concludes_exit|].
  destruct authErr as [err|]; [apply concludes_close, boot_only|].
  apply concludes_bind; [apply tracks_keeps; seen_solve|intros prt].
  apply concludes_bind.
  { apply tracks_keeps, seen_modify. intros s. unfold configure. by repeat case_match. }
  intros _. apply concludes_bind; [apply tracks_keeps; seen_solve|intros s].
  apply concludes_bind.
  { case_bool_decide; [|by apply tracks_keeps, keeps_ret].
    apply tracks_bind; [apply tracks_acquire, boot_only|intros [e|]]; [apply tracks_close, boot_only|].
    by apply tracks_keeps, keeps_ret. }
  intros _. unfold down_send.
  repeat first [apply concludes_started|conclude_step].
Qed.

Lemma initially (w : World S) : upstream (w_sess w) = None -> w_trace w = [] -> inside Boot w rl_init.
Proof.
  intros Hu Htr. split_and!; [|done|done]. split; cbn.
  - done.
  - by rewrite Htr, map_size_empty.
  - by rewrite Htr, size_empty.
  - eapply threads_reachable, steps_nil.
Qed.

(** ** The end of a session *)

Lemma calling_ends (th : Threads) next :
  threads_inv th -> rl_main th = CallsClose next -> exists th', runs_to th th' /\ ended th'.
Proof.
  intros Hi Hm. destruct (decide (rl_once th = OnceFree)) as [Ho|Ho]; [|by apply closing_ends].
  assert (Hst : rl_step th OnClose (th <| rl_once := RequestRelease |>)) by (by eapply by_close, cs_call).
  destruct (closing_ends (th <| rl_once := RequestRelease |>)) as (th' & Hrun & Hend); [by eapply threads_step|done|].
  exists th'. split; [by eapply runs_step|done].
Qed.

(** [Run] returns: its deferred release waits for the read loop, and [Close]
    ends the rest. *)
Lemma leaving_ends (w : World S) th : leaving w th -> exists th', runs_to th th' /\ ended th'.
Proof.
  intros [[_ _ _ Hi] [Hm|[Hm _]]]; [|by eapply calling_ends].
  pose proof (ms_leave th Hm) as Hst. assert (Hi1 := threads_step _ _ _ Hi (by_main _ _ _ Hst)).
  unfold begin_release in *. destruct (rl_upstream th) as [c|] eqn:Hc.
  - destruct Hi as ((_ & L2 & _) & _). destruct (L2 c) as [[st Hl] _]; [unfold held; by rewrite Hm|].
    set (th1 := put_field _ _) in *.
    destruct (loop_interrupted c th1 st) as (th2 & R2 & U2 & _ & M2 & _ & _); [set_solver|done|].
    assert (Hst3 := ms_released th2 c ToClose M2). cbn in Hst3. rewrite U2, lookup_insert_eq in Hst3.
    specialize (Hst3 eq_refl). assert (Hi2 := runs_inv _ _ R2 Hi1).
    edestruct calling_ends as (th' & R4 & Hend); [exact (threads_step _ _ _ Hi2 (by_main _ _ _ Hst3))|done|].
    exists th'. split; [|done]. eapply runs_trans; [by apply runs_main|]. eapply runs_trans; [done|].
    eapply runs_trans; [by apply runs_main|done].
  - edestruct calling_ends as (th' & R4 & Hend); [exact Hi1|done|].
    exists th'. split; [|done]. eapply runs_trans; [by apply runs_main|done].
Qed.

End simulation.


