(* ===== verification/Proxy.v ===== *)
(** * Proxy: one listen port (internal/server/proxy/proxy.go)

    The proxy turns a session's requests into leases of the routing pipeline,
    and admits client connections up to a limit.  It implements the interface
    [ProxyServer] that the sessions use, and the laws the sessions rely on are
    proved here from the properties of routing.  What a call reads from the
    clock, the pools and the iteration orders comes from an oracle, one answer
    per call; the topology does not change during a call. *)

From stdpp Require Import base gmap strings list.
From Stdlib Require Import ZArith Lia Ascii.
From S2P Require Import Prelude Types Classifier Topology Decisions Policy Messaging Routing Session.

Local Open Scope string_scope.
Local Open Scope Z_scope.
Local Open Scope list_scope.

(** ** State *)

(** What one call sees: the iteration orders, the instants of the lease and of
    the later look at the node's role, the pools, and what [Publish] draws. *)
Record Oracle := MkOracle {
  or_ord : list NodeID;
  or_now : Time;
  or_role_now : Time;
  or_acquire : Manager -> error + Conn;
  or_since : Duration;
  or_subs : list Z;
  or_ulid : string
}.

Record PortSettings := MkPortSettings { ps_ListenAddr : string; ps_PoolMode : string }.

Record Proxy := MkProxy {
  prx_port : string;
  prx_ports : gmap string PortSettings;
  prx_topo : option Topology;
  prx_pipeline : option Pipeline;
  prx_oracle : nat -> Oracle;
  prx_calls : nat
}.
#[export] Instance Proxy_eta : Eta Proxy := fun p =>
  MkProxy (prx_port p) (prx_ports p) (prx_topo p) (prx_pipeline p) (prx_oracle p) (prx_calls p).

Definition listenAddr (prx : Proxy) : error + string :=
  match prx_ports prx !! prx_port prx with
  | Some pc => inr (ps_ListenAddr pc)
  | None => inl (OtherError ("no config for port " +:+ prx_port prx) None)
  end.

Definition proxy_poolMode (prx : Proxy) : string :=
  match prx_ports prx !! prx_port prx with
  | None => "session"
  | Some pc => ps_PoolMode pc
  end.

(** The answers to the next call. *)
Definition next_call (prx : Proxy) : Oracle * Proxy :=
  (prx_oracle prx (prx_calls prx), prx <| prx_calls ::= Datatypes.S |>).

Definition call_env (t : Topology) (o : Oracle) : LeaseEnv :=
  quiet_env t (or_ord o) (or_now o) (or_acquire o) (or_since o) (or_subs o) (or_ulid o).

(** A rejection reads only what [Publish] needs. *)
Definition publish_env (o : Oracle) : LeaseEnv := call_env NewEmpty o.

(** ** Leases *)

Definition lease_type (port poolMode : string) : string :=
  if String.eqb port "write" then poolMode
  else if String.eqb port "read" then
    if String.eqb poolMode "session" then "session" else "transaction"
  else if String.eqb port "compat" then "transaction"
  else "".

Definition lease_request (prx : Proxy) (sql : string) (active : bool) (remaining : Z) : LeaseRequest :=
  let poolMode := proxy_poolMode prx in
  MkLeaseRequest (prx_port prx) poolMode (lease_type (prx_port prx) poolMode) sql active remaining.

(** The role of the leased node as it is observed after the lease. *)
Definition role_of (t : Topology) (now : Time) (id : NodeID) : string :=
  match Node t now id with
  | Some nv => Role_String (nv_ObservedRole nv)
  | None => "unknown"
  end.

(** Without a pipeline: a connection to the primary. *)
Definition acquire_direct (t : Topology) (o : Oracle) : error + UpstreamLease :=
  match Primary t (or_ord o) (or_now o) with
  | None => inl (ProxyError "57P03" "[grunyas] no primary available" None)
  | Some primary =>
    match PoolFor t (nv_ID primary) with
    | inl err => inl (ProxyError "57P03" "[grunyas] no primary available" (Some err))
    | inr mgr =>
      match or_acquire o mgr with
      | inl err => inl (ProxyError "53300" "[grunyas] pool saturated" (Some err))
      | inr c => inr (MkUpstreamLease c (nv_ID primary) (Role_String (nv_ObservedRole primary)))
      end
    end
  end.

(** [None] is a panic: of the pipeline, or of a pipeline without a topology. *)
Definition acquireUpstreamLeaseWithSQL (sql : string) (active : bool) (remaining : Z) (prx : Proxy)
  : option ((error + UpstreamLease) * Proxy) :=
  let '(o, prx) := next_call prx in
  match prx_pipeline prx, prx_topo prx with
  | None, None => Some (inl (ProxyError "57P03" "[grunyas] no primary available" None), prx)
  | None, Some t => Some (acquire_direct t o, prx)
  | Some _, None => None
  | Some pipe, Some t =>
    match Lease (call_env t o) (lease_request prx sql active remaining) pipe with
    | None => None
    | Some (result, pipe') =>
      let prx' := prx <| prx_pipeline := Some pipe' |> in
      match res_Error result, res_Upstream result with
      | Some err, _ => Some (inl err, prx')
      | None, Some c =>
        Some (inr (MkUpstreamLease c (res_NodeID result)
                     (role_of t (or_role_now o) (res_NodeID result))), prx')
      | None, None => None
      end
    end
  end.

Definition acquireUpstreamWithSQL (sql : string) (prx : Proxy) : option ((error + Conn) * Proxy) :=
  match acquireUpstreamLeaseWithSQL sql false 0 prx with
  | None => None
  | Some (inl err, prx') => Some (inl err, prx')
  | Some (inr lease, prx') => Some (inr (lease_Client lease), prx')
  end.

Definition AcquireUpstream : Proxy -> option ((error + Conn) * Proxy) := acquireUpstreamWithSQL "".
Definition AcquireUpstreamForSQL : string -> Proxy -> option ((error + Conn) * Proxy) :=
  acquireUpstreamWithSQL.
Definition AcquireUpstreamLease : string -> bool -> Z -> Proxy -> option ((error + UpstreamLease) * Proxy) :=
  acquireUpstreamLeaseWithSQL.

(** ** Rejections: the event, and the proxy after it *)

Definition prx_RejectReadPortWrite (sql poolMode : string) (prx : Proxy) : option (Event * Proxy) :=
  let '(o, prx) := next_call prx in
  match prx_pipeline prx with
  | None => Some (read_port_write_event sql poolMode, prx)
  | Some pipe =>
    match RejectReadPortWrite (publish_env o) sql poolMode pipe with
    | None => None
    | Some (e, pipe') => Some (e, prx <| prx_pipeline := Some pipe' |>)
    end
  end.

(** Without a pipeline the event carries no schema version. *)
Definition prx_RejectCompatReclassification (sql poolMode : string) (prx : Proxy) : option (Event * Proxy) :=
  let '(o, prx) := next_call prx in
  match prx_pipeline prx with
  | None => Some ((compat_reclassification_event sql poolMode) <| ev_SchemaVersion := "" |>, prx)
  | Some pipe =>
    match RejectCompatReclassification (publish_env o) sql poolMode pipe with
    | None => None
    | Some (e, pipe') => Some (e, prx <| prx_pipeline := Some pipe' |>)
    end
  end.

Definition drop_event {A} (r : option (A * Proxy)) : option Proxy :=
  match r with Some (_, prx) => Some prx | None => None end.

#[export] Instance Proxy_server : ProxyServer Proxy := {|
  srv_Port := prx_port;
  srv_AcquireUpstream := AcquireUpstream;
  srv_AcquireUpstreamLease := AcquireUpstreamLease;
  srv_RejectReadPortWrite sql mode prx := drop_event (prx_RejectReadPortWrite sql mode prx);
  srv_RejectCompatReclassification sql mode prx :=
    drop_event (prx_RejectCompatReclassification sql mode prx)
|}.

(** The statistics of the primary's pool. *)
Definition PoolStats_ (prx : Proxy) (ord : list NodeID) (now : Time) (stats : Manager -> PoolStats) : PoolStats :=
  match prx_topo prx with
  | None => MkPoolStats 0 0 0 0
  | Some t =>
    match Primary t ord now with
    | None => MkPoolStats 0 0 0 0
    | Some primary =>
      match PoolFor t (nv_ID primary) with
      | inl _ => MkPoolStats 0 0 0 0
      | inr mgr => stats mgr
      end
    end
  end.

(** ** The laws the sessions rely on *)

(** The proxy's invariant: it has a pipeline on a topology, the oracle answers
    with orders of the maps there are, and the bus is in order. *)
Definition oracle_ok (t : Topology) (bus : option Bus) (o : Oracle) : Prop :=
  map_order (nodes t) (or_ord o) /\
  match bus with Some b => sub_order b (or_subs o) | None => True end.

Definition proxy_inv (prx : Proxy) : Prop :=
  exists t pipe, prx_topo prx = Some t /\ prx_pipeline prx = Some pipe /\
    match decisionsBus pipe with Some b => bus_inv b | None => True end /\
    forall n, oracle_ok t (decisionsBus pipe) (prx_oracle prx n).

Lemma oracle_ready t pipe o :
  match decisionsBus pipe with Some b => bus_inv b | None => True end ->
  oracle_ok t (decisionsBus pipe) o -> bus_ready (call_env t o) pipe.
Proof. intros Hb [_ Ho]. unfold bus_ready. by destruct (decisionsBus pipe). Qed.

(** A decision leaves the subscribers of the bus as they are. *)
Lemma settled_inv prx t pipe pipe' calls :
  prx_topo prx = Some t ->
  (forall n, oracle_ok t (decisionsBus pipe) (prx_oracle prx n)) ->
  published pipe pipe' ->
  proxy_inv (prx <| prx_calls := calls |> <| prx_pipeline := Some pipe' |>).
Proof.
  intros Ht Ho Hp. exists t, pipe'. split; [exact Ht|]. split; [done|]. unfold published in Hp.
  destruct (decisionsBus pipe) as [b|] eqn:Eb, (decisionsBus pipe') as [b'|] eqn:Eb'; try done.
  - destruct Hp as (Hinv & Hsub & _). split; [done|]. intros n. destruct (Ho n) as [H1 H2].
    split; [done|]. unfold sub_order in *. by rewrite Hsub.
Qed.

(** A lease whose node is seen as a replica afterwards was taken for a read
    outside the window. *)
Lemma granted_replica t o req pipe r later :
  map_order (nodes t) (or_ord o) -> req_Port req = "compat" -> isValidPort (req_Port req) = true ->
  granted (call_env t o) req pipe r -> role_of t later (res_NodeID r) = "replica" ->
  req_PostWriteWindowActive req = false /\ cls_Type (classify "compat" (req_SQL req)) <> TypeWrite.
Proof.
  intros Hord Hport Hv (mgr & conn & _ & _ & _ & _ & Hcase) Hrole.
  unfold role_of, Node in Hrole.
  destruct (nodes t !! res_NodeID r) as [ns|] eqn:Hns; [|done]. cbn in Hrole.
  assert (Hrep : observedRole ns = RoleReplica).
  { destruct (stale later _ _); [done|]. by destruct (observedRole ns). }
  destruct Hcase as [(_ & Hin & _)|(_ & _ & _ & _ & pv & Hpv & Hid)].
  - apply eligible_spec in Hin as (nv & Hnv & Hid & Hs); [|done].
    destruct (quiet_nodes _ _ _ _ _ _ _ nv Hord Hnv) as (ns' & Hns' & Hview).
    rewrite Hid, Hns in Hns'. injection Hns' as <-. destruct Hs as (_ & Hreq & _).
    rewrite Hview in Hreq. cbn in Hreq. unfold required_role in Hreq. rewrite Hport in Hreq.
    cbn in Hreq. rewrite Hrep in Hreq.
    destruct (stale _ _ _), (cls_Type (classify "compat" (req_SQL req))),
      (req_PostWriteWindowActive req); try done.
  - cbn in Hpv. unfold Primary in Hpv.
    destruct (primary_loop _ None) as [[id0 ns0]|] eqn:Eloop; [|done].
    apply primary_loop_visit in Eloop as (Hin0 & Hp0 & _); [|done]. injection Hpv as <-.
    cbn in Hid. subst id0. rewrite Hns in Hin0. injection Hin0 as <-.
    unfold is_primary in Hp0. rewrite Hrep in Hp0. by rewrite andb_false_r in Hp0.
Qed.

Lemma acquire_lease_spec sql act rem prx :
  proxy_inv prx ->
  exists r prx', acquireUpstreamLeaseWithSQL sql act rem prx = Some (r, prx') /\
    proxy_inv prx' /\ prx_port prx' = prx_port prx /\
    (forall lease, r = inr lease -> prx_port prx = "compat" -> lease_Role lease = "replica" ->
       act = false /\ cls_Type (classify "compat" sql) <> TypeWrite).
Proof.
  intros (t & pipe & Ht & Hpipe & Hbus & Ho). unfold acquireUpstreamLeaseWithSQL, next_call.
  set (o := prx_oracle prx (prx_calls prx)). cbn [prx_pipeline prx_topo].
  change (prx_pipeline (prx <| prx_calls ::= Datatypes.S |>)) with (prx_pipeline prx).
  change (prx_topo (prx <| prx_calls ::= Datatypes.S |>)) with (prx_topo prx).
  rewrite Hpipe, Ht. set (req := lease_request _ sql act rem).
  pose proof (oracle_ready t pipe o Hbus (Ho _)) as Hready.
  destruct (Lease_spec (call_env t o) req pipe Hready) as (r & pipe' & HL & Hset & Hg).
  rewrite HL. destruct Hset as (_ & _ & Hpub & _).
  assert (Hinv : proxy_inv (prx <| prx_calls ::= Datatypes.S |> <| prx_pipeline := Some pipe' |>)).
  { exact (settled_inv prx t pipe pipe' (Datatypes.S (prx_calls prx)) Ht Ho Hpub). }
  destruct Hg as [[Hv Hg]|(Hnone & code & msg & cause & He & _)].
  - pose proof Hg as (mgr & conn & Hup & Herr & _ & _ & _). rewrite Herr, Hup.
    do 2 eexists. split; [reflexivity|]. split; [exact Hinv|]. split; [done|].
    intros lease [= <-] Hport Hrole. cbn in Hrole.
    exact (granted_replica t o req pipe r (or_role_now o) (proj1 (Ho _)) Hport Hv Hg Hrole).
  - rewrite He. do 2 eexists. split; [reflexivity|]. split; [exact Hinv|]. by split.
Qed.

Lemma AcquireUpstream_spec prx :
  proxy_inv prx ->
  exists r prx', AcquireUpstream prx = Some (r, prx') /\ proxy_inv prx' /\ prx_port prx' = prx_port prx.
Proof.
  intros Hinv. unfold AcquireUpstream, acquireUpstreamWithSQL.
  destruct (acquire_lease_spec "" false 0 prx Hinv) as ([e|l] & prx' & -> & Hi & Hp & _);
    do 2 eexists; by split_and!.
Qed.

Lemma reject_read_spec sql mode prx :
  proxy_inv prx ->
  exists e prx', prx_RejectReadPortWrite sql mode prx = Some (e, prx') /\ proxy_inv prx' /\
    prx_port prx' = prx_port prx.
Proof.
  intros (t & pipe & Ht & Hpipe & Hbus & Ho). unfold prx_RejectReadPortWrite, next_call.
  change (prx_pipeline (prx <| prx_calls ::= Datatypes.S |>)) with (prx_pipeline prx). rewrite Hpipe.
  set (o := prx_oracle prx (prx_calls prx)).
  assert (Hready : bus_ready (publish_env o) pipe) by exact (oracle_ready t pipe o Hbus (Ho _)).
  destruct (RejectReadPortWrite_spec (publish_env o) sql mode pipe Hready) as (e & pipe' & -> & Hset).
  destruct Hset as (_ & _ & Hpub & _). do 2 eexists. split; [reflexivity|]. split; [|done].
  exact (settled_inv prx t pipe pipe' (Datatypes.S (prx_calls prx)) Ht Ho Hpub).
Qed.

Lemma reject_compat_spec sql mode prx :
  proxy_inv prx ->
  exists e prx', prx_RejectCompatReclassification sql mode prx = Some (e, prx') /\ proxy_inv prx' /\
    prx_port prx' = prx_port prx.
Proof.
  intros (t & pipe & Ht & Hpipe & Hbus & Ho). unfold prx_RejectCompatReclassification, next_call.
  change (prx_pipeline (prx <| prx_calls ::= Datatypes.S |>)) with (prx_pipeline prx). rewrite Hpipe.
  set (o := prx_oracle prx (prx_calls prx)).
  assert (Hready : bus_ready (publish_env o) pipe) by exact (oracle_ready t pipe o Hbus (Ho _)).
  destruct (RejectCompat_spec (publish_env o) sql mode pipe Hready) as (e & pipe' & -> & Hset).
  destruct Hset as (_ & _ & Hpub & _). do 2 eexists. split; [reflexivity|]. split; [|done].
  exact (settled_inv prx t pipe pipe' (Datatypes.S (prx_calls prx)) Ht Ho Hpub).
Qed.

#[export] Instance Proxy_laws : ProxyLaws Proxy.
Proof.
  refine {| srv_inv := proxy_inv |}.
  - apply AcquireUpstream_spec.
  - intros sql act rem prx Hinv.
    destruct (acquire_lease_spec sql act rem prx Hinv) as (r & prx' & Heq & Hi & Hp & _).
    by exists r, prx'.
  - intros sql mode prx Hinv. destruct (reject_read_spec sql mode prx Hinv) as (e & prx' & Heq & Hi & Hp).
    exists prx'. split_and!; [|done..].
    change (drop_event (prx_RejectReadPortWrite sql mode prx) = Some prx'). by rewrite Heq.
  - intros sql mode prx Hinv. destruct (reject_compat_spec sql mode prx Hinv) as (e & prx' & Heq & Hi & Hp).
    exists prx'. split_and!; [|done..].
    change (drop_event (prx_RejectCompatReclassification sql mode prx) = Some prx'). by rewrite Heq.
  - intros sql act rem prx lease prx' Hinv Hport Heq Hrole.
    destruct (acquire_lease_spec sql act rem prx Hinv) as (r & prx1 & Heq1 & _ & _ & Hrep).
    change (acquireUpstreamLeaseWithSQL sql act rem prx = Some (inr lease, prx')) in Heq.
    rewrite Heq1 in Heq.
    apply Some_pair_inj in Heq as [-> ->]. by apply (Hrep lease).
Defined.

(** ** Admission of client connections

    Many connections arrive at once.  Each loads the counter of
    [canAcceptNewConnection] and tries to replace it; an admitted one runs its
    session and gives its place back when the session ends. *)

Inductive ConnState := Arrived | Loaded (cur : Z) | Running | Refused | Finished.
#[export] Instance ConnState_eq_dec : EqDecision ConnState.
Proof. solve_decision. Defined.

Record Admission := MkAdmission {
  currentConnectionsCount : Z;
  lifetimeConnectionsCount : Z;
  conns : gmap Z ConnState
}.
#[export] Instance Admission_eta : Eta Admission := fun a =>
  MkAdmission (currentConnectionsCount a) (lifetimeConnectionsCount a) (conns a).

Definition set_conn (id : Z) (st : ConnState) (a : Admission) : Admission :=
  a <| conns ::= <[id := st]> |>.

Inductive admission_step (MaxSessions : Z) : Admission -> Z -> Admission -> Prop :=
| adm_arrive a id : conns a !! id = None -> admission_step MaxSessions a id (set_conn id Arrived a)
| adm_unlimited a id :
    conns a !! id = Some Arrived -> MaxSessions <= 0 ->
    admission_step MaxSessions a id
      ((set_conn id Running a) <| lifetimeConnectionsCount ::= fun n => n + 1 |>)
| adm_load a id :
    conns a !! id = Some Arrived -> 0 < MaxSessions ->
    admission_step MaxSessions a id (set_conn id (Loaded (currentConnectionsCount a)) a)
| adm_refuse a id cur :
    conns a !! id = Some (Loaded cur) -> cur >= MaxSessions ->
    admission_step MaxSessions a id (set_conn id Refused a)
| adm_swap a id cur :
    conns a !! id = Some (Loaded cur) -> cur < MaxSessions -> currentConnectionsCount a = cur ->
    admission_step MaxSessions a id
      ((set_conn id Running a) <| currentConnectionsCount := cur + 1 |>
         <| lifetimeConnectionsCount ::= fun n => n + 1 |>)
| adm_retry a id cur :
    conns a !! id = Some (Loaded cur) -> cur < MaxSessions -> currentConnectionsCount a <> cur ->
    admission_step MaxSessions a id (set_conn id Arrived a)
| adm_finish a id :
    conns a !! id = Some Running ->
    admission_step MaxSessions a id
      ((set_conn id Finished a) <| currentConnectionsCount ::= fun n => n - 1 |>).

Definition no_conns : Admission := MkAdmission 0 0 ∅.

Definition admitted (a : Admission) : Z :=
  Z.of_nat (size (filter (fun e => e.2 = Running) (conns a))).

Lemma admitted_set a id st :
  conns a !! id <> Some Running ->
  admitted (set_conn id st a) = admitted a + (if bool_decide (st = Running) then 1 else 0).
Proof.
  intros Hne. unfold admitted, set_conn. cbn.
  assert (Hout : filter (fun e => e.2 = Running) (conns a) !! id = None).
  { apply map_lookup_filter_None. right. intros x Hx Hp. cbn in Hp. by subst x. }
  case_bool_decide as Hst.
  - rewrite map_filter_insert_True by done. rewrite map_size_insert_None by done. lia.
  - rewrite map_filter_insert_False by done. rewrite map_filter_delete, delete_id by done. lia.
Qed.

Lemma admitted_set_other a id st :
  conns a !! id <> Some Running -> st <> Running -> admitted (set_conn id st a) = admitted a.
Proof. intros H Hst. rewrite admitted_set, bool_decide_eq_false_2 by done. lia. Qed.

Lemma admitted_finish a id :
  conns a !! id = Some Running -> admitted (set_conn id Finished a) = admitted a - 1.
Proof.
  intros H. unfold admitted, set_conn. cbn. rewrite map_filter_insert_False by done.
  rewrite map_filter_delete, map_size_delete_Some.
  - assert (Hin : filter (fun e => e.2 = Running) (conns a) !! id = Some Running).
    { by apply map_lookup_filter_Some. }
    assert (Hpos : size (filter (fun e => e.2 = Running) (conns a)) <> 0%nat).
    { intros Hz. apply map_size_empty_inv in Hz. rewrite Hz in Hin. by rewrite lookup_empty in Hin. }
    lia.
  - eexists. by apply map_lookup_filter_Some.
Qed.

Lemma admitted_conns a b : conns a = conns b -> admitted a = admitted b.
Proof. unfold admitted. by intros ->. Qed.

Definition admission_inv (MaxSessions : Z) (a : Admission) : Prop :=
  currentConnectionsCount a = admitted a /\ admitted a <= MaxSessions.

Lemma admission_step_inv MaxSessions a id a' :
  0 < MaxSessions -> admission_inv MaxSessions a -> admission_step MaxSessions a id a' ->
  admission_inv MaxSessions a'.
Proof.
  intros Hmax [Hcount Hle] Hst. unfold admission_inv.
  destruct Hst as [a id H|a id H|a id H|a id cur H|a id cur H Hlt Heq|a id cur H|a id H]; try lia;
    try (rewrite !admitted_set_other by (done || by rewrite H); done).
  - match goal with |- context [admitted ?x] => rewrite !(admitted_conns x (set_conn id Running a)) by done end.
    rewrite admitted_set, bool_decide_eq_true_2 by (done || by rewrite H). cbn. lia.
  - match goal with |- context [admitted ?x] => rewrite !(admitted_conns x (set_conn id Finished a)) by done end.
    rewrite (admitted_finish a id H). cbn. lia.
Qed.

(** ** Properties *)

(** C26: Admission never exceeds its limit: under every interleaving of
    connections that arrive, load the counter, try to swap it, are refused,
    retry and end, the counter of current connections is the number of
    sessions running, and that is at most [MaxSessions]. *)
Theorem admission_bounded (MaxSessions : Z) (ids : list Z) (a : Admission) :
  0 < MaxSessions -> steps (admission_step MaxSessions) no_conns ids a ->
  currentConnectionsCount a = admitted a /\ admitted a <= MaxSessions.
Proof.
  intros Hmax. apply (steps_invariant (admission_step MaxSessions) (admission_inv MaxSessions)).
  - split; [done|]. change (0 <= MaxSessions). lia.
  - intros a1 id a2. by apply admission_step_inv.
Qed.

(** Two connections race for one place. *)
Definition demo_race : Admission :=
  MkAdmission 1 1 (<[2 := Refused]> (<[1 := Running]> ∅)).

Lemma demo_race_run : steps (admission_step 1) no_conns [1; 2; 1; 2; 1; 2; 2; 2] demo_race.
Proof.
  eapply steps_cons; [by apply adm_arrive|]. eapply steps_cons; [by apply adm_arrive|].
  eapply steps_cons; [by apply adm_load|]. eapply steps_cons; [by apply adm_load|].
  eapply steps_cons; [by eapply adm_swap|]. eapply steps_cons; [by eapply adm_retry|].
  eapply steps_cons; [by apply adm_load|].
  eapply steps_cons; [by eapply adm_refuse|].
  replace demo_race with (set_conn 2 Refused (set_conn 2 (Loaded 1) (set_conn 2 Arrived
    ((set_conn 1 Running (set_conn 2 (Loaded 0) (set_conn 1 (Loaded 0)
       (set_conn 2 Arrived (set_conn 1 Arrived no_conns)))))
      <| currentConnectionsCount := 0 + 1 |> <| lifetimeConnectionsCount ::= fun n => n + 1 |>)))).
  - apply steps_nil.
  - by vm_compute.
Qed.

Lemma admission_bounded_witness :
  currentConnectionsCount demo_race = admitted demo_race /\ admitted demo_race <= 1.
Proof. apply (admission_bounded 1 [1; 2; 1; 2; 1; 2; 2; 2] demo_race); [lia|exact demo_race_run]. Defined.

(** Without a limit connections are never counted in, but they are counted
    out: the counter of current connections goes below zero. *)
Theorem unlimited_counter_goes_negative :
  exists ids a, steps (admission_step 0) no_conns ids a /\ currentConnectionsCount a = -1.
Proof.
  exists [1; 1; 1]. eexists. split.
  - eapply steps_cons; [by apply adm_arrive|]. eapply steps_cons; [by apply adm_unlimited|].
    eapply steps_cons; [by apply adm_finish|]. apply steps_nil.
  - done.
Qed.

(** The proxy keeps the promises its sessions rely on: a request for a
    lease never panics and leaves the proxy in order; it answers with an error
    or with a lease, and on the compat port a lease recorded as "replica" was
    taken for a statement that is not a write, outside the post-write window. *)
Theorem compat_lease_on_replica_is_read (sql : string) (active : bool) (remaining : Z) (prx : Proxy) :
  proxy_inv prx -> prx_port prx = "compat" ->
  exists r prx', AcquireUpstreamLease sql active remaining prx = Some (r, prx') /\ proxy_inv prx' /\
    (forall lease, r = inr lease -> lease_Role lease = "replica" ->
       active = false /\ cls_Type (classify "compat" sql) = TypeRead).
Proof.
  intros Hinv Hport. destruct (acquire_lease_spec sql active remaining prx Hinv)
    as (r & prx' & Heq & Hi & _ & Hrep).
  exists r, prx'. split_and!; [done..|]. intros lease Hl Hrole.
  destruct (Hrep lease Hl Hport Hrole) as [Ha Hc]. split; [done|].
  pose proof (classify_known "compat" sql). by destruct (cls_Type (classify "compat" sql)).
Qed.

(** A proxy on the compat port of the example cluster. *)
Definition demo_oracle : Oracle :=
  MkOracle ["a"; "b"] 7 8 (fun m => inr m) 1000 [] "id".
Definition demo_proxy : Proxy :=
  MkProxy "compat" {["compat" := MkPortSettings ":6433" "transaction"]} (Some demo_cluster)
    (Some demo_pipeline) (fun _ => demo_oracle) 0.

Lemma demo_proxy_inv : proxy_inv demo_proxy.
Proof.
  exists demo_cluster, demo_pipeline. split_and!; [done|done|by apply NewBus_inv|].
  intros n. split; [apply demo_order; by vm_compute|].
  change ([] ≡ₚ elements (∅ : gset Z)). by vm_compute.
Qed.

Lemma compat_lease_on_replica_is_read_witness :
  exists r prx', AcquireUpstreamLease "select 1" false 0 demo_proxy = Some (r, prx') /\ proxy_inv prx' /\
    (forall lease, r = inr lease -> lease_Role lease = "replica" ->
       false = false /\ cls_Type (classify "compat" "select 1") = TypeRead).
Proof.
  exact (compat_lease_on_replica_is_read "select 1" false 0 demo_proxy demo_proxy_inv eq_refl).
Defined.


Definition demo_committed : World Proxy :=
  (handle_upstream (ReadyForQuery "I"%char)
     (MkWorld writing demo_proxy [] [] [9; 10; 11; 12])).2.
Definition demo_reread : World Proxy :=
  (handle_downstream (Query "select 1") (MkWorld (w_sess demo_committed) demo_proxy
     (w_trace demo_committed) (w_faults demo_committed) (w_clock demo_committed))).2.

