(* ===== verification/IdleSweeper.v ===== *)
(** * IdleSweeper: closing idle client sessions
    (internal/server/proxy/idle_sweeper.go)

    The sweeper keeps its entries in a binary min-heap of deadlines and finds
    them again through a map from sessions.  Entries are shared between the
    two, so the model has an arena: a pointer is a number, the heap is the
    slice of pointers, and every entry records its own position in the slice.
    [up], [down], [heap_Push], [heap_Pop], [heap_Remove] and [heap_Fix] are
    those of Go's [container/heap]; [None] is an index out of range or a nil
    dereference. *)

From stdpp Require Import base gmap list option.
From Stdlib Require Import ZArith Lia.
From S2P Require Import Prelude.

Local Open Scope Z_scope.
Local Open Scope list_scope.

Definition SessionID : Type := Z.
Definition EntryPtr : Type := Z.

Record idleEntry := MkEntry { ie_sess : SessionID; ie_deadline : Time; ie_index : Z }.
#[export] Instance idleEntry_eta : Eta idleEntry := fun e =>
  MkEntry (ie_sess e) (ie_deadline e) (ie_index e).

Record idleMinHeap := MkHeap { hp : list EntryPtr; arena : gmap EntryPtr idleEntry }.
#[export] Instance idleMinHeap_eta : Eta idleMinHeap := fun h => MkHeap (hp h) (arena h).

(** ** The heap interface of [idleMinHeap] *)

Definition Less (h : idleMinHeap) (i j : nat) : option bool :=
  p ← hp h !! i; q ← hp h !! j; a ← arena h !! p; b ← arena h !! q;
  Some (ie_deadline a <? ie_deadline b).

(** [entry.index = i] through a pointer. *)
Definition set_index (p : EntryPtr) (i : Z) (m : gmap EntryPtr idleEntry) : option (gmap EntryPtr idleEntry) :=
  e ← m !! p; Some (<[p := e <| ie_index := i |>]> m).

Definition Swap (h : idleMinHeap) (i j : nat) : option idleMinHeap :=
  p ← hp h !! i; q ← hp h !! j;
  m ← set_index q (Z.of_nat i) (arena h); m' ← set_index p (Z.of_nat j) m;
  Some (MkHeap (<[j := p]> (<[i := q]> (hp h))) m').

Definition Push (h : idleMinHeap) (p : EntryPtr) : option idleMinHeap :=
  m ← set_index p (Z.of_nat (length (hp h))) (arena h); Some (MkHeap (hp h ++ [p]) m).

Definition Pop (h : idleMinHeap) : option (EntryPtr * idleMinHeap) :=
  p ← hp h !! (length (hp h) - 1)%nat; m ← set_index p (-1) (arena h);
  Some (p, MkHeap (take (length (hp h) - 1) (hp h)) m).

(** ** container/heap *)

Definition parent (j : nat) : nat := ((j - 1) / 2)%nat.

Fixpoint up (fuel : nat) (h : idleMinHeap) (j : nat) : option idleMinHeap :=
  match fuel with
  | O => None
  | S fuel =>
    let i := parent j in
    if (i =? j)%nat then Some h
    else
      less ← Less h j i;
      if (less : bool) then h' ← Swap h i j; up fuel h' i else Some h
  end.

(** The child that [down] compares with: the smaller one, the left one on a tie. *)
Definition child (h : idleMinHeap) (i n : nat) : option nat :=
  let j1 := (2 * i + 1)%nat in
  let j2 := (j1 + 1)%nat in
  if (j2 <? n)%nat then less ← Less h j2 j1; Some (if (less : bool) then j2 else j1)
  else Some j1.

Fixpoint down (fuel : nat) (h : idleMinHeap) (i0 i n : nat) : option (bool * idleMinHeap) :=
  match fuel with
  | O => None
  | S fuel =>
    if (n <=? 2 * i + 1)%nat then Some ((i0 <? i)%nat, h)
    else
      j ← child h i n; less ← Less h j i;
      if (less : bool) then h' ← Swap h i j; down fuel h' i0 j n else Some ((i0 <? i)%nat, h)
  end.

Definition heap_Push (h : idleMinHeap) (p : EntryPtr) : option idleMinHeap :=
  h' ← Push h p; up (length (hp h')) h' (length (hp h') - 1).

Definition heap_Pop (h : idleMinHeap) : option (EntryPtr * idleMinHeap) :=
  let n := (length (hp h) - 1)%nat in
  h1 ← Swap h 0 n; '(_, h2) ← down (S n) h1 0 0 n; Pop h2.

Definition heap_Remove (h : idleMinHeap) (i : nat) : option (EntryPtr * idleMinHeap) :=
  let n := (length (hp h) - 1)%nat in
  if (n =? i)%nat then Pop h
  else
    h1 ← Swap h i n; '(moved, h2) ← down (S n) h1 i i n;
    h3 ← (if (moved : bool) then Some h2 else up (S i) h2 i); Pop h3.

Definition heap_Fix (h : idleMinHeap) (i : nat) : option idleMinHeap :=
  '(moved, h1) ← down (S (length (hp h))) h i i (length (hp h));
  if (moved : bool) then Some h1 else up (S i) h1 i.

(** ** The sweeper *)

Record idleSweeper := MkSweeper {
  timeout : Duration;
  heap : idleMinHeap;
  entries : gmap SessionID EntryPtr;
  next_ptr : EntryPtr (* the next free address *)
}.
#[export] Instance idleSweeper_eta : Eta idleSweeper := fun s =>
  MkSweeper (timeout s) (heap s) (entries s) (next_ptr s).

Definition newIdleSweeper (timeout : Duration) : idleSweeper :=
  MkSweeper timeout (MkHeap [] ∅) ∅ 0.

Definition Track (now : Time) (sess : SessionID) (sw : idleSweeper) : option (bool * idleSweeper) :=
  if timeout sw <=? 0 then Some (false, sw)
  else
    let p := next_ptr sw in
    let fresh := (heap sw) <| arena ::= <[p := MkEntry sess (now + timeout sw) 0]> |> in
    h ← heap_Push fresh p;
    Some (true, sw <| heap := h |> <| entries ::= <[sess := p]> |> <| next_ptr ::= Z.succ |>).

Definition Untrack (sess : SessionID) (sw : idleSweeper) : option idleSweeper :=
  if timeout sw <=? 0 then Some sw
  else
    match entries sw !! sess with
    | Some p =>
      e ← arena (heap sw) !! p;
      if ie_index e <? 0 then None
      else
        '(_, h) ← heap_Remove (heap sw) (Z.to_nat (ie_index e));
        Some (sw <| heap := h |> <| entries ::= delete sess |>)
    | None => Some sw
    end.

(** One pass of [_expire].  [lastActive k s] is what [LastActive] answers for
    the session [s] when it sw asked in round [k]. *)
Fixpoint _expire (fuel : nat) (lastActive : nat -> SessionID -> Time) (now : Time) (k : nat)
    (expired : list SessionID) (sw : idleSweeper) : option (list SessionID * idleSweeper) :=
  match fuel with
  | O => None
  | S fuel =>
    match hp (heap sw) with
    | [] => Some (expired, sw)
    | p :: _ =>
      entry ← arena (heap sw) !! p;
      if now <? ie_deadline entry then Some (expired, sw)
      else
        let newDeadline := lastActive k (ie_sess entry) + timeout sw in
        if now <? newDeadline then
          h ← heap_Fix ((heap sw) <| arena ::= <[p := entry <| ie_deadline := newDeadline |>]> |>) 0;
          _expire fuel lastActive now (S k) expired (sw <| heap := h |>)
        else
          '(_, h) ← heap_Pop (heap sw);
          _expire fuel lastActive now (S k) (expired ++ [ie_sess entry])
            (sw <| heap := h |> <| entries ::= delete (ie_sess entry) |>)
    end
  end.

Definition Expire (lastActive : nat -> SessionID -> Time) (now : Time) (sw : idleSweeper) :
    option (list SessionID * idleSweeper) :=
  if timeout sw <=? 0 then Some ([], sw)
  else _expire (S (length (hp (heap sw)))) lastActive now 0 [] sw.

(** ** Lemmas: the heap

    [wf h]: every position of the slice holds a live entry that knows its
    position.  [dl h i] is the deadline at position [i]. *)

Definition wf (h : idleMinHeap) : Prop :=
  forall i p, hp h !! i = Some p -> exists e, arena h !! p = Some e /\ ie_index e = Z.of_nat i.

Definition data (h : idleMinHeap) (p : EntryPtr) : option (SessionID * Time) :=
  (fun e => (ie_sess e, ie_deadline e)) <$> arena h !! p.

Definition dl (h : idleMinHeap) (i : nat) : Time :=
  default 0 (p ← hp h !! i; snd <$> data h p).

(** [rearranged n h h']: the same entries in another order, of which the
    positions from [n] on are untouched. *)
Record rearranged (n : nat) (h h' : idleMinHeap) : Prop := {
  rea_wf : wf h';
  rea_perm : hp h' ≡ₚ hp h;
  rea_data : forall p, data h' p = data h p;
  rea_above : forall k, (n <= k)%nat -> hp h' !! k = hp h !! k
}.

Lemma rearranged_refl n h : wf h -> rearranged n h h.
Proof. by split. Qed.

Lemma rearranged_trans n m h1 h2 h3 :
  (m <= n)%nat -> rearranged m h1 h2 -> rearranged n h2 h3 -> rearranged n h1 h3.
Proof.
  intros Hle [] [Hwf Hp Hd Ha]. split; [done|by rewrite Hp|intros p; by rewrite Hd|].
  intros k Hk. rewrite Ha by lia. naive_solver lia.
Qed.

Lemma rearranged_length n h h' : rearranged n h h' -> length (hp h') = length (hp h).
Proof. intros []. by apply Permutation_length. Qed.

Lemma rearranged_dl_above n h h' k : rearranged n h h' -> (n <= k)%nat -> dl h' k = dl h k.
Proof. intros [] Hk. unfold dl. rewrite rea_above0 by done. destruct (hp h !! k); cbn; [by rewrite rea_data0|done]. Qed.

Lemma wf_entry h i p : wf h -> hp h !! i = Some p -> exists e, arena h !! p = Some e /\ dl h i = ie_deadline e.
Proof. intros Hwf Hi. destruct (Hwf i p Hi) as (e & He & _). exists e. split; [done|]. unfold dl, data. by rewrite Hi; cbn; rewrite He. Qed.

Lemma wf_NoDup h : wf h -> NoDup (hp h).
Proof.
  intros Hwf. apply NoDup_alt. intros i j p Hi Hj.
  destruct (Hwf i p Hi) as (e & He & Hx). destruct (Hwf j p Hj) as (e' & He' & Hx').
  rewrite He in He'. simplify_eq. lia.
Qed.

Lemma lookup_pos {A} (l : list A) i : (i < length l)%nat -> exists x, l !! i = Some x.
Proof. intros H. by apply lookup_lt_is_Some in H as [x ?]; exists x. Qed.

Lemma Less_eq h i j :
  wf h -> (i < length (hp h))%nat -> (j < length (hp h))%nat -> Less h i j = Some (dl h i <? dl h j).
Proof.
  intros Hwf Hi Hj. apply lookup_pos in Hi as [p Hp], Hj as [q Hq].
  destruct (wf_entry h i p Hwf Hp) as (a & Ha & ->), (wf_entry h j q Hwf Hq) as (b & Hb & ->).
  unfold Less. by rewrite Hp; cbn; rewrite Hq; cbn; rewrite Ha; cbn; rewrite Hb.
Qed.

Lemma set_index_data p i m m' q :
  set_index p i m = Some m' ->
  ((fun e => (ie_sess e, ie_deadline e)) <$> m' !! q) = ((fun e => (ie_sess e, ie_deadline e)) <$> m !! q).
Proof.
  unfold set_index. destruct (m !! p) as [e|] eqn:He; cbn; [|done]. intros [= <-].
  destruct (decide (p = q)) as [->|Hne]; [by rewrite lookup_insert_eq, He|by rewrite lookup_insert_ne].
Qed.

Lemma set_index_index p i m m' :
  set_index p i m = Some m' ->
  (exists e, m' !! p = Some e /\ ie_index e = i) /\ (forall q, q <> p -> m' !! q = m !! q).
Proof.
  unfold set_index. destruct (m !! p) as [e|] eqn:He; cbn; [|done]. intros [= <-]. split.
  - eexists. by rewrite lookup_insert_eq.
  - intros q Hq. by rewrite lookup_insert_ne.
Qed.

Lemma set_index_live p i m : is_Some (m !! p) -> exists m', set_index p i m = Some m'.
Proof. intros [e He]. unfold set_index. rewrite He. cbn. eauto. Qed.

Lemma set_index_keeps p i m m' q : set_index p i m = Some m' -> is_Some (m !! q) -> is_Some (m' !! q).
Proof.
  intros H. apply (set_index_data p i m m' q) in H. intros [e He]. rewrite He in H.
  destruct (m' !! q); [by eexists|done].
Qed.

Lemma Swap_spec h i j n :
  wf h -> (i < n)%nat -> (j < n)%nat -> (n <= length (hp h))%nat ->
  exists h', Swap h i j = Some h' /\ rearranged n h h' /\
    dl h' i = dl h j /\ dl h' j = dl h i /\ (forall k, k <> i -> k <> j -> dl h' k = dl h k).
Proof.
  intros Hwf Hi Hj Hn.
  destruct (lookup_pos (hp h) i ltac:(lia)) as [p Hp], (lookup_pos (hp h) j ltac:(lia)) as [q Hq].
  unfold Swap. rewrite Hp; cbn. rewrite Hq; cbn.
  destruct (Hwf i p Hp) as (ep & Hep & _), (Hwf j q Hq) as (eq & Heq & _).
  destruct (set_index_live q (Z.of_nat i) (arena h)) as [m Hm]; [by eexists|]. rewrite Hm; cbn.
  destruct (set_index_live p (Z.of_nat j) m) as [m' Hm'].
  { eapply set_index_keeps; [done|by eexists]. }
  rewrite Hm'; cbn. eexists. split; [done|].
  set (h' := MkHeap (<[j := p]> (<[i := q]> (hp h))) m').
  assert (Hat : forall k, hp h' !! k = if decide (k = j) then Some p
                                       else if decide (k = i) then Some q else hp h !! k).
  { intros k. cbn. repeat case_decide; subst.
    - apply list_lookup_insert_eq. rewrite length_insert. lia.
    - rewrite list_lookup_insert_ne by done. apply list_lookup_insert_eq. lia.
    - rewrite !list_lookup_insert_ne by done. done. }
  assert (Hdata : forall r, data h' r = data h r).
  { intros r. unfold data, h'. cbn. rewrite (set_index_data _ _ _ _ r Hm'). by rewrite (set_index_data _ _ _ _ r Hm). }
  assert (Hdl : forall k k', hp h' !! k = hp h !! k' -> dl h' k = dl h k').
  { intros k k' E. unfold dl. rewrite E. destruct (hp h !! k'); cbn; [by rewrite Hdata|done]. }
  apply set_index_index in Hm as [(e1 & He1 & Hx1) Hm], Hm' as [(e2 & He2 & Hx2) Hm'].
  split; [split|split; [|split]].
  - intros k r Hk. rewrite Hat in Hk.
    destruct (decide (k = j)) as [->|Hkj]; [|destruct (decide (k = i)) as [->|Hki]].
    + injection Hk as Hk. subst r. by exists e2.
    + injection Hk as Hk. subst r. destruct (decide (p = q)) as [->|Hne].
      * by pose proof (proj1 (NoDup_alt (hp h)) (wf_NoDup h Hwf) i j q Hp Hq).
      * exists e1. change (m' !! q = Some e1 /\ ie_index e1 = Z.of_nat i). by rewrite Hm' by done.
    + destruct (Hwf k r Hk) as (e & He & Hx). exists e. split; [|done].
      assert (r <> p) by (intros ->; pose proof (proj1 (NoDup_alt (hp h)) (wf_NoDup h Hwf) k i p Hk Hp); congruence).
      assert (r <> q) by (intros ->; pose proof (proj1 (NoDup_alt (hp h)) (wf_NoDup h Hwf) k j q Hk Hq); congruence).
      change (m' !! r = Some e). by rewrite Hm', Hm by done.
  - apply (Permutation_insert_swap (hp h) i j p q Hp Hq).
  - done.
  - intros k Hk. rewrite Hat. by rewrite !decide_False by lia.
  - apply Hdl. rewrite Hat. case_decide as E; [by rewrite Hq, <- Hp, E|by rewrite decide_True].
  - apply Hdl. rewrite Hat. by rewrite decide_True.
  - intros k Hki Hkj. apply Hdl. rewrite Hat. by rewrite !decide_False by done.
Qed.

(** ** Lemmas: heap order *)

Lemma parent_child k i : (0 < k)%nat -> parent k = i <-> k = (2 * i + 1)%nat \/ k = (2 * i + 2)%nat.
Proof. unfold parent. intros Hk. pose proof (Nat.div_mod (k - 1) 2 ltac:(lia)). pose proof (Nat.mod_upper_bound (k - 1) 2). lia. Qed.

Lemma parent_lt k : (0 < k)%nat -> (parent k < k)%nat.
Proof. intros Hk. pose proof (proj1 (parent_child k (parent k) Hk) eq_refl). lia. Qed.

Lemma parent_0 : parent 0 = 0%nat.
Proof. done. Qed.

Definition edge (h : idleMinHeap) (k : nat) : Prop := dl h (parent k) <= dl h k.

Definition is_heap (n : nat) (h : idleMinHeap) : Prop := forall k, (0 < k < n)%nat -> edge h k.

(** The heap order up to position [i], whose entry may be out of place. *)
Record hole (n i : nat) (h : idleMinHeap) : Prop := {
  hole_edges : forall k, (0 < k < n)%nat -> k <> i -> parent k <> i -> edge h k;
  hole_over : forall c, (0 < c < n)%nat -> parent c = i -> (0 < i)%nat -> dl h (parent i) <= dl h c
}.

Definition below_ok (n i : nat) (h : idleMinHeap) : Prop :=
  forall c, (0 < c < n)%nat -> parent c = i -> edge h c.

Lemma hole_heap n i h : hole n i h -> below_ok n i h -> ((0 < i < n)%nat -> edge h i) -> is_heap n h.
Proof.
  intros [He _] Hb Hi k Hk. destruct (decide (k = i)) as [->|]; [by apply Hi|].
  destruct (decide (parent k = i)); [by apply Hb|by apply He].
Qed.

Lemma heap_hole n i h : is_heap n h -> hole n i h.
Proof.
  intros H. split; [intros k Hk _ _; by apply H|].
  intros c Hc Hp Hi. assert (edge h c) by by apply H. assert (i < n)%nat by (pose proof (parent_lt c); lia).
  assert (edge h i) by (apply H; lia). unfold edge in *. rewrite Hp in *. lia.
Qed.

(** Changing the key at [i] alone keeps every edge that does not touch [i]. *)
Lemma hole_change n i h h' :
  is_heap n h -> (forall k, k <> i -> (k < n)%nat -> dl h' k = dl h k) -> hole n i h'.
Proof.
  intros H Hsame. pose proof (heap_hole n i h H) as [_ Hover]. split.
  - intros k Hk Hki Hpk. unfold edge. pose proof (parent_lt k ltac:(lia)). rewrite !Hsame by lia. by apply H.
  - intros c Hc Hp Hi. pose proof (parent_lt c ltac:(lia)). pose proof (parent_lt i Hi).
    rewrite !Hsame by lia. by apply Hover.
Qed.

Lemma up_spec n fuel : forall h j,
  (j < fuel)%nat -> wf h -> (j < n)%nat -> (n <= length (hp h))%nat ->
  hole n j h -> below_ok n j h ->
  exists h', up fuel h j = Some h' /\ rearranged n h h' /\ is_heap n h'.
Proof.
  induction fuel as [|fuel IH]; intros h j Hf Hwf Hj Hn Hhole Hbelow; [lia|]. cbn [up].
  destruct (Nat.eqb_spec (parent j) j) as [Heq|Hne].
  { exists h. split; [done|]. split; [by apply rearranged_refl|].
    apply (hole_heap n j); [done..|]. intros H0. pose proof (parent_lt j). lia. }
  assert (H0 : (0 < j)%nat) by (destruct j; [by rewrite parent_0 in Hne|lia]).
  pose proof (parent_lt j H0) as Hlt.
  rewrite Less_eq by (done || lia). cbn [mbind option_bind].
  destruct (Z.ltb_spec (dl h j) (dl h (parent j))) as [Hless|Hge]; cycle 1.
  { exists h. split; [done|]. split; [by apply rearranged_refl|]. apply (hole_heap n j); [done..|]. by intros _. }
  destruct (Swap_spec h (parent j) j n) as (h1 & -> & Hre & Hi' & Hj' & Hk'); [done|lia..|]. cbn [mbind option_bind].
  destruct Hhole as [He Ho]. set (i := parent j) in *.
  destruct (IH h1 i) as (h2 & -> & Hre2 & Hheap); [lia|apply Hre|lia|by rewrite (rearranged_length _ _ _ Hre)| | |].
  - split.
    + intros k Hk Hki Hpk. unfold edge. destruct (decide (k = j)) as [->|Hkj]; [done|].
      destruct (decide (parent k = j)) as [Hpj|Hpj].
      * rewrite Hpj, Hj', (Hk' k) by done. rewrite <- Hpj in *. by apply Ho.
      * rewrite !Hk' by done. by apply He.
    + intros c Hc Hp Hi. assert (Hpi : parent i <> j /\ parent i <> i) by (pose proof (parent_lt i Hi); lia).
      rewrite (Hk' (parent i)) by apply Hpi.
      assert (Hei : edge h i) by (apply He; lia).
      destruct (decide (c = j)) as [->|Hcj]; [by rewrite Hj'|].
      assert (Hci : c <> i) by (pose proof (parent_lt c ltac:(lia)); lia).
      rewrite (Hk' c) by done. assert (edge h c) by (apply He; [lia|done|lia]).
      unfold edge in *. rewrite Hp in *. lia.
  - intros c Hc Hp. unfold edge. rewrite Hp, Hi'.
    destruct (decide (c = j)) as [->|Hcj]; [rewrite Hj'; lia|].
    assert (Hci : c <> i) by (pose proof (parent_lt c ltac:(lia)); lia).
    rewrite (Hk' c) by done. assert (edge h c) by (apply He; [lia|done|lia]). unfold edge in *. rewrite Hp in *. lia.
  - exists h2. split; [done|]. split; [|done]. by apply (rearranged_trans n n h h1 h2).
Qed.

(** The child chosen is a smallest one. *)
Lemma child_spec h i n :
  wf h -> (2 * i + 1 < n)%nat -> (n <= length (hp h))%nat ->
  exists j, child h i n = Some j /\ (0 < j < n)%nat /\ parent j = i /\
    (forall c, (0 < c < n)%nat -> parent c = i -> dl h j <= dl h c).
Proof.
  intros Hwf Hi Hn. unfold child.
  destruct (Nat.ltb_spec (2 * i + 1 + 1) n) as [H2|H2].
  - rewrite Less_eq by (done || lia). cbn [mbind option_bind].
    destruct (Z.ltb_spec (dl h (2 * i + 1 + 1)) (dl h (2 * i + 1)));
      eexists; (split; [done|]); (split; [lia|]); (split; [apply parent_child; lia|]);
      intros c Hc Hp; apply parent_child in Hp; try lia;
      (destruct Hp as [->| ->]; try lia; replace (2 * i + 2)%nat with (2 * i + 1 + 1)%nat by lia; lia).
  - exists (2 * i + 1)%nat. split; [done|]. split; [lia|]. split; [apply parent_child; lia|].
    intros c Hc Hp. apply parent_child in Hp; [|lia]. destruct Hp as [->| ->]; [lia|lia].
Qed.

Lemma below_none n i h : (n <= 2 * i + 1)%nat -> below_ok n i h.
Proof. intros Hn c Hc Hp. apply parent_child in Hp; lia. Qed.

Lemma below_smallest n i j h :
  dl h i <= dl h j -> (forall c, (0 < c < n)%nat -> parent c = i -> dl h j <= dl h c) -> below_ok n i h.
Proof. intros Hle Hmin c Hc Hp. unfold edge. rewrite Hp. specialize (Hmin c Hc Hp). lia. Qed.

(** [down] leaves at most the edge above its start broken, and none if it
    moved the entry. *)
Lemma down_spec n i0 fuel : forall h i,
  (n - i < fuel)%nat -> (i0 <= i)%nat -> wf h -> (n <= length (hp h))%nat -> hole n i h ->
  ((i0 < i)%nat -> (i < n)%nat -> edge h i) ->
  exists moved h', down fuel h i0 i n = Some (moved, h') /\ rearranged n h h' /\
    (moved = true -> is_heap n h') /\ (moved = false -> hole n i0 h' /\ below_ok n i0 h').
Proof.
  induction fuel as [|fuel IH]; intros h i Hf Hi Hwf Hn Hhole Habove; [lia|]. cbn [down].
  assert (Hstop : below_ok n i h -> exists moved h', Some ((i0 <? i)%nat, h) = Some (moved, h') /\
      rearranged n h h' /\ (moved = true -> is_heap n h') /\ (moved = false -> hole n i0 h' /\ below_ok n i0 h')).
  { intros Hb. eexists _, _. split; [done|]. split; [by apply rearranged_refl|].
    destruct (Nat.ltb_spec i0 i); (split; [|intros [=]]); [|by intros [=]|].
    - intros _. apply (hole_heap n i); [done..|]. intros Hin. apply Habove; lia.
    - replace i0 with i by lia. done. }
  destruct (Nat.leb_spec n (2 * i + 1)) as [Hnone|Hchild]; [by apply Hstop, below_none|].
  destruct (child_spec h i n Hwf Hchild Hn) as (j & -> & Hj & Hpj & Hmin). cbn [mbind option_bind].
  rewrite Less_eq by (done || lia). cbn [mbind option_bind].
  destruct (Z.ltb_spec (dl h j) (dl h i)) as [Hless|Hge]; [|by apply Hstop, (below_smallest n i j)].
  clear Hstop. pose proof (parent_lt j ltac:(lia)) as Hij. rewrite Hpj in Hij.
  destruct (Swap_spec h i j n) as (h1 & -> & Hre & Hi' & Hj' & Hk'); [done|lia..|]. cbn [mbind option_bind].
  destruct Hhole as [He Ho].
  assert (Hcedge : forall c, (0 < c < n)%nat -> parent c = j -> dl h1 i <= dl h1 c).
  { intros c Hc Hp. assert (Hci : c <> i /\ c <> j) by (pose proof (parent_lt c ltac:(lia)); lia).
    rewrite Hi', (Hk' c) by apply Hci. rewrite <- Hp. by apply He; [|apply Hci|lia]. }
  destruct (IH h1 j) as (moved & h2 & -> & Hre2 & Hm & Hnm);
    [lia|lia|apply Hre|by rewrite (rearranged_length _ _ _ Hre)| | |].
  - split; [|intros c Hc Hp _; rewrite Hpj; by apply Hcedge].
    intros k Hk Hkj Hpk. unfold edge. destruct (decide (k = i)) as [->|Hki].
    + assert (Hpi : parent i <> i /\ parent i <> j) by (pose proof (parent_lt i ltac:(lia)); lia).
      rewrite Hi', (Hk' (parent i)) by apply Hpi. apply Ho; [lia|done|lia].
    + rewrite (Hk' k) by done. destruct (decide (parent k = i)) as [Hpi|Hpi].
      * rewrite Hpi, Hi'. by apply Hmin.
      * rewrite (Hk' (parent k)) by done. by apply He.
  - intros _ _. unfold edge. rewrite Hpj, Hi', Hj'. lia.
  - exists moved, h2. split; [done|]. split; [by apply (rearranged_trans n n h h1 h2)|]. done.
Qed.

(** Repairing the heap below and above one position, as [Fix] and [Remove] do. *)
Lemma repair_spec n i h :
  wf h -> (i < n)%nat -> (n <= length (hp h))%nat -> hole n i h ->
  exists h', ('(moved, h1) ← down (S n) h i i n;
              if (moved : bool) then Some h1 else up (S i) h1 i) = Some h' /\
    rearranged n h h' /\ is_heap n h'.
Proof.
  intros Hwf Hi Hn Hhole.
  destruct (down_spec n i (S n) h i) as (moved & h1 & -> & Hre & Hm & Hnm); [lia..|done|done|done|lia|].
  cbn [mbind option_bind]. destruct moved; [exists h1; auto|]. destruct (Hnm eq_refl) as [Hh Hb].
  destruct (up_spec n (S i) h1 i) as (h2 & -> & Hre2 & Hheap);
    [lia|apply Hre|done|by rewrite (rearranged_length _ _ _ Hre)|done|done|].
  exists h2. split; [done|]. split; [by apply (rearranged_trans n n h h1 h2)|done].
Qed.

(** ** Lemmas: the operations of container/heap *)

Record heap_ok (h : idleMinHeap) : Prop := {
  ok_wf : wf h;
  ok_heap : is_heap (length (hp h)) h
}.

(** [moved_to l h h']: [h'] is a well-formed heap of the pointers [l], with the data of [h]. *)
Record moved_to (l : list EntryPtr) (h h' : idleMinHeap) : Prop := {
  mv_ok : heap_ok h';
  mv_perm : hp h' ≡ₚ l;
  mv_data : forall p, data h' p = data h p
}.

Lemma heap_min h k : heap_ok h -> (k < length (hp h))%nat -> dl h 0 <= dl h k.
Proof.
  intros [_ Hh]. induction (lt_wf k) as [k _ IH]. intros Hk.
  destruct (decide (k = 0%nat)) as [->|]; [lia|].
  pose proof (parent_lt k ltac:(lia)). specialize (IH (parent k) ltac:(lia) ltac:(lia)).
  specialize (Hh k ltac:(lia)). unfold edge in Hh. lia.
Qed.

Lemma dl_take n m h k : (k < n)%nat -> (forall p, data (MkHeap (take n (hp h)) m) p = data h p) ->
  dl (MkHeap (take n (hp h)) m) k = dl h k.
Proof.
  intros Hk Hd. unfold dl. cbn. rewrite lookup_take_lt by done.
  destruct (hp h !! k); cbn; [by rewrite Hd|done].
Qed.

Lemma Pop_spec h n p :
  wf h -> length (hp h) = S n -> hp h !! n = Some p -> is_heap n h ->
  exists h', Pop h = Some (p, h') /\ moved_to (take n (hp h)) h h'.
Proof.
  intros Hwf Hlen Hp Hheap. unfold Pop. replace (length (hp h) - 1)%nat with n by lia. rewrite Hp. cbn.
  destruct (Hwf n p Hp) as (e & He & _).
  destruct (set_index_live p (-1) (arena h)) as [m Hm]; [by eexists|]. rewrite Hm. cbn.
  eexists. split; [done|].
  assert (Hd : forall q, data (MkHeap (take n (hp h)) m) q = data h q)
    by (intros q; apply (set_index_data _ _ _ _ q Hm)).
  split; [split|done|done].
  - intros k q Hk. cbn in Hk. apply lookup_take_Some in Hk as [Hk Hkn].
    destruct (Hwf k q Hk) as (e' & He' & Hx). exists e'. split; [|done].
    apply set_index_index in Hm as [_ Hm]. cbn. rewrite Hm; [done|]. intros ->.
    pose proof (proj1 (NoDup_alt (hp h)) (wf_NoDup h Hwf) k n p Hk Hp). lia.
  - cbn [hp]. rewrite length_take, Hlen. intros k Hk. pose proof (parent_lt k ltac:(lia)).
    unfold edge. rewrite !dl_take by (done || lia). apply Hheap. lia.
Qed.

(** Removing the last entry after a rearrangement removes what it was. *)
Lemma Pop_rearranged h h' n p :
  rearranged n h h' -> length (hp h) = S n -> hp h !! n = Some p -> is_heap n h' ->
  exists h2, Pop h' = Some (p, h2) /\ moved_to (take n (hp h)) h h2.
Proof.
  intros Hre Hlen Hp Hheap. pose proof (rearranged_length _ _ _ Hre) as Hl. destruct Hre as [Hwf Hperm Hd Ha].
  destruct (Pop_spec h' n p) as (h2 & -> & [Hok Hp2 Hd2]); [done|by rewrite Hl|by rewrite Ha|done|].
  exists h2. split; [done|]. split; [done| |intros q; by rewrite Hd2, Hd].
  rewrite Hp2. assert (Hs : forall g : idleMinHeap, length (hp g) = S n -> hp g !! n = Some p -> hp g = take n (hp g) ++ [p]).
  { intros g Hg Hgp. rewrite <- (take_S_r _ _ _ Hgp). symmetry. apply take_ge. lia. }
  rewrite (Hs h Hlen Hp), (Hs h' ltac:(lia) ltac:(by rewrite Ha)) in Hperm.
  by apply Permutation_app_inv_r in Hperm.
Qed.

Lemma Swap_last h i n p q :
  hp h !! i = Some p -> hp h !! n = Some q -> forall h', Swap h i n = Some h' -> hp h' !! n = Some p.
Proof.
  intros Hp Hq h' Hsw. unfold Swap in Hsw. rewrite Hp in Hsw. cbn in Hsw. rewrite Hq in Hsw. cbn in Hsw.
  destruct (set_index q _ _); cbn in Hsw; [|done]. destruct (set_index p _ _); cbn in Hsw; [|done].
  injection Hsw as <-. cbn. apply list_lookup_insert_eq. rewrite length_insert. by eapply lookup_lt_Some.
Qed.

Lemma split_last (h : idleMinHeap) n q :
  length (hp h) = S n -> hp h !! n = Some q -> hp h ≡ₚ q :: take n (hp h).
Proof.
  intros Hlen Hq. rewrite <- (take_ge (hp h) (S n)) at 1 by lia.
  rewrite (take_S_r _ _ _ Hq). by rewrite Permutation_app_comm.
Qed.

Lemma heap_Remove_spec h i p :
  heap_ok h -> hp h !! i = Some p ->
  exists h' l, heap_Remove h i = Some (p, h') /\ moved_to l h h' /\ hp h ≡ₚ p :: l.
Proof.
  intros [Hwf Hh] Hp. pose proof (lookup_lt_Some _ _ _ Hp) as Hi. unfold heap_Remove.
  destruct (length (hp h)) as [|n] eqn:Hlen; [lia|]. cbn [Nat.sub]. rewrite Nat.sub_0_r.
  destruct (Nat.eqb_spec n i) as [->|Hne].
  { destruct (Pop_spec h i p) as (h' & -> & Hm); [done..|intros k Hk; apply Hh; lia|].
    eexists _, _. split; [done|]. split; [done|]. by apply split_last. }
  destruct (lookup_pos (hp h) n ltac:(lia)) as [q Hq].
  destruct (Swap_spec h i n (S n)) as (h1 & Hsw & Hre & _ & _ & Hk); [done|lia..|]. rewrite Hsw. cbn [mbind option_bind].
  pose proof (rearranged_length _ _ _ Hre) as Hl1.
  pose proof (Swap_last h i n p q Hp Hq h1 Hsw) as Hlast.
  destruct (repair_spec n i h1) as (h2 & Hrep & Hre2 & Hheap); [apply Hre|lia|lia| |].
  { apply (hole_change n i h); [intros k Hkk; apply Hh; lia|]. intros k Hki Hkn. apply Hk; lia. }
  destruct (down (S n) h1 i i n) as [[moved hd]|] eqn:Hdown; cbn [mbind option_bind] in *; [|done].
  rewrite Hrep. cbn [mbind option_bind].
  destruct (Pop_rearranged h1 h2 n p Hre2) as (h3 & -> & [Hok Hp3 Hd3]); [lia|done|done|].
  exists h3, (take n (hp h1)). split; [done|]. split; [split; [done|done|]|].
  - intros r. rewrite Hd3. apply Hre.
  - rewrite <- (rea_perm _ _ _ Hre). apply split_last; [lia|done].
Qed.

Lemma heap_Pop_spec h p :
  heap_ok h -> hp h !! 0%nat = Some p ->
  exists h' l, heap_Pop h = Some (p, h') /\ moved_to l h h' /\ hp h ≡ₚ p :: l.
Proof.
  intros [Hwf Hh] Hp. pose proof (lookup_lt_Some _ _ _ Hp) as Hi. unfold heap_Pop.
  destruct (length (hp h)) as [|n] eqn:Hlen; [lia|]. cbn [Nat.sub]. rewrite Nat.sub_0_r.
  destruct (lookup_pos (hp h) n ltac:(lia)) as [q Hq].
  destruct (Swap_spec h 0 n (S n)) as (h1 & Hsw & Hre & _ & _ & Hk); [done|lia..|].
  pose proof (Swap_last h 0 n p q Hp Hq h1 Hsw) as Hlast. rewrite Hsw. cbn [mbind option_bind].
  pose proof (rearranged_length _ _ _ Hre) as Hl1.
  destruct (down_spec n 0 (S n) h1 0) as (moved & h2 & -> & Hre2 & Hm & Hnm); [lia|lia|apply Hre|lia| |lia|].
  { apply (hole_change n 0 h); [intros k Hkk; apply Hh; lia|]. intros k Hki Hkn. apply Hk; lia. }
  cbn [mbind option_bind].
  assert (Hheap : is_heap n h2).
  { destruct moved; [by apply Hm|]. destruct (Hnm eq_refl). apply (hole_heap n 0); [done..|lia]. }
  destruct (Pop_rearranged h1 h2 n p Hre2) as (h3 & -> & [Hok Hp3 Hd3]); [lia|done|done|].
  exists h3, (take n (hp h1)). split; [done|]. split; [split; [done|done|]|].
  - intros r. rewrite Hd3. apply Hre.
  - rewrite <- (rea_perm _ _ _ Hre). apply split_last; [lia|done].
Qed.

Lemma heap_Fix_spec h :
  wf h -> (0 < length (hp h))%nat -> hole (length (hp h)) 0 h ->
  exists h', heap_Fix h 0 = Some h' /\ moved_to (hp h) h h'.
Proof.
  intros Hwf Hlen Hhole. unfold heap_Fix.
  destruct (repair_spec (length (hp h)) 0 h) as (h' & -> & Hre & Hheap); [done|done|lia|done|].
  exists h'. split; [done|]. split; [|apply Hre|apply Hre].
  split; [apply Hre|]. by rewrite (rearranged_length _ _ _ Hre).
Qed.

Lemma heap_Push_spec h p :
  heap_ok h -> p ∉ hp h -> is_Some (arena h !! p) ->
  exists h', heap_Push h p = Some h' /\ moved_to (p :: hp h) h h'.
Proof.
  intros [Hwf Hh] Hp Hlive. unfold heap_Push, Push.
  destruct (set_index_live p (Z.of_nat (length (hp h))) (arena h) Hlive) as [m Hm]. rewrite Hm. cbn [mbind option_bind].
  set (h1 := MkHeap (hp h ++ [p]) m). change (hp h ++ [p]) with (hp h1).
  assert (Hlen : length (hp h1) = S (length (hp h))) by (cbn; rewrite length_app; cbn; lia).
  rewrite Hlen. cbn [Nat.sub]. rewrite Nat.sub_0_r.
  assert (Hd : forall q, data h1 q = data h q) by (intros q; apply (set_index_data _ _ _ _ q Hm)).
  assert (Hdl : forall k, k <> length (hp h) -> (k < S (length (hp h)))%nat -> dl h1 k = dl h k).
  { intros k Hk Hk'. unfold dl, h1. cbn [hp]. rewrite lookup_app_l by lia. destruct (hp h !! k); cbn; [by rewrite <- Hd|done]. }
  apply set_index_index in Hm as [(e & He & Hx) Hm].
  destruct (up_spec (S (length (hp h))) (S (length (hp h))) h1 (length (hp h))) as (h2 & -> & Hre & Hheap);
    [lia| |lia|lia| | |].
  - intros k q Hk. cbn in Hk. apply lookup_app_Some in Hk as [Hk|[Hge Hk]].
    + destruct (Hwf k q Hk) as (e' & He' & Hx'). exists e'. split; [|done]. cbn. rewrite Hm; [done|].
      intros ->. apply Hp. by eapply list_elem_of_lookup_2.
    + apply list_lookup_singleton_Some in Hk as [Hk <-]. exists e. split; [done|]. rewrite Hx. f_equal. lia.
  - split.
    + intros k Hk Hki Hpk. pose proof (parent_lt k ltac:(lia)). unfold edge. rewrite !Hdl by lia. apply Hh. lia.
    + intros c Hc Hpc _. pose proof (parent_lt c ltac:(lia)). lia.
  - intros c Hc Hpc. pose proof (parent_lt c ltac:(lia)). lia.
  - exists h2. split; [done|]. split.
    + split; [apply Hre|]. by rewrite (rearranged_length _ _ _ Hre), Hlen.
    + rewrite (rea_perm _ _ _ Hre). cbn. by rewrite Permutation_app_comm.
    + intros q. rewrite (rea_data _ _ _ Hre). apply Hd.
Qed.

(** ** The sweeper and what it stands for

    Abstractly the sweeper is a map from tracked sessions to their deadlines. *)

Definition view (sw : idleSweeper) : gmap SessionID Time :=
  omap (fun p => snd <$> data (heap sw) p) (entries sw).

Record sweeper_inv (sw : idleSweeper) : Prop := {
  si_heap : heap_ok (heap sw);
  si_fresh : forall p, is_Some (arena (heap sw) !! p) -> p < next_ptr sw;
  si_entries : forall s p, entries sw !! s = Some p <-> p ∈ hp (heap sw) /\ fst <$> data (heap sw) p = Some s;
  si_off : timeout sw <= 0 -> entries sw = ∅
}.

Lemma ptr_data h p : wf h -> p ∈ hp h -> exists s d, data h p = Some (s, d).
Proof.
  intros Hwf Hp. apply list_elem_of_lookup in Hp as [i Hi]. destruct (Hwf i p Hi) as (e & He & _).
  exists (ie_sess e), (ie_deadline e). unfold data. by rewrite He.
Qed.

Lemma view_spec sw s d :
  sweeper_inv sw -> view sw !! s = Some d <-> exists p, p ∈ hp (heap sw) /\ data (heap sw) p = Some (s, d).
Proof.
  intros [_ _ He _]. unfold view. rewrite lookup_omap. split.
  - intros H. destruct (entries sw !! s) as [p|] eqn:Hp; cbn in H; [|done].
    apply He in Hp as [Hp Hs]. exists p. split; [done|].
    destruct (data (heap sw) p) as [[s' d']|]; cbn in *; by simplify_eq.
  - intros (p & Hp & Hd). assert (Hs : entries sw !! s = Some p) by (apply He; by rewrite Hd).
    rewrite Hs. cbn. by rewrite Hd.
Qed.

Lemma gmap_Some_ext (m m' : gmap SessionID Time) :
  (forall s d, m !! s = Some d <-> m' !! s = Some d) -> m = m'.
Proof. intros H. apply map_eq. intros s. apply option_eq. intros d. apply H. Qed.

(** The session a pointer of the heap belongs to is tracked by that pointer alone. *)
Lemma ptr_unique sw p q s d d' :
  sweeper_inv sw -> p ∈ hp (heap sw) -> q ∈ hp (heap sw) ->
  data (heap sw) p = Some (s, d) -> data (heap sw) q = Some (s, d') -> p = q.
Proof.
  intros [_ _ He _] Hp Hq Hdp Hdq.
  assert (H1 : entries sw !! s = Some p) by (apply He; by rewrite Hdp).
  assert (H2 : entries sw !! s = Some q) by (apply He; by rewrite Hdq). congruence.
Qed.

Lemma data_live h p : is_Some (data h p) <-> is_Some (arena h !! p).
Proof. unfold data. apply fmap_is_Some. Qed.

(** Taking the entry of a session out of the heap and out of the map. *)
Lemma remove_inv sw h p l s d :
  sweeper_inv sw -> moved_to l (heap sw) h -> hp (heap sw) ≡ₚ p :: l -> data (heap sw) p = Some (s, d) ->
  sweeper_inv (sw <| heap := h |> <| entries ::= delete s |>) /\
  view (sw <| heap := h |> <| entries ::= delete s |>) = delete s (view sw).
Proof.
  intros Hinv [Hok Hperm Hd] Hsplit Hp. pose proof Hinv as [Hheap Hfresh He Hoff].
  assert (Hnd : NoDup (p :: l)) by (rewrite <- Hsplit; by apply wf_NoDup, Hheap). apply NoDup_cons_1_1 in Hnd as Hpl.
  assert (Hin : forall q, q ∈ hp h <-> q ∈ hp (heap sw) /\ q <> p).
  { intros q. rewrite Hperm, Hsplit, elem_of_cons. split; [|naive_solver]. intros Hq. split; [by right|]. by intros ->. }
  assert (Hps : p ∈ hp (heap sw)) by (rewrite Hsplit; by left).
  assert (Hinv' : sweeper_inv (sw <| heap := h |> <| entries ::= delete s |>)).
  { split; cbn.
    - done.
    - intros q Hq. apply Hfresh. apply data_live in Hq. rewrite Hd in Hq. by apply data_live.
    - intros s' q. rewrite lookup_delete_Some, He, Hin, Hd. split.
      + intros (Hne & Hq & Hs). split; [|done]. split; [done|]. intros ->. rewrite Hp in Hs. cbn in Hs. congruence.
      + intros ((Hq & Hne) & Hs). split; [|done]. intros <-.
        destruct (data (heap sw) q) as [[s' d']|] eqn:Hdq; cbn in Hs; [|done]. simplify_eq.
        by apply Hne, (ptr_unique sw q p s d' d).
    - intros Ht. rewrite Hoff by done. by rewrite delete_empty. }
  split; [done|]. apply gmap_Some_ext. intros s' d'. rewrite (view_spec _ _ _ Hinv'), lookup_delete_Some, (view_spec _ _ _ Hinv).
  cbn. split.
  - intros (q & Hq & Hdq). rewrite Hd in Hdq. apply Hin in Hq as [Hq Hne]. split; [|by exists q].
    intros <-. by apply Hne, (ptr_unique sw q p s d' d).
  - intros (Hne & q & Hq & Hdq). exists q. rewrite Hd, Hin. split; [|done]. split; [done|]. intros ->. congruence.
Qed.

Lemma data_insert h p e q :
  data (h <| arena ::= <[p := e]> |>) q = if decide (q = p) then Some (ie_sess e, ie_deadline e) else data h q.
Proof.
  unfold data. cbn. case_decide as E; [subst; by rewrite lookup_insert_eq|by rewrite lookup_insert_ne].
Qed.

(** Writing an entry that is not in the heap does not disturb it. *)
Lemma heap_ok_alloc h p e : heap_ok h -> p ∉ hp h -> heap_ok (h <| arena ::= <[p := e]> |>).
Proof.
  intros [Hwf Hh] Hp. split.
  - intros i q Hq. destruct (Hwf i q Hq) as (e' & He' & Hx). exists e'. split; [|done]. cbn.
    rewrite lookup_insert_ne; [done|]. intros <-. apply Hp. by eapply list_elem_of_lookup_2.
  - intros k Hk. assert (Hdl : forall j, dl (h <| arena ::= <[p := e]> |>) j = dl h j).
    { intros j. unfold dl. destruct (hp h !! j) as [q|] eqn:Hq; cbn; rewrite Hq; [|done]. cbn.
      change (MkHeap (hp h) (<[p:=e]> (arena h))) with (h <| arena ::= <[p := e]> |>).
      rewrite data_insert, decide_False; [done|]. intros ->. apply Hp. by eapply list_elem_of_lookup_2. }
    unfold edge. rewrite !Hdl. by apply Hh.
Qed.

Lemma Track_spec now s sw :
  sweeper_inv sw -> entries sw !! s = None ->
  exists b sw', Track now s sw = Some (b, sw') /\ b = (0 <? timeout sw) /\ sweeper_inv sw' /\ timeout sw' = timeout sw /\
    view sw' = if b then <[s := now + timeout sw]> (view sw) else view sw.
Proof.
  intros Hinv Hs. unfold Track. destruct (Z.leb_spec (timeout sw) 0) as [Hoff|Hon].
  { exists false, sw. split; [done|]. split; [|done]. symmetry. apply Z.ltb_ge. lia. }
  pose proof Hinv as [Hheap Hfresh He Hno].
  set (p := next_ptr sw). set (e := MkEntry s (now + timeout sw) 0).
  assert (Hp : p ∉ hp (heap sw)).
  { intros Hp. destruct (ptr_data _ p (ok_wf _ Hheap) Hp) as (s' & d & Hd).
    assert (Hl : is_Some (data (heap sw) p)) by by eexists. apply data_live, Hfresh in Hl. unfold p in Hl. lia. }
  destruct (heap_Push_spec ((heap sw) <| arena ::= <[p := e]> |>) p) as (h & Hpush & [Hok Hperm Hd]);
    [by apply heap_ok_alloc|done|cbn; rewrite lookup_insert_eq; by eexists|].
  cbn [hp] in Hperm. rewrite Hpush. cbn [mbind option_bind]. eexists true, _. split; [done|].
  split; [symmetry; apply Z.ltb_lt; lia|].
  assert (Hin : forall q, q ∈ hp h <-> q = p \/ q ∈ hp (heap sw)) by (intros q; rewrite Hperm, elem_of_cons; done).
  assert (Hinv' : sweeper_inv (sw <| heap := h |> <| entries ::= <[s := p]> |> <| next_ptr ::= Z.succ |>)).
  { split; cbn.
    - done.
    - intros q Hq. apply data_live in Hq. rewrite Hd, data_insert in Hq. case_decide; [unfold p in *; lia|].
      apply data_live, Hfresh in Hq. lia.
    - intros s' q. rewrite lookup_insert_Some, He, Hin, Hd, data_insert. split.
      + intros [[<- <-]|(Hne & Hq & Hsq)]; [rewrite decide_True by done; auto|].
        rewrite decide_False; [auto|]. by intros ->.
      + intros [[->|Hq] Hsq]; [rewrite decide_True in Hsq by done; left; cbn in Hsq; by simplify_eq|].
        rewrite decide_False in Hsq by (by intros ->). right. split; [|done].
        intros <-. assert (Hc : entries sw !! s = Some q) by by apply He. congruence.
    - lia. }
  split; [done|]. split; [done|]. apply gmap_Some_ext. intros s' d'.
  rewrite (view_spec _ _ _ Hinv'), lookup_insert_Some, (view_spec _ _ _ Hinv). cbn. split.
  - intros (q & Hq & Hdq). rewrite Hd, data_insert in Hdq. apply Hin in Hq.
    case_decide as E; [left; cbn in Hdq; by simplify_eq|]. right. destruct Hq as [->|Hq]; [done|]. split; [|by exists q].
    intros <-. assert (Hc : entries sw !! s = Some q) by (apply He; by rewrite Hdq). congruence.
  - intros [[<- <-]|(Hne & q & Hq & Hdq)].
    + exists p. rewrite Hd, data_insert, decide_True by done. split; [apply Hin; by left|done].
    + exists q. rewrite Hd, data_insert, decide_False by (by intros ->). split; [apply Hin; by right|done].
Qed.

Lemma Untrack_spec s sw :
  sweeper_inv sw ->
  exists sw', Untrack s sw = Some sw' /\ sweeper_inv sw' /\ timeout sw' = timeout sw /\ view sw' = delete s (view sw).
Proof.
  intros Hinv. pose proof Hinv as [Hheap Hfresh He Hno]. unfold Untrack.
  assert (Hnone : entries sw !! s = None -> delete s (view sw) = view sw).
  { intros Hs. apply delete_id. unfold view. by rewrite lookup_omap, Hs. }
  destruct (Z.leb_spec (timeout sw) 0) as [Hoff|Hon].
  { exists sw. split; [done|]. split; [done|]. split; [done|]. rewrite Hnone; [done|]. by rewrite Hno. }
  destruct (entries sw !! s) as [p|] eqn:Hs; [|exists sw; by rewrite Hnone].
  apply He in Hs as [Hp Hps]. apply list_elem_of_lookup in Hp as [i Hi].
  destruct (ok_wf _ Hheap i p Hi) as (e & Hep & Hx). rewrite Hep. cbn [mbind option_bind].
  destruct (Z.ltb_spec (ie_index e) 0); [lia|]. rewrite Hx, Nat2Z.id.
  destruct (heap_Remove_spec (heap sw) i p Hheap Hi) as (h & l & -> & Hm & Hsplit). cbn [mbind option_bind].
  eexists. split; [done|]. destruct (data (heap sw) p) as [[s' d]|] eqn:Hd; cbn in Hps; [|done]. simplify_eq.
  destruct (remove_inv sw h p l s d) as [H1 H2]; done.
Qed.

(** Moving the first entry's deadline: [heap.Fix] restores the order, and only
    the deadline of that session changes. *)
Lemma refresh_spec sw p rest e d :
  sweeper_inv sw -> hp (heap sw) = p :: rest -> arena (heap sw) !! p = Some e ->
  exists h, heap_Fix ((heap sw) <| arena ::= <[p := e <| ie_deadline := d |>]> |>) 0 = Some h /\
    hp h ≡ₚ hp (heap sw) /\
    (forall q, data h q = if decide (q = p) then Some (ie_sess e, d) else data (heap sw) q) /\
    sweeper_inv (sw <| heap := h |>) /\ view (sw <| heap := h |>) = <[ie_sess e := d]> (view sw).
Proof.
  intros Hinv Hhp Hep. pose proof Hinv as [[Hwf Hh] Hfresh He Hno].
  set (h1 := (heap sw) <| arena ::= <[p := e <| ie_deadline := d |>]> |>).
  assert (H0 : hp (heap sw) !! 0%nat = Some p) by by rewrite Hhp.
  assert (Hd1 : forall q, data h1 q = if decide (q = p) then Some (ie_sess e, d) else data (heap sw) q)
    by (intros q; unfold h1; rewrite data_insert; done).
  assert (Hwf1 : wf h1).
  { intros i q Hq. change (hp (heap sw) !! i = Some q) in Hq. destruct (Hwf i q Hq) as (e' & He' & Hx). cbn.
    destruct (decide (q = p)) as [->|Hne]; [|rewrite lookup_insert_ne by done; by exists e'].
    rewrite lookup_insert_eq. eexists. split; [done|]. cbn. congruence. }
  destruct (heap_Fix_spec h1) as (h & Hfix & [Hok Hperm Hd]); [done|cbn; rewrite Hhp; cbn; lia| |].
  { apply (hole_change _ 0 (heap sw)); [exact Hh|]. intros k Hk _. unfold dl. change (hp h1) with (hp (heap sw)).
    destruct (hp (heap sw) !! k) as [q|] eqn:Hq; [|done]. cbn. rewrite Hd1, decide_False; [done|].
    intros ->. by pose proof (proj1 (NoDup_alt (hp (heap sw))) (wf_NoDup _ Hwf) k 0%nat p Hq H0). }
  change (hp h1) with (hp (heap sw)) in Hperm.
  exists h. split; [done|]. split; [done|].
  assert (Hdh : forall q, data h q = if decide (q = p) then Some (ie_sess e, d) else data (heap sw) q)
    by (intros q; by rewrite Hd, Hd1).
  assert (Hde : data (heap sw) p = Some (ie_sess e, ie_deadline e)) by (unfold data; by rewrite Hep).
  assert (Hps : p ∈ hp (heap sw)) by (rewrite Hhp; by left).
  split; [done|].
  assert (Hinv' : sweeper_inv (sw <| heap := h |>)).
  { split; cbn.
    - done.
    - intros q Hq. apply Hfresh, data_live. apply data_live in Hq. rewrite Hdh in Hq. case_decide as E; [|done].
      subst. rewrite Hde. by eexists.
    - intros s q. rewrite He, Hperm, Hdh. case_decide as E; [|done]. subst. by rewrite Hde.
    - done. }
  split; [done|]. apply gmap_Some_ext. intros s' d'.
  rewrite (view_spec _ _ _ Hinv'), lookup_insert_Some, (view_spec _ _ _ Hinv). cbn. setoid_rewrite Hdh. split.
  - intros (q & Hq & Hdq). rewrite Hperm in Hq. case_decide as E; [left; by simplify_eq|]. right. split; [|by exists q].
    intros <-. by apply E, (ptr_unique sw q p (ie_sess e) d' (ie_deadline e)).
  - intros [[<- <-]|(Hne & q & Hq & Hdq)].
    + exists p. rewrite decide_True, Hperm by done. done.
    + exists q. rewrite decide_False, Hperm; [done|]. intros ->. congruence.
Qed.

(** What a sweep does to the map of deadlines: [ex] are the sessions it
    reports, [lastActive] the answers of the sessions. *)
Record swept (lastActive : nat -> SessionID -> Time) (now : Time) (T : Duration)
    (v : gmap SessionID Time) (ex : list SessionID) (v' : gmap SessionID Time) : Prop := {
  swept_once : NoDup ex;
  swept_out : forall s, s ∈ ex -> v' !! s = None /\
    exists d k, v !! s = Some d /\ d <= now /\ lastActive k s + T <= now;
  swept_in : forall s d', v' !! s = Some d' -> now < d' /\
    exists d, v !! s = Some d /\ (d' = d \/ d <= now /\ exists k, d' = lastActive k s + T);
  swept_all : forall s, is_Some (v !! s) -> s ∈ ex \/ is_Some (v' !! s)
}.

(** The entries whose recorded deadline has passed: they bound the rounds of a sweep. *)
Definition due (now : Time) (h : idleMinHeap) (p : EntryPtr) : Prop :=
  match data h p with Some (_, d) => d <= now | None => False end.
#[export] Instance due_dec now h p : Decision (due now h p).
Proof. unfold due. destruct (data h p) as [[? ?]|]; apply _. Defined.

Definition due_count (now : Time) (h : idleMinHeap) : nat := length (filter (due now h) (hp h)).

Lemma filter_due_ext now h h' (l : list EntryPtr) :
  (forall p, p ∈ l -> data h' p = data h p) -> filter (due now h') l = filter (due now h) l.
Proof.
  induction l as [|p l IH]; intros Hd; [done|]. rewrite !filter_cons.
  rewrite (decide_ext (due now h' p) (due now h p)) by (unfold due; by rewrite Hd by left).
  rewrite IH by (intros q Hq; apply Hd; by right). done.
Qed.

Lemma due_count_perm now h (l : list EntryPtr) : hp h ≡ₚ l -> due_count now h = length (filter (due now h) l).
Proof. intros Hp. exact (Permutation_length (filter_Permutation _ _ _ Hp)). Qed.

(** Moving the deadline of [p] into the future, or dropping [p], leaves the others. *)
Lemma due_count_refreshed now h h' p (rest : list EntryPtr) s d :
  hp h' ≡ₚ p :: rest -> p ∉ rest -> now < d ->
  (forall q, data h' q = if decide (q = p) then Some (s, d) else data h q) ->
  due_count now h' = length (filter (due now h) rest).
Proof.
  intros Hperm Hp Hd Hdata. rewrite (due_count_perm now h' _ Hperm), filter_cons_False.
  - f_equal. apply filter_due_ext. intros q Hq. rewrite Hdata, decide_False; [done|]. by intros ->.
  - unfold due. rewrite Hdata, decide_True by done. lia.
Qed.

Lemma swept_expired lastActive now T v s d k ex v' :
  v !! s = Some d -> d <= now -> lastActive k s + T <= now ->
  swept lastActive now T (delete s v) ex v' -> swept lastActive now T v (s :: ex) v'.
Proof.
  intros Hs Hd Hk [Honce Hout Hin Hall].
  assert (Hnot : s ∉ ex).
  { intros Hx. destruct (Hout s Hx) as (_ & d' & k' & Hc & _). by rewrite lookup_delete_eq in Hc. }
  split.
  - by apply NoDup_cons_2.
  - intros s' Hs'. apply elem_of_cons in Hs' as [->|Hs'].
    + split; [|by exists d, k]. destruct (v' !! s) as [d'|] eqn:Hv'; [|done].
      destruct (Hin s d' Hv') as (_ & d0 & Hc & _). by rewrite lookup_delete_eq in Hc.
    + destruct (Hout s' Hs') as (Hv' & d' & k' & Hv & Hrest). split; [done|]. exists d', k'.
      apply lookup_delete_Some in Hv as [_ Hv]. done.
  - intros s' d' Hs'. destruct (Hin s' d' Hs') as (Hnow & d0 & Hv & Hrest). split; [done|]. exists d0.
    apply lookup_delete_Some in Hv as [_ Hv]. done.
  - intros s' Hs'. destruct (decide (s' = s)) as [->|Hne]; [left; by left|].
    destruct (Hall s') as [?|?]; [by rewrite lookup_delete_ne|left; by right|by right].
Qed.

Lemma swept_active lastActive now T v s d k ex v' :
  v !! s = Some d -> d <= now -> now < lastActive k s + T ->
  swept lastActive now T (<[s := lastActive k s + T]> v) ex v' -> swept lastActive now T v ex v'.
Proof.
  intros Hs Hd Hk [Honce Hout Hin Hall]. split; [done|..].
  - intros s' Hs'. destruct (Hout s' Hs') as (Hv' & d' & k' & Hv & Hd' & Hk'). split; [done|].
    apply lookup_insert_Some in Hv as [[<- <-]|[_ Hv]]; [lia|by exists d', k'].
  - intros s' d' Hs'. destruct (Hin s' d' Hs') as (Hnow & d0 & Hv & Hrest). split; [done|].
    apply lookup_insert_Some in Hv as [[<- <-]|[_ Hv]]; [|by exists d0].
    exists d. split; [done|]. right. split; [done|]. destruct Hrest as [->|[_ Hrest]]; [by exists k|done].
  - intros s' [d' Hs']. apply Hall. destruct (decide (s = s')) as [<-|Hne]; [rewrite lookup_insert_eq; by eexists|].
    rewrite lookup_insert_ne by done. by eexists.
Qed.

(** A sweep ends when the earliest deadline lies in the future, or the heap is empty. *)
Lemma swept_done lastActive now T sw :
  sweeper_inv sw -> (forall p e, hp (heap sw) !! 0%nat = Some p -> arena (heap sw) !! p = Some e -> now < ie_deadline e) ->
  swept lastActive now T (view sw) [] (view sw).
Proof.
  intros Hinv Hfirst. split; [apply NoDup_nil_2|by intros s Hs%elem_of_nil| |by right].
  intros s d Hs. split; [|exists d; auto]. apply (view_spec _ _ _ Hinv) in Hs as (p & Hp & Hd).
  destruct Hinv as [Hheap _ _ _]. apply list_elem_of_lookup in Hp as [i Hi].
  pose proof (heap_min _ i Hheap (lookup_lt_Some _ _ _ Hi)) as Hmin.
  destruct (lookup_pos (hp (heap sw)) 0) as [q Hq]; [apply lookup_lt_Some in Hi; lia|].
  destruct (wf_entry _ 0 q (ok_wf _ Hheap) Hq) as (e & He & Hdl). specialize (Hfirst q e Hq He).
  assert (Hdi : dl (heap sw) i = d) by (unfold dl; rewrite Hi; cbn; by rewrite Hd). lia.
Qed.

Lemma _expire_spec lastActive now fuel : forall k expired sw,
  sweeper_inv sw -> (due_count now (heap sw) < fuel)%nat ->
  exists ex sw', _expire fuel lastActive now k expired sw = Some (expired ++ ex, sw') /\
    sweeper_inv sw' /\ timeout sw' = timeout sw /\ swept lastActive now (timeout sw) (view sw) ex (view sw').
Proof.
  induction fuel as [|fuel IH]; intros k expired sw Hinv Hfuel; [lia|]. cbn [_expire].
  assert (Hstop : (forall p e, hp (heap sw) !! 0%nat = Some p -> arena (heap sw) !! p = Some e -> now < ie_deadline e) ->
    exists ex sw', Some (expired, sw) = Some (expired ++ ex, sw') /\
      sweeper_inv sw' /\ timeout sw' = timeout sw /\ swept lastActive now (timeout sw) (view sw) ex (view sw')).
  { intros Hfirst. exists [], sw. rewrite app_nil_r. by repeat split_and?; [..|apply swept_done]. }
  pose proof Hinv as [[Hwf _] _ _ _].
  destruct (hp (heap sw)) as [|p rest] eqn:Hhp; [by apply Hstop|].
  assert (H0 : hp (heap sw) !! 0%nat = Some p) by by rewrite Hhp.
  destruct (Hwf 0%nat p H0) as (e & He & _). rewrite He. cbn [mbind option_bind].
  destruct (Z.ltb_spec now (ie_deadline e)) as [Hlater|Hdue].
  { apply Hstop. intros q e' Hq He'. cbn in Hq. by simplify_eq. }
  clear Hstop. assert (Hde : data (heap sw) p = Some (ie_sess e, ie_deadline e)) by (unfold data; by rewrite He).
  assert (Hv : view sw !! ie_sess e = Some (ie_deadline e)).
  { apply (view_spec _ _ _ Hinv). exists p. split; [rewrite Hhp; by left|done]. }
  assert (Hp : p ∉ rest) by (apply NoDup_cons_1_1; rewrite <- Hhp; by apply wf_NoDup).
  assert (Hcount : forall l, hp (heap sw) ≡ₚ p :: l -> due_count now (heap sw) = S (length (filter (due now (heap sw)) l))).
  { intros l Hl. rewrite (due_count_perm _ _ _ Hl).
    by rewrite filter_cons_True by (unfold due; by rewrite Hde). }
  destruct (Z.ltb_spec now (lastActive k (ie_sess e) + timeout sw)) as [Hactive|Hidle].
  - destruct (refresh_spec sw p rest e (lastActive k (ie_sess e) + timeout sw) Hinv Hhp He)
      as (h & Hfix & Hperm & Hd & Hinv' & Hview). rewrite Hfix. cbn [mbind option_bind].
    destruct (IH (S k) expired (sw <| heap := h |>) Hinv') as (ex & sw' & -> & H1 & H2 & H3).
    { change (due_count now h < fuel)%nat. rewrite (due_count_refreshed now (heap sw) h p rest _ _) by (done || by rewrite Hperm, Hhp).
      rewrite (Hcount rest) in Hfuel by (by rewrite Hhp). lia. }
    exists ex, sw'. split; [done|]. split; [done|]. split; [done|]. rewrite Hview in H3.
    by eapply swept_active.
  - destruct (heap_Pop_spec (heap sw) p ltac:(apply Hinv) H0) as (h & l & -> & Hm & Hsplit). cbn [mbind option_bind].
    destruct (remove_inv sw h p l (ie_sess e) (ie_deadline e) Hinv Hm Hsplit Hde) as [Hinv' Hview].
    destruct (IH (S k) (expired ++ [ie_sess e]) _ Hinv') as (ex & sw' & -> & H1 & H2 & H3).
    { change (due_count now h < fuel)%nat. rewrite (due_count_perm now h l (mv_perm _ _ _ Hm)).
      rewrite (filter_due_ext now (heap sw) h) by (intros q _; apply (mv_data _ _ _ Hm)).
      rewrite (Hcount l Hsplit) in Hfuel. lia. }
    exists (ie_sess e :: ex), sw'. rewrite <- app_assoc. split; [done|]. split; [done|]. split; [done|]. rewrite Hview in H3.
    by eapply swept_expired.
Qed.

Lemma Expire_spec lastActive now sw :
  sweeper_inv sw ->
  exists ex sw', Expire lastActive now sw = Some (ex, sw') /\ sweeper_inv sw' /\ timeout sw' = timeout sw /\
    (timeout sw <= 0 -> ex = []) /\
    (0 < timeout sw -> swept lastActive now (timeout sw) (view sw) ex (view sw')).
Proof.
  intros Hinv. unfold Expire. destruct (Z.leb_spec (timeout sw) 0) as [Hoff|Hon].
  { exists [], sw. split; [done|]. split; [done|]. split; [done|]. split; [done|lia]. }
  destruct (_expire_spec lastActive now (S (length (hp (heap sw)))) 0 [] sw Hinv) as (ex & sw' & H1 & H2 & H3 & H4).
  { unfold due_count. pose proof (length_filter (due now (heap sw)) (hp (heap sw))). lia. }
  exists ex, sw'. split; [done|]. split; [done|]. split; [done|]. split; [lia|done].
Qed.

(** ** Runs

    The proxy tracks a session once, when it starts, untracks it when it ends,
    and sweeps from a ticker; the mutex orders the calls. *)

Inductive sweep_op := OpTrack (s : SessionID) | OpUntrack (s : SessionID) | OpExpire (ex : list SessionID).

Inductive sweeper_step : idleSweeper -> sweep_op -> idleSweeper -> Prop :=
| sw_track sw now s b sw' :
    entries sw !! s = None -> Track now s sw = Some (b, sw') -> sweeper_step sw (OpTrack s) sw'
| sw_untrack sw s sw' : Untrack s sw = Some sw' -> sweeper_step sw (OpUntrack s) sw'
| sw_expire sw lastActive now ex sw' :
    Expire lastActive now sw = Some (ex, sw') -> sweeper_step sw (OpExpire ex) sw'.

Lemma new_inv T : sweeper_inv (newIdleSweeper T).
Proof.
  split; [split|..].
  - intros i p Hi. by destruct i.
  - intros k Hk. cbn in Hk. lia.
  - intros p [e He]. change ((∅ : gmap EntryPtr idleEntry) !! p = Some e) in He. by rewrite lookup_empty in He.
  - intros s p. split; [|by intros [Hp%elem_of_nil _]]. intros H.
    change ((∅ : gmap SessionID EntryPtr) !! s = Some p) in H. by rewrite lookup_empty in H.
  - done.
Qed.

Lemma sweeper_step_inv T sw op sw' :
  sweeper_inv sw /\ timeout sw = T -> sweeper_step sw op sw' -> sweeper_inv sw' /\ timeout sw' = T.
Proof.
  intros [Hinv HT] Hstep. destruct Hstep as [sw now s b sw' Hs H|sw s sw' H|sw la now ex sw' H].
  - destruct (Track_spec now s sw Hinv Hs) as (b' & sw2 & E & _ & ? & ? & _). simplify_eq. done.
  - destruct (Untrack_spec s sw Hinv) as (sw2 & E & ? & ? & _). simplify_eq. done.
  - destruct (Expire_spec la now sw Hinv) as (ex' & sw2 & E & ? & ? & _). simplify_eq. done.
Qed.

Lemma reachable_inv T ops sw :
  steps sweeper_step (newIdleSweeper T) ops sw -> sweeper_inv sw /\ timeout sw = T.
Proof.
  apply (steps_invariant sweeper_step (fun sw => sweeper_inv sw /\ timeout sw = T)).
  - split; [apply new_inv|done].
  - intros sw1 op sw2. apply sweeper_step_inv.
Qed.

(** ** Properties *)

(** C29: The sweeper implements a map from sessions to deadlines: after any
    sequence of calls its heap is ordered, with the earliest deadline first,
    and every entry knows its position; tracking a session sets its deadline
    to the timeout from now, untracking drops it, neither panics, and without
    a timeout nothing is tracked at all. *)
Theorem sweeper_refines_map (T : Duration) (ops : list sweep_op) (sw : idleSweeper) :
  steps sweeper_step (newIdleSweeper T) ops sw ->
  heap_ok (heap sw) /\ (T <= 0 -> view sw = ∅) /\
  (forall now s, entries sw !! s = None ->
     exists sw', Track now s sw = Some (0 <? T, sw') /\
       view sw' = if 0 <? T then <[s := now + T]> (view sw) else view sw) /\
  (forall s, exists sw', Untrack s sw = Some sw' /\ view sw' = delete s (view sw)).
Proof.
  intros Hrun. destruct (reachable_inv T ops sw Hrun) as [Hinv HT]. split; [apply Hinv|].
  split; [|split].
  - intros Hoff. unfold view. rewrite (si_off _ Hinv) by lia. by rewrite omap_empty.
  - intros now s Hs. destruct (Track_spec now s sw Hinv Hs) as (b & sw' & E & -> & _ & _ & Hv).
    rewrite HT in E, Hv. eauto.
  - intros s. destruct (Untrack_spec s sw Hinv) as (sw' & E & _ & _ & Hv). eauto.
Qed.

(** C30: A sweep is exact and always ends: it reports each session at most
    once, and only sessions whose recorded deadline has passed and which
    answered that they have been idle for the whole timeout; the others stay
    tracked, those that were active with the deadline their activity gives
    them, and no tracked deadline has passed when the sweep is over. *)
Theorem Expire_exact (T : Duration) (ops : list sweep_op) (sw : idleSweeper)
    (lastActive : nat -> SessionID -> Time) (now : Time) :
  0 < T -> steps sweeper_step (newIdleSweeper T) ops sw ->
  exists ex sw', Expire lastActive now sw = Some (ex, sw') /\ swept lastActive now T (view sw) ex (view sw').
Proof.
  intros HT Hrun. destruct (reachable_inv T ops sw Hrun) as [Hinv Ht].
  destruct (Expire_spec lastActive now sw Hinv) as (ex & sw' & E & _ & _ & _ & Hs).
  rewrite Ht in Hs. eauto.
Qed.

(** ** Witnesses

    Three sessions with a timeout of 10: the first is active again at 9. *)

Definition demo_sweeper : option idleSweeper :=
  '(_, a) ← Track 0 1 (newIdleSweeper 10); '(_, b) ← Track 2 2 a; '(_, c) ← Track 5 3 b; Some c.
Definition demo_sweeper_state : idleSweeper := Eval vm_compute in default (newIdleSweeper 10) demo_sweeper.

Definition demo_last_active (k : nat) (s : SessionID) : Time := if s =? 1 then 9 else 1.

Lemma demo_sweeper_run :
  steps sweeper_step (newIdleSweeper 10) [OpTrack 1; OpTrack 2; OpTrack 3] demo_sweeper_state.
Proof.
  eapply steps_cons; [eapply (sw_track _ 0 1); vm_compute; reflexivity|].
  eapply steps_cons; [eapply (sw_track _ 2 2); vm_compute; reflexivity|].
  eapply steps_cons; [eapply (sw_track _ 5 3); vm_compute; reflexivity|].
  apply steps_nil.
Qed.

Lemma sweeper_refines_map_witness : exists sw', Untrack 2 demo_sweeper_state = Some sw' /\ view sw' = <[1 := 10]> {[3 := 15]}.
Proof.
  destruct (sweeper_refines_map 10 _ _ demo_sweeper_run) as (_ & _ & _ & H).
  destruct (H 2) as (sw' & Hu & Hv). exists sw'. split; [exact Hu|]. rewrite Hv. vm_compute. reflexivity.
Defined.

Lemma Expire_exact_witness : exists sw',
  Expire demo_last_active 13 demo_sweeper_state = Some ([2], sw') /\ view sw' !! 1 = Some 19.
Proof.
  destruct (Expire_exact 10 _ _ demo_last_active 13 ltac:(lia) demo_sweeper_run) as (ex & sw' & He & Hs).
  exists sw'. pose proof He as He'. vm_compute in He'. apply Some_pair_inj in He' as [<- <-]. split; [exact He|vm_compute; reflexivity].
Defined.
