(* ===== verification/Probe.v ===== *)
(** * Probe: observing the nodes (internal/probe/probe.go)

    Each node has one probe with a connection of its own.  In every round it
    pings the node, asks for its role and system identifier and, on a replica,
    for the replication lag, and tells its sink.  What the node answers in a
    round, and the instants read, are the round's [RoundEnv]; the sink is any
    implementation of [Sink].  The theorems about views use the topology. *)

From stdpp Require Import base gmap list strings.
From Stdlib Require Import ZArith Lia.
From S2P Require Import Prelude Types Topology.

Local Open Scope string_scope.
Local Open Scope Z_scope.
Local Open Scope list_scope.

Record Probe := MkProbe { p_conn : option Z; failureCount : Z }.
#[export] Instance Probe_eta : Eta Probe := fun p => MkProbe (p_conn p) (failureCount p).

(** A [float64] result of the lag query, as the fraction it stands for. *)
Definition Float : Type := Z * positive.

Record RoundEnv := MkRoundEnv {
  re_keepalive : option error;       (* ping of the connection at hand *)
  re_connect : error + Z;            (* pgx.Connect *)
  re_ping : option error;
  re_inRecovery : error + bool;
  re_systemID : error + string;
  re_lag : error + option Float * option Time;
  re_sampledAt : Time;
  re_now : Time
}.

Definition wrap_error (prefix : string) (err : error) : error :=
  OtherError (prefix +:+ ": " +:+ Error err) (Some err).

Definition closeConn (p : Probe) : Probe := p <| p_conn := None |>.

(** Connect, and keep the connection unless there is one by now. *)
Definition open_conn (env : RoundEnv) (p : Probe) : (error + Z) * Probe :=
  match re_connect env with
  | inl err => (inl (wrap_error "probe connect" err), p)
  | inr conn =>
    match p_conn p with
    | Some existing => (inr existing, p)
    | None => (inr conn, p <| p_conn := Some conn |> <| failureCount := 0 |>)
    end
  end.

Definition getOrOpenConn (env : RoundEnv) (p : Probe) : (error + Z) * Probe :=
  match p_conn p with
  | Some existing =>
    match re_keepalive env with
    | None => (inr existing, p)
    | Some _ => open_conn env (p <| p_conn := None |>)
    end
  | None => open_conn env p
  end.

Definition fetchRole (env : RoundEnv) : error + ProbeRole :=
  match re_inRecovery env with
  | inl err => inl (wrap_error "pg_is_in_recovery" err)
  | inr true => inr PRoleReplica
  | inr false => inr PRolePrimary
  end.

Definition fetchSystemID (env : RoundEnv) : error + string :=
  match re_systemID env with inl err => inl (wrap_error "pg_control_system" err) | inr sid => inr sid end.

(** [int64(f)] truncates towards zero. *)
Definition classifyLagResult (lagMsFloat : option Float) (replayAt : option Time) : Z * bool :=
  match lagMsFloat, replayAt with
  | Some (num, den), Some _ => (Z.quot num (Z.pos den), false)
  | _, _ => (0, true)
  end.

Definition fetchLag (env : RoundEnv) : error + (Z * bool) :=
  match re_lag env with
  | inl err => inl (wrap_error "replication lag" err)
  | inr (lagMsFloat, replayAt) => inr (classifyLagResult lagMsFloat replayAt)
  end.

Definition threshold (cfg : ProbeConfig) : Z :=
  if LivenessFailureCount cfg <=? 0 then 3 else LivenessFailureCount cfg.

Section rounds.
Context {T : Type} {Snk : Sink T} (id : string) (cfg : ProbeConfig).

Definition recordFailure (now : Time) (err : error) (p : Probe) (t : T) : Probe * T :=
  let p := p <| failureCount ::= inc64 |> in
  if threshold cfg <=? failureCount p then (p, sink_UpdateLiveness now id PLivenessDown (Some err) t)
  else (p, sink_UpdateLiveness now id PLivenessUp (Some err) t).

(** A query failed: drop the connection and count it. *)
Definition fail_round (env : RoundEnv) (err : error) (p : Probe) (t : T) : Probe * T :=
  recordFailure (re_now env) err (closeConn p) t.

Definition report_lag (env : RoundEnv) (role : ProbeRole) (t : T) : T :=
  if bool_decide (role = PRoleReplica) then
    match fetchLag env with
    | inl lagErr => sink_MarkLagUnknown id (Some lagErr) (re_sampledAt env) t
    | inr (_, true) => sink_MarkLagIdle id (re_sampledAt env) t
    | inr (lagMs, false) => sink_UpdateLag id lagMs (re_sampledAt env) t
    end
  else t.

Definition probeOnce (env : RoundEnv) (p : Probe) (t : T) : Probe * T :=
  match getOrOpenConn env p with
  | (inl err, p) => recordFailure (re_now env) err p t
  | (inr _, p) =>
    match re_ping env with
    | Some err => fail_round env err p t
    | None =>
      match fetchRole env with
      | inl err => fail_round env err p t
      | inr role =>
        let t := sink_UpdateObservedRole id role t in
        match fetchSystemID env with
        | inl err => fail_round env err p t
        | inr sid =>
          match sink_UpdateSystemID id sid t with
          | (Some err, t) => fail_round env err p t
          | (None, t) =>
            let t := report_lag env role t in
            (p <| failureCount := 0 |>, sink_UpdateLiveness (re_now env) id PLivenessUp None t)
          end
        end
      end
    end
  end.

Definition interval : Duration := Z.max (millis (IntervalMs cfg)) (millis 100).
Definition backoffCap : Duration := seconds 5.

(** The timer after a round: how long to wait, and the next backoff.  The
    doubling is exact in [float64] below the cap. *)
Definition next_wait (connAlive : bool) (backoff : Duration) : Duration * Duration :=
  if connAlive then (interval, millis 100) else (backoff, Z.min (wrap64 (backoff * 2)) backoffCap).

(** The loop, for the given rounds: the waits between them and the state after. *)
Fixpoint probe_loop (envs : list RoundEnv) (backoff : Duration) (p : Probe) (t : T)
    : list Duration * (Duration * Probe * T) :=
  match envs with
  | [] => ([], (backoff, p, t))
  | env :: envs =>
    let '(p, t) := probeOnce env p t in
    let '(wait, backoff) := next_wait (bool_decide (is_Some (p_conn p))) backoff in
    let '(waits, r) := probe_loop envs backoff p t in
    (wait :: waits, r)
  end.

Definition run_probe (envs : list RoundEnv) (t : T) : list Duration * (Duration * Probe * T) :=
  probe_loop envs (millis 100) (MkProbe None 0) t.

End rounds.

(** ** Lemmas: waiting *)

Lemma backoff_range b : millis 100 <= b <= backoffCap -> millis 100 <= Z.min (wrap64 (b * 2)) backoffCap <= backoffCap.
Proof.
  change (millis 100) with 100000000. change backoffCap with 5000000000. intros Hb.
  rewrite wrap64_id; [lia|]. unfold int64_range, min_int64, max_int64. lia.
Qed.

Lemma next_wait_range cfg alive b w b' :
  millis 100 <= b <= backoffCap -> next_wait cfg alive b = (w, b') ->
  millis 100 <= w <= Z.max (interval cfg) backoffCap /\ millis 100 <= b' <= backoffCap.
Proof.
  intros Hb. unfold next_wait, interval. destruct alive; intros [= <- <-].
  - split; [lia|]. change (millis 100) with 100000000. change backoffCap with 5000000000. lia.
  - split; [lia|]. by apply backoff_range.
Qed.

Section lemmas.
Context {T : Type} {Snk : Sink T} (id : string) (cfg : ProbeConfig).

Lemma probe_loop_waits envs : forall b p (t : T),
  millis 100 <= b <= backoffCap ->
  Forall (fun w => millis 100 <= w <= Z.max (interval cfg) backoffCap) (probe_loop id cfg envs b p t).1.
Proof.
  induction envs as [|env envs IH]; intros b p t Hb; cbn; [apply Forall_nil_2|].
  destruct (probeOnce id cfg env p t) as [p' t'].
  destruct (next_wait cfg _ b) as [w b'] eqn:Hw. destruct (next_wait_range _ _ _ _ _ Hb Hw) as [Hr Hb'].
  specialize (IH b' p' t' Hb'). destruct (probe_loop id cfg envs b' p' t') as [ws r]. by apply Forall_cons_2.
Qed.

(** A round in which the node cannot be reached. *)
Definition unreachable (env : RoundEnv) : Prop := exists err, re_connect env = inl err.

Lemma unreachable_round env p (t : T) :
  p_conn p = None -> unreachable env ->
  exists err, probeOnce id cfg env p t = recordFailure id cfg (re_now env) err p t.
Proof.
  intros Hc [err He]. unfold probeOnce, getOrOpenConn, open_conn. rewrite Hc, He. by eexists.
Qed.

Lemma recordFailure_probe now err p (t : T) :
  (recordFailure id cfg now err p t).1 = p <| failureCount ::= inc64 |>.
Proof. unfold recordFailure. by case_match. Qed.

Lemma min_double x y : 0 < x -> 0 < y -> Z.min (2 * Z.min x y) y = Z.min (2 * x) y.
Proof. lia. Qed.

Lemma probe_loop_backoff envs : forall k p (t : T),
  p_conn p = None -> Forall unreachable envs ->
  (probe_loop id cfg envs (Z.min (millis 100 * 2 ^ Z.of_nat k) backoffCap) p t).1 =
  (fun i => Z.min (millis 100 * 2 ^ Z.of_nat i) backoffCap) <$> seq k (length envs).
Proof.
  induction envs as [|env envs IH]; intros k p t Hc H; cbn; [done|].
  apply Forall_cons in H as [He H]. destruct (unreachable_round env p t Hc He) as [err ->].
  destruct (recordFailure id cfg (re_now env) err p t) as [p' t'] eqn:Hr.
  assert (Hp : p' = p <| failureCount ::= inc64 |>) by (by rewrite <- (recordFailure_probe (re_now env) err p t), Hr).
  assert (Hc' : p_conn p' = None) by by subst.
  rewrite bool_decide_eq_false_2 by (rewrite Hc'; by intros []). cbn [next_wait].
  assert (Hpow : 0 < 2 ^ Z.of_nat k) by (apply Z.pow_pos_nonneg; lia).
  assert (Hnext : Z.min (wrap64 (Z.min (millis 100 * 2 ^ Z.of_nat k) backoffCap * 2)) backoffCap =
    Z.min (millis 100 * 2 ^ Z.of_nat (S k)) backoffCap).
  { change (millis 100) with 100000000. change backoffCap with 5000000000. rewrite wrap64_id.
    - rewrite Nat2Z.inj_succ, Z.pow_succ_r by lia. lia.
    - unfold int64_range, min_int64, max_int64. lia. }
  rewrite Hnext. specialize (IH (S k) p' t' Hc' H).
  destruct (probe_loop id cfg envs _ p' t') as [ws r]. cbn in *. by f_equal.
Qed.

End lemmas.

(** ** Lemmas: the topology as the sink *)

Lemma UpdateLiveness_lookup now id l err (t : Topology) ns :
  nodes t !! id = Some ns -> permanentlyDown ns = false ->
  nodes (UpdateLiveness now id l err t) !! id =
    Some (ns <| liveness := liveness_of_probe l |> <| lastProbeAt := now |> <| lastProbeErr := err |>).
Proof.
  intros Hns Hp. unfold UpdateLiveness. rewrite lookup_update_node, decide_True by done. rewrite Hns. cbn.
  by rewrite Hp.
Qed.

Section topology.
Context (id : string) (cfg : ProbeConfig).

(** The state of a node after a round that failed with [err], the [n]-th in a row. *)
Definition failed_state (n : Z) (now : Time) (err : error) (ns : nodeState) : nodeState :=
  ns <| liveness := if threshold cfg <=? n then LivenessDown else LivenessUp |>
     <| lastProbeAt := now |> <| lastProbeErr := Some err |>.

Lemma recordFailure_topology now err p (t : Topology) ns :
  nodes t !! id = Some ns -> permanentlyDown ns = false ->
  exists t', recordFailure id cfg now err p t = (MkProbe (p_conn p) (inc64 (failureCount p)), t') /\
    nodes t' !! id = Some (failed_state (inc64 (failureCount p)) now err ns).
Proof.
  intros Hns Hp. unfold recordFailure, failed_state. cbn. destruct (threshold cfg <=? inc64 (failureCount p));
    eexists; (split; [done|]); by apply UpdateLiveness_lookup.
Qed.

Lemma inc64_id n : 0 <= n < 2 ^ 63 - 1 -> inc64 n = n + 1.
Proof. intros H. unfold inc64. apply wrap64_id. unfold int64_range, min_int64, max_int64. lia. Qed.

(** Failing rounds in a row add up, and the node goes down at the threshold. *)
Lemma unreachable_loop envs : forall b p (t : Topology) ns,
  p_conn p = None -> nodes t !! id = Some ns -> permanentlyDown ns = false ->
  0 <= failureCount p -> failureCount p + Z.of_nat (length envs) < 2 ^ 63 -> Forall unreachable envs ->
  exists b' t' ns', (probe_loop id cfg envs b p t).2 =
      (b', MkProbe None (failureCount p + Z.of_nat (length envs)), t') /\
    nodes t' !! id = Some ns' /\
    liveness ns' = match envs with
                   | [] => liveness ns
                   | _ => if threshold cfg <=? failureCount p + Z.of_nat (length envs)
                          then LivenessDown else LivenessUp
                   end /\
    (envs <> [] -> lastProbeErr ns' <> None).
Proof.
  induction envs as [|env envs IH]; intros b p t ns Hc Hns Hp H0 Hlen H.
  { exists b, t, ns. cbn. rewrite Z.add_0_r. destruct p as [c fc]. cbn in *. by subst. }
  apply Forall_cons in H as [He H]. cbn [probe_loop].
  destruct (unreachable_round id cfg env p t Hc He) as [err ->].
  destruct (recordFailure_topology (re_now env) err p t ns Hns Hp) as (t1 & -> & Hns1).
  destruct (next_wait cfg _ b) as [w b1].
  cbn [length] in Hlen. rewrite inc64_id in Hns1 by lia.
  rewrite inc64_id by lia.
  destruct (IH b1 (MkProbe (p_conn p) (failureCount p + 1)) t1 _ Hc Hns1) as (b2 & t2 & ns2 & Hloop & Hns2 & Hlive & Herr);
    [done|cbn; lia|cbn; lia|done|]. cbn [failureCount] in Hloop, Hlive.
  exists b2, t2, ns2. destruct (probe_loop id cfg envs b1 _ t1) as [ws r] eqn:Hl. cbn [snd] in *.
  replace (failureCount p + Z.of_nat (length (env :: envs))) with (failureCount p + 1 + Z.of_nat (length envs)) by (cbn [length]; lia).
  split; [done|]. split; [done|]. destruct envs as [|e2 envs].
  - cbn [length probe_loop] in *. rewrite Z.add_0_r in *. injection Hl as <- <-. injection Hloop as <- _ <-.
    rewrite Hns1 in Hns2. injection Hns2 as <-. done.
  - split; [done|]. intros _. by apply Herr.
Qed.
End topology.

(** A round in which the node can be reached but does not answer the ping. *)
Definition mute (env : RoundEnv) : Prop :=
  (exists c, re_connect env = inr c) /\ exists err, re_ping env = Some err.

Lemma mute_round id cfg env p (t : Topology) ns :
  p_conn p = None -> mute env -> nodes t !! id = Some ns -> permanentlyDown ns = false ->
  exists t' err, probeOnce id cfg env p t = (MkProbe None 1, t') /\
    nodes t' !! id = Some (failed_state cfg 1 (re_now env) err ns).
Proof.
  intros Hc [[c He] [err Hping]] Hns Hp. unfold probeOnce, getOrOpenConn, open_conn, fail_round.
  rewrite Hc, He, Hping.
  destruct (recordFailure_topology id cfg (re_now env) err
              (closeConn (p <| p_conn := Some c |> <| failureCount := 0 |>)) t ns Hns Hp) as (t' & Hr & Hns').
  exists t', err. by rewrite Hr.
Qed.

Lemma mute_loop id cfg envs : forall b p (t : Topology) ns,
  2 <= threshold cfg -> p_conn p = None -> Forall mute envs ->
  nodes t !! id = Some ns -> permanentlyDown ns = false -> (envs = [] -> liveness ns <> LivenessDown) ->
  exists ns', nodes (probe_loop id cfg envs b p t).2.2 !! id = Some ns' /\ liveness ns' <> LivenessDown.
Proof.
  induction envs as [|env envs IH]; intros b p t ns Hth Hc H Hns Hp Hlive; cbn [probe_loop].
  { exists ns. auto. }
  apply Forall_cons in H as [He H].
  destruct (mute_round id cfg env p t ns Hc He Hns Hp) as (t' & err & -> & Hns').
  destruct (next_wait cfg _ b) as [w b'].
  destruct (IH b' (MkProbe None 1) t' _ Hth eq_refl H Hns') as (ns2 & Hns2 & Hl2).
  - done.
  - intros _. unfold failed_state. cbn. by rewrite (proj2 (Z.leb_gt (threshold cfg) 1)) by lia.
  - exists ns2. by destruct (probe_loop id cfg envs b' _ t').
Qed.

(** A round in which the node answers everything and is a member of the cluster. *)
Record healthy (env : RoundEnv) (p : Probe) (t : Topology) (inRecovery : bool) (sid : string) : Prop := {
  hl_conn : match p_conn p with Some _ => re_keepalive env = None | None => exists c, re_connect env = inr c end;
  hl_ping : re_ping env = None;
  hl_role : re_inRecovery env = inr inRecovery;
  hl_sid : re_systemID env = inr sid;
  hl_cluster : clusterID t = "" \/ clusterID t = sid
}.

(** The node's state after such a round. *)
Definition healthy_state (env : RoundEnv) (inRecovery : bool) (sid : string) (ns : nodeState) : nodeState :=
  let ns := ns <| observedRole := if inRecovery then RoleReplica else RolePrimary |> <| systemID := sid |> in
  let ns := if inRecovery then
      match fetchLag env with
      | inl _ => ns <| replicationLagMs := None |> <| replicationLagState := LagStateUnknown |>
      | inr (_, true) => ns <| replicationLagMs := None |> <| replicationLagState := LagStateIdle |>
      | inr (lagMs, false) => ns <| replicationLagMs := Some lagMs |> <| replicationLagState := LagStateFresh |>
      end <| lastLagSampleAt := re_sampledAt env |>
    else ns in
  ns <| liveness := LivenessUp |> <| lastProbeAt := re_now env |> <| lastProbeErr := None |>.

Lemma UpdateSystemID_member id sid (t : Topology) ns :
  nodes t !! id = Some ns -> clusterID t = "" \/ clusterID t = sid ->
  exists t', UpdateSystemID id sid t = (None, t') /\ clusterID t' = sid /\
    nodes t' !! id = Some (ns <| systemID := sid |>) /\
    livenessMaxAgeMs t' = livenessMaxAgeMs t /\ observedRoleMaxAgeMs t' = observedRoleMaxAgeMs t.
Proof.
  intros Hns Hc. unfold UpdateSystemID, claim_cluster, verify_node. rewrite Hns.
  destruct (String.eqb_spec (clusterID t) "") as [He|Hne].
  - eexists. split; [done|]. split; [done|]. split; [|done]. rewrite lookup_update_node, decide_True by done. cbn. by rewrite Hns.
  - destruct Hc as [Hc|Hc]; [done|]. rewrite Hc, String.eqb_refl. eexists. split; [done|]. split; [done|].
    split; [|done]. rewrite lookup_update_node, decide_True by done. cbn. by rewrite Hns.
Qed.

Lemma update_at id f (t : Topology) ns :
  nodes t !! id = Some ns -> nodes (update_node id f t) !! id = Some (f ns).
Proof. intros H. rewrite lookup_update_node, decide_True by done. by rewrite H. Qed.

Lemma healthy_conn env p t rec sid :
  healthy env p t rec sid -> exists c p', getOrOpenConn env p = (inr c, p') /\ is_Some (p_conn p').
Proof.
  intros [Hc _ _ _ _]. unfold getOrOpenConn, open_conn. destruct (p_conn p) as [c|] eqn:Hp.
  - rewrite Hc. exists c, p. rewrite Hp. split; [done|by eexists].
  - destruct Hc as [c ->]. eexists c, _. split; [done|by eexists].
Qed.

Lemma report_lag_topology id env (rec : bool) (t : Topology) ns :
  nodes t !! id = Some ns ->
  exists f, report_lag id env (if rec then PRoleReplica else PRolePrimary) t = update_node id f t /\
    f ns = if rec then
      match fetchLag env with
      | inl _ => ns <| replicationLagMs := None |> <| replicationLagState := LagStateUnknown |>
      | inr (_, true) => ns <| replicationLagMs := None |> <| replicationLagState := LagStateIdle |>
      | inr (lagMs, false) => ns <| replicationLagMs := Some lagMs |> <| replicationLagState := LagStateFresh |>
      end <| lastLagSampleAt := re_sampledAt env |>
    else ns.
Proof.
  intros Hns. unfold report_lag. destruct rec; cbn [bool_decide decide_rel].
  - rewrite bool_decide_eq_true_2 by done. destruct (fetchLag env) as [e|[lag [|]]]; eexists; by split.
  - rewrite bool_decide_eq_false_2 by done. exists (fun ns => ns). split; [|done].
    unfold update_node. destruct t. unfold put_field. cbn. f_equal. symmetry. apply alter_id. done.
Qed.

Lemma healthy_round id cfg env p (t : Topology) ns (rec : bool) sid :
  nodes t !! id = Some ns -> permanentlyDown ns = false -> healthy env p t rec sid ->
  exists p' t', probeOnce id cfg env p t = (p', t') /\ failureCount p' = 0 /\ is_Some (p_conn p') /\
    clusterID t' = sid /\ nodes t' !! id = Some (healthy_state env rec sid ns) /\
    livenessMaxAgeMs t' = livenessMaxAgeMs t /\ observedRoleMaxAgeMs t' = observedRoleMaxAgeMs t.
Proof.
  intros Hns Hp Hh. destruct (healthy_conn env p t rec sid Hh) as (c & p' & Hget & Hconn).
  destruct Hh as [_ Hping Hrole Hsid Hclus]. unfold probeOnce. rewrite Hget, Hping.
  unfold fetchRole, fetchSystemID. rewrite Hrole, Hsid.
  set (r := if rec then PRoleReplica else PRolePrimary).
  assert (Hr : (if rec then inr PRoleReplica else inr PRolePrimary) = (inr r : error + ProbeRole)) by (unfold r; by destruct rec).
  rewrite Hr. clear Hr. cbn [sink_UpdateObservedRole sink_UpdateSystemID sink_UpdateLiveness Topology_sink].
  set (t1 := UpdateObservedRole id r t).
  assert (Hns1 : nodes t1 !! id = Some (ns <| observedRole := role_of_probe r |>)) by (by apply update_at).
  destruct (UpdateSystemID_member id sid t1 _ Hns1 Hclus) as (t2 & -> & Hc2 & Hns2 & Hl2 & Ho2).
  destruct (report_lag_topology id env rec t2 _ Hns2) as (f & Hlag & Hf). fold r in Hlag. rewrite Hlag.
  eexists _, _. split; [done|]. split; [done|]. split; [done|]. split; [done|].
  split; [|split; [exact Hl2|exact Ho2]].
  rewrite (UpdateLiveness_lookup _ _ _ _ _ (f (ns <| observedRole := role_of_probe r |> <| systemID := sid |>))).
  - rewrite Hf. f_equal. unfold healthy_state, r. destruct rec; [|done]. by destruct (fetchLag env) as [e|[lag [|]]].
  - by apply update_at.
  - rewrite Hf. destruct rec; [|done]. by destruct (fetchLag env) as [e|[lag [|]]].
Qed.

(** ** Properties *)

(** A round that a member of the cluster answers completely is what the
    topology shows: the node is up with no error, has the role the server
    reported and the cluster's system identifier, and on a replica the lag is
    the measured one, idle, or unknown when the lag query failed; the failure
    count starts again.  The view holds as long as the observation is not
    older than its maximum ages. *)
Theorem healthy_round_view (id : string) (cfg : ProbeConfig) (env : RoundEnv) (p : Probe) (t : Topology)
    (ns : nodeState) (inRecovery : bool) (sid : string) (now : Time) :
  nodes t !! id = Some ns -> permanentlyDown ns = false -> healthy env p t inRecovery sid ->
  stale now (re_now env) (livenessMaxAgeMs t) = false ->
  stale now (re_now env) (observedRoleMaxAgeMs t) = false ->
  let '(p', t') := probeOnce id cfg env p t in
  failureCount p' = 0 /\ ClusterID t' = sid /\
  exists nv, Node t' now id = Some nv /\ nv_Liveness nv = LivenessUp /\ nv_LastProbeErr nv = None /\
    nv_SystemID nv = sid /\ nv_ObservedRole nv = (if inRecovery then RoleReplica else RolePrimary) /\
    (inRecovery = true -> nv_ReplicationLagMs nv =
       match fetchLag env with inr (lagMs, false) => Some lagMs | _ => None end).
Proof.
  intros Hns Hp Hh Hl Ho.
  destruct (healthy_round id cfg env p t ns inRecovery sid Hns Hp Hh)
    as (p' & t' & -> & Hf & _ & Hc & Hns' & Hl' & Ho').
  split; [done|]. split; [done|]. unfold Node. rewrite Hns'. eexists. split; [done|].
  unfold nodeView, healthy_state. rewrite Hl', Ho'.
  destruct inRecovery; [destruct (fetchLag env) as [e|[lag [|]]]|]; cbn [permanentlyDown put_field
    nodeState_eta eta nv_Liveness nv_LastProbeErr nv_SystemID nv_ObservedRole nv_ReplicationLagMs liveness lastProbeAt
    observedRole systemID lastProbeErr replicationLagMs replicationLagState lastLagSampleAt];
    rewrite ?Hp, ?Hl, ?Ho; repeat split; done.
Qed.


(** The probe never hammers a node: between two rounds it waits at least
    100 ms and at most the interval or 5 s, whichever is longer, and while the
    node cannot be reached the waits double from 100 ms up to 5 s. *)
Theorem probe_waits {T : Type} {Snk : Sink T} (id : string) (cfg : ProbeConfig) (envs : list RoundEnv) (t : T) :
  Forall (fun w => millis 100 <= w <= Z.max (interval cfg) (seconds 5)) (run_probe id cfg envs t).1 /\
  (Forall unreachable envs ->
   (run_probe id cfg envs t).1 =
     (fun i => Z.min (millis 100 * 2 ^ Z.of_nat i) (seconds 5)) <$> seq 0 (length envs)).
Proof.
  split.
  - apply probe_loop_waits. change (millis 100) with 100000000. change backoffCap with 5000000000. lia.
  - intros H. exact (probe_loop_backoff id cfg envs 0 (MkProbe None 0) t eq_refl H).
Qed.

(** A node that can be reached but never answers a query is never reported
    down, however long that lasts: opening the connection resets the count of
    failures in every round. *)
Theorem mute_node_never_goes_down (id : string) (cfg : ProbeConfig) (envs : list RoundEnv) (t : Topology)
    (ns : nodeState) :
  2 <= threshold cfg -> envs <> [] -> Forall mute envs ->
  nodes t !! id = Some ns -> permanentlyDown ns = false ->
  exists ns', nodes (run_probe id cfg envs t).2.2 !! id = Some ns' /\ liveness ns' <> LivenessDown.
Proof. intros Hth Hne H Hns Hp. by apply (mute_loop id cfg envs (millis 100) (MkProbe None 0) t ns). Qed.

(** ** Witnesses *)

Definition demo_probe_node : NodeConfig :=
  MkNodeConfig "n1" "db1" 5432 "replica" (MkNodeConnectionConfig "u" "p" "d" 5 "") (MkNodePoolConfig 1 2 0 0 0 0).
Definition demo_probe_topology : Topology :=
  MkTopology {[ "n1" := init_node demo_probe_node 0%nat ]} "" None 5000 5000 2000.

Definition refused (now : Time) : RoundEnv :=
  MkRoundEnv None (inl (OtherError "connection refused" None)) None (inr true) (inr "") (inr (None, None)) now now.

Definition answered : RoundEnv :=
  MkRoundEnv None (inr 1) None (inr true) (inr "7301") (inr (Some (2503, 2%positive), Some 5)) 1000 1001.

Lemma healthy_round_view_witness :
  let '(p', t') := probeOnce "n1" DefaultProbeConfig answered (MkProbe None 2) demo_probe_topology in
  failureCount p' = 0 /\ exists nv, Node t' 2000 "n1" = Some nv /\ nv_Liveness nv = LivenessUp /\
    nv_ReplicationLagMs nv = Some 1251.
Proof.
  pose proof (healthy_round_view "n1" DefaultProbeConfig answered (MkProbe None 2) demo_probe_topology
    (init_node demo_probe_node 0%nat) true "7301" 2000 eq_refl eq_refl) as H.
  destruct H as (Hf & _ & nv & Hnv & Hl & _ & _ & _ & Hlag).
  - split; [by exists 1|done|done|done|by left].
  - reflexivity.
  - reflexivity.
  - split; [exact Hf|]. exists nv. split; [exact Hnv|]. split; [exact Hl|]. exact (Hlag eq_refl).
Defined.


(** A node that was never reachable is shown as up until its failures reach the threshold. *)
Theorem unreachable_node_first_shown_up :
  exists nv, Node (run_probe "n1" DefaultProbeConfig [refused 1] demo_probe_topology).2.2 2 "n1" = Some nv /\
    nv_Liveness nv = LivenessUp /\ nv_LastProbeErr nv <> None.
Proof. eexists. split; [vm_compute; reflexivity|]. split; [reflexivity|done]. Qed.
