(* ===== verification/Startup.v ===== *)
(** * Startup: putting the parts together (cmd/main.go)

    The policies of the configuration become instances of the engine, the bus
    gets its configured sizes, and the pipeline gets both. *)

From stdpp Require Import base gmap list strings.
From Stdlib Require Import ZArith Lia.
From S2P Require Import Prelude GoStrings Types Config Topology Decisions Policy Routing.

Local Open Scope string_scope.
Local Open Scope Z_scope.
Local Open Scope list_scope.

(** [int(f)] truncates; values of any other type are skipped. *)
Definition param_value (v : ParamValue) : option Z :=
  match v with PFloat num den => Some (Z.quot num (Z.pos den)) | PInt n => Some n | POther => None end.

Definition policy_instance (pc : PolicyConfig) : Instance_ :=
  MkInstance (po_Name pc) (po_Template pc) (po_Scope pc) (omap param_value (po_Parameters pc))
    (MkTiming (po_DwellMs pc) (po_ReleaseMs pc)).

Definition start_bus (c : Config) : Bus :=
  NewBus (dc_MaxSubscribers (Decisions_ (Server c))) (dc_PerSubscriberBuffer (Decisions_ (Server c))).

Definition start_engine (c : Config) : Engine := NewEngine (policy_instance <$> Policies c) true.

Definition start_pipeline (c : Config) : Pipeline := NewPipeline (Some (start_engine c)) (Some (start_bus c)).

(** The verdict over the first probes; the nodes are read twice. *)
Inductive StartupVerdict := SystemIDMismatch (err : error) | AllNodesDown | Starts (warned : list string).

Definition startup_verdict (nodeCount : nat) (sysIDErr : option error) (views views' : list NodeView) : StartupVerdict :=
  match (if (1 <? nodeCount)%nat then sysIDErr else None) with
  | Some err => SystemIDMismatch err
  | None =>
    if existsb (fun nv => negb (IsZero (nv_LastProbeAt nv)) && bool_decide (nv_LastProbeErr nv = None)) views
    then Starts (nv_ID <$> filter (fun nv => nv_LastProbeErr nv <> None) views')
    else AllNodesDown
  end.

(** ** Lemmas *)

Lemma add_instances_lookup insts : forall e name,
  NoDup (inst_Name <$> insts) ->
  instances (foldl add_instance e insts) !! name =
  match list_find (fun i => inst_Name i = name) insts with Some (_, i) => Some i | None => instances e !! name end.
Proof.
  induction insts as [|i insts IH]; intros e name Hnd; [done|].
  rewrite fmap_cons in Hnd. apply NoDup_cons in Hnd as [Hi Hnd]. cbn [foldl list_find].
  rewrite (IH _ _ Hnd). case_decide as E.
  - assert (Hno : list_find (fun j => inst_Name j = name) insts = None).
    { apply list_find_None, Forall_forall. intros j Hj Hn. apply Hi. rewrite E, <- Hn. by apply list_elem_of_fmap_2. }
    rewrite Hno. cbn. by rewrite E, lookup_insert_eq.
  - destruct (list_find (fun j => inst_Name j = name) insts) as [[k j]|]; cbn; [done|].
    by rewrite lookup_insert_ne.
Qed.

Lemma NewEngine_configured insts bus i :
  NoDup (inst_Name <$> insts) -> i ∈ insts -> instances (NewEngine insts bus) !! inst_Name i = Some i.
Proof.
  intros Hnd Hi. unfold NewEngine, ensureDefaults. do 3 apply ensure_instance_keeps.
  rewrite (add_instances_lookup insts _ _ Hnd).
  destruct (list_find_elem_of (fun j => inst_Name j = inst_Name i) insts i Hi eq_refl) as [[k j] Hf]. rewrite Hf.
  apply list_find_Some in Hf as (Hk & Hj & _). f_equal.
  apply list_elem_of_lookup in Hi as [k' Hk'].
  assert (k = k') as ->.
  { eapply (NoDup_lookup (inst_Name <$> insts)); [done|rewrite list_lookup_fmap, Hk; cbn; by rewrite Hj|].
    by rewrite list_lookup_fmap, Hk'. }
  congruence.
Qed.

(** ** Properties *)

(** A valid configuration is in force after startup: every configured
    policy is an instance of the engine under its name, with the configured
    template and timing, the three default policies are there, the node ids
    are distinct, and the bus is ready for the first decision; the durations
    must not overflow, and the sizes of the bus, which validation does not
    check, must not be negative. *)
Theorem valid_config_in_force (parse_level : string -> bool) (c : Config) (env : LeaseEnv) :
  valid_config parse_level c ->
  0 <= dc_MaxSubscribers (Decisions_ (Server c)) ->
  Forall (fun pol => po_DwellMs pol <= max_millis /\ po_ReleaseMs pol <= max_millis) (Policies c) ->
  env_SubOrder env = [] ->
  (forall pol, pol ∈ Policies c -> exists inst, instances (start_engine c) !! po_Name pol = Some inst /\
     inst_Template inst = po_Template pol /\ DwellMs (inst_Timing inst) = po_DwellMs pol /\
     ReleaseMs (inst_Timing inst) = po_ReleaseMs pol /\ timing_ok (inst_Timing inst)) /\
  has_defaults (start_engine c) /\ engine_wf (start_engine c) /\
  NoDup (nc_ID <$> Nodes_ c) /\ bus_ready env (start_pipeline c).
Proof.
  intros [_ _ _ Hnodes _ _ Hpols Hnames _] Hmax Hlim Henv. split; [|split; [|split; [|split]]].
  - intros pol Hpol. exists (policy_instance pol). split.
    + apply (NewEngine_configured (policy_instance <$> Policies c) true (policy_instance pol)).
      * by rewrite <- list_fmap_compose.
      * by apply list_elem_of_fmap_2.
    + rewrite Forall_forall in Hpols, Hlim. destruct (Hpols pol Hpol) as [_ _ _ (Hd & Hr & _)].
      destruct (Hlim pol Hpol). cbn. unfold timing_ok. cbn. repeat split; done || lia.
  - apply NewEngine_defaults.
  - apply NewEngine_wf.
  - apply Hnodes.
  - unfold bus_ready, start_pipeline. cbn [decisionsBus NewPipeline]. split; [by apply NewBus_inv|].
    rewrite Henv. unfold sub_order, start_bus, NewBus. cbn. done.
Qed.

Definition demo_policy : PolicyConfig :=
  MkPolicyConfig "lag" "lag-filter" "cluster" {[ "threshold_ms" := PFloat 250 1 ]} 2000 3000.
Definition demo_startup_config : Config :=
  MkConfig (Server Default) (Nodes_ Default) (ProbeConfig_ Default) (Logging Default) (Telemetry Default) (Auth Default)
    [demo_policy].

Lemma valid_config_in_force_witness :
  (exists inst, instances (start_engine demo_startup_config) !! "lag" = Some inst /\ DwellMs (inst_Timing inst) = 2000) /\
  bus_ready (demo_env demo_cluster) (start_pipeline demo_startup_config).
Proof.
  destruct (valid_config_in_force zap_level demo_startup_config (demo_env demo_cluster)) as (Hpol & _ & _ & _ & Hbus).
  - apply (Validate_nil zap_level ["write"] [] demo_startup_config); vm_compute; reflexivity.
  - vm_compute. by intros [=].
  - apply Forall_singleton. split; vm_compute; by intros [=].
  - reflexivity.
  - split; [|exact Hbus]. destruct (Hpol demo_policy) as (inst & Hi & _ & Hd & _); [by left|]. by exists inst.
Defined.
