(* ===== verification/DownstreamClient.v ===== *)
(** * DownstreamClient: the client's side of a session
    (internal/server/downstream_client/client.go)

    The startup negotiation (TLS, GSS encryption, mandatory TLS), the three
    authentication exchanges, the welcome sequence, and the buffered sends.
    An operation runs in a small error monad over the [Client] and its [Peer]:
    what the network delivers, which writes fail, and a trace of what went over
    the wire, each entry with the number of TLS layers it went through.  The
    codec of pgproto3, the TLS handshake, the random source and the MD5 digest
    are outside the program: the first three are what the peer delivers, the
    digest is a parameter. *)

From stdpp Require Import base gmap strings list.
From Stdlib Require Import ZArith Lia Ascii.
From S2P Require Import Prelude GoStrings GoEncoding Types Messaging.

Local Open Scope string_scope.
Local Open Scope list_scope.

(** ** Messages of the startup phase *)

Inductive StartupMsg :=
| SSLRequest
| GSSEncRequest
| StartupMessage (Parameters : gmap string string)
| OtherStartup (type_name : string).

(** What [backend.Receive] delivers during authentication. *)
Inductive AuthReply :=
| PasswordMessage (Password_ : string)
| SASLInitialResponse (AuthMechanism Data : string)
| SASLResponse (Data : string)
| OtherReply (type_name : string).

Definition reply_type (m : AuthReply) : string :=
  match m with
  | PasswordMessage _ => "*pgproto3.PasswordMessage"
  | SASLInitialResponse _ _ => "*pgproto3.SASLInitialResponse"
  | SASLResponse _ => "*pgproto3.SASLResponse"
  | OtherReply t => t
  end.

(** What is sent: the messages of the startup phase, and all others. *)
Inductive ClientMsg :=
| AuthenticationCleartextPassword
| AuthenticationMD5Password (Salt : string)
| AuthenticationSASL (AuthMechanisms : list string)
| AuthenticationSASLContinue (Data : string)
| AuthenticationSASLFinal (Data : string)
| StatusParameter (Name Value : string)
| BackendKeyData (ProcessID : Z) (SecretKey : list Z)
| Msg (m : BackendMessage).
#[export] Instance ClientMsg_eq_dec : EqDecision ClientMsg.
Proof. solve_decision. Defined.

Inductive AuthType := AuthTypeOk | AuthTypeSASL | AuthTypeSASLContinue.

(** ** State *)

(** [tls_layers] is 0 while [conn] is the plain connection; every accepted
    [SSLRequest] wraps it in a [tls.Conn].  [wbuf] and [authType] are the
    backend's. *)
Record Client := MkClient {
  tls_layers : nat;
  wbuf : list ClientMsg;
  authType : AuthType;
  requiredSSL : bool;
  tlsConfig : bool;
  md5Salt : string
}.
#[export] Instance Client_eta : Eta Client := fun c =>
  MkClient (tls_layers c) (wbuf c) (authType c) (requiredSSL c) (tlsConfig c) (md5Salt c).

Inductive Wire :=
| GotStartup (layers : nat)
| GotMessage (layers : nat)
| WroteByte (layers : nat) (b : string) (ok : bool)
| Upgraded (ok : bool)
| Flushed (layers : nat) (msgs : list ClientMsg) (ok : bool).
#[export] Instance Wire_eq_dec : EqDecision Wire.
Proof. solve_decision. Defined.

(** [salts] are the successes and failures of the random source. *)
Record Peer := MkPeer {
  startups : list (error + StartupMsg);
  replies : list (error + AuthReply);
  faults : list bool;
  salts : list (error + string);
  wire : list Wire
}.
#[export] Instance Peer_eta : Eta Peer := fun p =>
  MkPeer (startups p) (replies p) (faults p) (salts p) (wire p).

Definition zero_salt : string := chr 0 +:+ chr 0 +:+ chr 0 +:+ chr 0.

Definition Initialize (tlsCfg required : bool) : Client :=
  MkClient 0 [] AuthTypeOk required tlsCfg zero_salt.

(** ** The monad: an error ends the operation *)

Definition Act (A : Type) : Type := Client * Peer -> (error + A) * (Client * Peer).

Definition ret {A} (a : A) : Act A := fun st => (inr a, st).
Definition fail {A} (e : error) : Act A := fun st => (inl e, st).
Definition bind {A B} (m : Act A) (k : A -> Act B) : Act B := fun st =>
  match m st with
  | (inr a, st') => k a st'
  | (inl e, st') => (inl e, st')
  end.
Notation "'let?' x ':=' m 'in' k" := (bind m (fun x => k))
  (at level 200, x pattern, m at level 100, k at level 200) : go_scope.
Notation "m ';?' k" := (bind m (fun _ => k)) (at level 199, right associativity) : go_scope.

(** [fmt.Errorf("what: %w", err)]. *)
Definition wrapped (what : string) (e : error) : error :=
  OtherError (what +:+ ": " +:+ Error e) (Some e).
Definition annotate {A} (what : string) (m : Act A) : Act A := fun st =>
  match m st with
  | (inl e, st') => (inl (wrapped what e), st')
  | r => r
  end.
Definition errorf (msg : string) : error := OtherError msg None.

Definition client_of : Act Client := fun st => (inr st.1, st).
Definition set_client (f : Client -> Client) : Act unit := fun st => (inr tt, (f st.1, st.2)).
Definition log (f : Client -> Wire) : Act unit := fun st =>
  (inr tt, (st.1, st.2 <| wire ::= fun w => w ++ [f st.1] |>)).

Definition EOF : error := errorf "EOF".

Definition take_startup : Act StartupMsg := fun '(c, p) =>
  match startups p with
  | [] => (inl EOF, (c, p))
  | r :: rest => (r, (c, p <| startups := rest |>))
  end.
Definition take_reply : Act AuthReply := fun '(c, p) =>
  match replies p with
  | [] => (inl EOF, (c, p))
  | r :: rest => (r, (c, p <| replies := rest |>))
  end.
Definition take_salt : Act string := fun '(c, p) =>
  match salts p with
  | [] => (inl EOF, (c, p))
  | r :: rest => (r, (c, p <| salts := rest |>))
  end.

Definition write_failed : error := errorf "write failed".

(** An operation that may fail, with its entry in the trace. *)
Definition io (entry : Client -> bool -> Wire) : Act unit := fun '(c, p) =>
  let failed := default false (head (faults p)) in
  let p := p <| faults := tail (faults p) |> <| wire ::= fun w => w ++ [entry c (negb failed)] |> in
  if failed : bool then (inl write_failed, (c, p)) else (inr tt, (c, p)).

(** ** Library operations *)

Definition ReceiveStartupMessage : Act StartupMsg :=
  log (fun c => GotStartup (tls_layers c)) ;? take_startup.

Definition Receive : Act AuthReply :=
  log (fun c => GotMessage (tls_layers c)) ;? take_reply.

Definition conn_Write (b : string) : Act unit := io (fun c ok => WroteByte (tls_layers c) b ok).

Definition SetAuthType (t : AuthType) : Act unit := set_client (fun c => c <| authType := t |>).

(** ** Sends *)

Definition Send (msgs : list ClientMsg) : Act unit :=
  set_client (fun c => c <| wbuf ::= fun b => b ++ msgs |>).

(** The buffer is empty afterwards, also when the write failed. *)
Definition Flush : Act unit := fun '(c, p) =>
  let '(r, (c', p')) := io (fun c ok => Flushed (tls_layers c) (wbuf c) ok) (c, p) in
  (r, (c' <| wbuf := [] |>, p')).

(** ** Authentication exchanges *)

Definition read_password (user : string) : Act (string * string) :=
  let? msg := Receive in
  match msg with
  | PasswordMessage pw => ret (user, pw)
  | _ => fail (errorf ("expected password message, got " +:+ reply_type msg))
  end.

Definition startupCleartext (user : string) : Act (string * string) :=
  Send [AuthenticationCleartextPassword] ;? Flush ;? read_password user.

Definition startupMD5 (user : string) : Act (string * string) :=
  let? salt := annotate "generate MD5 salt" take_salt in
  set_client (fun c => c <| md5Salt := salt |>) ;?
  (let? c := client_of in Send [AuthenticationMD5Password (md5Salt c)]) ;?
  Flush ;? read_password user.

Definition MD5Salt (c : Client) : string := md5Salt c.

(** [stepFn] works on a conversation [C] of its own. *)
Definition SASLExchange {C : Type} (stepFn : C -> string -> (error + string) * C) (conv : C)
  : Act unit :=
  annotate "send AuthenticationSASL" (Send [AuthenticationSASL ["SCRAM-SHA-256"]]) ;?
  annotate "flush AuthenticationSASL" Flush ;?
  annotate "set auth type SASL" (SetAuthType AuthTypeSASL) ;?
  let? msg := annotate "receive SASLInitialResponse" Receive in
  match msg with
  | SASLInitialResponse _ data =>
    let '(r, conv) := stepFn conv data in
    match r with
    | inl err => fail (wrapped "SCRAM step 1" err)
    | inr serverFirst =>
      annotate "send AuthenticationSASLContinue" (Send [AuthenticationSASLContinue serverFirst]) ;?
      annotate "flush AuthenticationSASLContinue" Flush ;?
      annotate "set auth type SASLContinue" (SetAuthType AuthTypeSASLContinue) ;?
      let? msg := annotate "receive SASLResponse" Receive in
      match msg with
      | SASLResponse data =>
        let '(r, _) := stepFn conv data in
        match r with
        | inl err => fail (wrapped "SCRAM step 2" err)
        | inr serverFinal =>
          annotate "send AuthenticationSASLFinal" (Send [AuthenticationSASLFinal serverFinal]) ;?
          annotate "flush AuthenticationSASLFinal" Flush
        end
      | _ => fail (errorf ("expected SASLResponse, got " +:+ reply_type msg))
      end
    end
  | _ => fail (errorf ("expected SASLInitialResponse, got " +:+ reply_type msg))
  end.

(** [ComputeMD5Password]; [md5] is the digest of [crypto/md5]. *)
Definition ComputeMD5Password (md5 : string -> string) (user password salt : string) : string :=
  let inner := hex_EncodeToString (md5 (password +:+ user)) in
  "md5" +:+ hex_EncodeToString (md5 (inner +:+ salt)).

(** ** Startup *)

(** [m.Parameters["user"]], empty when the parameter is missing. *)
Definition param (k : string) (ps : gmap string string) : string := default "" (ps !! k).

Definition ssl_required_response : ClientMsg :=
  Msg (ErrorResponse "FATAL" "28000" "SSL connection is required").

(** [c.conn = tlsConn] with a new backend around it. *)
Definition upgrade (c : Client) : Client :=
  c <| tls_layers ::= S |> <| wbuf := [] |> <| authType := AuthTypeOk |>.

Definition on_ssl_request : Act unit :=
  let? c := client_of in
  if tlsConfig c then
    conn_Write "S" ;?
    annotate "tls handshake failed" (io (fun _ ok => Upgraded ok)) ;?
    set_client upgrade
  else conn_Write "N".

Definition on_startup_message (authMethod : AuthMethod) (ps : gmap string string)
  : Act (string * string) :=
  let? c := client_of in
  if requiredSSL c && (tls_layers c =? 0)%nat then
    Send [ssl_required_response] ;? Flush ;? fail (errorf "ssl connection is required")
  else
    let user := param "user" ps in
    match authMethod with
    | AuthMD5 => startupMD5 user
    | AuthScramSHA256 => ret (user, "")
    | AuthPlain => startupCleartext user
    end.

(** The loop of [Startup] over the messages the peer still has to deliver:
    every round takes one. *)
Fixpoint startup_loop (authMethod : AuthMethod) (pending : list (error + StartupMsg))
  : Act (string * string) :=
  let? msg := ReceiveStartupMessage in
  match pending with
  | [] => fail EOF
  | _ :: pending =>
    match msg with
    | SSLRequest => on_ssl_request ;? startup_loop authMethod pending
    | GSSEncRequest => conn_Write "N" ;? startup_loop authMethod pending
    | StartupMessage ps => on_startup_message authMethod ps
    | OtherStartup t => fail (errorf ("unexpected message type: " +:+ t))
    end
  end.

Definition Startup (authMethod : AuthMethod) : Act (string * string) := fun st =>
  startup_loop authMethod (startups st.2) st.

(** ** The welcome sequence *)

Definition welcome_parameters : list ClientMsg :=
  [StatusParameter "server_version" "14.0"; StatusParameter "server_encoding" "UTF8";
   StatusParameter "client_encoding" "UTF8"; StatusParameter "DateStyle" "ISO, MDY";
   StatusParameter "integer_datetimes" "on"; StatusParameter "standard_conforming_strings" "on"].

Definition Handshake : Act unit :=
  annotate "failed to send parameter status" (Send welcome_parameters) ;?
  annotate "failed to send backend key data" (Send [BackendKeyData 1234 [0; 0; 0; 0]%Z]) ;?
  annotate "failed to send ready for query" (Send [Msg (ReadyForQuery "I"%char)]) ;?
  annotate "failed to flush welcome sequence" Flush.

(** ** Reasoning about operations

    [hoare J pre m post]: from a client that satisfies [pre], the trace keeps
    satisfying [J], however [m] ends, and [post] holds when it ends well. *)

Definition hoare {A} (J : list Wire -> Prop) (pre : Client -> list Wire -> Prop) (m : Act A)
    (post : A -> Client -> list Wire -> Prop) : Prop :=
  forall c p, J (wire p) -> pre c (wire p) ->
  J (wire (m (c, p)).2.2) /\
  match (m (c, p)).1 with inr a => post a (m (c, p)).2.1 (wire (m (c, p)).2.2) | inl _ => True end.

Section rules.
Context (J : list Wire -> Prop).

Lemma hoare_ret {A} (a : A) post : hoare J (post a) (ret a) post.
Proof. by intros c p. Qed.

Lemma hoare_fail {A} (e : error) pre post : hoare J pre (fail (A := A) e) post.
Proof. by intros c p. Qed.

Lemma hoare_bind {A B} (m : Act A) (k : A -> Act B) pre mid post :
  hoare J pre m mid -> (forall a, hoare J (mid a) (k a) post) -> hoare J pre (bind m k) post.
Proof.
  intros Hm Hk c p HJ Hpre. unfold bind. specialize (Hm c p HJ Hpre).
  destruct (m (c, p)) as [[e|a] [c' p']]; cbn in *; [tauto|].
  destruct Hm as [HJ' Ha]. exact (Hk a c' p' HJ' Ha).
Qed.

Lemma hoare_conseq {A} (m : Act A) (pre pre' : Client -> list Wire -> Prop)
    (post post' : A -> Client -> list Wire -> Prop) :
  hoare J pre' m post' -> (forall c w, J w -> pre c w -> pre' c w) ->
  (forall a c w, J w -> post' a c w -> post a c w) -> hoare J pre m post.
Proof.
  intros Hm H1 H2 c p HJ Hpre. specialize (Hm c p HJ (H1 _ _ HJ Hpre)).
  destruct (m (c, p)) as [[e|a] [c' p']]; cbn in *; [tauto|]. naive_solver.
Qed.

Lemma hoare_annotate {A} what (m : Act A) pre post :
  hoare J pre m post -> hoare J pre (annotate what m) post.
Proof.
  intros Hm c p HJ Hpre. specialize (Hm c p HJ Hpre). unfold annotate.
  by destruct (m (c, p)) as [[e|a] [c' p']].
Qed.

Lemma hoare_client pre : hoare J pre client_of (fun a c w => a = c /\ pre c w).
Proof. by intros c p. Qed.

Lemma hoare_set (f : Client -> Client) (post : unit -> Client -> list Wire -> Prop) :
  hoare J (fun c w => post tt (f c) w) (set_client f) post.
Proof. by intros c p. Qed.

Lemma hoare_log (f : Client -> Wire) (post : unit -> Client -> list Wire -> Prop) :
  hoare J (fun c w => J (w ++ [f c]) /\ post tt c (w ++ [f c])) (log f) post.
Proof. intros c p HJ [H1 H2]. by split. Qed.

Lemma hoare_io entry (post : unit -> Client -> list Wire -> Prop) :
  hoare J (fun c w => J (w ++ [entry c true]) /\ J (w ++ [entry c false]) /\
                      post tt c (w ++ [entry c true])) (io entry) post.
Proof. intros c p HJ (H1 & H2 & H3). unfold io. by destruct (default false _). Qed.

Lemma hoare_Flush (post : unit -> Client -> list Wire -> Prop) :
  hoare J (fun c w => J (w ++ [Flushed (tls_layers c) (wbuf c) true]) /\
                      J (w ++ [Flushed (tls_layers c) (wbuf c) false]) /\
                      post tt (c <| wbuf := [] |>) (w ++ [Flushed (tls_layers c) (wbuf c) true]))
    Flush post.
Proof. intros c p HJ (H1 & H2 & H3). unfold Flush, io. by destruct (default false _). Qed.

Lemma hoare_take_startup pre : hoare J pre take_startup (fun _ => pre).
Proof. intros c p HJ Hpre. unfold take_startup. by destruct (startups p) as [|[]]. Qed.

Lemma hoare_take_reply pre : hoare J pre take_reply (fun _ => pre).
Proof. intros c p HJ Hpre. unfold take_reply. by destruct (replies p) as [|[]]. Qed.

Lemma hoare_take_salt pre : hoare J pre take_salt (fun _ => pre).
Proof. intros c p HJ Hpre. unfold take_salt. by destruct (salts p) as [|[]]. Qed.

Lemma hoare_Receive (post : AuthReply -> Client -> list Wire -> Prop) :
  hoare J (fun c w => J (w ++ [GotMessage (tls_layers c)]) /\
                      forall a, post a c (w ++ [GotMessage (tls_layers c)])) Receive post.
Proof.
  eapply hoare_bind; [apply hoare_log with (post := fun _ c w => forall a, post a c w)|].
  intros []. eapply hoare_conseq; [apply (hoare_take_reply (fun c w => forall a, post a c w))|done|by auto].
Qed.

End rules.

(** ** Mandatory TLS

    What may cross a connection when TLS is required: over a plain one no
    message is read from the client and nothing is flushed but the refusal. *)
Definition no_exposure (w : Wire) : Prop :=
  match w with
  | GotMessage O => False
  | Flushed O msgs _ => msgs = [ssl_required_response]
  | _ => True
  end.

Definition guarded (c : Client) : Prop := requiredSSL c = true /\ wbuf c = [].
Definition secured (c : Client) : Prop := guarded c /\ (0 < tls_layers c)%nat.

Lemma no_exposure_app (w : list Wire) (e : Wire) :
  Forall no_exposure w -> no_exposure e -> Forall no_exposure (w ++ [e]).
Proof. intros. apply Forall_app. auto. Qed.

Lemma no_exposure_secured (n : nat) (msgs : list ClientMsg) (ok : bool) :
  (0 < n)%nat -> no_exposure (GotMessage n) /\ no_exposure (Flushed n msgs ok).
Proof. destruct n; [lia|done]. Qed.

Lemma secured_flush (c : Client) : secured c -> secured (c <| wbuf := [] |>).
Proof. intros [[H1 H2] H3]. by repeat split. Qed.

Lemma secured_Flush :
  hoare (Forall no_exposure) (fun c _ => requiredSSL c = true /\ (0 < tls_layers c)%nat) Flush
    (fun _ c _ => secured c).
Proof.
  eapply hoare_conseq; [apply hoare_Flush with (post := fun _ c _ => secured c)| |done].
  intros c w Hw [H1 H2]. split_and!; [..|by repeat split];
    apply no_exposure_app; try done; by apply no_exposure_secured.
Qed.

Lemma secured_Send (msgs : list ClientMsg) :
  hoare (Forall no_exposure) (fun c _ => secured c) (Send msgs)
    (fun _ c _ => requiredSSL c = true /\ (0 < tls_layers c)%nat).
Proof. intros c p HJ [[H1 H2] H3]. by repeat split. Qed.

Lemma secured_Receive :
  hoare (Forall no_exposure) (fun c _ => secured c) Receive (fun _ c _ => secured c).
Proof.
  eapply hoare_conseq; [apply hoare_Receive with (post := fun _ c _ => secured c)| |done].
  intros c w Hw Hc. split; [|done]. apply no_exposure_app; [done|].
  apply (no_exposure_secured _ []  true), Hc.
Qed.

Lemma secured_set (f : Client -> Client) :
  (forall c, secured c -> secured (f c)) ->
  hoare (Forall no_exposure) (fun c _ => secured c) (set_client f) (fun _ c _ => secured c).
Proof. intros Hf c p HJ Hc. split; [done|]. by apply Hf. Qed.

(** Straight-line code over an encrypted connection. *)
Ltac secured_step :=
  match goal with
  | |- hoare _ _ (bind _ _) _ => eapply hoare_bind; [|intros ?]
  | |- hoare _ _ (annotate _ _) _ => apply hoare_annotate
  | |- hoare _ _ (fail _) _ => apply hoare_fail
  | |- hoare _ _ Flush _ => apply secured_Flush
  | |- hoare _ _ (Send _) _ => apply secured_Send
  | |- hoare _ _ Receive _ => apply secured_Receive
  | |- hoare _ _ (SetAuthType _) _ => apply secured_set; intros ? [[? ?] ?]; by repeat split
  | |- hoare _ _ (match ?x with _ => _ end) _ => destruct x
  end.

Lemma secured_read_password (user : string) :
  hoare (Forall no_exposure) (fun c _ => secured c) (read_password user) (fun _ c _ => secured c).
Proof. unfold read_password. repeat secured_step. apply (hoare_ret _ _ (fun _ c _ => secured c)). Qed.

Lemma secured_startupCleartext (user : string) :
  hoare (Forall no_exposure) (fun c _ => secured c) (startupCleartext user) (fun _ c _ => secured c).
Proof. unfold startupCleartext. repeat secured_step. apply secured_read_password. Qed.

Lemma secured_startupMD5 (user : string) :
  hoare (Forall no_exposure) (fun c _ => secured c) (startupMD5 user) (fun _ c _ => secured c).
Proof.
  unfold startupMD5. eapply hoare_bind; [apply hoare_annotate, hoare_take_salt|intros salt].
  eapply hoare_bind; [apply secured_set; intros ? [[? ?] ?]; by repeat split|intros []].
  eapply hoare_bind; [|intros; repeat secured_step; apply secured_read_password].
  intros c p HJ Hc. by apply (secured_Send [AuthenticationMD5Password (md5Salt c)] c p).
Qed.

Lemma secured_SASLExchange {C} (stepFn : C -> string -> (error + string) * C) (conv : C) :
  hoare (Forall no_exposure) (fun c _ => secured c) (SASLExchange stepFn conv) (fun _ c _ => secured c).
Proof. unfold SASLExchange. repeat secured_step. Qed.

Lemma guarded_on_startup_message (m : AuthMethod) (ps : gmap string string) :
  hoare (Forall no_exposure) (fun c _ => guarded c) (on_startup_message m ps) (fun _ c _ => secured c).
Proof.
  unfold on_startup_message. eapply hoare_bind; [apply hoare_client|intros c0].
  intros c p HJ [-> Hg]. destruct Hg as [Hr Hb]. rewrite Hr. cbn [andb].
  destruct (Nat.eqb_spec (tls_layers c) 0) as [H0|H0].
  - assert (Hw : forall ok, Forall no_exposure
      (wire p ++ [Flushed (tls_layers c) (wbuf c ++ [ssl_required_response]) ok])).
    { intros ok. apply no_exposure_app; [done|]. by rewrite H0, Hb. }
    unfold bind, Send, set_client, Flush, io; cbn.
    destruct (default false _); cbn; split; auto; apply (Hw _).
  - assert (Hs : secured c) by (repeat split; [done..|lia]). destruct m.
    + by apply secured_startupCleartext.
    + by apply secured_startupMD5.
    + by apply (hoare_ret _ _ (fun _ c _ => secured c)).
Qed.

Lemma guarded_io entry :
  (forall c ok, no_exposure (entry c ok)) ->
  hoare (Forall no_exposure) (fun c _ => guarded c) (io entry) (fun _ c _ => guarded c).
Proof.
  intros He. eapply hoare_conseq; [apply hoare_io with (post := fun _ c _ => guarded c)| |done].
  intros c w Hw Hc. split_and!; try done; by apply no_exposure_app.
Qed.

Lemma guarded_on_ssl_request :
  hoare (Forall no_exposure) (fun c _ => guarded c) on_ssl_request (fun _ c _ => guarded c).
Proof.
  unfold on_ssl_request. eapply hoare_bind; [apply hoare_client|intros c0].
  eapply hoare_conseq with (pre' := fun c _ => guarded c) (post' := fun _ c _ => guarded c);
    [|by intros c w _ [_ H]|done].
  destruct (tlsConfig c0); [|by apply guarded_io].
  eapply hoare_bind; [by apply guarded_io|intros []].
  eapply hoare_bind; [by apply hoare_annotate, guarded_io|intros []].
  intros c p HJ [H1 H2]. by repeat split.
Qed.

Lemma guarded_startup_loop (m : AuthMethod) (pending : list (error + StartupMsg)) :
  hoare (Forall no_exposure) (fun c _ => guarded c) (startup_loop m pending) (fun _ c _ => secured c).
Proof.
  induction pending as [|x pending IH]; cbn [startup_loop];
    (eapply hoare_bind; [|intros msg]);
    [| by apply hoare_fail | |].
  1,2: eapply hoare_bind; [|intros []; apply hoare_take_startup];
    eapply hoare_conseq; [apply hoare_log with (post := fun _ c _ => guarded c)| |done];
    intros c w Hw Hc; split; [by apply no_exposure_app|done].
  destruct msg as [| |ps|t].
  - eapply hoare_bind; [apply guarded_on_ssl_request|done].
  - eapply hoare_bind; [by apply guarded_io|done].
  - apply guarded_on_startup_message.
  - apply hoare_fail.
Qed.

(** ** The negotiation, when nothing fails *)

Definition is_request (m : StartupMsg) : Prop := m = SSLRequest \/ m = GSSEncRequest.

(** What crosses the wire for the requests of a client, starting at a number
    of TLS layers, and the layers in the end. *)
Fixpoint answers (cfg : bool) (layers : nat) (reqs : list StartupMsg) : list Wire * nat :=
  match reqs with
  | [] => ([], layers)
  | SSLRequest :: reqs =>
    if cfg then
      let '(w, n) := answers cfg (S layers) reqs in
      (GotStartup layers :: WroteByte layers "S" true :: Upgraded true :: w, n)
    else
      let '(w, n) := answers cfg layers reqs in
      (GotStartup layers :: WroteByte layers "N" true :: w, n)
  | _ :: reqs =>
    let '(w, n) := answers cfg layers reqs in
    (GotStartup layers :: WroteByte layers "N" true :: w, n)
  end.

Lemma startup_loop_negotiates (m : AuthMethod) (ps : gmap string string)
    (reqs : list StartupMsg) (rest : list (error + StartupMsg)) :
  Forall is_request reqs -> forall n req cfg salt rep sal w,
  startup_loop m ((inr <$> reqs) ++ inr (StartupMessage ps) :: rest)
    (MkClient n [] AuthTypeOk req cfg salt,
     MkPeer ((inr <$> reqs) ++ inr (StartupMessage ps) :: rest) rep [] sal w)
  = on_startup_message m ps
      (MkClient (answers cfg n reqs).2 [] AuthTypeOk req cfg salt,
       MkPeer rest rep [] sal (w ++ (answers cfg n reqs).1 ++ [GotStartup (answers cfg n reqs).2])).
Proof.
  intros Hreqs. induction Hreqs as [|r reqs [->| ->] _ IH]; intros n req cfg salt rep sal w.
  - done.
  - destruct cfg; cbn.
    + etrans; [apply (IH (S n) req true salt rep sal)|]. cbn.
      destruct (answers true (S n) reqs) as [w' n']. cbn. by rewrite <- !app_assoc.
    + etrans; [apply (IH n req false salt rep sal)|]. cbn.
      destruct (answers false n reqs) as [w' n']. cbn. by rewrite <- !app_assoc.
  - cbn. etrans; [apply (IH n req cfg salt rep sal)|].
    destruct (answers cfg n reqs) as [w' n']. cbn. by rewrite <- !app_assoc.
Qed.

Lemma answers_layers (cfg : bool) (n : nat) (reqs : list StartupMsg) :
  (answers cfg n reqs).2 =
  (n + if cfg then length (List.filter (fun r => match r with SSLRequest => true | _ => false end) reqs)
       else 0)%nat.
Proof.
  revert n. induction reqs as [|[| | |] reqs IH]; intros n; cbn;
    try (specialize (IH n); destruct (answers cfg n reqs) as [w n']; cbn in *; destruct cfg; lia).
  - destruct cfg; lia.
  - destruct cfg.
    + specialize (IH (S n)). destruct (answers true (S n) reqs). cbn in *. lia.
    + specialize (IH n). destruct (answers false n reqs). cbn in *. lia.
Qed.

(** ** The exchanges *)

(** A bind that ends well went through its first half. *)
Lemma bind_inr {A B} (m : Act A) (k : A -> Act B) st b st' :
  bind m k st = (inr b, st') -> exists a st1, m st = (inr a, st1) /\ k a st1 = (inr b, st').
Proof. unfold bind. destruct (m st) as [[e|a] st1]; naive_solver. Qed.

Lemma annotate_inr {A} what (m : Act A) st a st' :
  annotate what m st = (inr a, st') -> m st = (inr a, st').
Proof. unfold annotate. destruct (m st) as [[e|b] st1]; naive_solver. Qed.

Lemma bind_skip {A B} (m : Act A) (k : A -> Act B) st a st' :
  m st = (inr a, st') -> bind m k st = k a st'.
Proof. unfold bind. by intros ->. Qed.

(** A SASL exchange that ends well took both steps of the conversation, each
    on what the client sent. *)
Lemma SASLExchange_inr {C} (stepFn : C -> string -> (error + string) * C) (conv : C) st st' :
  SASLExchange stepFn conv st = (inr tt, st') ->
  exists first final sf conv1 sfin conv2,
    stepFn conv first = (inr sf, conv1) /\ stepFn conv1 final = (inr sfin, conv2).
Proof.
  unfold SASLExchange. intros H.
  apply bind_inr in H as (_ & st1 & _ & H). apply bind_inr in H as (_ & st2 & _ & H).
  apply bind_inr in H as (_ & st3 & _ & H). apply bind_inr in H as (msg & st4 & _ & H).
  destruct msg as [|mech first| |]; try done.
  destruct (stepFn conv first) as [[e|sf] conv1] eqn:E1; [done|].
  apply bind_inr in H as (_ & st5 & _ & H). apply bind_inr in H as (_ & st6 & _ & H).
  apply bind_inr in H as (_ & st7 & _ & H). apply bind_inr in H as (msg & st8 & _ & H).
  destruct msg as [| |final|]; try done.
  destruct (stepFn conv1 final) as [[e|sfin] conv2] eqn:E2; [done|].
  by exists first, final, sf, conv1, sfin, conv2.
Qed.

(** No exchange changes the number of TLS layers. *)
Definition keeps_layers {A} (m : Act A) : Prop := forall st, tls_layers (m st).2.1 = tls_layers st.1.

Lemma layers_bind {A B} (m : Act A) (k : A -> Act B) :
  keeps_layers m -> (forall a, keeps_layers (k a)) -> keeps_layers (bind m k).
Proof.
  intros Hm Hk st. unfold bind. specialize (Hm st).
  destruct (m st) as [[e|a] st1]; cbn in *; [done|]. by rewrite Hk.
Qed.

Lemma layers_annotate {A} what (m : Act A) : keeps_layers m -> keeps_layers (annotate what m).
Proof. intros Hm st. specialize (Hm st). unfold annotate. by destruct (m st) as [[e|a] st1]. Qed.

Lemma layers_Flush : keeps_layers Flush.
Proof. intros [c p]. unfold Flush, io. by destruct (default false _). Qed.

Lemma layers_Receive : keeps_layers Receive.
Proof. intros [c p]. unfold Receive, bind, log, take_reply. cbn. by destruct (replies p). Qed.

Lemma layers_SASLExchange {C} (stepFn : C -> string -> (error + string) * C) (conv : C) :
  keeps_layers (SASLExchange stepFn conv).
Proof.
  unfold SASLExchange.
  repeat match goal with
  | |- keeps_layers (bind _ _) => apply layers_bind; [|intros ?]
  | |- keeps_layers (annotate _ _) => apply layers_annotate
  | |- keeps_layers Flush => apply layers_Flush
  | |- keeps_layers Receive => apply layers_Receive
  | |- keeps_layers (match ?x with _ => _ end) => destruct x
  | |- _ => by intros [? ?]
  end.
Qed.

(** Conversely, when nothing fails the client sees its three messages, each in
    a write of its own. *)
Lemma SASLExchange_run {C} (stepFn : C -> string -> (error + string) * C) (conv conv1 conv2 : C)
    mech first final sf sfin rest n req cfg t salt sal st w :
  stepFn conv first = (inr sf, conv1) -> stepFn conv1 final = (inr sfin, conv2) ->
  SASLExchange stepFn conv
    (MkClient n [] t req cfg salt,
     MkPeer st (inr (SASLInitialResponse mech first) :: inr (SASLResponse final) :: rest) [] sal w)
  = (inr tt,
     (MkClient n [] AuthTypeSASLContinue req cfg salt,
      MkPeer st rest [] sal
        (w ++ [Flushed n [AuthenticationSASL ["SCRAM-SHA-256"]] true; GotMessage n;
               Flushed n [AuthenticationSASLContinue sf] true; GotMessage n;
               Flushed n [AuthenticationSASLFinal sfin] true]))).
Proof.
  intros E1 E2. unfold SASLExchange. cbn. rewrite E1. cbn. rewrite E2. repeat (unfold put_field; cbn).
  by rewrite <- !app_assoc.
Qed.

(** The salt that a hash is checked against is the one of the challenge that
    this client was sent. *)
Definition challenged (salt : string) (w : list Wire) : Prop :=
  exists n, Flushed n [AuthenticationMD5Password salt] true ∈ w.

Lemma startupMD5_challenged (user : string) :
  hoare (fun _ => True) (fun c _ => wbuf c = []) (startupMD5 user)
    (fun _ c w => challenged (md5Salt c) w).
Proof.
  unfold startupMD5. eapply hoare_bind; [apply hoare_annotate, hoare_take_salt|intros salt].
  eapply hoare_bind with (mid := fun _ c _ => wbuf c = []); [by intros c p|intros []].
  eapply hoare_bind with (mid := fun _ c _ => wbuf c = [AuthenticationMD5Password (md5Salt c)]).
  { intros c p _ Hc. cbn. by rewrite Hc. }
  intros []. eapply hoare_bind with (mid := fun _ c w => challenged (md5Salt c) w).
  - eapply hoare_conseq; [apply hoare_Flush with (post := fun _ c w => challenged (md5Salt c) w)| |done].
    intros c w _ Hc. split_and!; [done..|]. exists (tls_layers c). rewrite Hc. set_solver.
  - intros []. unfold read_password. eapply hoare_bind.
    + eapply hoare_conseq; [apply hoare_Receive with (post := fun _ c w => challenged (md5Salt c) w)| |].
      * intros c w _ [n Hn]. split; [done|]. intros _. exists n. set_solver.
      * by intros msg c w _ H.
    + intros []; [apply (hoare_ret _ _ (fun _ c w => challenged (md5Salt c) w))|apply hoare_fail..].
Qed.

(** The loop keeps the write buffer empty on the way to the challenge. *)
Lemma Startup_challenged (pending : list (error + StartupMsg)) :
  hoare (fun _ => True) (fun c _ => wbuf c = []) (startup_loop AuthMD5 pending)
    (fun _ c w => challenged (md5Salt c) w).
Proof.
  assert (Hio : forall entry, hoare (fun _ => True) (fun c _ => wbuf c = []) (io entry)
                                (fun _ c _ => wbuf c = [])).
  { intros entry c p _ Hc. unfold io. by destruct (default false _). }
  induction pending as [|x pending IH]; cbn [startup_loop];
    (eapply hoare_bind with (mid := fun _ c _ => wbuf c = []); [|intros msg]);
    [| by apply hoare_fail | |].
  1,2: intros c p _ Hc; unfold ReceiveStartupMessage, bind, take_startup; cbn;
    by destruct (startups p) as [|[]].
  destruct msg as [| |ps|t]; [..|apply hoare_fail].
  - eapply hoare_bind with (mid := fun _ c _ => wbuf c = []); [|done]. unfold on_ssl_request.
    eapply hoare_bind with (mid := fun _ c _ => wbuf c = []); [by intros c p|intros c0].
    destruct (tlsConfig c0); [|apply Hio].
    eapply hoare_bind; [apply Hio|intros []].
    eapply hoare_bind; [apply hoare_annotate, Hio|intros []]. by intros c p.
  - eapply hoare_bind; [apply Hio|done].
  - unfold on_startup_message.
    eapply hoare_bind with (mid := fun _ c _ => wbuf c = []); [by intros c p|intros c0].
    destruct (_ && _); [|apply startupMD5_challenged].
    eapply hoare_bind with (mid := fun _ _ _ => True); [by intros c p|intros []].
    eapply hoare_bind with (mid := fun _ _ _ => True); [|intros []; apply hoare_fail].
    intros c p _ _. unfold Flush, io. by destruct (default false _).
Qed.

(** ** Properties *)



(** The welcome sequence goes out in one write, after what was still buffered:
    the [AuthenticationOk] of the session. *)
Lemma Handshake_wire n buf t req cfg salt st rep sal w :
  Handshake (MkClient n buf t req cfg salt, MkPeer st rep [] sal w)
  = (inr tt, (MkClient n [] t req cfg salt,
      MkPeer st rep [] sal
        (w ++ [Flushed n (buf ++ welcome_parameters ++
                 [BackendKeyData 1234 [0; 0; 0; 0]%Z; Msg (ReadyForQuery "I"%char)]) true]))).
Proof. unfold Handshake. cbn. repeat (unfold put_field; cbn). by rewrite <- !app_assoc. Qed.
