(* ===== verification/Auth.v ===== *)
(** * Auth: credentials and authentication methods (internal/auth)

    The configured credential, the three ways to check a client against it, and
    the parser of stored SCRAM secrets.  The SCRAM library is the class
    [ScramLibrary], its documented guarantee (RFC 5802) the class [ScramLaws];
    the MD5 digest is a parameter. *)

From stdpp Require Import base strings list pretty.
From Stdlib Require Import ZArith Lia Ascii.
From S2P Require Import Prelude GoStrings GoEncoding Types Config DownstreamClient.

Local Open Scope string_scope.
Local Open Scope list_scope.

(** ** Data *)

(** [AuthMethod] of this package is a string; its constants. *)
Definition method_plain : string := "plain".
Definition method_md5 : string := "md5".
Definition method_scram : string := "scram-sha-256".

Record Credential := MkCredential { Username : string; cred_Password : string; cred_Method : string }.

(** [scram.StoredCredentials] with its [KeyFactors]. *)
Record StoredCredentials := MkStored {
  sc_Salt : string; sc_Iters : Z; StoredKey : string; ServerKey : string
}.

(** ** The SCRAM library

    A server asks [lookup] for the credentials of the user that a client
    names; a conversation answers one message per step. *)

Class ScramLibrary := {
  ScramServer : Type;
  Conversation : Type;
  NewServer : (string -> error + StoredCredentials) -> error + ScramServer;
  NewConversation : ScramServer -> Conversation;
  conv_Step : Conversation -> string -> (error + string) * Conversation;
  GetStoredCredentials : string -> string -> string -> Z -> error + StoredCredentials
}.

(** What the library promises: a conversation completes its two steps only if
    the client's first message names a user that the lookup knows and its final
    message carries a proof for the credentials found. *)
Class ScramLaws (Lib : ScramLibrary) := {
  named_user : string -> option string;
  proves : StoredCredentials -> string -> string -> string -> Prop;
  scram_sound lookup srv first sf conv1 final sfin conv2 :
    NewServer lookup = inr srv ->
    conv_Step (NewConversation srv) first = (inr sf, conv1) ->
    conv_Step conv1 final = (inr sfin, conv2) ->
    exists u sc, named_user first = Some u /\ lookup u = inr sc /\ proves sc first sf final
}.

(** ** Stored secrets *)

Definition scram_prefix : string := "SCRAM-SHA-256$".

(** [parseStoredSCRAM]. *)
Definition parseStoredSCRAM (secret : string) : error + StoredCredentials :=
  match split_byte "$" secret with
  | [_; iterSalt; keyParts] =>
    match split_byte ":" iterSalt with
    | [iterText; salt] =>
      match Atoi iterText with
      | None => inl (OtherError "invalid SCRAM iterations" (Some (errorf "strconv.Atoi")))
      | Some iters =>
        match split_byte ":" keyParts with
        | [key1; key2] =>
          match b64_decode key1 with
          | None => inl (OtherError "invalid SCRAM stored key" (Some (errorf "illegal base64 data")))
          | Some storedKey =>
            match b64_decode key2 with
            | None => inl (OtherError "invalid SCRAM server key" (Some (errorf "illegal base64 data")))
            | Some serverKey => inr (MkStored salt iters storedKey serverKey)
            end
          end
        | _ => inl (errorf "invalid SCRAM secret keys")
        end
      end
    | _ => inl (errorf "invalid SCRAM secret iter/salt")
    end
  | _ => inl (errorf "invalid SCRAM secret format")
  end.

Section authenticator.
Context {Lib : ScramLibrary}.

(** [rand_salt]: the 16 random bytes, or the error of the random source. *)
Definition scramStored (rand_salt : error + string) (cred : Credential) : error + StoredCredentials :=
  if HasPrefix (ToUpper (cred_Password cred)) scram_prefix then parseStoredSCRAM (cred_Password cred)
  else match rand_salt with
       | inl err => inl err
       | inr salt => GetStoredCredentials (Username cred) (cred_Password cred) (b64_encode salt) 4096
       end.

(** ** The authenticator *)

Record Authenticator := MkAuthenticator {
  auth_cred : Credential;
  auth_scram : option ScramServer;
  scramCred : option StoredCredentials
}.

(** The callback of the server, over the stored credentials. *)
Definition lookup_user (cred : Credential) (sc : StoredCredentials) (username : string)
  : error + StoredCredentials :=
  if String.eqb username (Username cred) then inr sc else inl (errorf "unknown user").

Definition auth_Initialize (rand_salt : error + string) (cfg : AuthConfig) : error + Authenticator :=
  let method := ToLower (au_Method cfg) in
  let cred := MkCredential (au_Username cfg) (au_Password cfg) method in
  if String.eqb method method_scram then
    match scramStored rand_salt cred with
    | inl err => inl (wrapped "prepare scram credentials" err)
    | inr sc =>
      match NewServer (lookup_user cred sc) with
      | inl err => inl (wrapped "create scram server" err)
      | inr srv => inr (MkAuthenticator cred (Some srv) (Some sc))
      end
    end
  else inr (MkAuthenticator cred None None).

Definition Method (a : Authenticator) : AuthMethod :=
  if String.eqb (cred_Method (auth_cred a)) method_md5 then AuthMD5
  else if String.eqb (cred_Method (auth_cred a)) method_scram then AuthScramSHA256
  else AuthPlain.

Definition role_missing (user : string) : error :=
  errorf ("role " +:+ chr 34 +:+ user +:+ chr 34 +:+ " does not exist").
Definition invalid_password : error := errorf "invalid password".

(** [nil] is [None]. *)
Definition Authenticate (a : Authenticator) (user password : string) : option error :=
  if negb (String.eqb user (Username (auth_cred a))) then Some (role_missing user)
  else if negb (String.eqb password (cred_Password (auth_cred a))) then Some invalid_password
  else None.

Definition AuthenticateMD5 (md5 : string -> string) (a : Authenticator)
    (user clientHash salt : string) : option error :=
  if negb (String.eqb user (Username (auth_cred a))) then Some (role_missing user)
  else if negb (String.eqb clientHash
                  (ComputeMD5Password md5 user (cred_Password (auth_cred a)) salt))
       then Some invalid_password
       else None.

(** A session is its conversation ([ScramSession]). *)
Definition NewSCRAMSession (a : Authenticator) : error + Conversation :=
  match auth_scram a with
  | None => inl (errorf "SCRAM not configured")
  | Some srv => inr (NewConversation srv)
  end.

Definition ScramSession_Step (conv : Conversation) (msg : string) : (error + string) * Conversation :=
  conv_Step conv msg.

(** ** Lemmas *)

Lemma Authenticate_None (a : Authenticator) (user password : string) :
  Authenticate a user password = None <->
  user = Username (auth_cred a) /\ password = cred_Password (auth_cred a).
Proof.
  unfold Authenticate. destruct (String.eqb_spec user (Username (auth_cred a))); cbn; [|naive_solver].
  destruct (String.eqb_spec password (cred_Password (auth_cred a))); cbn; naive_solver.
Qed.

Lemma AuthenticateMD5_None (md5 : string -> string) (a : Authenticator) (user h salt : string) :
  AuthenticateMD5 md5 a user h salt = None <->
  user = Username (auth_cred a) /\
  h = ComputeMD5Password md5 user (cred_Password (auth_cred a)) salt.
Proof.
  unfold AuthenticateMD5. destruct (String.eqb_spec user (Username (auth_cred a))); cbn; [|naive_solver].
  destruct (String.eqb_spec h (ComputeMD5Password md5 user (cred_Password (auth_cred a)) salt));
    cbn; naive_solver.
Qed.

Lemma auth_Initialize_inr (rand_salt : error + string) (cfg : AuthConfig) (a : Authenticator) :
  auth_Initialize rand_salt cfg = inr a ->
  auth_cred a = MkCredential (au_Username cfg) (au_Password cfg) (ToLower (au_Method cfg)) /\
  match Method a with
  | AuthScramSHA256 => exists sc srv, scramStored rand_salt (auth_cred a) = inr sc /\
      NewServer (lookup_user (auth_cred a) sc) = inr srv /\ auth_scram a = Some srv
  | _ => auth_scram a = None
  end.
Proof.
  unfold auth_Initialize, Method. destruct (String.eqb_spec (ToLower (au_Method cfg)) method_scram) as [E|E].
  - destruct (scramStored _ _) as [|sc] eqn:Es; [done|].
    destruct (NewServer _) as [|srv] eqn:En; [done|].
    intros [= <-]. cbn. rewrite E. cbn. split; [done|]. rewrite E in Es, En. eauto.
  - intros [= <-]. cbn. split; [done|].
    destruct (String.eqb _ method_md5); [done|].
    by destruct (String.eqb_spec (ToLower (au_Method cfg)) method_scram).
Qed.

End authenticator.

(** ** Properties *)

(** The textual form of stored credentials, as PostgreSQL writes it. *)
Definition secret_text (sc : StoredCredentials) : string :=
  scram_prefix +:+ pretty (sc_Iters sc) +:+ ":" +:+ sc_Salt sc +:+ "$" +:+
  b64_encode (StoredKey sc) +:+ ":" +:+ b64_encode (ServerKey sc).

(** C35: A stored secret in PostgreSQL's format is read back exactly: iteration
    count, salt and the two keys, whatever bytes the keys consist of. *)
Theorem parseStoredSCRAM_roundtrip (sc : StoredCredentials) :
  int64_range (sc_Iters sc) ->
  contains_byte "$" (sc_Salt sc) = false -> contains_byte ":" (sc_Salt sc) = false ->
  parseStoredSCRAM (secret_text sc) = inr sc.
Proof.
  destruct sc as [salt iters k1 k2]. cbn [sc_Iters sc_Salt]. intros Hi H1 H2.
  assert (Hb : forall c k, byteZ c = 58%Z \/ (byteZ c < 43)%Z -> contains_byte c (b64_encode k) = false)
    by (intros; by apply b64_encode_no_byte).
  assert (Hp1 : contains_byte "$" (pretty iters) = false) by (apply pretty_no_byte; right; reflexivity).
  assert (Hp2 : contains_byte ":" (pretty iters) = false) by (apply pretty_no_byte; left; reflexivity).
  assert (Hk1 : forall k, contains_byte "$" (b64_encode k) = false) by (intros; apply Hb; right; reflexivity).
  assert (Hk2 : forall k, contains_byte ":" (b64_encode k) = false) by (intros; apply Hb; left; reflexivity).
  assert (Hshape : secret_text (MkStored salt iters k1 k2) =
    "SCRAM-SHA-256" +:+ String "$" ((pretty iters +:+ String ":" salt) +:+
      String "$" (b64_encode k1 +:+ String ":" (b64_encode k2)))).
  { unfold secret_text. by rewrite append_assoc. }
  rewrite Hshape. unfold parseStoredSCRAM.
  rewrite !split_byte_app by (rewrite ?contains_byte_app; cbn; by rewrite ?Hp1, ?H1).
  rewrite (split_byte_none "$") by (rewrite contains_byte_app; cbn; by rewrite !Hk1).
  cbv beta iota. rewrite split_byte_app, split_byte_none by done. cbv beta iota. rewrite Atoi_pretty by done.
  rewrite split_byte_none by done. cbv beta iota. by rewrite !b64_roundtrip.
Qed.

Lemma parseStoredSCRAM_roundtrip_witness :
  parseStoredSCRAM "SCRAM-SHA-256$4096:c2FsdA==$AAEC:/w==" =
  inr (MkStored "c2FsdA==" 4096 (chr 0 +:+ chr 1 +:+ chr 2) (chr 255)).
Proof.
  apply (parseStoredSCRAM_roundtrip
           (MkStored "c2FsdA==" 4096 (chr 0 +:+ chr 1 +:+ chr 2) (chr 255)));
    [split; vm_compute; discriminate|reflexivity|reflexivity].
Defined.
