(* ===== verification/Login.v ===== *)
(** * Login: from the first byte of a client to its session

    The proxy's wrappers around the authenticator (internal/server/proxy/proxy.go),
    the session's [authenticate] (internal/server/session/session.go), and the
    composition: startup negotiation, authentication, and the session that runs
    with their results. *)

From stdpp Require Import base gmap strings list.
From Stdlib Require Import ZArith Lia Ascii.
From S2P Require Import Prelude GoStrings GoEncoding Types Config Messaging DownstreamClient Auth Session.

Local Open Scope string_scope.
Local Open Scope list_scope.

Section login.
Context {Lib : ScramLibrary} (md5 : string -> string).

(** ** The proxy's wrappers *)

Definition prx_GetAuthMethod (a : Authenticator) : AuthMethod := Method a.

(** Failures get the code of an authentication error. *)
Definition coded (err : option error) : option error :=
  match err with Some e => Some (ProxyError "28P01" (Error e) None) | None => None end.

Definition prx_Authenticate (a : Authenticator) (user password : string) : option error :=
  coded (Authenticate a user password).

Definition prx_AuthenticateMD5 (a : Authenticator) (user clientHash salt : string) : option error :=
  coded (AuthenticateMD5 md5 a user clientHash salt).

Definition prx_NewSCRAMSession (a : Authenticator) : error + Conversation := NewSCRAMSession a.

(** ** The session's side *)

Definition authenticate (a : Authenticator) (user password : string) (st : Client * Peer)
  : option error * (Client * Peer) :=
  match prx_GetAuthMethod a with
  | AuthMD5 => (prx_AuthenticateMD5 a user password (MD5Salt st.1), st)
  | AuthScramSHA256 =>
    match prx_NewSCRAMSession a with
    | inl err => (Some (ProxyError "28P01" (Error err) None), st)
    | inr conv =>
      match SASLExchange ScramSession_Step conv st with
      | (inl err, st') => (Some err, st')
      | (inr _, st') => (None, st')
      end
    end
  | AuthPlain => (prx_Authenticate a user password, st)
  end.

(** The first two calls of [Run]: what they return, and the connection after them. *)
Definition connect (a : Authenticator) (st : Client * Peer)
  : (error + (string * string)) * option error * (Client * Peer) :=
  match Startup (prx_GetAuthMethod a) st with
  | (inl err, st') => (inl err, None, st')
  | (inr (user, password), st') =>
    let '(authErr, st'') := authenticate a user password st' in
    (inr (user, password), authErr, st'')
  end.

(** A client's whole session. *)
Definition serve {S} `{ProxyServer S} (a : Authenticator) (st : Client * Peer)
    (serverMode : PoolMode) (ports : gmap string PortConfig) (es : list (SessEvent * (S -> S)))
    (w : World S) : Res unit * World S :=
  let '(startup, authErr, _) := connect a st in Run startup authErr serverMode ports es w.

(** ** Soundness *)

(** What a client proved when it logged in. *)
Definition proved_identity (Laws : ScramLaws Lib) (rand_salt : error + string) (a : Authenticator)
    (user password : string) (p : Peer) : Prop :=
  let cred := auth_cred a in
  match Method a with
  | AuthPlain => user = Username cred /\ password = cred_Password cred
  | AuthMD5 => exists salt, challenged salt (wire p) /\ user = Username cred /\
      password = ComputeMD5Password md5 user (cred_Password cred) salt
  | AuthScramSHA256 => exists sc first sf final, scramStored rand_salt cred = inr sc /\
      named_user first = Some (Username cred) /\ proves sc first sf final
  end.

Lemma coded_None (err : option error) : coded err = None -> err = None.
Proof. by destruct err. Qed.

Lemma connect_sound (Laws : ScramLaws Lib) (rand_salt : error + string) (cfg : AuthConfig)
    (a : Authenticator) (tlsCfg required : bool) (p : Peer) (user password : string) st' :
  auth_Initialize rand_salt cfg = inr a ->
  connect a (DownstreamClient.Initialize tlsCfg required, p) = (inr (user, password), None, st') ->
  proved_identity Laws rand_salt a user password st'.2.
Proof.
  intros [_ Ha]%auth_Initialize_inr. unfold connect, authenticate, prx_GetAuthMethod, proved_identity.
  destruct (Method a) eqn:Em; destruct (Startup _ _) as [[e|[u pw]] [c1 p1]] eqn:Es; try done.
  - injection 1 as -> -> H <-. by apply coded_None, Authenticate_None in H.
  - injection 1 as -> -> H <-. apply coded_None, AuthenticateMD5_None in H as [H1 H2].
    exists (md5Salt c1). split; [|done].
    pose proof (Startup_challenged (startups p) (DownstreamClient.Initialize tlsCfg required) p I eq_refl) as [_ Hc].
    unfold Startup in Es. cbn [snd] in Es. by rewrite Es in Hc.
  - destruct Ha as (sc & srv & H1 & H2 & H3). unfold prx_NewSCRAMSession, NewSCRAMSession. rewrite H3.
    destruct (SASLExchange _ _ _) as [[e|[]] st2] eqn:E; [done|]. injection 1 as -> -> <-.
    apply SASLExchange_inr in E as (first & final & sf & conv1 & sfin & conv2 & E1 & E2).
    destruct (scram_sound _ _ _ _ _ _ _ _ H2 E1 E2) as (u' & sc' & Hu & Hl & Hp).
    unfold lookup_user in Hl. destruct (String.eqb_spec u' (Username (auth_cred a))) as [->|]; [|done].
    injection Hl as <-. by exists sc, first, sf, final.
Qed.

(** When TLS is required, startup and authentication stay off the plain connection. *)
Lemma connect_secured (a : Authenticator) (tlsCfg : bool) (p : Peer) :
  wire p = [] ->
  let '(startup, _, (c', p')) := connect a (DownstreamClient.Initialize tlsCfg true, p) in
  Forall no_exposure (wire p') /\ (forall cred, startup = inr cred -> (0 < tls_layers c')%nat).
Proof.
  intros Hw. unfold connect, Startup. cbn [snd].
  pose proof (guarded_startup_loop (prx_GetAuthMethod a) (startups p)
                (DownstreamClient.Initialize tlsCfg true) p) as [HJ Hs]; [by rewrite Hw|done|].
  destruct (startup_loop _ _ _) as [[e|[u pw]] [c1 p1]]; cbn in HJ, Hs; [done|].
  assert (Hok : Forall no_exposure (wire p1) /\
    (forall cred, inr (A := error) (u, pw) = inr cred -> (0 < tls_layers c1)%nat))
    by (split; [done|intros _ _; apply Hs]).
  unfold authenticate. destruct (prx_GetAuthMethod a); [exact Hok..|].
  destruct (prx_NewSCRAMSession a) as [e|conv]; [exact Hok|].
  pose proof (secured_SASLExchange ScramSession_Step conv c1 p1 HJ Hs) as [HJ' Hs'].
  pose proof (layers_SASLExchange ScramSession_Step conv (c1, p1)) as Hl.
  destruct (SASLExchange _ _ _) as [[e|[]] [c2 p2]]; cbn in *; (split; [done|intros _ _; rewrite Hl; apply Hs]).
Qed.

End login.

(** ** A refused client gets nothing *)

(** Effects of a session that serves its client. *)
Definition served (e : Effect) : bool :=
  match e with
  | DownSend AuthenticationOk _ | Attached _ | UpSend _ _ _ | UpFlush _ _ | Released _ | Killed _ => true
  | _ => false
  end.

Lemma refused_trace {S} `{ProxyServer S} (startup : error + (string * string)) (authErr : option error)
    (serverMode : PoolMode) (ports : gmap string PortConfig) (es : list (SessEvent * (S -> S)))
    (w : World S) :
  (forall cred, startup = inr cred -> authErr <> None) ->
  upstream (w_sess w) = None -> Forall (fun e => served e = false) (w_trace w) ->
  Forall (fun e => served e = false) (w_trace (Run startup authErr serverMode ports es w).2).
Proof.
  intros Href Hup Hw. unfold Run, deferred, start, M_bind.
  destruct startup as [e|cred].
  - unfold exit_, run_exit, releaseUpstream, M_bind, get, emit, M_ret. cbn. rewrite Hup. cbn.
    apply Forall_app. auto.
  - destruct authErr as [err|]; [|by destruct (Href cred)].
    unfold CloseWithError, down_send, down_flush, attempt, fault, run_exit, releaseUpstream, M_bind,
      get, emit, M_ret, exit_. cbn. rewrite Hup. cbn. rewrite !Forall_app. auto 10.
Qed.

(** ** A SCRAM library to run examples with

    The first message is the user's name, the final one the stored key. *)

Definition toy_conversation : Type :=
  (string -> error + StoredCredentials) * option StoredCredentials.

Definition toy_step (conv : toy_conversation) (msg : string) : (error + string) * toy_conversation :=
  match conv with
  | (lookup, None) =>
    match lookup msg with
    | inl e => (inl e, conv)
    | inr sc => (inr (sc_Salt sc), (lookup, Some sc))
    end
  | (lookup, Some sc) =>
    if String.eqb msg (StoredKey sc) then (inr (ServerKey sc), conv) else (inl (errorf "invalid proof"), conv)
  end.

#[export] Instance toy_scram : ScramLibrary := {|
  ScramServer := string -> error + StoredCredentials;
  Conversation := toy_conversation;
  NewServer := inr;
  NewConversation := fun srv => (srv, None);
  conv_Step := toy_step;
  GetStoredCredentials := fun _ password salt iters => inr (MkStored salt iters password "server key")
|}.

#[export] Instance toy_scram_laws : ScramLaws toy_scram.
Proof.
  refine {| named_user := fun m => Some m; proves := fun sc _ _ final => final = StoredKey sc |}.
  intros lookup srv first sf conv1 final sfin conv2 [= <-]. cbn.
  destruct (lookup first) as [e|sc] eqn:E; [done|]. intros [= <- <-]. cbn.
  destruct (String.eqb_spec final (StoredKey sc)); [|done]. intros _. by exists first, sc.
Defined.

Definition demo_auth (method : string) : AuthConfig := MkAuthConfig method "app" "secret".

(** ** Properties *)

(** C4: A client is served (it gets [AuthenticationOk], a connection is leased
    for it, a message of it reaches a database) only after it has proved to be
    the configured user: with the password, with the MD5 hash for the salt of
    a challenge it was sent on this connection, or with a SCRAM proof for the
    stored credentials.  Whatever it sends, and whatever fails. *)
Theorem only_authenticated_clients_served {Lib : ScramLibrary} {Laws : ScramLaws Lib}
    (md5 : string -> string) {S : Type} {Srv : ProxyServer S} (rand_salt : error + string)
    (cfg : AuthConfig) (a : Authenticator) (tlsCfg required : bool) (p : Peer) (serverMode : PoolMode)
    (ports : gmap string PortConfig) (es : list (SessEvent * (S -> S))) (w : World S) (e : Effect) :
  auth_Initialize rand_salt cfg = inr a ->
  upstream (w_sess w) = None -> w_trace w = [] ->
  e ∈ w_trace (serve md5 a (DownstreamClient.Initialize tlsCfg required, p) serverMode ports es w).2 ->
  served e = true ->
  exists user password st',
    connect md5 a (DownstreamClient.Initialize tlsCfg required, p) = (inr (user, password), None, st') /\
    proved_identity md5 Laws rand_salt a user password st'.2.
Proof.
  intros Ha Hup Hw He Hs. unfold serve in He.
  destruct (connect _ _ _) as [[startup authErr] st'] eqn:Ec.
  destruct startup as [err|[user password]]; [|destruct authErr as [err|]].
  - assert (Href := refused_trace (inl err) authErr serverMode ports es w).
    rewrite Hw in Href. specialize (Href ltac:(done) Hup (Forall_nil_2 _)).
    rewrite Forall_forall in Href. specialize (Href e He). congruence.
  - assert (Href := refused_trace (inr (user, password)) (Some err) serverMode ports es w).
    rewrite Hw in Href. specialize (Href ltac:(done) Hup (Forall_nil_2 _)).
    rewrite Forall_forall in Href. specialize (Href e He). congruence.
  - exists user, password, st'. split; [done|]. by eapply connect_sound.
Qed.

Definition scram_peer : Peer :=
  MkPeer [inr (StartupMessage {["user" := "app"]})]
    [inr (SASLInitialResponse "SCRAM-SHA-256" "app"); inr (SASLResponse "secret")] [] [] [].

Definition scram_demo : Authenticator (Lib := toy_scram) :=
  let cred := MkCredential "app" "secret" "scram-sha-256" in
  let sc := MkStored "AAAA" 4096 "secret" "server key" in
  MkAuthenticator (Lib := toy_scram) cred (Some (lookup_user cred sc)) (Some sc).

Lemma only_authenticated_clients_served_witness : exists user password st',
  connect (fun s => s) scram_demo (DownstreamClient.Initialize false false, scram_peer)
  = (inr (user, password), None, st').
Proof.
  edestruct (only_authenticated_clients_served (fun s => s) (inr (chr 0 +:+ chr 0 +:+ chr 0))
    (demo_auth "SCRAM-SHA-256") scram_demo
    false false scram_peer PoolModeSession ∅ [] (demo_world "write" [] []) (DownSend AuthenticationOk true))
    as (user & password & st' & H & _).
  - vm_compute. reflexivity.
  - reflexivity.
  - reflexivity.
  - vm_compute. apply list_elem_of_further, list_elem_of_here.
  - reflexivity.
  - exists user, password, st'. exact H.
Defined.

(** With mandatory TLS, nothing confidential crosses a plain connection:
    over it no message of the authentication is read and nothing is sent but
    the refusal (FATAL 28000); and startup succeeds only on an encrypted
    connection.  Whatever the client sends, and whatever fails. *)
Theorem login_tls_enforced {Lib : ScramLibrary} (md5 : string -> string) (a : Authenticator)
    (tlsCfg : bool) (p : Peer) :
  wire p = [] ->
  let '(startup, _, (c', p')) := connect md5 a (DownstreamClient.Initialize tlsCfg true, p) in
  Forall no_exposure (wire p') /\ (forall cred, startup = inr cred -> (0 < tls_layers c')%nat).
Proof. apply connect_secured. Qed.

Lemma login_tls_enforced_witness :
  let '(startup, _, (c', p')) :=
    connect (fun s => s) (MkAuthenticator (MkCredential "app" "secret" "plain") None None)
      (DownstreamClient.Initialize true true,
       MkPeer [inr SSLRequest; inr (StartupMessage {["user" := "app"]})]
         [inr (PasswordMessage "secret")] [] [] []) in
  Forall no_exposure (wire p') /\ (forall cred, startup = inr cred -> (0 < tls_layers c')%nat).
Proof. apply login_tls_enforced. reflexivity. Defined.



(** ** Where the program does something else *)

(** The user name of the first SCRAM message has to be the configured one; the
    empty name, which PostgreSQL's own clients send because the server takes
    the name of the startup message, is an unknown user. *)
Theorem scram_empty_user_refused (cred : Credential) (sc : StoredCredentials) :
  Username cred <> "" -> lookup_user cred sc "" = inl (errorf "unknown user").
Proof. intros H. unfold lookup_user. destruct (String.eqb_spec "" (Username cred)); [done|done]. Qed.

(** A configured password that is an MD5 hash, as the documentation allows, is
    taken for a plain text: a client with the right password is refused. *)
Theorem md5_hashed_password_refused :
  let md5 := fun s : string => s in
  let stored := "md5" +:+ hex_EncodeToString (md5 ("secret" +:+ "app")) in
  let a := MkAuthenticator (MkCredential "app" stored "md5") None None in
  AuthenticateMD5 md5 a "app" (ComputeMD5Password md5 "app" "secret" "salt") "salt"
  = Some invalid_password.
Proof. vm_compute. reflexivity. Qed.
