(* ===== verification/Lifecycle.v ===== *)
(** * Lifecycle: the proxy server from start to shutdown (internal/server/proxy/proxy.go)

    [Initialize] builds a server for one port.  The rest runs in many
    goroutines: the accept loop of [Run], one handler per connection, the idle
    sweeper, the goroutine that closes the listener when the context ends, and
    [Shutdown].  They are a step relation in which every critical section is a
    step of its own.  The admission counter has its own relation in the file
    Proxy; here an admission succeeds or not. *)

From stdpp Require Import base gmap strings list.
From Stdlib Require Import ZArith Lia.
From S2P Require Import Prelude GoStrings Types Config Messaging DownstreamClient Auth Login IdleSweeper.

Local Open Scope string_scope.
Local Open Scope Z_scope.
Local Open Scope list_scope.

(** ** Construction *)

Section construction.
Context {Lib : ScramLibrary}.

(** What a server keeps of its configuration: its authenticator, whether it can
    do TLS, its idle timeout and its settings. *)
Record ServerSetup := MkServerSetup {
  su_auth : Authenticator; su_tls : bool; su_idle : idleSweeper; su_cfg : Config; su_port : string
}.

(** [load_cert]: the result of reading a key pair.  Configuration and logger
    are never nil here. *)
Definition prx_Initialize (rand_salt : error + string) (load_cert : string -> string -> option error)
    (cfg : Config) (portID : string) : error + ServerSetup :=
  match auth_Initialize rand_salt (Config.Auth cfg) with
  | inl err => inl (wrapped "failed to initialize auth" err)
  | inr authn =>
    let idleTimeout := seconds (ClientIdleTimeout (Server cfg)) in
    let tls :=
      match Ports (Server cfg) !! portID with
      | Some portCfg =>
        let sslMode := ToLower (pc_SSLMode portCfg) in
        if String.eqb sslMode "optional" || String.eqb sslMode "mandatory" then
          match load_cert (pc_SSLCert portCfg) (pc_SSLKey portCfg) with
          | Some err => inl (wrapped ("failed to load key pair for port " +:+ portID) err)
          | None => inr true
          end
        else inr false
      | None => inr false
      end in
    match tls with
    | inl err => inl err
    | inr tls => inr (MkServerSetup authn tls (newIdleSweeper idleTimeout) cfg portID)
    end
  end.

(** The client object of a new connection. *)
Definition new_downstream (su : ServerSetup) : Client :=
  let requiredSSL := match Ports (Server (su_cfg su)) !! su_port su with
                     | Some portCfg => String.eqb (ToLower (pc_SSLMode portCfg)) "mandatory"
                     | None => false
                     end in
  Initialize (su_tls su) requiredSSL.

(** Keep-alive settings of a TCP connection: idle time, interval, count. *)
Definition keepalive (su : ServerSetup) : Duration * Duration * Z :=
  let sc := Server (su_cfg su) in
  (seconds (KeepAliveTimeout sc), seconds (KeepAliveInterval sc), KeepAliveCount sc).

(** The refusal of a connection over the limit; its errors are only logged. *)
Definition refuse_connection : Act unit :=
  Send [Msg (ErrorResponse "FATAL" "53300" "connection pool exhausted, please try again later")] ;?
  fun st => let '(_, st') := DownstreamClient.Flush st in (inr tt, st').

End construction.

(** ** State *)

(** A handler's position in [handleNewIncomingConnection]. *)
Inductive Phase :=
| Spawned
| TurnedAway
| LetIn
| Tracked
| Running
| Ended
| Unregistered
| Untracked
| Gone.
#[export] Instance Phase_eq_dec : EqDecision Phase.
Proof. solve_decision. Defined.

(** The accept loop holds at most one connection. *)
Inductive AcceptLoop := NotListening | Accepting | Accepted (id : Z) | AcceptReturned.

(** The position of [Shutdown]. *)
Inductive ShutdownState :=
| NotAsked | AwaitReady | ListenerClosed | Draining | ShutdownOK | ShutdownTimedOut.

(** The server: whether it listens and whether its context is done, the
    listener and how often it was closed, the accept loop, the handlers, the
    registry of sessions, the sweeper, the sessions that were told to close, the
    shutdown, and the goroutines of the shutdown that have yet to close their
    session. *)
Record Lifecycle := MkLifecycle {
  lc_ready : bool;
  lc_ctxDone : bool;
  lc_lnOpen : bool;
  lc_lnCloses : nat;
  lc_accept : AcceptLoop;
  lc_handlers : gmap Z Phase;
  lc_sessions : gset Z;
  lc_idle : idleSweeper;
  lc_closed : gset Z;
  lc_shutdown : ShutdownState;
  lc_closers : gset Z
}.
#[export] Instance Lifecycle_eta : Eta Lifecycle := fun s =>
  MkLifecycle (lc_ready s) (lc_ctxDone s) (lc_lnOpen s) (lc_lnCloses s) (lc_accept s) (lc_handlers s)
    (lc_sessions s) (lc_idle s) (lc_closed s) (lc_shutdown s) (lc_closers s).

Definition lc_init (T : Duration) : Lifecycle :=
  MkLifecycle false false false 0 NotListening ∅ ∅ (newIdleSweeper T) ∅ NotAsked ∅.

(** [closeLnOnce.Do]. *)
Definition close_listener (s : Lifecycle) : Lifecycle :=
  if (lc_lnCloses s =? 0)%nat then s <| lc_lnOpen := false |> <| lc_lnCloses := 1%nat |> else s.

Definition set_phase (id : Z) (ph : Phase) (s : Lifecycle) : Lifecycle :=
  s <| lc_handlers ::= <[id := ph]> |>.

(** [sessionsWg] is at zero. *)
Definition all_gone (s : Lifecycle) : Prop := map_Forall (fun _ ph => ph = Gone) (lc_handlers s).

(** ** Steps *)

Inductive Label :=
| LListen | LCancel | LCtxCloseListener
| LAccept (id : Z) | LSpawn (id : Z) | LAcceptRetry | LAcceptReturn
| LHandler (id : Z)
| LSweep (expired : list Z)
| LShutdown | LShutdownCloseListener | LShutdownSnapshot | LShutdownClose (id : Z)
| LShutdownReturn | LShutdownTimeout.

(** [Run]: listening, the goroutine that closes the listener when the context
    is done, and the accept loop. *)
Inductive run_step : Lifecycle -> Label -> Lifecycle -> Prop :=
| st_listen s :
    lc_accept s = NotListening ->
    run_step s LListen (s <| lc_ready := true |> <| lc_lnOpen := true |> <| lc_accept := Accepting |>)
| st_cancel s : run_step s LCancel (s <| lc_ctxDone := true |>)
| st_ctx_close s :
    lc_ctxDone s = true -> lc_ready s = true -> run_step s LCtxCloseListener (close_listener s)
| st_accept s id :
    lc_accept s = Accepting -> lc_lnOpen s = true -> lc_handlers s !! id = None ->
    run_step s (LAccept id) (s <| lc_accept := Accepted id |>)
| st_spawn s id :
    lc_accept s = Accepted id -> run_step s (LSpawn id) ((set_phase id Spawned s) <| lc_accept := Accepting |>)
| st_accept_retry s :
    lc_accept s = Accepting -> lc_ctxDone s = false -> run_step s LAcceptRetry s
| st_accept_return s :
    lc_accept s = Accepting -> lc_ctxDone s = true ->
    run_step s LAcceptReturn (s <| lc_accept := AcceptReturned |>).

(** [handleNewIncomingConnection]: the handler of one connection. *)
Inductive handler_step : Lifecycle -> Label -> Lifecycle -> Prop :=
| st_turn_away s id :
    lc_handlers s !! id = Some Spawned -> handler_step s (LHandler id) (set_phase id TurnedAway s)
| st_admit s id :
    lc_handlers s !! id = Some Spawned -> handler_step s (LHandler id) (set_phase id LetIn s)
| st_track s (id : Z) now b sw :
    lc_handlers s !! id = Some LetIn -> Track now id (lc_idle s) = Some (b, sw) ->
    handler_step s (LHandler id) ((set_phase id Tracked s) <| lc_idle := sw |>)
| st_register s id :
    lc_handlers s !! id = Some Tracked ->
    handler_step s (LHandler id) ((set_phase id Running s) <| lc_sessions ::= fun r => {[id]} ∪ r |>)
| st_end s id :
    lc_handlers s !! id = Some Running ->
    handler_step s (LHandler id) ((set_phase id Ended s) <| lc_closed ::= fun c => {[id]} ∪ c |>)
| st_unregister s id :
    lc_handlers s !! id = Some Ended ->
    handler_step s (LHandler id) ((set_phase id Unregistered s) <| lc_sessions ::= fun r => r ∖ {[id]} |>)
| st_untrack s (id : Z) sw :
    lc_handlers s !! id = Some Unregistered -> Untrack id (lc_idle s) = Some sw ->
    handler_step s (LHandler id) ((set_phase id Untracked s) <| lc_idle := sw |>)
| st_done s id :
    lc_handlers s !! id = Some Untracked \/ lc_handlers s !! id = Some TurnedAway ->
    handler_step s (LHandler id) (set_phase id Gone s).

(** [idleSweeper]: a tick closes the expired sessions. *)
Inductive sweep_step : Lifecycle -> Label -> Lifecycle -> Prop :=
| st_sweep s lastActive now ex sw :
    lc_ctxDone s = false -> lc_ready s = true -> Expire lastActive now (lc_idle s) = Some (ex, sw) ->
    sweep_step s (LSweep ex) (s <| lc_idle := sw |> <| lc_closed ::= fun c => list_to_set ex ∪ c |>).

(** [Shutdown]; it times out only where it waits, and the goroutines that close
    the sessions go on without it. *)
Inductive shutdown_step : Lifecycle -> Label -> Lifecycle -> Prop :=
| st_shutdown s : lc_shutdown s = NotAsked -> shutdown_step s LShutdown (s <| lc_shutdown := AwaitReady |>)
| st_shutdown_listener s :
    lc_shutdown s = AwaitReady -> lc_ready s = true ->
    shutdown_step s LShutdownCloseListener ((close_listener s) <| lc_shutdown := ListenerClosed |>)
| st_shutdown_snapshot s :
    lc_shutdown s = ListenerClosed ->
    shutdown_step s LShutdownSnapshot (s <| lc_shutdown := Draining |> <| lc_closers := lc_sessions s |>)
| st_shutdown_close s id :
    id ∈ lc_closers s ->
    shutdown_step s (LShutdownClose id)
      (s <| lc_closers ::= fun p => p ∖ {[id]} |> <| lc_closed ::= fun c => {[id]} ∪ c |>)
| st_shutdown_return s :
    lc_shutdown s = Draining -> all_gone s ->
    shutdown_step s LShutdownReturn (s <| lc_shutdown := ShutdownOK |>)
| st_shutdown_timeout s :
    lc_shutdown s = AwaitReady \/ lc_shutdown s = Draining ->
    shutdown_step s LShutdownTimeout (s <| lc_shutdown := ShutdownTimedOut |>).

(** All goroutines of a server. *)
Inductive lc_step (s : Lifecycle) (l : Label) (s' : Lifecycle) : Prop :=
| by_run (Hst : run_step s l s')
| by_handler (Hst : handler_step s l s')
| by_sweep (Hst : sweep_step s l s')
| by_shutdown (Hst : shutdown_step s l s').

Ltac step_cases Hst := destruct Hst as [Hst|Hst|Hst|Hst]; destruct Hst.

(** ** Invariants *)

Definition registered (ph : Phase) : bool := match ph with Running | Ended => true | _ => false end.
Definition tracked (ph : Phase) : bool :=
  match ph with Tracked | Running | Ended | Unregistered => true | _ => false end.
Definition has_session (ph : Phase) : bool :=
  match ph with Spawned | TurnedAway | LetIn => false | _ => true end.

(** The accept loop holds a connection that no handler has yet. *)
Definition accept_ok (s : Lifecycle) : Prop :=
  forall id, lc_accept s = Accepted id -> lc_handlers s !! id = None.

(** The registry holds the sessions between registration and removal. *)
Definition registry_ok (s : Lifecycle) : Prop :=
  accept_ok s /\
  forall id, id ∈ lc_sessions s <-> exists ph, lc_handlers s !! id = Some ph /\ registered ph = true.

Definition listener_ok (s : Lifecycle) : Prop :=
  (lc_lnCloses s <= 1)%nat /\ (lc_lnCloses s = 1%nat -> lc_lnOpen s = false /\ lc_ready s = true) /\
  (lc_accept s = NotListening -> lc_ready s = false) /\
  (lc_shutdown s = ListenerClosed \/ lc_shutdown s = Draining \/ lc_shutdown s = ShutdownOK ->
     lc_lnCloses s = 1%nat).

(** The sweeper tracks only sessions of handlers that will untrack them. *)
Definition sweeper_ok (T : Duration) (s : Lifecycle) : Prop :=
  accept_ok s /\ sweeper_inv (lc_idle s) /\ timeout (lc_idle s) = T /\
  forall (id : Z) d, view (lc_idle s) !! id = Some d ->
    exists ph, lc_handlers s !! id = Some ph /\ tracked ph = true.

(** Only sessions are closed, and only sessions are to be closed. *)
Definition closed_ok (s : Lifecycle) : Prop :=
  (forall id, id ∈ lc_closed s -> exists ph, lc_handlers s !! id = Some ph /\ has_session ph = true) /\
  (forall id, id ∈ lc_closers s -> exists ph, lc_handlers s !! id = Some ph /\ has_session ph = true).

Lemma entries_view (sw : idleSweeper) (id : Z) :
  sweeper_inv sw -> view sw !! id = None -> entries sw !! id = None.
Proof.
  intros Hinv Hv. destruct (entries sw !! id) as [p|] eqn:Ep; [|done].
  apply (si_entries _ Hinv) in Ep as [Hp Hd]. destruct (data (heap sw) p) as [[s' d]|] eqn:Ed; [|done].
  cbn in Hd. injection Hd as ->. assert (Hin : view sw !! id = Some d) by (apply view_spec; eauto). congruence.
Qed.

Lemma close_listener_fields (s : Lifecycle) :
  lc_accept (close_listener s) = lc_accept s /\ lc_handlers (close_listener s) = lc_handlers s /\
  lc_sessions (close_listener s) = lc_sessions s /\ lc_idle (close_listener s) = lc_idle s /\
  lc_closed (close_listener s) = lc_closed s /\ lc_shutdown (close_listener s) = lc_shutdown s /\
  lc_ready (close_listener s) = lc_ready s /\ lc_closers (close_listener s) = lc_closers s.
Proof. unfold close_listener. by destruct (_ =? _)%nat. Qed.

(** A handler that moves on: what holds of its own connection and of others. *)
Lemma set_phase_spec (id : Z) (ph : Phase) (m : gmap Z Phase) (P : Phase -> bool) (j : Z) :
  (exists q, <[id := ph]> m !! j = Some q /\ P q = true) <->
  (j = id /\ P ph = true) \/ (j <> id /\ exists q, m !! j = Some q /\ P q = true).
Proof.
  destruct (decide (j = id)) as [->|Hne].
  - rewrite lookup_insert_eq. naive_solver.
  - rewrite lookup_insert_ne by congruence. naive_solver.
Qed.

Lemma accept_ok_phase (s : Lifecycle) (id : Z) (ph0 ph : Phase) :
  accept_ok s -> lc_handlers s !! id = Some ph0 -> forall j, lc_accept s = Accepted j ->
  <[id := ph]> (lc_handlers s) !! j = None.
Proof.
  intros Ha Hid j Hj. apply Ha in Hj. rewrite lookup_insert_ne; [done|]. congruence.
Qed.

Lemma accept_ok_step (s s' : Lifecycle) (l : Label) : lc_step s l s' -> accept_ok s -> accept_ok s'.
Proof.
  intros Hst Ha. step_cases Hst; unfold accept_ok in *; cbn;
    rewrite ?(proj1 (close_listener_fields s)), ?(proj1 (proj2 (close_listener_fields s)));
    try (intros j Hj; congruence); try done; try (by eapply accept_ok_phase; eauto).
  destruct H; by eapply accept_ok_phase.
Qed.

Lemma registry_step (s s' : Lifecycle) (l : Label) : lc_step s l s' -> registry_ok s -> registry_ok s'.
Proof.
  intros Hst [Ha Hr]. split; [by eapply accept_ok_step|].
  assert (Hph : forall id ph0 ph, lc_handlers s !! id = Some ph0 -> registered ph0 = registered ph ->
    forall j, j ∈ lc_sessions s <-> exists q, <[id := ph]> (lc_handlers s) !! j = Some q /\ registered q = true).
  { intros id ph0 ph Hid Heq j. rewrite set_phase_spec, Hr.
    destruct (decide (j = id)) as [->|]; [rewrite Hid|]; naive_solver. }
  step_cases Hst; cbn; rewrite ?(proj1 (proj2 (proj2 (close_listener_fields s)))),
    ?(proj1 (proj2 (close_listener_fields s))); try exact Hr; try (by eapply Hph).
  - intros j. rewrite set_phase_spec, Hr. pose proof (Ha id H) as Hn.
    destruct (decide (j = id)) as [->|]; [rewrite Hn|]; naive_solver.
  - intros j. rewrite set_phase_spec, elem_of_union, elem_of_singleton, Hr.
    destruct (decide (j = id)) as [->|]; naive_solver.
  - intros j. rewrite set_phase_spec, elem_of_difference, not_elem_of_singleton, Hr.
    destruct (decide (j = id)) as [->|]; naive_solver.
  - destruct H; by eapply Hph.
Qed.

Lemma close_listener_once (s : Lifecycle) :
  (lc_lnCloses s <= 1)%nat -> (lc_lnCloses s = 1%nat -> lc_lnOpen s = false) ->
  lc_lnCloses (close_listener s) = 1%nat /\ lc_lnOpen (close_listener s) = false.
Proof.
  intros H1 H2. unfold close_listener. destruct (Nat.eqb_spec (lc_lnCloses s) 0); [done|].
  assert (lc_lnCloses s = 1%nat) as E by lia. auto.
Qed.

Lemma listener_step (s s' : Lifecycle) (l : Label) : lc_step s l s' -> listener_ok s -> listener_ok s'.
Proof.
  intros Hst (H1 & H2 & H3 & H4).
  assert (Hlt : lc_lnCloses s = 1%nat -> lc_accept s <> NotListening).
  { intros E Hn. apply H3 in Hn. apply H2 in E as [_ E]. congruence. }
  destruct (close_listener_fields s) as (F1 & F2 & F3 & F4 & F5 & F6 & F7 & _).
  destruct (close_listener_once s H1 ltac:(naive_solver)) as [C1 C2].
  step_cases Hst; unfold listener_ok; cbn; rewrite ?F1, ?F2, ?F3, ?F4, ?F5, ?F6, ?F7, ?C1, ?C2;
    try done; try (split_and!; try done; naive_solver); try (split_and!; naive_solver).
Qed.

Lemma sweeper_step_ok (T : Duration) (s s' : Lifecycle) (l : Label) :
  lc_step s l s' -> sweeper_ok T s -> sweeper_ok T s'.
Proof.
  intros Hst (Ha & Hinv & HT & Hv). split; [by eapply accept_ok_step|].
  destruct (close_listener_fields s) as (_ & F2 & _ & F4 & _).
  assert (Hph : forall id ph0 ph, lc_handlers s !! id = Some ph0 -> (tracked ph0 = true -> tracked ph = true) ->
    forall (j : Z) d, view (lc_idle s) !! j = Some d ->
    exists q, <[id := ph]> (lc_handlers s) !! j = Some q /\ tracked q = true).
  { intros id ph0 ph Hid Himp j d Hj. apply set_phase_spec. apply Hv in Hj as (q & Hq & Ht).
    destruct (decide (j = id)) as [->|]; [|right; eauto].
    left. split; [done|]. apply Himp. rewrite Hid in Hq. by injection Hq as ->. }
  step_cases Hst; cbn; rewrite ?F2, ?F4; try done; try (split_and!; [done..|by eapply Hph]).
  - split_and!; [done..|]. intros j d Hj. apply set_phase_spec. right.
    destruct (Hv j d Hj) as (q & Hq & Ht). split; [|eauto]. intros ->. rewrite (Ha id) in Hq; done.
  - assert (Hnone : view (lc_idle s) !! id = None).
    { destruct (view (lc_idle s) !! id) eqn:E; [|done]. apply Hv in E as (q & Hq & Ht).
      rewrite H in Hq. by injection Hq as <-. }
    destruct (Track_spec now id (lc_idle s) Hinv (entries_view _ _ Hinv Hnone))
      as (b' & sw' & E & _ & Hi & Ht & Hview). rewrite H0 in E. injection E as <- <-.
    split_and!; [done|congruence|]. intros j d. rewrite Hview. intros Hj. apply set_phase_spec.
    destruct (decide (j = id)) as [->|]; [by left|right; split; [done|]].
    destruct b; [rewrite lookup_insert_ne in Hj by congruence|]; eauto.
  - destruct (Untrack_spec id (lc_idle s) Hinv) as (sw' & E & Hi & Ht & Hview). rewrite H0 in E.
    injection E as <-. split_and!; [done|congruence|]. intros j d. rewrite Hview. intros Hj.
    apply lookup_delete_Some in Hj as [Hne Hj]. apply set_phase_spec. right. split; [congruence|eauto].
  - destruct H as [H|H]; (split_and!; [done..|by eapply Hph]).
  - destruct (Expire_spec lastActive now (lc_idle s) Hinv) as (ex' & sw' & E & Hi & Ht & Hoff & Hon).
    rewrite H1 in E. injection E as <- <-. split_and!; [done|congruence|]. intros j d Hj.
    destruct (decide (0 < timeout (lc_idle s))) as [Hp|Hp].
    + destruct (swept_in _ _ _ _ _ _ (Hon Hp) j d Hj) as (_ & d0 & Hd0 & _). eauto.
    + unfold view in Hj. rewrite (si_off _ Hi) in Hj by lia. by rewrite omap_empty, lookup_empty in Hj.
Qed.

Lemma closed_step (T : Duration) (s s' : Lifecycle) (l : Label) :
  lc_step s l s' -> sweeper_ok T s -> registry_ok s -> closed_ok s -> closed_ok s'.
Proof.
  intros Hst (Ha & Hinv & HT & Hv) [_ Hr] [Hc Hp].
  destruct (close_listener_fields s) as (_ & F2 & _ & _ & F5 & _ & _ & F6).
  assert (Hkeep : forall id ph0 ph, lc_handlers s !! id = Some ph0 -> (has_session ph0 = true -> has_session ph = true) ->
    forall j, (exists q, lc_handlers s !! j = Some q /\ has_session q = true) ->
    exists q, <[id := ph]> (lc_handlers s) !! j = Some q /\ has_session q = true).
  { intros id ph0 ph Hid Himp j (q & Hq & Ht). apply set_phase_spec.
    destruct (decide (j = id)) as [->|]; [|right; eauto].
    left. split; [done|]. apply Himp. rewrite Hid in Hq. by injection Hq as ->. }
  assert (Hgo : forall id ph0 ph, lc_handlers s !! id = Some ph0 -> (has_session ph0 = true -> has_session ph = true) ->
    closed_ok (set_phase id ph s)).
  { intros id ph0 ph Hid Himp. split; cbn; intros; eapply Hkeep; eauto. }
  step_cases Hst; try (by eapply Hgo); try (by split); try (by destruct (Hgo id _ _ H ltac:(done)));
    try (by split; cbn; rewrite ?F2, ?F5, ?F6; eauto).
  - split; cbn; intros; (eapply set_phase_spec; right; split; [|by eauto]); intros ->;
      pose proof (Ha id H) as Hn; naive_solver.
  - destruct (Hgo id _ Ended H ltac:(done)) as [G1 G2]. split; cbn; [|done].
    intros j [->%elem_of_singleton|Hj]%elem_of_union; [|by apply G1].
    apply set_phase_spec. by left.
  - destruct H as [H|H]; by eapply Hgo.
  - destruct (Expire_spec lastActive now (lc_idle s) Hinv) as (ex' & sw' & E & _ & _ & Hoff & Hon).
    rewrite H1 in E. injection E as <- <-. split; cbn; [|done].
    intros j [Hj%elem_of_list_to_set|Hj]%elem_of_union; [|by apply Hc].
    destruct (decide (0 < timeout (lc_idle s))) as [Hpos|Hpos]; [|rewrite Hoff in Hj by lia; by apply elem_of_nil in Hj].
    destruct (swept_out _ _ _ _ _ _ (Hon Hpos) j Hj) as (_ & d & _ & Hd & _).
    destruct (Hv j d Hd) as (q & Hq & Ht). exists q. split; [done|]. by destruct q.
  - split; cbn; [done|]. intros j Hj. apply Hr in Hj as (q & Hq & Ht).
    exists q. split; [done|]. by destruct q.
  - split; cbn.
    + intros j [->%elem_of_singleton|Hj]%elem_of_union; eauto.
    + intros j Hj. apply Hp. set_solver.
Qed.

(** All of it, for every reachable state. *)
Definition lc_inv (T : Duration) (s : Lifecycle) : Prop :=
  registry_ok s /\ listener_ok s /\ sweeper_ok T s /\ closed_ok s.

Lemma lc_step_inv (T : Duration) (s s' : Lifecycle) (l : Label) : lc_inv T s -> lc_step s l s' -> lc_inv T s'.
Proof.
  intros (H1 & H2 & H3 & H4) Hst. split_and!.
  - by eapply registry_step.
  - by eapply listener_step.
  - by eapply sweeper_step_ok.
  - by eapply closed_step.
Qed.

Lemma lc_reachable (T : Duration) (ls : list Label) (s : Lifecycle) :
  steps lc_step (lc_init T) ls s -> lc_inv T s.
Proof.
  apply (steps_invariant lc_step (lc_inv T)); [|intros s1 l s2; apply lc_step_inv].
  split_and!.
  - split; [done|]. intros id. split; [set_solver|]. intros (ph & Hph & _).
    change (lc_handlers (lc_init T)) with (∅ : gmap Z Phase) in Hph. by rewrite lookup_empty in Hph.
  - split_and!; cbn; [lia|done|done|naive_solver].
  - split_and!; [done|apply new_inv|done|]. intros id d Hd.
    unfold view, lc_init, newIdleSweeper in Hd. cbn [lc_idle entries heap] in Hd.
    by rewrite lookup_omap, lookup_empty in Hd.
  - split; cbn; [set_solver|done].
Qed.

Lemma gone_clean (T : Duration) (s : Lifecycle) :
  lc_inv T s -> all_gone s -> lc_sessions s = ∅ /\ view (lc_idle s) = ∅.
Proof.
  intros ((_ & Hr) & _ & (_ & _ & _ & Hv) & _) Hg. split.
  - apply set_eq. intros id. split; [|set_solver]. intros (ph & Hph & Ht)%Hr. apply Hg in Hph. by subst ph.
  - apply map_empty. intros id. destruct (view (lc_idle s) !! id) as [d|] eqn:E; [|done].
    destruct (Hv id d E) as (ph & Hph & Ht). apply Hg in Hph. by subst ph.
Qed.

(** ** Progress of the handlers *)

Definition rank (ph : Phase) : nat :=
  match ph with
  | Spawned => 7 | TurnedAway => 1 | LetIn => 6 | Tracked => 5 | Running => 4 | Ended => 3
  | Unregistered => 2 | Untracked => 1 | Gone => 0
  end.

Lemma handler_progress (T : Duration) (s : Lifecycle) (id : Z) (ph : Phase) :
  lc_inv T s -> lc_handlers s !! id = Some ph -> ph <> Gone ->
  exists ph' s', lc_step s (LHandler id) s' /\ lc_handlers s' = <[id := ph']> (lc_handlers s) /\
    (rank ph' < rank ph)%nat /\ lc_shutdown s' = lc_shutdown s.
Proof.
  intros (_ & _ & (_ & Hinv & _ & Hv) & _) Hid Hne. destruct ph; try done.
  - exists TurnedAway. eexists. split; [apply by_handler; by apply st_turn_away|]. split; [done|]. cbn. split; [lia|done].
  - exists Gone. eexists. split; [apply by_handler, st_done; by right|]. split; [done|]. cbn. split; [lia|done].
  - assert (Hnone : view (lc_idle s) !! id = None).
    { destruct (view (lc_idle s) !! id) eqn:E; [|done]. apply Hv in E as (q & Hq & Ht).
      rewrite Hid in Hq. by injection Hq as <-. }
    destruct (Track_spec 0 id (lc_idle s) Hinv (entries_view _ _ Hinv Hnone)) as (b & sw & E & _).
    exists Tracked. eexists. split; [apply by_handler; by eapply st_track|]. split; [done|]. cbn. split; [lia|done].
  - exists Running. eexists. split; [apply by_handler; by apply st_register|]. split; [done|]. cbn. split; [lia|done].
  - exists Ended. eexists. split; [apply by_handler; by apply st_end|]. split; [done|]. cbn. split; [lia|done].
  - exists Unregistered. eexists. split; [apply by_handler; by apply st_unregister|]. split; [done|]. cbn. split; [lia|done].
  - destruct (Untrack_spec id (lc_idle s) Hinv) as (sw & E & _).
    exists Untracked. eexists. split; [apply by_handler; by eapply st_untrack|]. split; [done|]. cbn. split; [lia|done].
  - exists Gone. eexists. split; [apply by_handler, st_done; by left|]. split; [done|]. cbn. split; [lia|done].
Qed.

Lemma handler_finishes (T : Duration) (n : nat) : forall (s : Lifecycle) (id : Z) (ph : Phase),
  (rank ph <= n)%nat -> lc_inv T s -> lc_handlers s !! id = Some ph ->
  exists ls s', steps lc_step s ls s' /\ lc_inv T s' /\ lc_handlers s' = <[id := Gone]> (lc_handlers s) /\
    lc_shutdown s' = lc_shutdown s.
Proof.
  induction n as [|n IH]; intros s id ph Hn Hinv Hid; destruct (decide (ph = Gone)) as [->|Hne];
    try (exists [], s; split; [apply steps_nil|]; split; [done|]; split; [by rewrite insert_id|done]).
  { destruct ph; cbn in Hn; try lia; done. }
  destruct (handler_progress T s id ph Hinv Hid Hne) as (ph' & s1 & Hst & Hh & Hr & Hs).
  pose proof (lc_step_inv T _ _ _ Hinv Hst) as Hinv1.
  destruct (IH s1 id ph') as (ls & s2 & Hrun & Hinv2 & Hh2 & Hs2); [lia|done|by rewrite Hh, lookup_insert_eq|].
  exists (LHandler id :: ls), s2. split; [by econstructor|]. split; [done|]. split; [|congruence].
  by rewrite Hh2, Hh, insert_insert_eq.
Qed.

Lemma handlers_finish (T : Duration) (ids : list Z) : forall s : Lifecycle,
  lc_inv T s ->
  exists ls s', steps lc_step s ls s' /\ lc_inv T s' /\ lc_shutdown s' = lc_shutdown s /\
    forall id ph, lc_handlers s' !! id = Some ph -> ph = Gone \/ (id ∉ ids /\ lc_handlers s !! id = Some ph).
Proof.
  induction ids as [|id ids IH]; intros s Hinv.
  { exists [], s. split; [apply steps_nil|]. split; [done|]. split; [done|]. intros id ph H. right. split; [set_solver|done]. }
  destruct (lc_handlers s !! id) as [ph|] eqn:Hid.
  - destruct (handler_finishes T (rank ph) s id ph) as (ls1 & s1 & Hr1 & Hi1 & Hh1 & Hs1); [done..|].
    destruct (IH s1 Hi1) as (ls2 & s2 & Hr2 & Hi2 & Hs2 & Hall).
    exists (ls1 ++ ls2), s2. split; [by eapply steps_app|]. split; [done|]. split; [congruence|].
    intros j q Hj. destruct (Hall j q Hj) as [->|[Hni Hq]]; [by left|]. rewrite Hh1 in Hq.
    apply lookup_insert_Some in Hq as [[-> <-]|[Hne Hq]]; [by left|right; split; [set_solver|done]].
  - destruct (IH s Hinv) as (ls & s' & Hr & Hi & Hs & Hall). exists ls, s'. split_and!; try done.
    intros j q Hj. destruct (Hall j q Hj) as [->|[Hni Hq]]; [by left|]. right. split; [|done].
    intros [->|Hj']%elem_of_cons; congruence.
Qed.

(** ** Properties *)

(** C18: The server accounts for its sessions under every interleaving of the
    accept loop, the handlers, the sweeper, the end of the context and a
    shutdown: the registry holds exactly the sessions that are registered and
    not yet removed, the sweeper tracks only sessions whose handler will
    untrack them, only sessions are ever closed, the listener is closed at most
    once, and when every handler has ended nothing is left in registry or
    sweeper. *)
Theorem sessions_accounted (T : Duration) (ls : list Label) (s : Lifecycle) :
  steps lc_step (lc_init T) ls s ->
  (forall id, id ∈ lc_sessions s <-> exists ph, lc_handlers s !! id = Some ph /\ registered ph = true) /\
  (forall (id : Z) d, view (lc_idle s) !! id = Some d ->
     exists ph, lc_handlers s !! id = Some ph /\ tracked ph = true) /\
  (forall id, id ∈ lc_closed s -> exists ph, lc_handlers s !! id = Some ph /\ has_session ph = true) /\
  (lc_lnCloses s <= 1)%nat /\
  (all_gone s -> lc_sessions s = ∅ /\ view (lc_idle s) = ∅).
Proof.
  intros Hrun. apply lc_reachable in Hrun as Hinv. pose proof (gone_clean T s Hinv) as Hgone.
  destruct Hinv as ([_ Hr] & [Hl _] & (_ & _ & _ & Hv) & [Hc _]). by split_and!.
Qed.

(** A session that is swept while it runs, and a shutdown that waits for it. *)
Definition idle_start : idleSweeper := newIdleSweeper 10.
Definition idle_one : idleSweeper := default idle_start (snd <$> Track 5 1 idle_start).

Definition demo_running : Lifecycle :=
  MkLifecycle true false true 0 Accepting {[1 := Running]} {[1]} idle_one ∅ NotAsked ∅.

Lemma demo_running_run :
  steps lc_step (lc_init 10) [LListen; LAccept 1; LSpawn 1; LHandler 1; LHandler 1; LHandler 1] demo_running.
Proof.
  eapply steps_cons; [apply by_run; by apply st_listen|]. eapply steps_cons; [apply by_run; by apply st_accept|].
  eapply steps_cons; [apply by_run; by apply st_spawn|]. eapply steps_cons; [apply by_handler; by apply st_admit|].
  eapply steps_cons; [apply by_handler; eapply (st_track _ 1 5 true idle_one); by vm_compute|].
  eapply steps_cons; [apply by_handler; by apply st_register|].
  replace demo_running with
    ((set_phase 1 Running ((set_phase 1 Tracked (set_phase 1 LetIn ((set_phase 1 Spawned
       ((lc_init 10) <| lc_ready := true |> <| lc_lnOpen := true |> <| lc_accept := Accepting |>
          <| lc_accept := Accepted 1 |>)) <| lc_accept := Accepting |>))) <| lc_idle := idle_one |>))
       <| lc_sessions ::= fun r => {[1]} ∪ r |>); [apply steps_nil|].
  by vm_compute.
Qed.

Lemma sessions_accounted_witness :
  1 ∈ lc_sessions demo_running <->
  exists ph, lc_handlers demo_running !! 1 = Some ph /\ registered ph = true.
Proof. apply (proj1 (sessions_accounted 10 _ demo_running demo_running_run)). Defined.


Definition demo_drained : Lifecycle :=
  MkLifecycle true false false 1 Accepting ∅ ∅ idle_start ∅ Draining ∅.

Lemma demo_drained_run :
  steps lc_step (lc_init 10) [LListen; LShutdown; LShutdownCloseListener; LShutdownSnapshot] demo_drained.
Proof.
  eapply steps_cons; [apply by_run; by apply st_listen|]. eapply steps_cons; [apply by_shutdown; by apply st_shutdown|].
  eapply steps_cons; [apply by_shutdown; by apply st_shutdown_listener|]. eapply steps_cons; [apply by_shutdown; by apply st_shutdown_snapshot|].
  apply steps_nil.
Qed.


(** Draining never gets stuck: from every reachable state in which a
    shutdown waits, the handlers can all run to their end (none of them panics
    or waits for another), after which the shutdown returns without an error. *)
Theorem drain_can_finish (T : Duration) (ls : list Label) (s : Lifecycle) :
  steps lc_step (lc_init T) ls s -> lc_shutdown s = Draining ->
  exists ls' s', steps lc_step s ls' s' /\ lc_shutdown s' = ShutdownOK /\ all_gone s'.
Proof.
  intros Hrun Hd. apply lc_reachable in Hrun as Hinv.
  destruct (handlers_finish T (elements (dom (lc_handlers s))) s Hinv) as (ls1 & s1 & Hr & _ & Hs & Hall).
  assert (Hg : all_gone s1).
  { intros id ph Hid. destruct (Hall id ph Hid) as [->|[Hni Hin]]; [done|]. exfalso. apply Hni.
    rewrite elem_of_elements, elem_of_dom. eauto. }
  exists (ls1 ++ [LShutdownReturn]), (s1 <| lc_shutdown := ShutdownOK |>). split; [|by split].
  eapply steps_app; [exact Hr|]. econstructor; [|apply steps_nil].
  apply by_shutdown, (st_shutdown_return s1); [congruence|done].
Qed.

Lemma drain_can_finish_witness :
  exists ls' s', steps lc_step demo_drained ls' s' /\ lc_shutdown s' = ShutdownOK /\ all_gone s'.
Proof. apply (drain_can_finish 10 _ demo_drained demo_drained_run). reflexivity. Defined.


Definition mandatory_cfg : Config :=
  defaultConfig <| Server ::= fun sc => sc <| Ports := {["write" := MkPortConfig ":5711" "" "Mandatory" "" "" 0 false]} |> |>.


(** ** Where the program does something else *)

(** A connection accepted but not yet counted when [Shutdown] looks is missed:
    the shutdown returns without an error and the session starts afterwards. *)
Theorem shutdown_misses_accepted_connection :
  exists ls s, steps lc_step (lc_init 0) ls s /\ lc_shutdown s = ShutdownOK /\ lc_handlers s !! 1 = Some Running.
Proof.
  exists [LListen; LAccept 1; LShutdown; LShutdownCloseListener; LShutdownSnapshot; LShutdownReturn;
          LSpawn 1; LHandler 1; LHandler 1; LHandler 1].
  eexists. split.
  - eapply steps_cons; [apply by_run; by apply st_listen|]. eapply steps_cons; [apply by_run; by apply st_accept|].
    eapply steps_cons; [apply by_shutdown; by apply st_shutdown|]. eapply steps_cons; [apply by_shutdown; by apply st_shutdown_listener|].
    eapply steps_cons; [apply by_shutdown; by apply st_shutdown_snapshot|].
    eapply steps_cons; [apply by_shutdown; eapply st_shutdown_return; [done|apply map_Forall_empty]|].
    eapply steps_cons; [apply by_run; by apply st_spawn|]. eapply steps_cons; [apply by_handler; by apply st_admit|].
    eapply steps_cons; [apply by_handler; by eapply (st_track _ 1 0 false)|].
    eapply steps_cons; [apply by_handler; by apply st_register|]. apply steps_nil.
  - by split.
Qed.

(** A session that registers after the snapshot is never asked to close: the
    shutdown has nothing left to do but wait for the client. *)
Theorem shutdown_leaves_late_session_open :
  exists ls s, steps lc_step (lc_init 0) ls s /\ lc_shutdown s = Draining /\ lc_closers s = ∅ /\
    lc_handlers s !! 1 = Some Running /\ 1 ∉ lc_closed s /\ 1 ∈ lc_sessions s.
Proof.
  exists [LListen; LAccept 1; LSpawn 1; LHandler 1; LShutdown; LShutdownCloseListener; LShutdownSnapshot;
          LHandler 1; LHandler 1].
  eexists. split.
  - eapply steps_cons; [apply by_run; by apply st_listen|]. eapply steps_cons; [apply by_run; by apply st_accept|].
    eapply steps_cons; [apply by_run; by apply st_spawn|]. eapply steps_cons; [apply by_handler; by apply st_admit|].
    eapply steps_cons; [apply by_shutdown; by apply st_shutdown|]. eapply steps_cons; [apply by_shutdown; by apply st_shutdown_listener|].
    eapply steps_cons; [apply by_shutdown; by apply st_shutdown_snapshot|].
    eapply steps_cons; [apply by_handler; by eapply (st_track _ 1 0 false)|].
    eapply steps_cons; [apply by_handler; by apply st_register|]. apply steps_nil.
  - split_and!; try done; set_solver.
Qed.

(** When the listener is closed while the context is not done (a shutdown that
    does not come from a signal), the accept loop can only fail and try again,
    without a pause. *)
Theorem closed_listener_spins (T : Duration) (s s' : Lifecycle) (l : Label) :
  lc_accept s = Accepting -> lc_lnOpen s = false -> lc_ctxDone s = false -> lc_step s l s' ->
  lc_accept s' = Accepting /\ (match l with LAccept _ | LSpawn _ | LAcceptReturn => False | _ => True end).
Proof.
  intros H1 H2 H3 Hst. destruct (close_listener_fields s) as (F1 & _).
  step_cases Hst; cbn; try congruence; rewrite ?F1; try done; split; congruence || done.
Qed.
