(* ===== verification/Logger.v ===== *)
(** * Logger: the console's log channel and the decision exporter (internal/logger)

    [Write] puts a line into the bounded channel that the console reads; the
    exporter turns the events of the decisions bus into log records. *)

From stdpp Require Import base gmap strings list.
From Stdlib Require Import ZArith Lia.
From S2P Require Import Prelude GoStrings Decisions.

Local Open Scope string_scope.
Local Open Scope Z_scope.
Local Open Scope list_scope.

(** ** The channel (channel.go) *)

Definition channel_size : nat := 1000.

(** [strings.TrimRight(msg, newline)]. *)
Definition trim_newlines (msg : string) : string := TrimRightFunc msg (fun r => r =? 10).

(** A non-blocking send: the new contents, and whether it succeeded. *)
Definition try_send (msg : string) (q : list string) : bool * list string :=
  if (length q <? channel_size)%nat then (true, q ++ [msg]) else (false, q).

(** [meanwhile1] and [meanwhile2] are what the console and other writers do to
    the channel between the three attempts. *)
Definition Write (meanwhile1 meanwhile2 : list string -> list string) (p : string) (q : list string)
  : Z * list string :=
  let msg := trim_newlines p in
  let '(ok, q) := try_send msg q in
  let q := if ok : bool then q
           else
             let q := tail (meanwhile1 q) in
             (try_send msg (meanwhile2 q)).2 in
  (Z.of_nat (String.length p), q).

(** ** The exporter (decision_exporter.go) *)

Inductive Level := Info | Warn.

(** The fields of a record; the event is its marshalled body. *)
Inductive LogRecord :=
| DroppedRecord (count : Z)
| DecisionRecord (lvl : Level) (fields : list (string * string)) (event : Event)
| TransitionRecord (lvl : Level) (fields : list (string * string)) (event : TransitionEvent).

Definition optional_field (name value : string) : list (string * string) :=
  if String.eqb value "" then [] else [(name, value)].

Definition decision_record (event : Event) : LogRecord :=
  let out := ev_Outcome event in
  DecisionRecord
    (if String.eqb (out_Kind out) "rejected" || String.eqb (out_Kind out) "fallback" then Warn else Info)
    ([("port", ev_Port event); ("pool_mode", ev_PoolMode event); ("outcome_kind", out_Kind out);
      ("event_id", ev_EventID event)]
     ++ optional_field "outcome_node_id" (out_NodeID out) ++ optional_field "outcome_reason" (out_Reason out))
    event.

Definition transition_record (event : TransitionEvent) : LogRecord :=
  TransitionRecord Info
    [("event_id", te_EventID event); ("policy_name", te_PolicyName event); ("node_id", te_NodeID event);
     ("from_state", te_FromState event); ("to_state", te_ToState event)]
    event.

Definition event_record (e : BusEvent) : LogRecord :=
  match e with BusDecision ev => decision_record ev | BusTransition ev => transition_record ev end.

(** One message of the subscription: the drops since the last one are counted
    and reported before the event itself.  [None]: there is no message. *)
Definition export_message (id : Z) (b : Bus) : option (list LogRecord * Bus) :=
  match Recv id b with
  | (None, _) => None
  | (Some e, b) =>
    let '(d, b) := DrainDropped id b in
    if 0 <? d then Some ([DroppedRecord d; event_record e], MarkOTelDropped d b)
    else Some ([event_record e], b)
  end.

(** [StartDecisionExporter]: the subscription; [None] when the bus refuses it. *)
Definition StartDecisionExporter (b : Bus) : option Z * Bus := Subscribe b.

Definition exporter_feed (id : Z) := feed (export_message id) [] id.

Definition record_events (r : LogRecord) : list BusEvent :=
  match r with
  | DroppedRecord _ => []
  | DecisionRecord _ _ e => [BusDecision e]
  | TransitionRecord _ _ e => [BusTransition e]
  end.
Definition record_drops (r : LogRecord) : Z := match r with DroppedRecord d => d | _ => 0 end.

(** ** Lemmas *)

Lemma event_record_shown (e : BusEvent) :
  record_events (event_record e) = [e] /\ record_drops (event_record e) = 0.
Proof. by destruct e. Qed.

Lemma export_honest (id : Z) : honest (export_message id) id record_events record_drops.
Proof.
  intros n b fr b1 Hl. unfold export_message. destruct (Recv id b) as [[e|] b'] eqn:Er; [|done].
  destruct (DrainDropped id b') as [d b''] eqn:Ed. intros H.
  pose proof (sub_run_take id b e b' d b'' Er Ed) as Hrun.
  destruct (live_sub_take id n b e b' d b'' Hl Er Ed) as [Hd Hl'].
  destruct (event_record_shown e) as [H1 H2].
  assert (Hmark : bus_step b'' (OpMark d) (MarkOTelDropped d b'')) by apply step_mark.
  destruct (Z.ltb_spec 0 d) as [Hd'|Hd']; injection H as <- <-.
  - split; [by apply (live_sub_step id n b'' _ _ Hmark)|].
    exists ([OpRecv id; OpDrain id] ++ [OpMark d]). split; [|done].
    unfold shown_all, counted_all. cbn -[app]. rewrite H1, H2. cbn -[app]. rewrite Z.add_0_r.
    replace ([] ++ [e] ++ []) with ([e] ++ []) by done. replace d with (d + 0) at 3 by lia.
    eapply sub_run_app; [exact Hrun|].
    apply (sub_run_cons id b'' (OpMark d) (MarkOTelDropped d b'') [] (MarkOTelDropped d b'') [] 0);
      [done|by split|apply sub_run_nil].
  - split; [done|]. exists [OpRecv id; OpDrain id]. split; [|done].
    unfold shown_all, counted_all. cbn. rewrite H1, H2. cbn. by replace d with 0 in Hrun by lia.
Qed.

Lemma try_send_bound (msg : string) (q : list string) :
  (length q <= channel_size)%nat -> (length (try_send msg q).2 <= channel_size)%nat.
Proof.
  intros H. unfold try_send. destruct (Nat.ltb_spec (length q) channel_size); cbn -[channel_size]; [|done].
  rewrite length_app. cbn -[channel_size]. lia.
Qed.

Lemma try_send_room (msg : string) (q : list string) :
  (length q < channel_size)%nat -> try_send msg q = (true, q ++ [msg]).
Proof. intros H. unfold try_send. by apply Nat.ltb_lt in H as ->. Qed.

(** ** Properties *)

(** Writing a log line never blocks and never grows the channel beyond its
    thousand lines, whatever other writers do meanwhile; and as long as only
    the console reads meanwhile, the new line is in the channel afterwards, as
    its last one, without its trailing newlines. *)
Theorem log_channel_keeps_newest (m1 m2 : list string -> list string) (k1 k2 : nat) (p : string)
    (q : list string) :
  (length q <= channel_size)%nat ->
  (forall l, (length l <= channel_size)%nat -> (length (m1 l) <= channel_size)%nat) ->
  (forall l, (length l <= channel_size)%nat -> (length (m2 l) <= channel_size)%nat) ->
  (length (Write m1 m2 p q).2 <= channel_size)%nat /\
  last (Write (drop k1) (drop k2) p q).2 = Some (trim_newlines p).
Proof.
  intros Hq H1 H2. unfold Write. set (msg := trim_newlines p).
  destruct (Nat.lt_ge_cases (length q) channel_size) as [Hlt|Hge].
  - rewrite try_send_room by done. cbn [fst snd]. split; [|apply last_snoc].
    rewrite length_app. cbn -[channel_size]. lia.
  - unfold try_send at 1 3. apply Nat.ltb_ge in Hge as Hb. rewrite Hb. cbn [fst snd]. split.
    + apply try_send_bound, H2. specialize (H1 q Hq). destruct (m1 q); cbn -[channel_size] in *; lia.
    + rewrite try_send_room; [apply last_snoc|]. rewrite length_drop.
      assert (length (tail (drop k1 q)) < channel_size)%nat; [|lia].
      pose proof (length_drop q k1) as Hd. destruct (drop k1 q); cbn -[channel_size] in *.
      * unfold channel_size. lia.
      * lia.
Qed.

Lemma log_channel_keeps_newest_witness :
  (length (Write (fun l => l) (fun l => l) "new" (replicate channel_size "old")).2 <= channel_size)%nat /\
  last (Write (drop 0) (drop 0) "new" (replicate channel_size "old")).2 = Some (trim_newlines "new").
Proof.
  apply (log_channel_keeps_newest (fun l => l) (fun l => l) 0 0 "new" (replicate channel_size "old")).
  - rewrite length_replicate. lia.
  - intros l H. exact H.
  - intros l H. exact H.
Defined.

(** The exporter logs every decision and transition or accounts for it:
    between two states of a subscription, the events of its log records
    followed by those still buffered are the earlier buffered ones followed by
    a subsequence, in order, of the events published meanwhile, and the drops
    it logs and hands to the metrics, with those still to be counted, are the
    events missing from that subsequence. *)
Theorem exporter_accounts_for_all (id : Z) (b b' : Bus) (ops : list bus_op) (s : sub)
    (recs : list LogRecord) :
  live_sub id (length (delivered ops)) b -> store b !! id = Some s ->
  exporter_feed id b ops b' recs ->
  exists s' kept lost, store b' !! id = Some s' /\
    shown_all record_events recs ++ ch s' = ch s ++ kept /\ kept `sublist_of` delivered ops /\
    (length (delivered ops) = length kept + lost)%nat /\
    wrap64 (counted_all record_drops recs + drops s') = wrap64 (drops s + Z.of_nat lost).
Proof.
  intros Hl Hs Hrun.
  destruct (feed_conserves (export_message id) [] id record_events record_drops b ops b' recs s)
    as (s' & Hs' & kept & lost & H); try done; [apply export_honest|].
  by exists s', kept, lost.
Qed.

Definition quiet_bus : Bus := demo_state [] 0 0.

Lemma exporter_accounts_for_all_witness :
  exists s' kept lost, store ((demo_state [] 0 1) <| droppedOTelOverflow := 1 |>) !! 0 = Some s' /\
    [demo_event] ++ ch s' = [] ++ kept /\ kept `sublist_of` [demo_event; demo_event] /\
    (2 = length kept + lost)%nat /\
    wrap64 (1 + drops s') = wrap64 (0 + Z.of_nat lost).
Proof.
  apply (exporter_accounts_for_all 0 quiet_bus _
           [OpDeliver [0] demo_event; OpDeliver [0] demo_event] (MkSub [] false 0)
           [DroppedRecord 1; event_record demo_event]).
  - split; [|split; [|split]].
    + apply (bus_steps_inv 2 1 [OpSubscribe]); [lia|lia|].
      eapply (steps_cons _ _ _ quiet_bus); [by apply (step_subscribe (NewBus 2 1))|apply steps_nil].
    + by vm_compute.
    + set_solver.
    + eexists. split; [by vm_compute|]. by vm_compute.
  - by vm_compute.
  - eapply (feed_other _ _ _ _ _ (demo_state [demo_event] 0 0)); [by apply step_deliver; vm_compute|done|].
    eapply (feed_other _ _ _ _ _ (demo_state [demo_event] 1 1)); [by apply step_deliver; vm_compute|done|].
    apply (feed_message (export_message 0) [] 0 _ [DroppedRecord 1; event_record demo_event]
             ((demo_state [] 0 1) <| droppedOTelOverflow := 1 |>) [] _ []); [by vm_compute|apply feed_idle].
Defined.
