(* ===== verification/Json.v ===== *)
(** * Json: JSON values and the redaction of secrets (internal/admin/admin.go)

    The values that the admin API builds, marshals and walks over.  An object
    is the list of its fields.  Text is UTF-8, as the configuration format
    requires, so marshalling keeps it.  An instant stands for its RFC 3339 text.
    Also here: sorting by a string key, which makes views independent of the
    iteration order of maps. *)

From stdpp Require Import base gmap strings list sorting.
From Stdlib Require Import ZArith Lia.
From S2P Require Import Prelude Types.

Local Open Scope string_scope.
Local Open Scope list_scope.

(** ** Values *)

Inductive json :=
| JNull
| JBool (b : bool)
| JNum (n : Z)
| JRatio (num : Z) (den : positive)
| JStr (s : string)
| JTime (t : Time)
| JArr (l : list json)
| JObj (fs : list (string * json)).

(** Induction with the hypothesis for every element and every field. *)
Section json_induction.
Context (P : json -> Prop).
Context (Hnull : P JNull) (Hbool : forall b, P (JBool b)) (Hnum : forall n, P (JNum n))
  (Hratio : forall n d, P (JRatio n d)) (Hstr : forall s, P (JStr s)) (Htime : forall t, P (JTime t))
  (Harr : forall l, Forall P l -> P (JArr l))
  (Hobj : forall fs, Forall (fun f => P f.2) fs -> P (JObj fs)).

Fixpoint json_ind_nested (v : json) : P v.
Proof.
  destruct v as [|b|n|n d|s|t|l|fs].
  - exact Hnull.
  - apply Hbool.
  - apply Hnum.
  - apply Hratio.
  - apply Hstr.
  - apply Htime.
  - apply Harr. induction l as [|x l IH]; constructor; [apply json_ind_nested|exact IH].
  - apply Hobj. induction fs as [|[k x] fs IH]; constructor; [apply json_ind_nested|exact IH].
Defined.
End json_induction.

(** ** Reading back what was marshalled

    [json.Unmarshal] into an [interface{}] turns every number into a
    [float64]: the nearest multiple of a power of two with 53 significant
    bits, ties to even. *)
Definition float64_nat (n : Z) : Z :=
  if (n <? 2 ^ 53)%Z then n
  else
    let unit := (2 ^ (Z.log2 n - 52))%Z in
    let q := (n / unit)%Z in
    let r := (n mod unit)%Z in
    let up := (unit <? 2 * r)%Z || ((2 * r =? unit)%Z && Z.odd q) in
    ((if up then q + 1 else q) * unit)%Z.

Definition float64 (n : Z) : Z := if (n <? 0)%Z then (- float64_nat (- n))%Z else float64_nat n.

Fixpoint reread (v : json) : json :=
  match v with
  | JNum n => JNum (float64 n)
  | JArr l => JArr (map reread l)
  | JObj fs => JObj (map (fun f => (f.1, reread f.2)) fs)
  | _ => v
  end.

(** ** [walkRedact] *)

(** [delete(m, k)] and [m[k] = v]. *)
Definition delete_field (k : string) (fs : list (string * json)) : list (string * json) :=
  List.filter (fun f => negb (String.eqb f.1 k)) fs.
Definition set_field (k : string) (v : json) (fs : list (string * json)) : list (string * json) :=
  delete_field k fs ++ [(k, v)].

Definition redact_password (v : json) : json :=
  match v with
  | JStr s => if String.eqb s "" then v else JStr "***"
  | _ => v
  end.

(** [count] is the number of token hashes. *)
Definition redact_tokens (count : Z) (v : json) : json :=
  match v with
  | JObj at_ => JObj (set_field "token_count" (JNum count) (delete_field "tokens" at_))
  | _ => v
  end.

Fixpoint walkRedact (count : Z) (v : json) : json :=
  match v with
  | JObj fs =>
    JObj (map (fun f =>
      (f.1, if String.eqb f.1 "password" then redact_password f.2
            else if String.eqb f.1 "admin_tokens" then redact_tokens count f.2
            else walkRedact count f.2)) fs)
  | JArr l => JArr (map (walkRedact count) l)
  | _ => v
  end.

Definition redactConfig (tokenHashes : gmap string string) (v : json) : json :=
  walkRedact (Z.of_nat (size tokenHashes)) v.

(** ** What redaction hides

    Two values that differ only in secrets: in non-empty texts called
    password, and in the tokens of an [admin_tokens] object. *)
Inductive hides : json -> json -> Prop :=
| hides_refl v : hides v v
| hides_arr l l' : Forall2 hides l l' -> hides (JArr l) (JArr l')
| hides_obj fs fs' : Forall2 hides_field fs fs' -> hides (JObj fs) (JObj fs')
with hides_field : string * json -> string * json -> Prop :=
| hides_password s s' : s <> "" -> s' <> "" -> hides_field ("password", JStr s) ("password", JStr s')
| hides_tokens at_ at' :
    delete_field "token_count" (delete_field "tokens" at_)
    = delete_field "token_count" (delete_field "tokens" at') ->
    hides_field ("admin_tokens", JObj at_) ("admin_tokens", JObj at')
| hides_other k v v' : k <> "password" -> k <> "admin_tokens" -> hides v v' -> hides_field (k, v) (k, v')
| hides_same f : hides_field f f.

Lemma walkRedact_hides (count : Z) (v v' : json) :
  hides v v' -> walkRedact count v = walkRedact count v'.
Proof.
  revert v'. induction v as [|b|n|n d|s|t|l IH|fs IH] using json_ind_nested;
    intros v' H; inversion H as [|l1 l2 Hl|fs1 fs2 Hf]; subst; try done; cbn; f_equal.
  - induction Hl as [|x y l l' Hxy Hl IHl]; [done|]. cbn.
    apply Forall_cons in IH as [IHx IHl']. f_equal; [by apply IHx|]. apply IHl; [done|].
    by apply hides_arr.
  - induction Hf as [|f f' fs fs' Hff Hfs IHf]; [done|]. cbn.
    apply Forall_cons in IH as [IHx IHf']. f_equal; [|apply IHf; [done|by apply hides_obj]].
    inversion Hff as [s s' Hs Hs'|at_ at' Hat|k v v' H1 H2 Hv|g]; subst; cbn; [| | |done].
    + by rewrite !(proj2 (String.eqb_neq _ _)).
    + unfold set_field. by rewrite Hat.
    + rewrite (proj2 (String.eqb_neq k "password")), (proj2 (String.eqb_neq k "admin_tokens")) by done.
      f_equal. by apply IHx.
Qed.

(** ** Sorting by a key *)

Section sort.
Context {A : Type} (key : A -> string).

Definition key_le (a b : A) : Prop := String.le (key a) (key b).
#[export] Instance key_le_dec : RelDecision key_le.
Proof. intros a b. unfold key_le. apply _. Defined.
#[local] Instance key_le_total : Total key_le.
Proof. intros a b. unfold key_le. apply total. apply _. Qed.
#[local] Instance key_le_trans : Transitive key_le.
Proof. intros a b c. unfold key_le. apply transitivity. Qed.

Definition sort_by (l : list A) : list A := merge_sort key_le l.

Lemma sort_by_perm (l : list A) : sort_by l ≡ₚ l.
Proof. apply merge_sort_Permutation. Qed.

Lemma sort_by_sorted (l : list A) : StronglySorted key_le (sort_by l).
Proof. apply StronglySorted_merge_sort; apply _. Qed.

Lemma keys_unique (l : list A) (x y : A) :
  NoDup (key <$> l) -> x ∈ l -> y ∈ l -> key x = key y -> x = y.
Proof.
  induction l as [|z l IH]; [by intros _ H%not_elem_of_nil|].
  rewrite fmap_cons. intros [Hz Hnd]%NoDup_cons Hx Hy Hk.
  apply elem_of_cons in Hx as [->|Hx]; apply elem_of_cons in Hy as [->|Hy]; [done|..|by apply IH].
  - exfalso. apply Hz. rewrite Hk. by apply list_elem_of_fmap_2.
  - exfalso. apply Hz. rewrite <- Hk. by apply list_elem_of_fmap_2.
Qed.

(** Lists with the same elements under distinct keys sort to the same list. *)
Lemma sort_by_unique (l l' : list A) :
  l ≡ₚ l' -> NoDup (key <$> l) -> sort_by l = sort_by l'.
Proof.
  intros Hp Hnd. apply (StronglySorted_unique_strong key_le); auto using sort_by_sorted.
  - intros x y Hx Hy H1 H2. rewrite sort_by_perm in Hx, Hy. rewrite <- Hp in Hy.
    apply (keys_unique l); try done. by apply (anti_symm String.le).
  - by rewrite !sort_by_perm.
Qed.

End sort.
