(* ===== verification/Admin.v ===== *)
(** * Admin: the administration API (internal/admin/admin.go)

    Bearer tokens, the routes and their middleware, the views of topology,
    pools, policies and configuration, and the event stream.  The HTTP server
    and the chi router are outside the program: [Run] registers routes, and
    whichever of them the router picks is served through the middleware.  The
    SHA-256 digest is a parameter; so are, through [ViewEnv], what a request
    observes: the clock, the iteration orders and the statistics of the pools. *)

From stdpp Require Import base gmap strings list sorting.
From Stdlib Require Import ZArith Lia Ascii.
From S2P Require Import Prelude GoStrings GoEncoding Types Config Topology Decisions Policy Json.

Local Open Scope string_scope.
Local Open Scope Z_scope.
Local Open Scope list_scope.

(** ** Tokens *)

Section admin.
Context (sha256 : string -> string).

Definition token_hash (token : string) : string := hex_EncodeToString (sha256 token).

(** The loop of [New] over the configured tokens. *)
Definition add_token (hashes : gmap string string) (e : string * AdminTokenEntry) : gmap string string :=
  if String.eqb e.1 "" then hashes else <[token_hash e.1 := te_Role e.2]> hashes.

Definition hash_tokens (tokens : gmap string AdminTokenEntry) (ord : list string) : gmap string string :=
  foldl add_token ∅ (visit tokens ord).

(** [strings.EqualFold] with a text of ASCII letters other than k and s, which
    no other rune folds to. *)
Definition fold_byte (c : ascii) : Z :=
  if in_range 65 90 (byteZ c) then byteZ c + 32 else byteZ c.
Fixpoint EqualFold (s t : string) : bool :=
  match s, t with
  | EmptyString, EmptyString => true
  | String c s', String d t' => (fold_byte c =? fold_byte d) && EqualFold s' t'
  | _, _ => false
  end.

Definition extractBearerToken (h : string) : string :=
  if (String.length h <? 7)%nat || negb (EqualFold (stake 7 h) "Bearer ") then ""
  else TrimSpace (sdrop 7 h).

(** ** The server *)

(** [admin_tls]: [tlsConfig] is not nil. *)
Record AdminServer := MkAdminServer {
  admin_topo : Topology;
  admin_cfg : Config;
  admin_tls : bool;
  tokenHashes : gmap string string;
  admin_bus : option Bus;
  admin_policyEng : option Engine
}.

(** [load_cert]: the result of reading the key pair. *)
Definition admin_New (topo : Topology) (cfg : Config) (ord : list string) (load_cert : option error)
    (bus : option Bus) (eng : option Engine) : error + AdminServer :=
  let hashes := hash_tokens (AdminTokens (Server cfg)) ord in
  let tls := ad_TLSEnabled (Admin (Server cfg)) in
  match (if tls then load_cert else None) with
  | Some err => inl (OtherError "failed to load admin TLS key pair" (Some err))
  | None => inr (MkAdminServer topo cfg tls hashes bus eng)
  end.

(** ** Requests and responses *)

Record Request := MkRequest {
  rq_Method : string; rq_Authorization : string; rq_Params : gmap string string
}.
Definition URLParam (r : Request) (k : string) : string := default "" (rq_Params r !! k).

Record Response := MkResponse { rs_Status : Z; rs_Body : json }.

Definition writeJSON (status : Z) (v : json) : Response := MkResponse status v.
Definition writeJSONError (status : Z) (code message : string) : Response :=
  writeJSON status (JObj [("error", JStr code); ("message", JStr message)]).

(** [%q], for texts whose runes beyond ASCII are printable. *)
Definition escape (c : ascii) : string :=
  let b := byteZ c in
  let named := fun n : nat => chr 92 +:+ chr n in
  if (b =? 34) || (b =? 92) then chr 92 +:+ String c ""
  else if in_range 32 126 b || (128 <=? b) then String c ""
  else if b =? 7 then named 97%nat else if b =? 8 then named 98%nat else if b =? 12 then named 102%nat
  else if b =? 10 then named 110%nat else if b =? 13 then named 114%nat else if b =? 9 then named 116%nat
  else if b =? 11 then named 118%nat
  else chr 92 +:+ "x" +:+ hex_EncodeToString (String c "").
Fixpoint escape_all (s : string) : string :=
  match s with EmptyString => "" | String c s' => escape c +:+ escape_all s' end.
Definition quoted (s : string) : string := chr 34 +:+ escape_all s +:+ chr 34.

(** ** What a request observes *)

Record ViewEnv := MkViewEnv {
  ve_PortOrder : list string;
  ve_NodeOrder : list NodeID;
  ve_CandidateOrder : string -> list string;
  ve_Clock : NodeID -> Time;
  ve_Now : Time;
  ve_Stats : Manager -> PoolStats;
  ve_Metrics : Z * json (* what the metrics library answers *)
}.

(** ** Views *)

Definition livenessState (now : Time) (nv : NodeView) : string :=
  if IsZero (nv_LastProbeAt nv) then "unknown"
  else if nv_LivenessMaxAgeMs nv <? Milliseconds (Sub now (nv_LastProbeAt nv)) then "stale"
  else "fresh".

Definition role_disagreement (nv : NodeView) : bool :=
  bool_decide (nv_ObservedRole nv <> RoleUnknown) && bool_decide (nv_ObservedRole nv <> nv_DeclaredRole nv).

Definition time_or_null (t : Time) : json := if IsZero t then JNull else JTime t.

Definition nodeViewToJSON (cluster : SystemID) (now : Time) (nv : NodeView) : json :=
  JObj [("id", JStr (nv_ID nv)); ("host", JStr (nv_Host nv)); ("port", JNum (nv_Port nv));
        ("declared_role", JStr (Role_String (nv_DeclaredRole nv)));
        ("observed_role", JStr (Role_String (nv_ObservedRole nv)));
        ("role_disagreement", JBool (role_disagreement nv));
        ("liveness", JStr (Liveness_String (nv_Liveness nv)));
        ("liveness_state", JStr (livenessState now nv));
        ("system_identifier", JStr (nv_SystemID nv));
        ("system_identifier_match",
          JBool (negb (String.eqb (nv_SystemID nv) "") && String.eqb (nv_SystemID nv) cluster));
        ("replication_lag_state", JStr (LagState_String (nv_ReplicationLagState nv)));
        ("last_probe_at", time_or_null (nv_LastProbeAt nv));
        ("last_lag_sample_at", time_or_null (nv_LastLagSampleAt nv));
        ("replication_lag_ms", match nv_ReplicationLagMs nv with Some ms => JNum ms | None => JNull end);
        ("last_probe_error", match nv_LastProbeErr nv with Some e => JStr (Error e) | None => JNull end)].

(** The views are sorted by their id. *)
Definition nodeViewsToJSON (cluster : SystemID) (now : Time) (nvs : list NodeView) : json :=
  JArr (nodeViewToJSON cluster now <$> sort_by nv_ID nvs).

(** One entry of [poolViews]. *)
Record PoolView := MkPoolView {
  pv_Port : string; pv_NodeID : string; pv_Mode : string; pv_Stats : PoolStats; pv_MinConns : Z
}.

Definition poolViewToJSON (v : PoolView) : json :=
  JObj [("port", JStr (pv_Port v)); ("node_id", JStr (pv_NodeID v)); ("mode", JStr (pv_Mode v));
        ("total_conns", JNum (TotalConns (pv_Stats v))); ("acquired_conns", JNum (AcquiredConns (pv_Stats v)));
        ("idle_conns", JNum (IdleConns (pv_Stats v))); ("max_conns", JNum (MaxConns (pv_Stats v)));
        ("min_conns", JNum (pv_MinConns v))].

(** The setting of the first node of that name, zero when there is none. *)
Fixpoint min_conns (ncs : list NodeConfig) (id : string) : Z :=
  match ncs with
  | [] => 0
  | nc :: ncs => if String.eqb (nc_ID nc) id then MinConns (nc_Pool nc) else min_conns ncs id
  end.

Definition port_candidates (topo : Topology) (env : ViewEnv) (portID : string) : list NodeView :=
  if String.eqb portID "write" then option_list (Primary topo (ve_NodeOrder env) (ve_Now env))
  else if String.eqb portID "read" then Replicas topo (ve_NodeOrder env) (ve_Clock env)
  else [].

Definition pool_entries (s : AdminServer) (env : ViewEnv) (e : string * PortConfig) : list PoolView :=
  let mode := if String.eqb (pc_PoolMode e.2) "" then "session" else pc_PoolMode e.2 in
  omap (fun nv =>
    match PoolFor (admin_topo s) (nv_ID nv) with
    | inl _ => None
    | inr mgr => Some (MkPoolView e.1 (nv_ID nv) mode (ve_Stats env mgr)
                         (min_conns (Nodes_ (admin_cfg s)) (nv_ID nv)))
    end) (port_candidates (admin_topo s) env e.1).

Definition pv_le (a b : PoolView) : Prop :=
  if bool_decide (pv_Port a = pv_Port b) then String.le (pv_NodeID a) (pv_NodeID b)
  else String.le (pv_Port a) (pv_Port b).
#[export] Instance pv_le_dec : RelDecision pv_le.
Proof. intros a b. unfold pv_le. destruct (bool_decide _); apply _. Defined.

(** Sorted by port and node. *)
Definition poolViews (s : AdminServer) (env : ViewEnv) : list PoolView :=
  merge_sort pv_le (visit (Ports (Server (admin_cfg s))) (ve_PortOrder env) ≫= pool_entries s env).

Definition candidate_entry (cs : CandidateStateView) : json :=
  JObj ([("node_id", JStr (cs_NodeID cs)); ("state", JStr (State_String (cs_State cs)))]
        ++ (if IsZero (cs_EnteredStateAt cs) then [] else [("entered_state_at", JTime (cs_EnteredStateAt cs))])
        ++ (if bool_decide (cs_State cs = StateActive) && negb (String.eqb (cs_LastCondition cs) "")
            then [("last_observation_reason", JStr (cs_LastCondition cs))] else [])).

(** The parameters are marshalled in the order of their names. *)
Definition policyView (eng : Engine) (ord : list string) (inst : Instance_) : json :=
  JObj [("name", JStr (inst_Name inst)); ("template", JStr (inst_Template inst));
        ("scope", JStr (inst_Scope inst));
        ("parameters", JObj ((fun e => (e.1, JNum e.2)) <$> sort_by fst (map_to_list (inst_Parameters inst))));
        ("timing", JObj [("dwell_ms", JNum (DwellMs (inst_Timing inst)));
                         ("release_ms", JNum (ReleaseMs (inst_Timing inst)))]);
        ("candidates", JArr (candidate_entry <$>
           sort_by cs_NodeID ((visit (CandidateStates eng (inst_Name inst)) ord).*2)))].

Definition policyViews (s : AdminServer) (env : ViewEnv) : json :=
  match admin_policyEng s with
  | None => JArr []
  | Some eng => JArr ((fun inst => policyView eng (ve_CandidateOrder env (inst_Name inst)) inst)
                        <$> Instances eng)
  end.

(** ** Handlers *)

Definition handleHealthz : Response := MkResponse 200 (JObj [("status", JStr "ok")]).

(** The name of the primary, and whether more than one node claims to be it. *)
Definition primary_and_split_brain (topo : Topology) (env : ViewEnv) (nvs : list NodeView) : string * bool :=
  match Primary topo (ve_NodeOrder env) (ve_Now env) with
  | Some p => (nv_ID p, false)
  | None =>
    ("", (1 <? length (List.filter (fun nv => bool_decide (nv_ObservedRole nv = RolePrimary)) nvs))%nat)
  end.

Definition handleState (s : AdminServer) (env : ViewEnv) : Response :=
  let topo := admin_topo s in
  let nvs := Nodes topo (ve_NodeOrder env) (ve_Clock env) in
  let '(primary, splitBrain) := primary_and_split_brain topo env nvs in
  writeJSON 200 (JObj
    [("cluster", JObj [("system_identifier", JStr (ClusterID topo)); ("primary", JStr primary);
                       ("split_brain", JBool splitBrain)]);
     ("nodes", nodeViewsToJSON (ClusterID topo) (ve_Now env) nvs);
     ("pools", JArr (poolViewToJSON <$> poolViews s env));
     ("policies", policyViews s env);
     ("observed_at", JTime (ve_Now env))]).

Definition handleNodesList (s : AdminServer) (env : ViewEnv) : Response :=
  writeJSON 200 (JObj [("nodes", nodeViewsToJSON (ClusterID (admin_topo s)) (ve_Now env)
                                   (Nodes (admin_topo s) (ve_NodeOrder env) (ve_Clock env)))]).

Definition handleNodeByID (s : AdminServer) (env : ViewEnv) (r : Request) : Response :=
  let id := URLParam r "id" in
  match Node (admin_topo s) (ve_Now env) id with
  | None => writeJSONError 404 "not_found" ("node " +:+ quoted id +:+ " not found")
  | Some nv => writeJSON 200 (nodeViewToJSON (ClusterID (admin_topo s)) (ve_Now env) nv)
  end.

Definition handlePools (s : AdminServer) (env : ViewEnv) : Response :=
  writeJSON 200 (JObj [("pools", JArr (poolViewToJSON <$> poolViews s env))]).

Definition handlePolicies (s : AdminServer) (env : ViewEnv) : Response :=
  writeJSON 200 (JObj [("policies", policyViews s env)]).

(** The first instance of that name. *)
Fixpoint find_instance (name : string) (insts : list Instance_) : option Instance_ :=
  match insts with
  | [] => None
  | inst :: insts => if String.eqb (inst_Name inst) name then Some inst else find_instance name insts
  end.

Definition handlePolicyByName (s : AdminServer) (env : ViewEnv) (r : Request) : Response :=
  let name := URLParam r "name" in
  let missing := writeJSONError 404 "not_found" ("policy " +:+ quoted name +:+ " not found") in
  match admin_policyEng s with
  | None => missing
  | Some eng =>
    match find_instance name (Instances eng) with
    | Some inst => writeJSON 200 (policyView eng (ve_CandidateOrder env name) inst)
    | None => missing
    end
  end.

(** ** The configuration endpoint *)

(** The configuration through its JSON tags; an absent list or map is not told
    from an empty one.  [opaque] is the value of a policy parameter that is
    neither a number nor a fraction, by policy and name. *)
Definition port_json (p : PortConfig) : json :=
  JObj [("listen_addr", JStr (pc_ListenAddr p)); ("pool_mode", JStr (pc_PoolMode p));
        ("ssl_mode", JStr (pc_SSLMode p)); ("ssl_cert", JStr (pc_SSLCert p)); ("ssl_key", JStr (pc_SSLKey p));
        ("post_write_window_ms", JNum (pc_PostWriteWindowMs p)); ("auto_upgrade", JBool (pc_AutoUpgrade p))].

Definition map_json {V} (f : V -> json) (m : gmap string V) : json :=
  JObj ((fun e => (e.1, f e.2)) <$> sort_by fst (map_to_list m)).

Definition admin_json (a : AdminConfig) : json :=
  JObj [("listen_addr", JStr (ad_ListenAddr a)); ("tls_enabled", JBool (ad_TLSEnabled a));
        ("tls_cert_file", JStr (ad_TLSCertFile a)); ("tls_key_file", JStr (ad_TLSKeyFile a));
        ("metrics", JObj [("listen_addr", JStr (am_ListenAddr (ad_Metrics a)));
                          ("auth_required", JBool (am_AuthRequired (ad_Metrics a)));
                          ("tls_enabled", JBool (am_TLSEnabled (ad_Metrics a)))])].

Definition server_json (sc : ServerConfig) : json :=
  JObj ([("admin", admin_json (Admin sc)); ("max_sessions", JNum (MaxSessions sc));
         ("client_idle_timeout", JNum (ClientIdleTimeout sc));
         ("keep_alive_timeout", JNum (KeepAliveTimeout sc));
         ("keep_alive_interval", JNum (KeepAliveInterval sc));
         ("keep_alive_count", JNum (KeepAliveCount sc));
         ("startup_probe_timeout_seconds", JNum (StartupProbeTimeoutSeconds sc));
         ("ports", map_json port_json (Ports sc)); ("pprof_addr", JStr (PprofAddr sc));
         ("admin_tokens", JObj [("tokens", map_json (fun e => JObj [("role", JStr (te_Role e))]) (AdminTokens sc))]);
         ("decisions", JObj [("max_subscribers", JNum (dc_MaxSubscribers (Decisions_ sc)));
                             ("per_subscriber_buffer", JNum (dc_PerSubscriberBuffer (Decisions_ sc)))])]
        ++ (if String.eqb (AdminAddr sc) "" then [] else [("admin_addr", JStr (AdminAddr sc))])).

Definition node_json (n : NodeConfig) : json :=
  JObj [("id", JStr (nc_ID n)); ("host", JStr (nc_Host n)); ("port", JNum (nc_Port n));
        ("declared_role", JStr (nc_DeclaredRole n));
        ("connection", JObj [("user", JStr (User (nc_Connection n)));
                             ("password", JStr (Password (nc_Connection n)));
                             ("database", JStr (Database (nc_Connection n)));
                             ("connect_timeout_seconds", JNum (ConnectTimeoutSeconds (nc_Connection n)));
                             ("ssl_mode", JStr (SSLMode (nc_Connection n)))]);
        ("pool", JObj [("min_conns", JNum (MinConns (nc_Pool n))); ("max_conns", JNum (PoolMaxConns (nc_Pool n)));
                       ("max_conn_lifetime", JNum (MaxConnLifetime (nc_Pool n)));
                       ("max_conn_idle_time", JNum (MaxConnIdleTime (nc_Pool n)));
                       ("health_check_period", JNum (HealthCheckPeriod (nc_Pool n)));
                       ("acquire_timeout_seconds", JNum (AcquireTimeoutSeconds (nc_Pool n)))])].

Definition param_json (opaque : json) (v : ParamValue) : json :=
  match v with PFloat n d => JRatio n d | PInt n => JNum n | POther => opaque end.

Definition policy_json (opaque : string -> string -> json) (p : PolicyConfig) : json :=
  JObj [("name", JStr (po_Name p)); ("template", JStr (po_Template p)); ("scope", JStr (po_Scope p));
        ("parameters", JObj ((fun e => (e.1, param_json (opaque (po_Name p) e.1) e.2))
                               <$> sort_by fst (map_to_list (po_Parameters p))));
        ("timing", JObj [("dwell_ms", JNum (po_DwellMs p)); ("release_ms", JNum (po_ReleaseMs p))])].

Definition config_json (opaque : string -> string -> json) (c : Config) : json :=
  JObj [("server", server_json (Server c)); ("nodes", JArr (node_json <$> Nodes_ c));
        ("probe", JObj [("interval_ms", JNum (IntervalMs (ProbeConfig_ c)));
                        ("liveness_failure_count", JNum (LivenessFailureCount (ProbeConfig_ c)));
                        ("liveness_max_age_ms", JNum (LivenessMaxAgeMs (ProbeConfig_ c)));
                        ("role_max_age_ms", JNum (RoleMaxAgeMs (ProbeConfig_ c)));
                        ("lag_max_age_ms", JNum (LagMaxAgeMs (ProbeConfig_ c)))]);
        ("logging", JObj [("level", JStr (lg_Level (Logging c))); ("development", JBool (lg_Development (Logging c)))]);
        ("telemetry", JObj [("otlp_endpoint", JStr (ot_Endpoint (Telemetry c)));
                            ("insecure", JBool (ot_Insecure (Telemetry c)));
                            ("service_name", JStr (ot_ServiceName (Telemetry c)))]);
        ("auth", JObj [("method", JStr (au_Method (Config.Auth c))); ("username", JStr (au_Username (Config.Auth c)));
                       ("password", JStr (au_Password (Config.Auth c)))]);
        ("policies", JArr (policy_json opaque <$> Policies c))].

Definition handleConfig (opaque : string -> string -> json) (s : AdminServer) : Response :=
  writeJSON 200 (redactConfig (tokenHashes s) (reread (config_json opaque (admin_cfg s)))).

(** ** The event stream *)

(** A response writer: the server's own one can be flushed, the recorder that
    the metrics middleware wraps around it only forwards the three methods of
    [http.ResponseWriter]. *)
Inductive Writer := ServerWriter | StatusRecorder (inner : Writer).
Definition is_flusher (w : Writer) : bool := match w with ServerWriter => true | StatusRecorder _ => false end.

(** What a request leads to: a response, or an open stream on a subscription. *)
Inductive Reply := Responded (r : Response) | Streaming (id : Z).
Definition reply_status (r : Reply) : Z := match r with Responded r => rs_Status r | Streaming _ => 200 end.

Definition set_bus (b : Bus) (s : AdminServer) : AdminServer :=
  MkAdminServer (admin_topo s) (admin_cfg s) (admin_tls s) (tokenHashes s) (Some b) (admin_policyEng s).

Definition handleDecisionsSSE (w : Writer) (s : AdminServer) : Reply * AdminServer :=
  match admin_bus s with
  | None => (Responded (writeJSONError 503 "unavailable" "decisions bus not configured"), s)
  | Some b =>
    if negb (is_flusher w) then
      (Responded (writeJSONError 500 "internal_error" "response writer does not support flushing"), s)
    else
      match Subscribe b with
      | (None, b) =>
        (Responded (MkResponse 503 (JObj [("error", JStr "max_subscribers");
           ("limit", JNum (dc_MaxSubscribers (Decisions_ (Server (admin_cfg s)))))])), set_bus b s)
      | (Some id, b) => (Streaming id, set_bus b s)
      end
  end.

(** The frames of a stream; an event is its id and its marshalled body. *)
Inductive Frame :=
| KeepAlive
| DecisionFrame (id : string) (e : Event)
| TransitionFrame (id : string) (e : TransitionEvent)
| DroppedFrame (count : Z) (since : Time).

Definition event_frame (e : BusEvent) : Frame :=
  match e with
  | BusDecision ev => DecisionFrame (ev_EventID ev) ev
  | BusTransition ev => TransitionFrame (te_EventID ev) ev
  end.

(** One message of the subscription; [None]: there is none.  The drops since
    the last message are reported after the event. *)
Definition sse_message (since : Bus -> Time) (id : Z) (b : Bus) : option (list Frame * Bus) :=
  match Recv id b with
  | (None, _) => None
  | (Some e, b) =>
    let '(d, b) := DrainDropped id b in
    Some (event_frame e :: (if 0 <? d then [DroppedFrame d (since b)] else []), b)
  end.

(** The loop of the stream, and its end with the request or the bus. *)
Definition sse_feed (since : Bus -> Time) (id : Z) := feed (sse_message since id) [KeepAlive] id.
Definition sse_end (id : Z) (b : Bus) : Bus := Unsub id b.

(** ** Routes *)

Inductive HandlerName :=
| HHealthz | HMetrics | HState | HNodesList | HNodeByID | HPools | HConfig | HPolicies | HPolicyByName
| HDecisionsSSE.

Record Route := MkRoute { rt_Pattern : string; rt_Auth : bool; rt_Handler : HandlerName }.

Definition admin_routes (authRequired : bool) : list Route :=
  [MkRoute "/healthz" false HHealthz]
  ++ (if authRequired then [] else [MkRoute "/metrics" false HMetrics])
  ++ (if authRequired then [MkRoute "/metrics" true HMetrics] else [])
  ++ [MkRoute "/state" true HState; MkRoute "/nodes" true HNodesList; MkRoute "/nodes/{id}" true HNodeByID;
      MkRoute "/pools" true HPools; MkRoute "/config" true HConfig; MkRoute "/policies" true HPolicies;
      MkRoute "/policies/{name}" true HPolicyByName; MkRoute "/decisions" true HDecisionsSSE].

Definition metrics_routes (authRequired : bool) : list Route :=
  [MkRoute "/metrics" authRequired HMetrics; MkRoute "/healthz" authRequired HHealthz].

Definition metricsTLSEnabled (s : AdminServer) : bool :=
  let ac := Admin (Server (admin_cfg s)) in
  let mc := ad_Metrics ac in
  if am_TLSEnabled mc then true
  else ad_TLSEnabled ac && negb (String.eqb (am_ListenAddr mc) "").

(** The listeners that [Run] starts: address, TLS, the middleware that records
    requests, routes. *)
Record Listener := MkListener { ln_Addr : string; ln_TLS : bool; ln_Recorded : bool; ln_Routes : list Route }.

Definition admin_Run (s : AdminServer) : error + list Listener :=
  let ac := Admin (Server (admin_cfg s)) in
  let mc := ad_Metrics ac in
  let main := MkListener (ad_ListenAddr ac) (admin_tls s) true (admin_routes (am_AuthRequired mc)) in
  if String.eqb (am_ListenAddr mc) "" then inr [main]
  else if String.eqb (am_ListenAddr mc) (ad_ListenAddr ac) then
    inl (OtherError ("server.admin.metrics.listen_addr " +:+ quoted (ad_ListenAddr ac)
                     +:+ " must differ from server.admin.listen_addr") None)
  else inr [main; MkListener (am_ListenAddr mc) (metricsTLSEnabled s) false
                    (metrics_routes (am_AuthRequired mc))].

(** [Close]: the errors of the two shutdowns, asked for once. *)
Definition admin_Close (closed : bool) (errs : list (string * option error)) : option error * bool :=
  if closed then (None, true)
  else
    let texts := omap (fun e => (fun err => e.1 +:+ ": " +:+ Error err) <$> e.2) errs in
    (match texts with [] => None | _ => Some (OtherError ("admin shutdown: " +:+ Join texts "; ") None) end,
     true).

(** ** Middleware *)

Section serving.
Context (opaque : string -> string -> json).

Definition run_handler (h : HandlerName) (w : Writer) (env : ViewEnv) (r : Request) (s : AdminServer)
  : Reply * AdminServer :=
  match h with
  | HHealthz => (Responded handleHealthz, s)
  | HMetrics => (Responded (MkResponse (ve_Metrics env).1 (ve_Metrics env).2), s)
  | HState => (Responded (handleState s env), s)
  | HNodesList => (Responded (handleNodesList s env), s)
  | HNodeByID => (Responded (handleNodeByID s env r), s)
  | HPools => (Responded (handlePools s env), s)
  | HConfig => (Responded (handleConfig opaque s), s)
  | HPolicies => (Responded (handlePolicies s env), s)
  | HPolicyByName => (Responded (handlePolicyByName s env r), s)
  | HDecisionsSSE => handleDecisionsSSE w s
  end.

Definition authMiddleware (next : AdminServer -> Reply * AdminServer) (r : Request) (s : AdminServer)
  : Reply * AdminServer :=
  let token := extractBearerToken (rq_Authorization r) in
  if String.eqb token "" then
    (Responded (writeJSONError 401 "unauthorized" "missing authorization header"), s)
  else
    match tokenHashes s !! token_hash token with
    | None => (Responded (writeJSONError 401 "unauthorized" "invalid token"), s)
    | Some role =>
      if negb (String.eqb role "admin") then
        (Responded (writeJSONError 403 "forbidden" "insufficient permissions"), s)
      else next s
    end.

Definition serve_route (rt : Route) (w : Writer) (env : ViewEnv) (r : Request) (s : AdminServer)
  : Reply * AdminServer :=
  let next := run_handler (rt_Handler rt) w env r in
  if rt_Auth rt then authMiddleware next r s else next s.

(** [requestMetricsMiddleware]: the request is served on a recorder and counted
    under its route, method and status.  [chosen] is the router's choice, or
    the status of its own answer when no route fits. *)
Definition count_request (chosen : Z + Route) (r : Request) (reply : Reply)
    (requestsTotal : gmap (string * string * Z) Z) : gmap (string * string * Z) Z :=
  let routePath := match chosen with
                   | inl _ => "(unmatched)"
                   | inr rt => if String.eqb (rt_Pattern rt) "" then "(unmatched)" else rt_Pattern rt
                   end in
  let key := (routePath, rq_Method r, reply_status reply) in
  <[key := default 0 (requestsTotal !! key) + 1]> requestsTotal.

Definition admin_request (chosen : Z + Route) (env : ViewEnv) (r : Request) (s : AdminServer)
    (requestsTotal : gmap (string * string * Z) Z)
  : Reply * AdminServer * gmap (string * string * Z) Z :=
  let '(reply, s') :=
    match chosen with
    | inl status => (Responded (MkResponse status JNull), s)
    | inr rt => serve_route rt (StatusRecorder ServerWriter) env r s
    end in
  (reply, s', count_request chosen r reply requestsTotal).

End serving.

(** ** Lemmas on tokens *)

Lemma add_tokens_other (acc : gmap string string) (l : list (string * AdminTokenEntry)) (t : string) :
  (forall e, e ∈ l -> e.1 <> "" -> token_hash e.1 <> token_hash t) ->
  foldl add_token acc l !! token_hash t = acc !! token_hash t.
Proof.
  revert acc. induction l as [|e l IH]; intros acc H; [done|]. cbn. rewrite IH by set_solver.
  unfold add_token. destruct (String.eqb_spec e.1 ""); [done|].
  apply lookup_insert_ne, H; set_solver.
Qed.

(** No other configured token has the digest of [t]. *)
Definition collision_free (tokens : gmap string AdminTokenEntry) (t : string) : Prop :=
  forall t', is_Some (tokens !! t') -> token_hash t' = token_hash t -> t' = t.

Lemma hash_tokens_lookup (tokens : gmap string AdminTokenEntry) (ord : list string) (t : string) :
  map_order tokens ord -> collision_free tokens t -> t <> "" ->
  hash_tokens tokens ord !! token_hash t = te_Role <$> tokens !! t.
Proof.
  intros Hord Hcf Hne. unfold hash_tokens.
  assert (Hin : forall e, e ∈ visit tokens ord -> token_hash e.1 = token_hash t -> e.1 = t).
  { intros [t' e] He%visit_elem; [|done]. cbn. apply Hcf. eauto. }
  destruct (tokens !! t) as [e|] eqn:Et.
  - assert (Hv : (t, e) ∈ visit tokens ord) by (by apply visit_elem).
    apply list_elem_of_split in Hv as (l1 & l2 & Hl).
    assert (Hnd : NoDup (visit tokens ord).*1).
    { rewrite visit_keys by done. by eapply map_order_NoDup. }
    rewrite Hl in Hin, Hnd |- *. rewrite foldl_app. cbn. rewrite add_tokens_other.
    + unfold add_token. cbn. destruct (String.eqb_spec t ""); [done|]. by rewrite lookup_insert_eq.
    + intros e' He' _ Hh. rewrite fmap_app, fmap_cons in Hnd. apply NoDup_app in Hnd as (_ & _ & Hnd).
      apply NoDup_cons in Hnd as [Hni _]. apply Hni.
      assert (Heq : e'.1 = t) by (apply Hin; [set_solver|done]).
      change ((t, e).1) with t. rewrite <- Heq. by apply list_elem_of_fmap_2.
  - rewrite add_tokens_other; [done|]. intros e He _ Hh.
    pose proof (Hin e He Hh) as Heq. destruct e as [t' e]. cbn in Heq. subst t'.
    apply visit_elem in He; [|done]. congruence.
Qed.

(** ** Lemmas on views *)

Lemma Primary_order (t : Topology) (ord ord' : list NodeID) (now : Time) :
  map_order (nodes t) ord -> map_order (nodes t) ord' -> Primary t ord now = Primary t ord' now.
Proof.
  intros H1 H2. unfold Primary. f_equal. apply option_eq. intros [id ns].
  rewrite (primary_loop_visit t ord), (primary_loop_visit t ord') by done. done.
Qed.

Lemma Nodes_perm (t : Topology) (ord ord' : list NodeID) (clock : NodeID -> Time) :
  map_order (nodes t) ord -> map_order (nodes t) ord' -> Nodes t ord clock ≡ₚ Nodes t ord' clock.
Proof. intros H1 H2. unfold Nodes. by rewrite (visit_perm_order _ ord ord'). Qed.

Lemma Nodes_ids (t : Topology) (ord : list NodeID) (clock : NodeID -> Time) :
  map_order (nodes t) ord -> nv_ID <$> Nodes t ord clock = ord.
Proof.
  intros H. unfold Nodes. rewrite <- list_fmap_compose. etrans; [|by apply (visit_keys (nodes t))].
  apply list_fmap_ext. by intros i [id ns] _.
Qed.

Lemma Replicas_perm (t : Topology) (ord ord' : list NodeID) (clock : NodeID -> Time) :
  map_order (nodes t) ord -> map_order (nodes t) ord' -> Replicas t ord clock ≡ₚ Replicas t ord' clock.
Proof. intros H1 H2. unfold Replicas. by rewrite (visit_perm_order _ ord ord'). Qed.

Lemma filter_length_perm {A} (f : A -> bool) (l l' : list A) :
  l ≡ₚ l' -> length (List.filter f l) = length (List.filter f l').
Proof.
  induction 1 as [|x l l' _ IH|x y l|l1 l2 l3 _ IH1 _ IH2]; cbn; [done|..].
  - destruct (f x); cbn; by rewrite IH.
  - by destruct (f x), (f y).
  - by rewrite IH1.
Qed.

(** The two environments of a request see the same, in any order of the maps. *)
Record same_view (s : AdminServer) (env env' : ViewEnv) : Prop := {
  sv_ports : map_order (Ports (Server (admin_cfg s))) (ve_PortOrder env);
  sv_ports' : map_order (Ports (Server (admin_cfg s))) (ve_PortOrder env');
  sv_nodes : map_order (nodes (admin_topo s)) (ve_NodeOrder env);
  sv_nodes' : map_order (nodes (admin_topo s)) (ve_NodeOrder env');
  sv_cands eng name : admin_policyEng s = Some eng ->
    map_order (CandidateStates eng name) (ve_CandidateOrder env name);
  sv_cands' eng name : admin_policyEng s = Some eng ->
    map_order (CandidateStates eng name) (ve_CandidateOrder env' name);
  sv_clock : ve_Clock env = ve_Clock env';
  sv_now : ve_Now env = ve_Now env';
  sv_stats : ve_Stats env = ve_Stats env'
}.

Lemma nodeViewsToJSON_order (cluster : SystemID) (now : Time) (t : Topology) (ord ord' : list NodeID)
    (clock : NodeID -> Time) :
  map_order (nodes t) ord -> map_order (nodes t) ord' ->
  nodeViewsToJSON cluster now (Nodes t ord clock) = nodeViewsToJSON cluster now (Nodes t ord' clock).
Proof.
  intros H1 H2. unfold nodeViewsToJSON. do 2 f_equal. apply sort_by_unique; [by apply Nodes_perm|].
  rewrite Nodes_ids by done. by eapply map_order_NoDup.
Qed.

Lemma policyView_order (eng : Engine) (ord ord' : list string) (inst : Instance_) :
  map_order (CandidateStates eng (inst_Name inst)) ord ->
  map_order (CandidateStates eng (inst_Name inst)) ord' ->
  policyView eng ord inst = policyView eng ord' inst.
Proof.
  intros H1 H2. unfold policyView. do 2 f_equal.
  assert (Heq : sort_by cs_NodeID (visit (CandidateStates eng (inst_Name inst)) ord).*2
              = sort_by cs_NodeID (visit (CandidateStates eng (inst_Name inst)) ord').*2);
    [|by rewrite Heq].
  apply sort_by_unique; [by rewrite (visit_perm_order _ ord ord')|].
  assert (Hk : cs_NodeID <$> (visit (CandidateStates eng (inst_Name inst)) ord).*2 = ord).
  { rewrite <- list_fmap_compose. etrans; [|by apply (visit_keys (CandidateStates eng (inst_Name inst)))].
    apply list_fmap_ext. intros i [id cs] Hi. apply list_elem_of_lookup_2, visit_elem in Hi; [|done].
    unfold CandidateStates in Hi. destruct (states eng !! inst_Name inst) as [pm|]; [|by rewrite lookup_empty in Hi].
    rewrite map_lookup_imap in Hi. cbn. destruct (pm !! id) as [p|]; [|done]. by injection Hi as <-. }
  rewrite Hk. by eapply map_order_NoDup.
Qed.

Lemma pv_le_iff (a b : PoolView) :
  pv_le a b <-> pv_Port a = pv_Port b /\ String.le (pv_NodeID a) (pv_NodeID b) \/
                pv_Port a <> pv_Port b /\ String.le (pv_Port a) (pv_Port b).
Proof. unfold pv_le. case_bool_decide; tauto. Qed.

#[local] Instance pv_le_total : Total pv_le.
Proof.
  intros a b. rewrite !pv_le_iff. pose proof (total String.le (pv_NodeID a) (pv_NodeID b)).
  pose proof (total String.le (pv_Port a) (pv_Port b)).
  destruct (decide (pv_Port a = pv_Port b)); naive_solver.
Qed.

#[local] Instance pv_le_trans : Transitive pv_le.
Proof.
  intros a b c. rewrite !pv_le_iff. intros [[E1 H1]|[E1 H1]] [[E2 H2]|[E2 H2]].
  - left. split; [congruence|by etrans].
  - right. by rewrite E1.
  - right. by rewrite <- E2.
  - destruct (decide (pv_Port a = pv_Port c)) as [E3|E3].
    + exfalso. apply E1, (anti_symm String.le); [done|]. by rewrite E3.
    + right. split; [done|by etrans].
Qed.

(** What an entry is, given its port and its node. *)
Lemma pool_entry_spec (s : AdminServer) (env : ViewEnv) (ord : list string) (v : PoolView) :
  map_order (Ports (Server (admin_cfg s))) ord ->
  v ∈ visit (Ports (Server (admin_cfg s))) ord ≫= pool_entries s env ->
  exists pc mgr, Ports (Server (admin_cfg s)) !! pv_Port v = Some pc /\
    PoolFor (admin_topo s) (pv_NodeID v) = inr mgr /\
    v = MkPoolView (pv_Port v) (pv_NodeID v) (if String.eqb (pc_PoolMode pc) "" then "session" else pc_PoolMode pc)
          (ve_Stats env mgr) (min_conns (Nodes_ (admin_cfg s)) (pv_NodeID v)).
Proof.
  intros Hord ([port pc] & Hv & Hp)%list_elem_of_bind.
  apply visit_elem in Hp; [|done]. unfold pool_entries in Hv.
  apply list_elem_of_omap in Hv as (nv & _ & Hnv). destruct (PoolFor _ _) as [|mgr] eqn:Em; [done|].
  injection Hnv as <-. by exists pc, mgr.
Qed.

Lemma pool_entries_perm (s : AdminServer) (env env' : ViewEnv) (e : string * PortConfig) :
  same_view s env env' -> pool_entries s env e ≡ₚ pool_entries s env' e.
Proof.
  intros Hsv. unfold pool_entries. rewrite (sv_stats _ _ _ Hsv).
  assert (Hc : port_candidates (admin_topo s) env e.1 ≡ₚ port_candidates (admin_topo s) env' e.1);
    [|by rewrite Hc].
  unfold port_candidates. rewrite (sv_clock _ _ _ Hsv), (sv_now _ _ _ Hsv).
  destruct (String.eqb _ _); [|destruct (String.eqb _ _); [|done]].
  - rewrite (Primary_order _ (ve_NodeOrder env) (ve_NodeOrder env')); [done|apply Hsv..].
  - apply Replicas_perm; apply Hsv.
Qed.

Lemma poolViews_order (s : AdminServer) (env env' : ViewEnv) :
  same_view s env env' -> poolViews s env = poolViews s env'.
Proof.
  intros Hsv. unfold poolViews. set (ports := Ports (Server (admin_cfg s))).
  assert (Hp : visit ports (ve_PortOrder env) ≫= pool_entries s env
             ≡ₚ visit ports (ve_PortOrder env') ≫= pool_entries s env').
  { rewrite (visit_perm_order ports (ve_PortOrder env) (ve_PortOrder env')) by apply Hsv.
    generalize (visit ports (ve_PortOrder env')). intros l. induction l as [|e l IH]; [done|].
    cbn. by rewrite IH, (pool_entries_perm s env env' e Hsv). }
  apply (StronglySorted_unique_strong pv_le).
  - intros x y Hx Hy Hxy Hyx. rewrite merge_sort_Permutation in Hx, Hy. rewrite <- Hp in Hy.
    destruct (pool_entry_spec s env _ x (sv_ports _ _ _ Hsv) Hx) as (pc & mgr & H1 & H2 & Ex).
    destruct (pool_entry_spec s env _ y (sv_ports _ _ _ Hsv) Hy) as (pc' & mgr' & H1' & H2' & Ey).
    assert (Hport : pv_Port x = pv_Port y /\ pv_NodeID x = pv_NodeID y).
    { apply pv_le_iff in Hxy, Hyx.
      destruct Hxy as [[E Hxy]|[E Hxy]], Hyx as [[E' Hyx]|[E' Hyx]]; try congruence.
      - split; [done|]. by apply (anti_symm String.le).
      - exfalso. apply E. by apply (anti_symm String.le). }
    destruct Hport as [Ep En]. rewrite Ep in H1. rewrite En in H2. 
    assert (pc' = pc) as -> by congruence. assert (mgr' = mgr) as -> by congruence.
    rewrite Ex, Ey. by rewrite Ep, En.
  - apply StronglySorted_merge_sort; apply _.
  - apply StronglySorted_merge_sort; apply _.
  - by rewrite !merge_sort_Permutation.
Qed.

End admin.

(** ** Lemmas on the configuration *)

Definition mask (s : string) : string := if String.eqb s "" then "" else "***".

Definition scrub_node (n : NodeConfig) : NodeConfig :=
  let c := nc_Connection n in
  MkNodeConfig (nc_ID n) (nc_Host n) (nc_Port n) (nc_DeclaredRole n)
    (MkNodeConnectionConfig (User c) (mask (Password c)) (Database c) (ConnectTimeoutSeconds c) (SSLMode c))
    (nc_Pool n).

(** A configuration without its secrets: passwords masked, tokens removed. *)
Definition scrub (c : Config) : Config :=
  MkConfig ((Server c) <| AdminTokens := ∅ |>) (scrub_node <$> Nodes_ c) (ProbeConfig_ c) (Logging c)
    (Telemetry c)
    (MkAuthConfig (au_Method (Config.Auth c)) (au_Username (Config.Auth c)) (mask (au_Password (Config.Auth c))))
    (Policies c).

Lemma hides_mask (s : string) : hides_field ("password", JStr s) ("password", JStr (mask s)).
Proof.
  unfold mask. destruct (String.eqb_spec s ""); [subst; apply hides_same|by apply hides_password].
Qed.

(** Fields other than the two special ones. *)
Lemma hides_plain (k : string) (v v' : json) :
  String.eqb k "password" || String.eqb k "admin_tokens" = false -> hides v v' -> hides_field (k, v) (k, v').
Proof.
  intros [H1 H2]%orb_false_iff. apply String.eqb_neq in H1, H2. by apply hides_other.
Qed.

Lemma hides_node (n : NodeConfig) : hides (reread (node_json n)) (reread (node_json (scrub_node n))).
Proof.
  apply hides_obj. cbn [map]. repeat (apply Forall2_cons_2; [apply hides_same|]).
  apply Forall2_cons_2; [|apply Forall2_cons_2; [apply hides_same|apply Forall2_nil_2]].
  apply hides_plain; [done|]. apply hides_obj. cbn [map fst snd reread].
  apply Forall2_cons_2; [apply hides_same|]. apply Forall2_cons_2; [apply hides_mask|].
  repeat (apply Forall2_cons_2; [apply hides_same|]). apply Forall2_nil_2.
Qed.

Lemma hides_server (sc : ServerConfig) :
  hides (reread (server_json sc)) (reread (server_json (sc <| AdminTokens := ∅ |>))).
Proof.
  unfold server_json. cbn [reread]. rewrite !map_app. apply hides_obj. apply Forall2_app.
  - cbn [map]. do 9 (apply Forall2_cons_2; [apply hides_same|]).
    apply Forall2_cons_2; [by apply hides_tokens|].
    apply Forall2_cons_2; [apply hides_same|apply Forall2_nil_2].
  - change (AdminAddr (sc <| AdminTokens := ∅ |>)) with (AdminAddr sc).
    destruct (String.eqb _ _); [apply Forall2_nil_2|].
    apply Forall2_cons_2; [apply hides_same|apply Forall2_nil_2].
Qed.

Lemma hides_config (opaque : string -> string -> json) (c : Config) :
  hides (reread (config_json opaque c)) (reread (config_json opaque (scrub c))).
Proof.
  apply hides_obj. cbn [map fst snd].
  apply Forall2_cons_2; [by apply hides_plain, hides_server|].
  apply Forall2_cons_2.
  { apply hides_plain; [done|]. apply hides_arr. cbn [scrub Nodes_].
    induction (Nodes_ c) as [|n ns IH]; [apply Forall2_nil_2|].
    apply Forall2_cons_2; [apply hides_node|exact IH]. }
  do 3 (apply Forall2_cons_2; [apply hides_same|]).
  apply Forall2_cons_2; [|apply Forall2_cons_2; [apply hides_same|apply Forall2_nil_2]].
  apply hides_plain; [done|]. apply hides_obj. cbn [map fst snd reread].
  do 2 (apply Forall2_cons_2; [apply hides_same|]).
  apply Forall2_cons_2; [apply hides_mask|apply Forall2_nil_2].
Qed.

(** ** Lemmas on the stream *)

Definition frame_events (f : Frame) : list BusEvent :=
  match f with
  | DecisionFrame _ e => [BusDecision e]
  | TransitionFrame _ e => [BusTransition e]
  | _ => []
  end.
Definition frame_drops (f : Frame) : Z := match f with DroppedFrame d _ => d | _ => 0 end.

Lemma sse_honest (since : Bus -> Time) (id : Z) :
  honest (sse_message since id) id frame_events frame_drops.
Proof.
  intros n b fr b1 Hl. unfold sse_message. destruct (Recv id b) as [[e|] b'] eqn:Er; [|done].
  destruct (DrainDropped id b') as [d b''] eqn:Ed. intros [= <- <-].
  destruct (live_sub_take id n b e b' d b'' Hl Er Ed) as [Hd Hl']. split; [done|].
  exists [OpRecv id; OpDrain id]. split; [|done].
  assert (He : frame_events (event_frame e) = [e] /\ frame_drops (event_frame e) = 0) by (by destruct e).
  destruct He as [He1 He2]. pose proof (sub_run_take id b e b' d b'' Er Ed) as Hrun.
  unfold shown_all, counted_all. destruct (Z.ltb_spec 0 d) as [Hd'|Hd']; cbn; rewrite He1, He2; cbn.
  - by rewrite Z.add_0_r.
  - by replace d with 0 in Hrun by lia.
Qed.

(** ** Properties *)

(** Who may use the protected routes: the bearer of a configured token with the
    role admin. *)
Definition is_admin (cfg : Config) (r : Request) : Prop :=
  let t := extractBearerToken (rq_Authorization r) in
  t <> "" /\ exists e, AdminTokens (Server cfg) !! t = Some e /\ te_Role e = "admin".

Definition public (cfg : Config) (rt : Route) : Prop :=
  rt_Handler rt = HHealthz \/ rt_Handler rt = HMetrics /\ am_AuthRequired (ad_Metrics (Admin (Server cfg))) = false.

(** C10: The admin API is closed to everyone but admins: on every listener, a
    route that is not the health check (or the metrics, when those are
    configured as public) runs its handler for the bearer of a configured
    admin token, and answers 401 or 403 with a fixed body, changing nothing,
    to any other request. *)
Theorem admin_routes_protected (sha256 : string -> string) (opaque : string -> string -> json)
    (topo : Topology) (cfg : Config) (ord : list string) (load_cert : option error) (bus : option Bus)
    (eng : option Engine) (s : AdminServer) (ls : list Listener) (ln : Listener) (rt : Route)
    (w : Writer) (env : ViewEnv) (r : Request) :
  map_order (AdminTokens (Server cfg)) ord ->
  collision_free sha256 (AdminTokens (Server cfg)) (extractBearerToken (rq_Authorization r)) ->
  admin_New sha256 topo cfg ord load_cert bus eng = inr s ->
  admin_Run s = inr ls -> ln ∈ ls -> rt ∈ ln_Routes ln -> ~ public cfg rt ->
  (is_admin cfg r ->
     serve_route sha256 opaque rt w env r s = run_handler opaque (rt_Handler rt) w env r s) /\
  (~ is_admin cfg r -> exists status code message,
     (status = 401 \/ status = 403) /\
     serve_route sha256 opaque rt w env r s = (Responded (writeJSONError status code message), s)).
Proof.
  intros Hord Hcf Hnew Hrun Hln Hrt Hpub.
  assert (Hs : tokenHashes s = hash_tokens sha256 (AdminTokens (Server cfg)) ord /\ admin_cfg s = cfg).
  { unfold admin_New in Hnew. destruct (if ad_TLSEnabled _ then _ else _); [done|]. by injection Hnew as <-. }
  destruct Hs as [Hh Hc].
  assert (Hauth : rt_Auth rt = true).
  { rewrite <- Hc in Hpub. unfold public in Hpub. unfold admin_Run in Hrun.
    destruct (am_AuthRequired _) eqn:Ea; destruct (String.eqb (am_ListenAddr _) ""); try (destruct (String.eqb _ _));
      simplify_eq; cbn in *; set_unfold in Hln; destruct_or?; subst; cbn in Hrt; set_unfold in Hrt;
      destruct_or?; subst; cbn in *; tauto. }
  unfold serve_route. rewrite Hauth. unfold authMiddleware, is_admin.
  set (t := extractBearerToken (rq_Authorization r)) in *.
  destruct (String.eqb_spec t "") as [E|E].
  - split; [by intros [? _]|]. intros _. do 3 eexists. split; [|done]. by left.
  - rewrite Hh, hash_tokens_lookup by done.
    destruct (AdminTokens (Server cfg) !! t) as [e|] eqn:Et; cbn.
    + destruct (String.eqb_spec (te_Role e) "admin") as [Er|Er]; cbn.
      * split; [done|]. intros Hn. exfalso. apply Hn. eauto.
      * split; [by intros (_ & e' & [= <-] & ?)|]. intros _. do 3 eexists. split; [|done]. by right.
    + split; [by intros (_ & e' & ? & _)|]. intros _. do 3 eexists. split; [|done]. by left.
Qed.

Definition demo_admin_cfg (role : string) : Config :=
  defaultConfig <| Server ::= fun sc => sc <| AdminTokens := {["t0k3n" := MkAdminTokenEntry role]} |> |>.
Definition demo_admin (role : string) : AdminServer :=
  MkAdminServer NewEmpty (demo_admin_cfg role) false {[hex_EncodeToString "t0k3n" := role]} (Some (NewBus 4 4)) None.
Definition demo_env : ViewEnv :=
  MkViewEnv ["write"] [] (fun _ => []) (fun _ => 0) 0 (fun _ => MkPoolStats 0 0 0 0) (200, JNull).

Lemma admin_routes_protected_witness :
  serve_route (fun s => s) (fun _ _ => JNull) (MkRoute "/pools" true HPools) ServerWriter demo_env
    (MkRequest "GET" "bearer  t0k3n" ∅) (demo_admin "admin")
  = (Responded (MkResponse 200 (JObj [("pools", JArr [])])), demo_admin "admin").
Proof.
  refine (eq_trans (proj1 (admin_routes_protected (fun s => s) (fun _ _ => JNull) NewEmpty
    (demo_admin_cfg "admin") ["t0k3n"] None (Some (NewBus 4 4)) None (demo_admin "admin")
    [MkListener "127.0.0.1:5712" false true (admin_routes false)]
    (MkListener "127.0.0.1:5712" false true (admin_routes false))
    (MkRoute "/pools" true HPools) ServerWriter demo_env (MkRequest "GET" "bearer  t0k3n" ∅)
    _ _ _ _ _ _ _) _) _).
  - vm_compute. reflexivity.
  - intros t' [e He] _. vm_compute in He. destruct (decide (t' = "t0k3n")) as [->|Hne]; [reflexivity|].
    exfalso. change (({["t0k3n" := MkAdminTokenEntry "admin"]} : gmap string AdminTokenEntry) !! t' = Some e) in He.
    rewrite lookup_singleton_ne in He by congruence. discriminate.
  - vm_compute. reflexivity.
  - vm_compute. reflexivity.
  - apply list_elem_of_here.
  - cbn. do 5 apply list_elem_of_further. apply list_elem_of_here.
  - intros [H|[H _]]; discriminate.
  - split; [vm_compute; discriminate|]. exists (MkAdminTokenEntry "admin"). vm_compute. split; reflexivity.
  - vm_compute. reflexivity.
Defined.

(** C11: The configuration endpoint gives no secret away: its answer is the same
    for any two configurations that differ only in their non-empty passwords
    and their tokens, when as many tokens are in use; no password and no token,
    and nothing derived from one, is in it. *)
Theorem config_hides_secrets (opaque : string -> string -> json) (s s' : AdminServer) :
  scrub (admin_cfg s) = scrub (admin_cfg s') -> size (tokenHashes s) = size (tokenHashes s') ->
  handleConfig opaque s = handleConfig opaque s'.
Proof.
  intros Hc Hn. unfold handleConfig, redactConfig. rewrite Hn. f_equal.
  rewrite (walkRedact_hides _ _ _ (hides_config opaque (admin_cfg s))), Hc.
  symmetry. apply walkRedact_hides, hides_config.
Qed.

Definition with_password (p : string) : Config :=
  defaultConfig <| Config.Auth := MkAuthConfig "md5" "postgres" p |>.

Lemma config_hides_secrets_witness :
  handleConfig (fun _ _ => JNull) (MkAdminServer NewEmpty (with_password "secret") false ∅ None None)
  = handleConfig (fun _ _ => JNull) (MkAdminServer NewEmpty (with_password "other") false ∅ None None).
Proof.
  apply (config_hides_secrets (fun _ _ => JNull)
           (MkAdminServer NewEmpty (with_password "secret") false ∅ None None)
           (MkAdminServer NewEmpty (with_password "other") false ∅ None None));
    [vm_compute; reflexivity|reflexivity].
Defined.

(** The state endpoint describes the state, not the accident of a map's
    iteration order: two requests that observe the same state at the same time
    get the same answer, whatever orders the ports, the nodes and the
    candidates of the policies are visited in. *)
Theorem state_view_deterministic (s : AdminServer) (env env' : ViewEnv) :
  same_view s env env' -> handleState s env = handleState s env'.
Proof.
  intros Hsv. unfold handleState, primary_and_split_brain.
  rewrite (sv_clock _ _ _ Hsv), (sv_now _ _ _ Hsv), (poolViews_order s env env' Hsv).
  rewrite (Primary_order _ (ve_NodeOrder env) (ve_NodeOrder env')) by apply Hsv.
  rewrite (nodeViewsToJSON_order _ _ _ (ve_NodeOrder env) (ve_NodeOrder env')) by apply Hsv.
  rewrite (filter_length_perm _ _ _ (Nodes_perm _ _ _ (ve_Clock env') (sv_nodes _ _ _ Hsv) (sv_nodes' _ _ _ Hsv))).
  assert (Hp : policyViews s env = policyViews s env'); [|by rewrite Hp].
  unfold policyViews. destruct (admin_policyEng s) as [eng|] eqn:He; [|done]. f_equal.
  apply list_fmap_ext. intros i inst _. apply policyView_order; by apply Hsv.
Qed.

Definition two_ports : Config :=
  defaultConfig <| Server ::= fun sc => sc <| Ports ::= <["read" := MkPortConfig ":5713" "" "" "" "" 0 false]> |> |>.
Definition demo_state_server : AdminServer :=
  MkAdminServer demo_topology two_ports false ∅ None (Some demo_engine).
Definition demo_state_env (ports ids : list string) : ViewEnv :=
  MkViewEnv ports ids (fun name => default_order (CandidateStates demo_engine name)) (fun _ => 0) 0
    (fun _ => MkPoolStats 1 0 1 5) (200, JNull).

Lemma state_view_deterministic_witness :
  handleState demo_state_server (demo_state_env ["read"; "write"] ["a"; "b"])
  = handleState demo_state_server (demo_state_env ["write"; "read"] ["b"; "a"]).
Proof.
  apply (state_view_deterministic demo_state_server). split.
  - vm_compute. apply Permutation_refl || apply perm_swap.
  - vm_compute. apply Permutation_refl || apply perm_swap.
  - vm_compute. apply Permutation_refl || apply perm_swap.
  - vm_compute. apply Permutation_refl || apply perm_swap.
  - intros eng name [= <-]. apply default_order_ok.
  - intros eng name [= <-]. apply default_order_ok.
  - reflexivity.
  - reflexivity.
  - reflexivity.
Defined.

(** An event stream loses nothing silently: the decisions and transitions
    in its frames, followed by those still buffered, are the earlier buffered
    ones followed by a subsequence, in order, of the events published while it
    was open, and the counts of its dropped frames, with the drops still to be
    reported, are the events missing from that subsequence. *)
Theorem stream_accounts_for_all (since : Bus -> Time) (id : Z) (b b' : Bus) (ops : list bus_op) (q : sub)
    (frames : list Frame) :
  live_sub id (length (delivered ops)) b -> store b !! id = Some q ->
  sse_feed since id b ops b' frames ->
  exists q' kept lost, store b' !! id = Some q' /\
    shown_all frame_events frames ++ ch q' = ch q ++ kept /\ kept `sublist_of` delivered ops /\
    (length (delivered ops) = length kept + lost)%nat /\
    wrap64 (counted_all frame_drops frames + drops q') = wrap64 (drops q + Z.of_nat lost).
Proof.
  intros Hl Hq Hrun.
  destruct (feed_conserves (sse_message since id) [KeepAlive] id frame_events frame_drops b ops b' frames q)
    as (q' & Hq' & kept & lost & H); try done; [apply sse_honest|].
  by exists q', kept, lost.
Qed.

Definition open_bus : Bus := demo_state [] 0 0.

Lemma stream_accounts_for_all_witness :
  exists q' kept lost, store (demo_state [] 0 1) !! 0 = Some q' /\
    [demo_event] ++ ch q' = [] ++ kept /\ kept `sublist_of` [demo_event; demo_event] /\
    (2 = length kept + lost)%nat /\ wrap64 (1 + drops q') = wrap64 (0 + Z.of_nat lost).
Proof.
  apply (stream_accounts_for_all (fun _ => 7) 0 open_bus _
           [OpDeliver [0] demo_event; OpDeliver [0] demo_event] (MkSub [] false 0)
           [event_frame demo_event; DroppedFrame 1 7; KeepAlive]).
  - split; [|split; [|split]].
    + apply (bus_steps_inv 2 1 [OpSubscribe]); [lia|lia|].
      eapply (steps_cons _ _ _ open_bus); [by apply (step_subscribe (NewBus 2 1))|apply steps_nil].
    + by vm_compute.
    + set_solver.
    + eexists. split; [by vm_compute|]. by vm_compute.
  - by vm_compute.
  - eapply (feed_other _ _ _ _ _ (demo_state [demo_event] 0 0)); [by apply step_deliver; vm_compute|done|].
    eapply (feed_other _ _ _ _ _ (demo_state [demo_event] 1 1)); [by apply step_deliver; vm_compute|done|].
    apply (feed_message (sse_message (fun _ => 7) 0) [KeepAlive] 0 _ [event_frame demo_event; DroppedFrame 1 7]
             (demo_state [] 0 1) [] _ [KeepAlive]); [by vm_compute|].
    apply (feed_tick _ [KeepAlive] _ _ _ _ []), feed_idle.
Defined.

(** ** Where the program does something else *)

(** Served through the API's own middleware, the event stream always answers
    500: the recorder around the response writer cannot be flushed. *)
Theorem event_stream_never_opens (sha256 : string -> string) (opaque : string -> string -> json)
    (env : ViewEnv) (r : Request) (s : AdminServer) (b : Bus) (counts : gmap (string * string * Z) Z) :
  admin_bus s = Some b ->
  tokenHashes s !! token_hash sha256 (extractBearerToken (rq_Authorization r)) = Some "admin" ->
  extractBearerToken (rq_Authorization r) <> "" ->
  (admin_request sha256 opaque (inr (MkRoute "/decisions" true HDecisionsSSE)) env r s counts).1 =
  (Responded (writeJSONError 500 "internal_error" "response writer does not support flushing"), s).
Proof.
  intros Hb Ht Hne. unfold admin_request, serve_route, authMiddleware. cbn.
  destruct (String.eqb_spec (extractBearerToken (rq_Authorization r)) ""); [done|].
  rewrite Ht. cbn. unfold handleDecisionsSSE. by rewrite Hb.
Qed.

(** A token without a role passes validation and then never gets in. *)
Theorem token_without_role_is_useless :
  validate_token ("t0k3n", MkAdminTokenEntry "") = [] /\
  serve_route (fun s => s) (fun _ _ => JNull) (MkRoute "/pools" true HPools) ServerWriter demo_env
    (MkRequest "GET" "Bearer t0k3n" ∅) (demo_admin "")
  = (Responded (writeJSONError 403 "forbidden" "insufficient permissions"), demo_admin "").
Proof. split; vm_compute; reflexivity. Qed.
