(* ===== verification/Metrics.v ===== *)
(** * Metrics: what the Prometheus collectors export (internal/admin/admin.go)

    The collectors of topology, routing, policies and the decisions bus.  A
    metric with the wrong number of labels panics, and two metrics with the
    same description and labels make a scrape fail; neither happens.  Counts
    are integers, as far as a [float64] has them exactly. *)

From stdpp Require Import base gmap strings list sorting.
From Stdlib Require Import ZArith Lia Ascii.
From S2P Require Import Prelude GoStrings GoEncoding Types Topology Decisions Policy Routing Json Admin.

Local Open Scope string_scope.
Local Open Scope Z_scope.
Local Open Scope list_scope.

(** ** Descriptions *)

Inductive Desc :=
| buildInfoDesc | nodesTotalDesc | nodesByRoleDesc | nodesByLiveDesc | nodeLiveDesc | nodeRoleDesc
| nodeDisagDesc | nodeLagDesc | nodeObsAgeDesc
| decTotalDesc | decEligSetSizeDesc | decDurDesc | policyStateDesc | subsGaugeDesc | subsPublishedDesc
| transitionsPublishedDesc | subsDroppedDesc.
#[export] Instance Desc_eq_dec : EqDecision Desc.
Proof. solve_decision. Defined.

Definition desc_labels (d : Desc) : list string :=
  match d with
  | buildInfoDesc => ["version"; "commit"; "go_version"]
  | nodesTotalDesc => []
  | nodesByRoleDesc => ["role"]
  | nodesByLiveDesc => ["liveness"]
  | nodeLiveDesc => ["node_id"]
  | nodeRoleDesc => ["node_id"; "role"]
  | nodeDisagDesc => ["node_id"]
  | nodeLagDesc => ["node_id"]
  | nodeObsAgeDesc => ["node_id"; "property"]
  | decTotalDesc => ["port"; "outcome"; "reason"]
  | decEligSetSizeDesc => ["port"]
  | decDurDesc => ["port"]
  | policyStateDesc => ["policy"; "scope"; "node_id"; "state"]
  | subsGaugeDesc => []
  | subsPublishedDesc => []
  | transitionsPublishedDesc => []
  | subsDroppedDesc => ["reason"]
  end.

Definition topology_Describe : list Desc :=
  [buildInfoDesc; nodesTotalDesc; nodesByRoleDesc; nodesByLiveDesc; nodeLiveDesc; nodeRoleDesc;
   nodeDisagDesc; nodeLagDesc; nodeObsAgeDesc].
Definition decision_Describe : list Desc :=
  [decTotalDesc; decEligSetSizeDesc; decDurDesc; policyStateDesc; subsGaugeDesc; subsPublishedDesc;
   transitionsPublishedDesc; subsDroppedDesc].

(** ** Metrics *)

(** [VSeconds d] is a duration in seconds; [VHistogram] a count, a sum and
    cumulative counts by bucket bound. *)
Inductive Value :=
| VInt (n : Z) | VHalf | VNaN | VSeconds (d : Duration)
| VHistogram (count : Z) (sum : Duration) (buckets : gmap Z Z).

Record Metric := MkMetric { m_Desc : Desc; m_Value : Value; m_Labels : list string }.

Definition series (m : Metric) : Desc * list string := (m_Desc m, m_Labels m).

(** [MustNewConstMetric] and [MustNewConstHistogram]: [None] is the panic. *)
Definition MustNewConstMetric (m : Metric) : option Metric :=
  if (length (m_Labels m) =? length (desc_labels (m_Desc m)))%nat then Some m else None.

(** ** The topology collector *)

(** [debug.ReadBuildInfo]: version, settings and Go version. *)
Record BuildInfo := MkBuildInfo { bi_Version : string; bi_Settings : list (string * string); bi_GoVersion : string }.

(** The last setting of that key. *)
Definition vcs_revision (settings : list (string * string)) : string :=
  foldl (fun commit kv => if String.eqb kv.1 "vcs.revision" then kv.2 else commit) "unknown" settings.

Definition build_metrics (bi : option BuildInfo) : list Metric :=
  match bi with
  | None => []
  | Some bi =>
    let version := if String.eqb (bi_Version bi) "" || String.eqb (bi_Version bi) "(devel)" then "unknown"
                   else bi_Version bi in
    [MkMetric buildInfoDesc (VInt 1) [version; vcs_revision (bi_Settings bi); bi_GoVersion bi]]
  end.

Definition liveness_value (l : Liveness) : Value :=
  match l with
  | LivenessUp => VInt 1 | LivenessDegraded => VHalf | LivenessDown => VInt 0 | LivenessUnknown => VNaN
  end.

Definition node_metrics (now : Time) (nv : NodeView) : list Metric :=
  [MkMetric nodeLiveDesc (liveness_value (nv_Liveness nv)) [nv_ID nv];
   MkMetric nodeRoleDesc (VInt 1) [nv_ID nv; Role_String (nv_ObservedRole nv)];
   MkMetric nodeDisagDesc (VInt (if role_disagreement nv then 1 else 0)) [nv_ID nv]]
  ++ match nv_ReplicationLagMs nv with
     | Some ms => [MkMetric nodeLagDesc (VInt ms) [nv_ID nv]]
     | None => []
     end
  ++ (if IsZero (nv_LastProbeAt nv) then []
      else [MkMetric nodeObsAgeDesc (VSeconds (Sub now (nv_LastProbeAt nv))) [nv_ID nv; "liveness"]])
  ++ (if IsZero (nv_LastLagSampleAt nv) then []
      else [MkMetric nodeObsAgeDesc (VSeconds (Sub now (nv_LastLagSampleAt nv))) [nv_ID nv; "lag"]]).

Definition count_in (k : string) (m : gmap string Z) : gmap string Z := <[k := default 0 (m !! k) + 1]> m.

Definition role_counts (nvs : list NodeView) : gmap string Z :=
  foldl (fun m nv => count_in (Role_String (nv_ObservedRole nv)) m)
    {["primary" := 0; "replica" := 0; "unknown" := 0]} nvs.
Definition liveness_counts (nvs : list NodeView) : gmap string Z :=
  foldl (fun m nv => count_in (Liveness_String (nv_Liveness nv)) m)
    {["up" := 0; "degraded" := 0; "down" := 0; "unknown" := 0]} nvs.

Definition count_metrics (d : Desc) (counts : gmap string Z) (ord : list string) : list Metric :=
  (fun e => MkMetric d (VInt e.2) [e.1]) <$> visit counts ord.

(** [roleOrd] and [liveOrd] are the orders in which the two maps are visited. *)
Definition topology_Collect (bi : option BuildInfo) (nvs : list NodeView) (now : Time)
    (roleOrd liveOrd : list string) : option (list Metric) :=
  mapM MustNewConstMetric
    (build_metrics bi
     ++ [MkMetric nodesTotalDesc (VInt (Z.of_nat (length nvs))) []]
     ++ (nvs ≫= node_metrics now)
     ++ count_metrics nodesByRoleDesc (role_counts nvs) roleOrd
     ++ count_metrics nodesByLiveDesc (liveness_counts nvs) liveOrd).

(** ** The decision collector *)

(** [strings.SplitN] at a one-byte separator: the text before the first
    separator and the rest, then again, [n] parts at most. *)
Fixpoint cut (sep : ascii) (s : string) : option (string * string) :=
  match s with
  | EmptyString => None
  | String c s' =>
    if Ascii.eqb c sep then Some ("", s')
    else match cut sep s' with Some (a, r) => Some (String c a, r) | None => None end
  end.

Fixpoint SplitN (sep : ascii) (n : nat) (s : string) : list string :=
  match n with
  | O => []
  | S O => [s]
  | S n' => match cut sep s with Some (a, r) => a :: SplitN sep n' r | None => [s] end
  end.

(** The functions that main.go hands over with [SetRoutingMetrics], by the
    pipeline they read; [None] before the call. *)
Record RoutingMetrics := MkRoutingMetrics { rm_Pipeline : option Pipeline }.
Definition SetRoutingMetrics (p : Pipeline) : RoutingMetrics := MkRoutingMetrics (Some p).

Definition decision_metric (e : string * Z) : option Metric :=
  match SplitN ":" 3 e.1 with
  | [port; outcome; reason] => Some (MkMetric decTotalDesc (VInt e.2) [port; outcome; reason])
  | _ => None
  end.

(** [counts[port]] is zero for a port without an entry. *)
Definition duration_metric (sums counts : gmap string Z) (e : string * gmap Z Z) : option Metric :=
  let count := default 0 (counts !! e.1) in
  if uwrap64 count =? 0 then None
  else Some (MkMetric decDurDesc (VHistogram (uwrap64 count) (default 0 (sums !! e.1)) e.2) [e.1]).

Definition policy_metrics (eng : Engine) (ord : string -> list string) (inst : Instance_) : list Metric :=
  (fun e => MkMetric policyStateDesc (VInt 1)
              [inst_Name inst; inst_Scope inst; e.1; State_String (cs_State e.2)])
    <$> visit (CandidateStates eng (inst_Name inst)) (ord (inst_Name inst)).

Definition bus_metrics (rm : RoutingMetrics) (b : Bus) : list Metric :=
  [MkMetric subsGaugeDesc (VInt (Z.of_nat (SubscriberCount b))) []]
  ++ match rm_Pipeline rm with Some p => [MkMetric subsPublishedDesc (VInt (PublishedTotal p)) []] | None => [] end
  ++ [MkMetric subsDroppedDesc (VInt (DroppedOTelOverflow b)) ["otel_overflow"];
      MkMetric subsDroppedDesc (VInt (DroppedSubOverflow b)) ["subscriber_overflow"]].

(** The orders in which the maps are visited. *)
Record CollectEnv := MkCollectEnv {
  ce_Counters : list string; ce_Histograms : list string; ce_Candidates : string -> list string
}.

Definition routing_metrics (env : CollectEnv) (p : Pipeline) : list Metric :=
  omap decision_metric (visit (decisionCounters p) (ce_Counters env))
  ++ [MkMetric decEligSetSizeDesc (VInt (EligibleSetRead p)) ["read"];
      MkMetric decEligSetSizeDesc (VInt (EligibleSetWrite p)) ["write"]]
  ++ omap (duration_metric (DecisionDurationSumSnapshot p) (DecisionDurationCountSnapshot p))
       (visit (DecisionDurationHistogramSnapshot p) (ce_Histograms env)).

Definition decision_Collect (env : CollectEnv) (rm : RoutingMetrics) (bus : option Bus) (eng : option Engine)
  : option (list Metric) :=
  mapM MustNewConstMetric
    (match rm_Pipeline rm with Some p => routing_metrics env p | None => [] end
     ++ match eng with Some e => Instances e ≫= policy_metrics e (ce_Candidates env) | None => [] end
     ++ match bus with Some b => bus_metrics rm b | None => [] end
     ++ match eng with
        | Some e => [MkMetric transitionsPublishedDesc (VInt (TransitionsPublished e)) []]
        | None => []
        end).

(** ** Lemmas *)

Lemma cut_spec (sep : ascii) (s a r : string) :
  cut sep s = Some (a, r) -> s = a +:+ String sep r.
Proof.
  revert a. induction s as [|c s IH]; intros a; cbn; [done|].
  destruct (Ascii.eqb_spec c sep) as [->|]; [by intros [= <- <-]|].
  destruct (cut sep s) as [[a' r']|] eqn:E; [|done]. intros [= <- <-].
  rewrite append_cons. f_equal. by apply IH.
Qed.

Lemma cut_app (sep : ascii) (a r : string) :
  contains_byte sep a = false -> cut sep (a +:+ String sep r) = Some (a, r).
Proof.
  induction a as [|c a IH].
  - intros _. rewrite append_nil_l. cbn. by rewrite Ascii.eqb_refl.
  - cbn [contains_byte]. intros [H1 H2]%orb_false_iff. rewrite append_cons. cbn. by rewrite H1, IH.
Qed.

Lemma decision_metric_spec (e : string * Z) (m : Metric) :
  decision_metric e = Some m ->
  exists a b c, e.1 = a +:+ String ":" (b +:+ String ":" c) /\ m = MkMetric decTotalDesc (VInt e.2) [a; b; c].
Proof.
  unfold decision_metric. cbn [SplitN].
  destruct (cut ":" e.1) as [[a r]|] eqn:E1; [|done]. apply cut_spec in E1.
  destruct (cut ":" r) as [[b c]|] eqn:E2; [|done]. apply cut_spec in E2.
  intros [= <-]. exists a, b, c. by rewrite E1, E2.
Qed.

Definition arity_ok (m : Metric) : Prop := length (m_Labels m) = length (desc_labels (m_Desc m)).

Lemma must_all (ms : list Metric) : Forall arity_ok ms -> mapM MustNewConstMetric ms = Some ms.
Proof.
  induction 1 as [|m ms Hm _ IH]; [done|]. cbn.
  assert (MustNewConstMetric m = Some m) as ->.
  { unfold MustNewConstMetric. by rewrite Hm, Nat.eqb_refl. }
  cbn. by rewrite IH.
Qed.

(** Metrics without a panic and without a duplicate, under descriptions [ds]. *)
Definition block (ds : list Desc) (ms : list Metric) : Prop :=
  NoDup (series <$> ms) /\ Forall (fun m => arity_ok m /\ m_Desc m ∈ ds) ms.

Lemma block_nil (ds : list Desc) : block ds [].
Proof. split; constructor. Qed.

(** Blocks under different descriptions do not collide. *)
Lemma metric_block_app (ds ds' : list Desc) (ms ms' : list Metric) :
  block ds ms -> block ds' ms' -> (forall d, d ∈ ds -> d ∉ ds') -> block (ds ++ ds') (ms ++ ms').
Proof.
  intros [H1 F1] [H2 F2] Hdis. rewrite Forall_forall in F1, F2. split.
  - rewrite fmap_app. apply NoDup_app. split; [done|]. split; [|done].
    intros x (m & -> & Hm)%list_elem_of_fmap (m' & Heq & Hm')%list_elem_of_fmap.
    injection Heq as Hd _. apply (Hdis (m_Desc m)); [by apply F1|]. rewrite Hd. by apply F2.
  - apply Forall_app. rewrite !Forall_forall. set_solver.
Qed.

Lemma block_one (m : Metric) : arity_ok m -> block [m_Desc m] [m].
Proof. intros H. split; [apply NoDup_singleton|]. apply Forall_singleton. split; [done|set_solver]. Qed.

Lemma block_weaken (ds ds' : list Desc) (ms : list Metric) : block ds ms -> ds ⊆ ds' -> block ds' ms.
Proof. intros [H F] Hs. split; [done|]. eapply Forall_impl; [exact F|]. intros m [? ?]. auto. Qed.

Lemma block_collect (ds : list Desc) (ms : list Metric) :
  block ds ms ->
  mapM MustNewConstMetric ms = Some ms /\ NoDup (series <$> ms) /\ (forall m, m ∈ ms -> m_Desc m ∈ ds).
Proof.
  intros [H F]. split; [|split; [done|]].
  - apply must_all. eapply Forall_impl; [exact F|]. by intros m [? _].
  - rewrite Forall_forall in F. intros m Hm. by apply F.
Qed.

Lemma series_NoDup_fmap {A} (f : A -> Metric) (l : list A) :
  NoDup l -> (forall x y, x ∈ l -> y ∈ l -> series (f x) = series (f y) -> x = y) ->
  NoDup (series <$> (f <$> l)).
Proof.
  induction 1 as [|x l Hx Hnd IH]; intros Hinj; [constructor|]. rewrite !fmap_cons. constructor.
  - rewrite <- list_fmap_compose. intros (y & Hy & Hin)%list_elem_of_fmap. apply Hx.
    rewrite (Hinj x y); [done|set_solver..|done].
  - apply IH. intros y z Hy Hz. apply Hinj; set_solver.
Qed.

Lemma visit_NoDup {V} (m : gmap string V) (ord : list string) : map_order m ord -> NoDup (visit m ord).
Proof. intros H. apply (NoDup_fmap_1 fst). rewrite visit_keys by done. by eapply map_order_NoDup. Qed.

Lemma visit_key_inj {V} (m : gmap string V) (ord : list string) (x y : string * V) :
  map_order m ord -> x ∈ visit m ord -> y ∈ visit m ord -> x.1 = y.1 -> x = y.
Proof.
  intros H Hx Hy Hk. destruct x as [k v], y as [k' v']. cbn in Hk. subst k'.
  apply visit_elem in Hx, Hy; [congruence|done..].
Qed.

Lemma count_metrics_series (d : Desc) (counts : gmap string Z) (ord : list string) :
  map_order counts ord -> NoDup (series <$> count_metrics d counts ord).
Proof.
  intros H. apply series_NoDup_fmap; [by apply visit_NoDup|].
  intros x y Hx Hy [= Hk]. by eapply visit_key_inj.
Qed.

Lemma series_NoDup_omap {A} (f : A -> option Metric) (l : list A) :
  NoDup l -> (forall x y m m', x ∈ l -> y ∈ l -> f x = Some m -> f y = Some m' -> series m = series m' -> x = y) ->
  NoDup (series <$> omap f l).
Proof.
  induction 1 as [|x l Hx Hnd IH]; intros Hinj; [constructor|]. cbn.
  assert (IH' : NoDup (series <$> omap f l)).
  { apply IH. intros y z m m' Hy Hz. apply Hinj; set_solver. }
  destruct (f x) as [m|] eqn:Ef; [|done]. rewrite fmap_cons. constructor; [|done].
  intros (m' & Hs & (y & Hy & Hfy)%list_elem_of_omap)%list_elem_of_fmap. apply Hx.
  rewrite (Hinj x y m m'); [done|set_solver..|done|done|done].
Qed.

(** Metrics of a node carry its name. *)
Lemma node_metrics_spec (now : Time) (nv : NodeView) (m : Metric) :
  m ∈ node_metrics now nv ->
  head (m_Labels m) = Some (nv_ID nv) /\ arity_ok m /\
  m_Desc m ∈ [nodeLiveDesc; nodeRoleDesc; nodeDisagDesc; nodeLagDesc; nodeObsAgeDesc].
Proof.
  unfold node_metrics. intros Hm.
  destruct (nv_ReplicationLagMs nv), (IsZero (nv_LastProbeAt nv)), (IsZero (nv_LastLagSampleAt nv));
    cbn [app] in Hm; set_unfold in Hm; destruct_or?; subst; cbn; (split; [done|]); (split; [done|]); set_solver.
Qed.

Lemma node_metrics_series (now : Time) (nv : NodeView) : NoDup (series <$> node_metrics now nv).
Proof.
  unfold node_metrics. destruct (nv_ReplicationLagMs nv), (IsZero _), (IsZero _); cbn;
    repeat (constructor; [set_unfold; intros ?; destruct_or?; simplify_eq; done|]); constructor.
Qed.

Lemma nodes_metrics_series (now : Time) (nvs : list NodeView) :
  NoDup (nv_ID <$> nvs) -> NoDup (series <$> (nvs ≫= node_metrics now)).
Proof.
  induction nvs as [|nv nvs IH]; [constructor|]. rewrite fmap_cons. intros [Hn Hnd]%NoDup_cons.
  rewrite bind_cons, fmap_app. apply NoDup_app. split; [apply node_metrics_series|]. split; [|by apply IH].
  intros x (m & -> & Hm)%list_elem_of_fmap (m' & Heq & Hm')%list_elem_of_fmap.
  apply list_elem_of_bind in Hm' as (nv' & Hm' & Hin).
  apply node_metrics_spec in Hm as [Hm _], Hm' as [Hm' _]. injection Heq as _ Hl. rewrite Hl, Hm' in Hm.
  injection Hm as Hid. apply Hn. rewrite <- Hid. by apply list_elem_of_fmap_2.
Qed.

Lemma nodes_block (now : Time) (nvs : list NodeView) :
  NoDup (nv_ID <$> nvs) ->
  block [nodeLiveDesc; nodeRoleDesc; nodeDisagDesc; nodeLagDesc; nodeObsAgeDesc] (nvs ≫= node_metrics now).
Proof.
  intros H. split; [by apply nodes_metrics_series|]. apply Forall_forall.
  intros m (nv & Hm & _)%list_elem_of_bind. by apply node_metrics_spec in Hm as (_ & ? & ?).
Qed.

(** Counting by a key: the count of a key that is listed from the start. *)
Lemma count_in_foldl {A} (key : A -> string) (l : list A) (m : gmap string Z) (k : string) :
  foldl (fun m x => count_in (key x) m) m l !! k =
  match m !! k with
  | Some n => Some (n + Z.of_nat (length (List.filter (fun x => String.eqb (key x) k) l)))
  | None => if (0 <? length (List.filter (fun x => String.eqb (key x) k) l))%nat
            then Some (Z.of_nat (length (List.filter (fun x => String.eqb (key x) k) l))) else None
  end.
Proof.
  revert m. induction l as [|x l IH]; intros m; cbn.
  { destruct (m !! k); [f_equal; lia|done]. }
  rewrite IH. unfold count_in. destruct (String.eqb_spec (key x) k) as [<-|Hne].
  - rewrite lookup_insert_eq. cbn [length]. destruct (m !! key x); cbn; f_equal; lia.
  - by rewrite lookup_insert_ne.
Qed.

Definition role_count (r : Role) (nvs : list NodeView) : Z :=
  Z.of_nat (length (List.filter (fun nv => bool_decide (nv_ObservedRole nv = r)) nvs)).
Definition liveness_count (l : Liveness) (nvs : list NodeView) : Z :=
  Z.of_nat (length (List.filter (fun nv => bool_decide (nv_Liveness nv = l)) nvs)).

Lemma filter_ext_bool {A} (f g : A -> bool) (l : list A) :
  (forall x, f x = g x) -> List.filter f l = List.filter g l.
Proof. intros H. induction l as [|x l IH]; [done|]. cbn. by rewrite H, IH. Qed.

Lemma role_counts_exact (nvs : list NodeView) (r : Role) :
  role_counts nvs !! Role_String r = Some (role_count r nvs).
Proof.
  unfold role_counts, role_count. rewrite (count_in_foldl (fun nv => Role_String (nv_ObservedRole nv))).
  rewrite (filter_ext_bool _ (fun nv => bool_decide (nv_ObservedRole nv = r))); [by destruct r|].
  intros nv. by destruct (nv_ObservedRole nv), r.
Qed.

Lemma liveness_counts_exact (nvs : list NodeView) (l : Liveness) :
  liveness_counts nvs !! Liveness_String l = Some (liveness_count l nvs).
Proof.
  unfold liveness_counts, liveness_count. rewrite (count_in_foldl (fun nv => Liveness_String (nv_Liveness nv))).
  rewrite (filter_ext_bool _ (fun nv => bool_decide (nv_Liveness nv = l))); [by destruct l|].
  intros nv. by destruct (nv_Liveness nv), l.
Qed.

Lemma count_metrics_elem (d : Desc) (counts : gmap string Z) (ord : list string) (k : string) (n : Z) :
  map_order counts ord -> counts !! k = Some n -> MkMetric d (VInt n) [k] ∈ count_metrics d counts ord.
Proof.
  intros H Hk. apply list_elem_of_fmap. exists (k, n). split; [done|]. by apply visit_elem.
Qed.

Lemma count_block (d : Desc) (counts : gmap string Z) (ord : list string) :
  length (desc_labels d) = 1%nat -> map_order counts ord -> block [d] (count_metrics d counts ord).
Proof.
  intros Hd H. split; [by apply count_metrics_series|]. apply Forall_forall.
  intros m (e & -> & _)%list_elem_of_fmap. split; [done|set_solver].
Qed.

Lemma build_block (bi : option BuildInfo) : block [buildInfoDesc] (build_metrics bi).
Proof. destruct bi; [by apply block_one|apply block_nil]. Qed.

(** ** Properties *)

(** A scrape of the topology metrics succeeds: no metric has the wrong
    number of labels (which would panic), every metric has a description that
    the collector announced, and no series occurs twice; and the gauges by role
    and by liveness count the nodes exactly, zeros included. *)
Theorem topology_scrape_succeeds (bi : option BuildInfo) (nvs : list NodeView) (now : Time)
    (roleOrd liveOrd : list string) :
  NoDup (nv_ID <$> nvs) -> map_order (role_counts nvs) roleOrd -> map_order (liveness_counts nvs) liveOrd ->
  exists ms, topology_Collect bi nvs now roleOrd liveOrd = Some ms /\
    NoDup (series <$> ms) /\ (forall m, m ∈ ms -> m_Desc m ∈ topology_Describe) /\
    (forall r, MkMetric nodesByRoleDesc (VInt (role_count r nvs)) [Role_String r] ∈ ms) /\
    (forall l, MkMetric nodesByLiveDesc (VInt (liveness_count l nvs)) [Liveness_String l] ∈ ms).
Proof.
  intros Hnd Hr Hl.
  assert (Hb : block topology_Describe
    (build_metrics bi ++ [MkMetric nodesTotalDesc (VInt (Z.of_nat (length nvs))) []]
     ++ (nvs ≫= node_metrics now) ++ count_metrics nodesByRoleDesc (role_counts nvs) roleOrd
     ++ count_metrics nodesByLiveDesc (liveness_counts nvs) liveOrd)).
  { eapply block_weaken.
    - apply metric_block_app; [apply build_block| |shelve].
      apply metric_block_app; [by apply block_one| |shelve].
      apply metric_block_app; [by apply nodes_block| |shelve].
      apply metric_block_app; [by apply count_block|by apply count_block|shelve].
    - unfold topology_Describe. set_solver.
    Unshelve. all: set_solver. }
  destruct (block_collect _ _ Hb) as (H1 & H2 & H3). eexists. split; [exact H1|]. split; [done|]. split; [done|].
  split; intros x; rewrite !elem_of_app; [do 3 right; left|do 4 right]; apply count_metrics_elem; try done.
  - apply role_counts_exact.
  - apply liveness_counts_exact.
Qed.

Definition demo_nodes : list NodeView := Nodes demo_topology ["a"; "b"] (fun _ => 7).

Lemma topology_scrape_succeeds_witness :
  exists ms, topology_Collect None demo_nodes 9 (default_order (role_counts demo_nodes))
               (default_order (liveness_counts demo_nodes)) = Some ms /\
    NoDup (series <$> ms) /\ (forall m, m ∈ ms -> m_Desc m ∈ topology_Describe) /\
    (forall r, MkMetric nodesByRoleDesc (VInt (role_count r demo_nodes)) [Role_String r] ∈ ms) /\
    (forall l, MkMetric nodesByLiveDesc (VInt (liveness_count l demo_nodes)) [Liveness_String l] ∈ ms).
Proof.
  apply topology_scrape_succeeds; [|apply default_order_ok|apply default_order_ok].
  change (NoDup ["a"; "b"]). apply NoDup_cons. split; [|apply NoDup_singleton].
  intros H%list_elem_of_singleton. discriminate H.
Defined.

(** ** The decision collector *)

Lemma counters_block (counters : gmap string Z) (ord : list string) :
  map_order counters ord -> block [decTotalDesc] (omap decision_metric (visit counters ord)).
Proof.
  intros H. split.
  - apply series_NoDup_omap; [by apply visit_NoDup|]. intros x y m m' Hx Hy Hm Hm' Hs.
    apply decision_metric_spec in Hm as (a & b & c & Hk & ->), Hm' as (a' & b' & c' & Hk' & ->).
    injection Hs as -> -> ->. apply (visit_key_inj counters ord); try done. by rewrite Hk, Hk'.
  - apply Forall_forall. intros m (e & _ & Hm)%list_elem_of_omap.
    apply decision_metric_spec in Hm as (a & b & c & _ & ->). split; [done|set_solver].
Qed.

Lemma durations_block (sums counts : gmap string Z) (hists : gmap string (gmap Z Z)) (ord : list string) :
  map_order hists ord -> block [decDurDesc] (omap (duration_metric sums counts) (visit hists ord)).
Proof.
  intros H.
  assert (Hm : forall e m, duration_metric sums counts e = Some m -> m_Desc m = decDurDesc /\ m_Labels m = [e.1]).
  { intros e m. unfold duration_metric. destruct (_ =? 0); [done|]. by intros [= <-]. }
  split.
  - apply series_NoDup_omap; [by apply visit_NoDup|]. intros x y m m' Hx Hy [E1 E2]%Hm [E1' E2']%Hm Hs.
    unfold series in Hs. rewrite E1, E2, E1', E2' in Hs. injection Hs as Hk. by eapply visit_key_inj.
  - apply Forall_forall. intros m (e & _ & [E1 E2]%Hm)%list_elem_of_omap.
    unfold arity_ok. rewrite E1, E2. split; [done|set_solver].
Qed.

Lemma routing_block (env : CollectEnv) (p : Pipeline) :
  map_order (decisionCounters p) (ce_Counters env) ->
  map_order (DecisionDurationHistogramSnapshot p) (ce_Histograms env) ->
  block [decTotalDesc; decEligSetSizeDesc; decDurDesc] (routing_metrics env p).
Proof.
  intros H1 H2. unfold routing_metrics.
  apply (metric_block_app [decTotalDesc] [decEligSetSizeDesc; decDurDesc]); [by apply counters_block| |set_solver].
  apply (metric_block_app [decEligSetSizeDesc] [decDurDesc]); [|by apply durations_block|set_solver].
  split; [|apply Forall_forall; intros m Hm; set_unfold in Hm; destruct_or?; subst; (split; [done|set_solver])].
  cbn. apply NoDup_cons. split; [|apply NoDup_singleton]. intros H%list_elem_of_singleton. discriminate H.
Qed.

Lemma Instances_names (e : Engine) : engine_wf e -> NoDup (inst_Name <$> Instances e).
Proof.
  intros [_ Hn]. unfold Instances. rewrite merge_sort_Permutation, <- list_fmap_compose.
  assert (Heq : (inst_Name ∘ snd) <$> map_to_list (instances e) = (map_to_list (instances e)).*1).
  { apply list_fmap_ext. intros i [k inst] Hi. apply list_elem_of_lookup_2, elem_of_map_to_list in Hi.
    by apply Hn in Hi. }
  rewrite Heq. apply NoDup_fst_map_to_list.
Qed.

Lemma policies_block (e : Engine) (ord : string -> list string) :
  engine_wf e -> (forall name, map_order (CandidateStates e name) (ord name)) ->
  block [policyStateDesc] (Instances e ≫= policy_metrics e ord).
Proof.
  intros He Hord. split.
  - pose proof (Instances_names e He) as Hnd. induction (Instances e) as [|inst insts IH]; [constructor|].
    rewrite fmap_cons in Hnd. apply NoDup_cons in Hnd as [Hni Hnd].
    rewrite bind_cons, fmap_app. apply NoDup_app. split; [|split; [|by apply IH]].
    + apply series_NoDup_fmap; [by apply visit_NoDup|]. intros x y Hx Hy [= Hk _].
      by eapply visit_key_inj.
    + intros s (m & -> & (x & -> & _)%list_elem_of_fmap)%list_elem_of_fmap
        (m' & Heq & (inst' & (y & -> & _)%list_elem_of_fmap & Hin)%list_elem_of_bind)%list_elem_of_fmap.
      injection Heq as Hname _ _ _. apply Hni. rewrite Hname. by apply list_elem_of_fmap_2.
  - apply Forall_forall. intros m (inst & (x & -> & _)%list_elem_of_fmap & _)%list_elem_of_bind.
    split; [done|set_solver].
Qed.

Lemma bus_block (rm : RoutingMetrics) (b : Bus) :
  block [subsGaugeDesc; subsPublishedDesc; subsDroppedDesc] (bus_metrics rm b).
Proof.
  unfold bus_metrics.
  apply (metric_block_app [subsGaugeDesc] [subsPublishedDesc; subsDroppedDesc]); [by apply block_one| |set_solver].
  apply (metric_block_app [subsPublishedDesc] [subsDroppedDesc]); [| |set_solver].
  - destruct (rm_Pipeline rm); [by apply block_one|apply block_nil].
  - split; [|apply Forall_forall; intros m Hm; set_unfold in Hm; destruct_or?; subst; (split; [done|set_solver])].
    cbn. apply NoDup_cons. split; [|apply NoDup_singleton]. intros H%list_elem_of_singleton. discriminate H.
Qed.

(** A key of the decision counters splits into what it was made of. *)
Lemma counter_key_split (ev : Event) (n : Z) :
  contains_byte ":" (out_Kind (ev_Outcome ev)) = false ->
  decision_metric (counter_key ev, n) =
  Some (MkMetric decTotalDesc (VInt n)
          [if isValidPort (ev_Port ev) then ev_Port ev else "invalid"; out_Kind (ev_Outcome ev);
           out_Reason (ev_Outcome ev)]).
Proof.
  intros Hk. unfold decision_metric, counter_key. cbn [fst snd].
  set (port := if isValidPort (ev_Port ev) then ev_Port ev else "invalid").
  assert (Hp : contains_byte ":" port = false).
  { unfold port. destruct (isValidPort (ev_Port ev)) eqn:E; [|done]. unfold isValidPort in E.
    destruct (String.eqb_spec (ev_Port ev) "write") as [->|]; [done|].
    destruct (String.eqb_spec (ev_Port ev) "read") as [->|]; [done|].
    by destruct (String.eqb_spec (ev_Port ev) "compat") as [->|]. }
  change (port +:+ ":" +:+ out_Kind (ev_Outcome ev) +:+ ":" +:+ out_Reason (ev_Outcome ev))
    with (port +:+ String ":" (out_Kind (ev_Outcome ev) +:+ String ":" (out_Reason (ev_Outcome ev)))).
  cbn [SplitN]. by rewrite (cut_app ":" port), (cut_app ":" (out_Kind (ev_Outcome ev))).
Qed.

(** C34: A scrape of the routing, policy and bus metrics succeeds as well (no
    panic, announced descriptions only, no series twice), and the decisions
    counted under an event's port, outcome and reason are exported under
    exactly those labels, also when the reason contains the separator of the
    counter's key. *)
Theorem decision_scrape_succeeds (env : CollectEnv) (p : Pipeline) (bus : option Bus) (e : Engine)
    (ev : Event) (n : Z) :
  map_order (decisionCounters p) (ce_Counters env) ->
  map_order (DecisionDurationHistogramSnapshot p) (ce_Histograms env) ->
  (forall name, map_order (CandidateStates e name) (ce_Candidates env name)) -> engine_wf e ->
  contains_byte ":" (out_Kind (ev_Outcome ev)) = false ->
  decisionCounters p !! counter_key ev = Some n ->
  exists ms, decision_Collect env (SetRoutingMetrics p) bus (Some e) = Some ms /\
    NoDup (series <$> ms) /\ (forall m, m ∈ ms -> m_Desc m ∈ decision_Describe) /\
    MkMetric decTotalDesc (VInt n)
      [if isValidPort (ev_Port ev) then ev_Port ev else "invalid"; out_Kind (ev_Outcome ev);
       out_Reason (ev_Outcome ev)] ∈ ms.
Proof.
  intros H1 H2 H3 He Hk Hn. unfold decision_Collect. cbn [rm_Pipeline SetRoutingMetrics].
  set (ms := routing_metrics env p ++ _).
  assert (Hb : block decision_Describe ms).
  { eapply block_weaken.
    - apply (metric_block_app [decTotalDesc; decEligSetSizeDesc; decDurDesc]); [by apply routing_block| |shelve].
      apply (metric_block_app [policyStateDesc]); [by apply policies_block| |shelve].
      apply (metric_block_app [subsGaugeDesc; subsPublishedDesc; subsDroppedDesc] [transitionsPublishedDesc]);
        [destruct bus; [apply bus_block|apply block_nil]|by apply block_one|shelve].
    - unfold decision_Describe. set_solver.
    Unshelve. all: set_solver. }
  destruct (block_collect _ _ Hb) as (Hc1 & Hc2 & Hc3). exists ms. split; [done|]. split; [done|]. split; [done|].
  unfold ms, routing_metrics. rewrite !elem_of_app. left. left. apply list_elem_of_omap.
  exists (counter_key ev, n). split; [by apply visit_elem|by apply counter_key_split].
Qed.

Definition demo_ev : Event :=
  empty_event <| ev_Port := "read" |> <| ev_Outcome := MkOutcome "rejected" "" "" "liveness:down" |>.
Definition demo_pipeline : Pipeline :=
  (NewPipeline None None) <| decisionCounters := {[counter_key demo_ev := 3]} |>.
Definition demo_collect_env : CollectEnv :=
  MkCollectEnv [counter_key demo_ev] [] (fun name => default_order (CandidateStates demo_engine name)).

Lemma decision_scrape_succeeds_witness :
  exists ms, decision_Collect demo_collect_env (SetRoutingMetrics demo_pipeline) None (Some demo_engine) = Some ms /\
    NoDup (series <$> ms) /\ (forall m, m ∈ ms -> m_Desc m ∈ decision_Describe) /\
    MkMetric decTotalDesc (VInt 3) ["read"; "rejected"; "liveness:down"] ∈ ms.
Proof.
  apply (decision_scrape_succeeds demo_collect_env demo_pipeline None demo_engine demo_ev 3).
  - vm_compute. reflexivity.
  - vm_compute. reflexivity.
  - intros name. apply default_order_ok.
  - apply NewEngine_wf.
  - reflexivity.
  - vm_compute. reflexivity.
Defined.
