(* ===== verification/Main.v ===== *)
(** * Main: the whole program (cmd/main.go)

    The environment variables that are bound to settings, the sequence of steps
    from the configuration to running servers, and the shutdown.  Reading files
    and variables (viper), the pools, the probes and the certificates are
    outside: what they give is in the record [BootEnv]. *)

From stdpp Require Import base gmap strings list pretty.
From Stdlib Require Import ZArith Lia Ascii.
From S2P Require Import Prelude GoStrings GoEncoding Types Config Topology Decisions Policy Routing Startup.
From S2P Require Import IdleSweeper Auth Login Lifecycle Logger Json Admin Metrics.

Local Open Scope string_scope.
Local Open Scope Z_scope.
Local Open Scope list_scope.

(** ** Environment variables *)

Definition serverKeys : list string :=
  ["server.admin.listen_addr"; "server.admin.tls_enabled"; "server.admin.tls_cert_file"; "server.admin.tls_key_file";
   "server.admin.metrics.listen_addr"; "server.admin.metrics.auth_required"; "server.admin.metrics.tls_enabled";
   "server.admin_addr"; "server.max_sessions"; "server.client_idle_timeout"; "server.keep_alive_timeout";
   "server.keep_alive_interval"; "server.keep_alive_count"; "server.startup_probe_timeout_seconds"; "server.pprof_addr"].

Definition portKeys : list string :=
  ["server.ports.write.listen_addr"; "server.ports.write.pool_mode"; "server.ports.write.ssl_mode";
   "server.ports.write.ssl_cert"; "server.ports.write.ssl_key"; "server.ports.read.listen_addr";
   "server.ports.read.pool_mode"; "server.ports.read.ssl_mode"; "server.ports.read.ssl_cert";
   "server.ports.read.ssl_key"; "server.ports.compat.listen_addr"; "server.ports.compat.pool_mode";
   "server.ports.compat.ssl_mode"; "server.ports.compat.ssl_cert"; "server.ports.compat.ssl_key"].

Definition probeKeys : list string :=
  ["probe.interval_ms"; "probe.liveness_failure_count"; "probe.liveness_max_age_ms"; "probe.role_max_age_ms";
   "probe.lag_max_age_ms"].

Definition otherKeys : list string :=
  ["logging.level"; "logging.development"; "telemetry.otlp_endpoint"; "telemetry.insecure"; "telemetry.service_name";
   "auth.method"; "auth.username"; "auth.password"].

Definition bindNodeEnvVars (index : Z) : list string :=
  let prefix := "nodes." +:+ pretty index in
  (fun k => prefix +:+ "." +:+ k) <$>
    (["id"; "host"; "port"; "declared_role"] ++
     ["connection.user"; "connection.password"; "connection.database"; "connection.connect_timeout_seconds";
      "connection.ssl_mode"] ++
     ["pool.min_conns"; "pool.max_conns"; "pool.max_conn_lifetime"; "pool.max_conn_idle_time";
      "pool.health_check_period"]).

Definition envNodeMax : nat := 10.

(** All keys in the order they are bound. *)
Definition bindEnvKeys : list string :=
  (((serverKeys ++ portKeys) ++ probeKeys) ++ otherKeys)
  ++ (Z.of_nat <$> seq 0 envNodeMax) ≫= bindNodeEnvVars.

(** The variable of a key: prefix, dots as underscores, upper case. *)
Fixpoint dots_to_underscores (s : string) : string :=
  match s with
  | EmptyString => ""
  | String c s' => String (if Ascii.eqb c "." then "_"%char else c) (dots_to_underscores s')
  end.
Definition env_name (key : string) : string := ToUpper ("GRUNYAS_" +:+ dots_to_underscores key).

(** ** Startup *)

Definition probeTimeout (c : Config) : Duration :=
  let t := seconds (StartupProbeTimeoutSeconds (Server c)) in
  if t <=? 0 then 10 * 1000000000 else t.

Section boot.
Context {Lib : ScramLibrary} (sha256 : string -> string).

(** What the outside gives: the configuration that was read, the log levels
    zap knows, the pools and probes, what the first probes found within
    [probeTimeout] (the views are read twice), the certificates, the random
    salts, and the iteration orders of the maps. *)
Record BootEnv := MkBootEnv {
  be_Loaded : error + Config;
  be_ParseLevel : string -> bool;
  be_LogInit : option error;
  be_NewPool : NodeConfig -> error + Manager;
  be_NewProbe : NodeConfig -> option error;
  be_CloseOrder : Topology -> list NodeID;
  be_Probed : Duration -> Topology -> Topology;
  be_Nodes : Topology -> list NodeView;
  be_NodesAgain : Topology -> list NodeView;
  be_AdminCert : option error;
  be_LoadCert : string -> string -> option error;
  be_Salt : string -> error + string;
  be_PortOrder : list string;
  be_TokenOrder : list string
}.

(** The running program. *)
Record Booted := MkBooted {
  bt_cfg : Config;
  bt_topo : Topology;
  bt_engine : Engine;
  bt_pipeline : Pipeline;
  bt_bus : Bus;
  bt_exporter : option Z;
  bt_admin : AdminServer;
  bt_metrics : RoutingMetrics;
  bt_servers : list ServerSetup
}.

Inductive Panic :=
| ConfigUnreadable (err : error) | ConfigInvalid (errs : list Complaint) | LoggingFailed (err : error)
| TopologyFailed (err : error) | NodesDisagree (err : error) | NodesUnreachable
| AdminFailed (err : error) | ServerFailed (port : string) (err : error).

(** One server per port. *)
Fixpoint start_servers (env : BootEnv) (c : Config) (ports : list (string * PortConfig))
  : Panic + list ServerSetup :=
  match ports with
  | [] => inr []
  | (portID, _) :: rest =>
    match prx_Initialize (be_Salt env portID) (be_LoadCert env) c portID with
    | inl err => inl (ServerFailed portID err)
    | inr su =>
      match start_servers env c rest with
      | inl p => inl p
      | inr sus => inr (su :: sus)
      end
    end
  end.

(** From the topology on. *)
Definition start_parts (env : BootEnv) (c : Config) (topo : Topology) : Panic + Booted :=
  let eng := start_engine c in
  let '(exporter, bus) := StartDecisionExporter (start_bus c) in
  let pipeline := (start_pipeline c) <| decisionsBus := Some bus |> in
  match admin_New sha256 topo c (be_TokenOrder env) (be_AdminCert env) (Some bus) (Some eng) with
  | inl err => inl (AdminFailed err)
  | inr adminSrv =>
    match start_servers env c (visit (Ports (Server c)) (be_PortOrder env)) with
    | inl p => inl p
    | inr servers =>
      inr (MkBooted c topo eng pipeline bus exporter adminSrv (SetRoutingMetrics pipeline) servers)
    end
  end.

Definition boot (env : BootEnv) : Panic + Booted :=
  match be_Loaded env with
  | inl err => inl (ConfigUnreadable err)
  | inr loaded =>
    let c := Normalize loaded in
    match Validate (be_ParseLevel env) (be_PortOrder env) (be_TokenOrder env) c with
    | _ :: _ as errs => inl (ConfigInvalid errs)
    | [] =>
      match be_LogInit env with
      | Some err => inl (LoggingFailed err)
      | None =>
        match (New (be_NewPool env) (be_NewProbe env) (be_CloseOrder env) (Nodes_ c) (ProbeConfig_ c)).2 with
        | inl err => inl (TopologyFailed err)
        | inr topo =>
          let topo := be_Probed env (probeTimeout c) topo in
          match startup_verdict (length (Nodes_ c)) (SystemIDError topo) (be_Nodes env topo) (be_NodesAgain env topo) with
          | SystemIDMismatch err => inl (NodesDisagree err)
          | AllNodesDown => inl NodesUnreachable
          | Starts _ => start_parts env c topo
          end
        end
      end
    end
  end.

(** ** Shutdown

    [results]: what [Shutdown] of each server returns.  The bus is closed
    first, then the admin API, then the servers one after the other; the result
    is the bus, and the ports of the servers that were not drained. *)
Definition shutdown (admin_errs : list (string * option error)) (results : list (option error)) (r : Booted)
  : Bus * option error * list string :=
  let bus := BusClose (bt_bus r) in
  let '(adminErr, _) := admin_Close false admin_errs in
  (bus, adminErr, omap (fun e => if (e : ServerSetup * option error).2 then Some (su_port e.1) else None)
                       (zip (bt_servers r) results)).

End boot.

(** ** Lemmas *)

Lemma exporter_subscribes (c : Config) :
  0 < dc_MaxSubscribers (Decisions_ (Server c)) ->
  exists id, (StartDecisionExporter (start_bus c)).1 = Some id /\ id ∈ subscribers (StartDecisionExporter (start_bus c)).2.
Proof.
  unfold StartDecisionExporter, start_bus. generalize (dc_MaxSubscribers (Decisions_ (Server c))). intros m Hm.
  unfold Subscribe, NewBus. cbn [closed maxSubs subscribers]. rewrite size_empty.
  destruct (Z.leb_spec m (Z.of_nat 0)); [lia|]. exists 0. split; [done|]. cbn. set_solver.
Qed.

Section boot_lemmas.
Context {Lib : ScramLibrary}.

(** A server is what its port is configured to be. *)
Definition serves (c : Config) (portID : string) (pc : PortConfig) (su : ServerSetup) : Prop :=
  su_port su = portID /\ su_cfg su = c /\
  (su_tls su = true <-> ToLower (pc_SSLMode pc) = "optional" \/ ToLower (pc_SSLMode pc) = "mandatory") /\
  auth_cred (su_auth su) = MkCredential (au_Username (Config.Auth c)) (au_Password (Config.Auth c)) (ToLower (au_Method (Config.Auth c))).

Lemma prx_Initialize_serves (salt : error + string) (load_cert : string -> string -> option error) (c : Config)
    (portID : string) (pc : PortConfig) (su : ServerSetup) :
  Ports (Server c) !! portID = Some pc -> prx_Initialize salt load_cert c portID = inr su -> serves c portID pc su.
Proof.
  intros Hp. unfold prx_Initialize. destruct (auth_Initialize _ _) as [|a] eqn:Ea; [done|]. rewrite Hp.
  apply auth_Initialize_inr in Ea as [Hc _].
  destruct (String.eqb (ToLower (pc_SSLMode pc)) "optional" || String.eqb (ToLower (pc_SSLMode pc)) "mandatory") eqn:E.
  - destruct (load_cert _ _); [done|]. intros [= <-]. split_and!; try done. split; [|done]. intros _.
    apply orb_true_iff in E as [E|E]; apply String.eqb_eq in E; auto.
  - intros [= <-]. apply orb_false_iff in E as [E1 E2]. apply String.eqb_neq in E1, E2. split_and!; try done.
    cbn. naive_solver.
Qed.

Lemma start_servers_spec (env : BootEnv) (c : Config) (ports : list (string * PortConfig)) : forall sus,
  (forall id pc, (id, pc) ∈ ports -> Ports (Server c) !! id = Some pc) ->
  start_servers env c ports = inr sus -> Forall2 (fun e su => serves c e.1 e.2 su) ports sus.
Proof.
  induction ports as [|[id pc] ports IH]; intros sus Hp; cbn [start_servers]; [by intros [= <-]|].
  destruct (prx_Initialize _ _ _ _) as [|su] eqn:E; [done|].
  destruct (start_servers env c ports) as [|rest] eqn:Er; [done|]. intros [= <-]. constructor.
  - eapply prx_Initialize_serves; [|done]. apply Hp. by left.
  - apply IH; [|done]. intros id' pc' Hin. apply Hp. by right.
Qed.

Lemma start_servers_total (env : BootEnv) (c : Config) (ports : list (string * PortConfig)) :
  (forall port, exists a, auth_Initialize (be_Salt env port) (Config.Auth c) = inr a) ->
  (forall cert key, be_LoadCert env cert key = None) -> exists sus, start_servers env c ports = inr sus.
Proof.
  intros Ha Hc. induction ports as [|[id pc] ports [sus IH]]; cbn [start_servers]; [by eexists|].
  unfold prx_Initialize. destruct (Ha id) as [a ->]. rewrite IH.
  destruct (Ports (Server c) !! id) as [p|]; [|by eexists]. rewrite Hc. destruct (_ || _); by eexists.
Qed.
End boot_lemmas.

(** ** Properties *)

(** No two settings share an environment variable, although dots and
    underscores are written alike in its name. *)
Theorem env_names_distinct : NoDup (env_name <$> bindEnvKeys) /\ length bindEnvKeys = 183%nat.
Proof. split; [|reflexivity]. apply (bool_decide_eq_true (NoDup (env_name <$> bindEnvKeys))). vm_compute. reflexivity. Qed.

(** A program that has started runs what it was configured to run: the
    configuration is the one that was read, normalised, and it is valid; there
    is exactly one server per configured port, with TLS exactly where the port
    asks for it and with the configured credentials; a node has answered its
    first probe, and where there are several nodes no system identifiers
    disagreed; pipeline, admin API and exporter share one bus, to which the
    exporter is subscribed before the first decision. *)
Theorem boot_runs_configuration {Lib : ScramLibrary} (sha256 : string -> string) (env : BootEnv) (r : Booted)
    (loaded : Config) :
  be_Loaded env = inr loaded ->
  map_order (Ports (Server (Normalize loaded))) (be_PortOrder env) ->
  map_order (AdminTokens (Server (Normalize loaded))) (be_TokenOrder env) ->
  boot sha256 env = inr r ->
  bt_cfg r = Normalize loaded /\ valid_config (be_ParseLevel env) (bt_cfg r) /\
  (forall id pc, Ports (Server (bt_cfg r)) !! id = Some pc -> exists su, su ∈ bt_servers r /\ serves (bt_cfg r) id pc su) /\
  su_port <$> bt_servers r ≡ₚ elements (dom (Ports (Server (bt_cfg r)))) /\
  (exists nv, nv ∈ be_Nodes env (bt_topo r) /\ nv_LastProbeAt nv <> time_zero /\ nv_LastProbeErr nv = None) /\
  ((1 < length (Nodes_ (bt_cfg r)))%nat -> SystemIDError (bt_topo r) = None) /\
  decisionsBus (bt_pipeline r) = Some (bt_bus r) /\ admin_bus (bt_admin r) = Some (bt_bus r) /\
  (0 < dc_MaxSubscribers (Decisions_ (Server (bt_cfg r))) ->
     exists id, bt_exporter r = Some id /\ id ∈ subscribers (bt_bus r)).
Proof.
  intros Hl Hp Ht. unfold boot. rewrite Hl.
  destruct (Validate _ _ _ _) eqn:Ev; [|done]. apply Validate_nil in Ev; [|done..].
  destruct (be_LogInit env); [done|]. destruct (New _ _ _ _ _) as [effs [err|topo]]; [done|]. cbn [snd].
  set (topo' := be_Probed _ _ _). unfold startup_verdict.
  destruct (if (1 <? _)%nat then _ else _) eqn:Es; [done|]. destruct (existsb _ _) eqn:Ee; [|done].
  unfold start_parts. destruct (StartDecisionExporter _) as [ex bus] eqn:Ex.
  destruct (admin_New _ _ _ _ _ _ _) as [|srv] eqn:Ea; [done|].
  destruct (start_servers _ _ _) as [|sus] eqn:Ess; [done|]. intros [= <-]. cbn.
  apply (start_servers_spec env _ _ sus) in Ess; [|by intros id pc Hin; apply (visit_elem _ _ _ _ Hp)].
  split_and!; try done.
  - intros id pc Hpc. assert (Hin : (id, pc) ∈ visit (Ports (Server (Normalize loaded))) (be_PortOrder env)) by (by apply visit_elem).
    apply list_elem_of_lookup in Hin as [i Hi]. destruct (Forall2_lookup_l _ _ _ _ _ Ess Hi) as (su & Hsu & Hs).
    exists su. split; [by eapply list_elem_of_lookup_2|done].
  - rewrite <- Hp. rewrite <- (visit_keys _ _ Hp).
    assert (Heq : su_port <$> sus = (visit (Ports (Server (Normalize loaded))) (be_PortOrder env)).*1); [|by rewrite Heq].
    clear -Ess. induction Ess as [|e su l k [Hs _] Hrest IH]; cbn; [done|]. by rewrite Hs, IH.
  - apply existsb_exists in Ee as (nv & Hin & Hb). apply andb_true_iff in Hb as [H1 H2].
    exists nv. split; [by apply list_elem_of_In|]. split; [|by apply bool_decide_eq_true in H2].
    intros Hz. rewrite Hz in H1. done.
  - intros Hlen. apply Nat.ltb_lt in Hlen. change (Nodes_ loaded) with (Nodes_ (Normalize loaded)) in Hlen.
    by rewrite Hlen in Es.
  - unfold admin_New in Ea. repeat case_match; by simplify_eq.
  - intros Hmax. destruct (exporter_subscribes (Normalize loaded) Hmax) as (id & H1 & H2). rewrite Ex in H1, H2. eauto.
Qed.

(** A valid configuration starts: when its files can be read and its pools
    and probes opened, when a node answers and no identifiers disagree, the
    program gets to the point where all its servers are built. *)
Theorem valid_configuration_boots {Lib : ScramLibrary} (sha256 : string -> string) (env : BootEnv)
    (loaded : Config) (topo : Topology) (effs : list TopoEffect) (nv : NodeView) :
  be_Loaded env = inr loaded ->
  map_order (Ports (Server (Normalize loaded))) (be_PortOrder env) ->
  map_order (AdminTokens (Server (Normalize loaded))) (be_TokenOrder env) ->
  valid_config (be_ParseLevel env) (Normalize loaded) ->
  be_LogInit env = None -> be_AdminCert env = None -> (forall cert key, be_LoadCert env cert key = None) ->
  (forall port, exists a, auth_Initialize (be_Salt env port) (Config.Auth loaded) = inr a) ->
  New (be_NewPool env) (be_NewProbe env) (be_CloseOrder env) (Nodes_ loaded) (ProbeConfig_ loaded) = (effs, inr topo) ->
  SystemIDError (be_Probed env (probeTimeout (Normalize loaded)) topo) = None ->
  nv ∈ be_Nodes env (be_Probed env (probeTimeout (Normalize loaded)) topo) ->
  nv_LastProbeAt nv <> time_zero -> nv_LastProbeErr nv = None ->
  exists r, boot sha256 env = inr r.
Proof.
  intros Hl Hp Ht Hv Hlog Hac Hlc Ha Hn Hs Hin Hat Herr. unfold boot. rewrite Hl.
  apply (Validate_nil _ _ _ _ Hp Ht) in Hv. rewrite Hv, Hlog.
  change (Nodes_ (Normalize loaded)) with (Nodes_ loaded). change (ProbeConfig_ (Normalize loaded)) with (ProbeConfig_ loaded).
  rewrite Hn. cbn [snd]. unfold startup_verdict. rewrite Hs.
  assert (Hsome : existsb (fun nv => negb (IsZero (nv_LastProbeAt nv)) && bool_decide (nv_LastProbeErr nv = None))
    (be_Nodes env (be_Probed env (probeTimeout (Normalize loaded)) topo)) = true).
  { apply existsb_exists. exists nv. split; [by apply list_elem_of_In|]. rewrite bool_decide_eq_true_2 by done.
    rewrite andb_true_r. apply negb_true_iff, Z.eqb_neq. exact Hat. }
  rewrite Hsome. destruct (1 <? _)%nat; unfold start_parts; destruct (StartDecisionExporter _) as [ex bus];
    (assert (Htls : (if ad_TLSEnabled (Admin (Server (Normalize loaded))) then be_AdminCert env else None) = None)
       by (rewrite Hac; by destruct (ad_TLSEnabled _)));
    unfold admin_New; rewrite Htls;
    (destruct (start_servers_total env (Normalize loaded) (visit (Ports (Server (Normalize loaded))) (be_PortOrder env)) Ha Hlc)
       as [sus ->]); by eexists.
Qed.

(** The default configuration with one policy, and a node that answers. *)
Definition demo_boot : BootEnv :=
  MkBootEnv (inr demo_startup_config) zap_level None (fun _ => inr (1%nat)) (fun _ => None) (fun t => elements (dom (nodes t)))
    (fun _ t => UpdateLiveness 5 "primary-1" PLivenessUp None t) (fun t => Nodes t ["primary-1"] (fun _ => 5))
    (fun t => Nodes t ["primary-1"] (fun _ => 5)) None (fun _ _ => None) (fun _ => inr "") ["write"] [].

Lemma valid_configuration_boots_witness :
  exists r, boot (Lib := Login.toy_scram) (fun s => s) demo_boot = inr r.
Proof.
  eapply (valid_configuration_boots (Lib := Login.toy_scram) (fun s => s) demo_boot demo_startup_config);
    try (vm_compute; reflexivity).
  - apply (Validate_nil zap_level ["write"] [] (Normalize demo_startup_config)); vm_compute; reflexivity.
  - intros port. eexists. vm_compute. reflexivity.
  - vm_compute. left.
  - vm_compute. discriminate.
  - reflexivity.
Defined.

Definition demo_booted : Booted (Lib := Login.toy_scram) :=
  match boot (Lib := Login.toy_scram) (fun s => s) demo_boot with
  | inr r => r
  | inl _ => MkBooted Default NewEmpty (start_engine Default) (start_pipeline Default) (start_bus Default) None
               (MkAdminServer NewEmpty Default false ∅ None None) (MkRoutingMetrics None) []
  end.

Lemma boot_runs_configuration_witness :
  su_port <$> bt_servers demo_booted ≡ₚ elements (dom (Ports (Server (bt_cfg demo_booted)))) /\
  exists id, bt_exporter demo_booted = Some id /\ id ∈ subscribers (bt_bus demo_booted).
Proof.
  destruct (boot_runs_configuration (Lib := Login.toy_scram) (fun s => s) demo_boot demo_booted demo_startup_config)
    as (_ & _ & _ & H & _ & _ & _ & _ & Hx); try (vm_compute; reflexivity).
  split; [exact H|]. apply Hx. vm_compute. reflexivity.
Defined.

(** ** Where the program does something else *)

(** The bus is closed before the servers are drained: a decision that a session
    makes while it drains is counted as published and reaches nobody. *)
Theorem decision_while_draining_unseen (env : LeaseEnv) (event : Event) (p : Pipeline) (b : Bus) :
  decisionsBus p = Some (BusClose b) ->
  exists p', emitEvent env event p = Some p' /\ PublishedTotal p' = inc64 (PublishedTotal p) /\
    decisionsBus p' = Some (BusClose b) /\ subscribers (BusClose b) = ∅.
Proof. intros Hb. unfold emitEvent. rewrite Hb. by eexists. Qed.
