(* ===== verification/Console.v ===== *)
(** * Console: the terminal user interface (internal/console/console.go)

    The model of the console, its [Update], and the program that feeds it: the
    commands that are outstanding, the log channel it reads, and messages from
    the keyboard and the window.  Bubbletea's viewport and the layout of
    lipgloss are parameters. *)

From stdpp Require Import base strings list pretty.
From Stdlib Require Import ZArith Lia.
From S2P Require Import Prelude GoStrings Types.

Local Open Scope string_scope.
Local Open Scope Z_scope.
Local Open Scope list_scope.

(** The viewport: a new one, and the operations the console uses. *)
Class ViewportLibrary := {
  Viewport : Type;
  vp_zero : Viewport;
  vp_New : Z -> Z -> Viewport;
  vp_SetYPosition : Z -> Viewport -> Viewport;
  vp_SetContent : string -> Viewport -> Viewport;
  vp_Resize : Z -> Z -> Viewport -> Viewport;
  vp_GotoBottom : Viewport -> Viewport
}.

(** What the console reacts to.  [Unknown] is any other message. *)
Inductive Msg := KeyMsg (key : string) | WindowSizeMsg (width height : Z) | LogMsg (line : string) | TickMsg | Unknown.

(** Commands that are started; [ViewportCmd] is whatever the viewport asks for. *)
Inductive Cmd := Quit | WaitForLog | Tick | ViewportCmd.
#[export] Instance Cmd_eq_dec : EqDecision Cmd.
Proof. solve_decision. Defined.

Section console.
Context {VL : ViewportLibrary}.

Record model := MkModel {
  viewport : Viewport; ready : bool; width : Z; height : Z; stats : string; content : string
}.
#[export] Instance model_eta : Eta model := fun m =>
  MkModel (viewport m) (ready m) (width m) (height m) (stats m) (content m).

Definition initialModel : model := MkModel vp_zero false 0 0 "Press 'p' to see pool stats." "".

Definition Init : list Cmd := [WaitForLog; Tick].

Definition stats_line (s : PoolStats) : string :=
  "Total: " +:+ pretty (TotalConns s) +:+ " | Acquired: " +:+ pretty (AcquiredConns s) +:+ " | Idle: "
  +:+ pretty (IdleConns s) +:+ " | Max: " +:+ pretty (MaxConns s).

(** The text of the footer, before it is styled. *)
Definition footer_text (sslMode : option string) (m : model) : string :=
  stats m +:+ " | SSL: " +:+ default "unknown" sslMode.

(** The outside of one [Update]: the pool statistics, the heights of header and
    footer, and what the viewport makes of the message. *)
Record UpdateEnv := MkUpdateEnv {
  ue_Stats : PoolStats; ue_Header : model -> Z; ue_Footer : model -> Z; ue_Viewport : Msg -> Viewport -> Viewport
}.

Definition on_resize (env : UpdateEnv) (w h : Z) (m : model) : model :=
  let m := m <| width := w |> <| height := h |> in
  let headerHeight := ue_Header env m in
  let footerHeight := ue_Footer env m in
  let m :=
    if negb (ready m) then
      m <| viewport := vp_SetContent (content m) (vp_SetYPosition headerHeight (vp_New w (h - headerHeight - footerHeight))) |>
        <| ready := true |>
    else m <| viewport ::= vp_Resize w (h - headerHeight - footerHeight) |> in
  m <| viewport ::= vp_GotoBottom |>.

Definition on_log (line : string) (m : model) : model :=
  let m := m <| content ::= fun c => c +:+ line +:+ chr 10 |> in
  m <| viewport ::= fun v => vp_GotoBottom (vp_SetContent (content m) v) |>.

Definition Update (env : UpdateEnv) (msg : Msg) (m : model) : model * list Cmd :=
  let pass (m : model) (cmds : list Cmd) := (m <| viewport ::= ue_Viewport env msg |>, cmds ++ [ViewportCmd]) in
  match msg with
  | KeyMsg key =>
    if bool_decide (key ∈ ["ctrl+c"; "q"; "esc"]) then (m, [Quit])
    else if bool_decide (key ∈ ["p"; "P"]) then pass (m <| stats := stats_line (ue_Stats env) |>) []
    else pass m []
  | WindowSizeMsg w h => pass (on_resize env w h m) []
  | LogMsg line => pass (on_log line m) [WaitForLog]
  | TickMsg => pass (m <| stats := stats_line (ue_Stats env) |>) [Tick]
  | Unknown => pass m []
  end.

(** ** The running console

    The number of outstanding [waitForLog] and [tickCmd] commands, the lines in
    the log channel, and the lines taken from it so far. *)
Record Console := MkConsole {
  cn_model : model; cn_waits : nat; cn_ticks : nat; cn_lines : list string; cn_read : list string; cn_quit : bool
}.
#[export] Instance Console_eta : Eta Console := fun c =>
  MkConsole (cn_model c) (cn_waits c) (cn_ticks c) (cn_lines c) (cn_read c) (cn_quit c).

Definition count (x : Cmd) (cmds : list Cmd) : nat := length (filter (fun y => y = x) cmds).

Definition cn_start : Console := MkConsole initialModel (count WaitForLog Init) (count Tick Init) [] [] false.

(** A message is handled and the commands it leads to are started. *)
Definition handle (env : UpdateEnv) (msg : Msg) (c : Console) : Console :=
  let '(m, cmds) := Update env msg (cn_model c) in
  c <| cn_model := m |> <| cn_waits ::= fun n => (n + count WaitForLog cmds)%nat |>
    <| cn_ticks ::= fun n => (n + count Tick cmds)%nat |> <| cn_quit ::= fun q => q || bool_decide (Quit ∈ cmds) |>.

(** What happens to it: loggers add lines (and drop the oldest of a full
    channel), a command completes with its message, the user does something.  A
    channel that is closed would give [waitForLog] no line. *)
Inductive ConsoleLabel := Logged | LineRead | Ticked | UserDoes (msg : Msg).

Inductive console_step : Console -> ConsoleLabel -> Console -> Prop :=
| cn_logged c k new : console_step c Logged (c <| cn_lines ::= fun q => drop k q ++ new |>)
| cn_line env c n line rest :
    cn_quit c = false -> cn_waits c = S n -> cn_lines c = line :: rest ->
    console_step c LineRead
      (handle env (LogMsg line) (c <| cn_waits := n |> <| cn_lines := rest |> <| cn_read ::= fun r => r ++ [line] |>))
| cn_tick env c n :
    cn_quit c = false -> cn_ticks c = S n -> console_step c Ticked (handle env TickMsg (c <| cn_ticks := n |>))
| cn_user env c msg :
    cn_quit c = false -> (match msg with LogMsg _ | TickMsg => False | _ => True end) ->
    console_step c (UserDoes msg) (handle env msg c).

(** ** The display *)

Definition shown (lines : list string) : string := foldr (fun l acc => l +:+ chr 10 +:+ acc) "" lines.

Lemma shown_snoc (lines : list string) (l : string) : shown (lines ++ [l]) = shown lines +:+ l +:+ chr 10.
Proof.
  induction lines as [|x lines IH]; cbn [shown foldr app]; [by rewrite append_nil_l, append_empty_r|].
  unfold shown in IH. rewrite IH. by rewrite !append_assoc.
Qed.

Definition console_ok (c : Console) : Prop :=
  cn_waits c = 1%nat /\ cn_ticks c = 1%nat /\ content (cn_model c) = shown (cn_read c).

Definition quit_key (msg : Msg) : bool :=
  match msg with KeyMsg key => bool_decide (key ∈ ["ctrl+c"; "q"; "esc"]) | _ => false end.

(** What a message does to commands and content. *)
Lemma Update_spec (env : UpdateEnv) (msg : Msg) (m : model) :
  let '(m', cmds) := Update env msg m in
  count WaitForLog cmds = (match msg with LogMsg _ => 1 | _ => 0 end)%nat /\
  count Tick cmds = (match msg with TickMsg => 1 | _ => 0 end)%nat /\
  bool_decide (Quit ∈ cmds) = quit_key msg /\
  content m' = match msg with LogMsg line => content m +:+ line +:+ chr 10 | _ => content m end.
Proof.
  destruct msg as [key|w h|line| |]; cbn; try done.
  - case_bool_decide; [done|]. by case_bool_decide.
  - split_and!; try done. unfold on_resize. cbn. by destruct (ready m).
Qed.

Lemma console_step_ok (c c' : Console) (l : ConsoleLabel) : console_ok c -> console_step c l c' -> console_ok c'.
Proof.
  intros (H1 & H2 & H3) Hst. destruct Hst as [c k new|env c n line rest Hq Hw Hl|env c n Hq Ht|env c msg Hq Hm]; [done|..];
    unfold handle.
  - pose proof (Update_spec env (LogMsg line) (cn_model c)) as Hu. cbn [cn_model] in *.
    change (cn_model (put_field _ _)) with (cn_model c).
    destruct (Update env (LogMsg line) (cn_model c)) as [m' cmds]. destruct Hu as (U1 & U2 & _ & U4).
    split_and!; cbn; [rewrite U1; lia|rewrite U2; lia|]. by rewrite U4, H3, shown_snoc.
  - pose proof (Update_spec env TickMsg (cn_model c)) as Hu. change (cn_model (put_field _ _)) with (cn_model c).
    destruct (Update env TickMsg (cn_model c)) as [m' cmds]. destruct Hu as (U1 & U2 & _ & U4).
    split_and!; cbn; [rewrite U1; lia|rewrite U2; lia|]. by rewrite U4.
  - pose proof (Update_spec env msg (cn_model c)) as Hu.
    destruct (Update env msg (cn_model c)) as [m' cmds]. destruct Hu as (U1 & U2 & _ & U4).
    split_and!; cbn; rewrite ?U1, ?U2, ?U4; by destruct msg; try lia.
Qed.

End console.

(** ** Properties *)

(** The console keeps up with the log: it shows exactly the lines it has taken
    from the channel, in order, and as long as it runs it is listening for the
    next line and the next tick, each once, whatever the user does. *)
Theorem console_shows_log {VL : ViewportLibrary} (ls : list ConsoleLabel) (c : Console) :
  steps console_step cn_start ls c ->
  content (cn_model c) = shown (cn_read c) /\ cn_waits c = 1%nat /\ cn_ticks c = 1%nat.
Proof.
  intros Hrun. assert (Hok : console_ok c).
  { apply (steps_invariant console_step console_ok cn_start ls); [done|intros c1 l c2; apply console_step_ok|done]. }
  destruct Hok as (H1 & H2 & H3). done.
Qed.

(** ** Where the program does something else *)

(** The content is never shortened: what the console keeps grows with every
    line that was ever logged. *)
Theorem console_content_only_grows {VL : ViewportLibrary} (c c' : Console) (l : ConsoleLabel) :
  console_step c l c' ->
  exists more, content (cn_model c') = content (cn_model c) +:+ more.
Proof.
  intros Hst. destruct Hst as [c k new|env c n line rest _ _ _|env c n _ _|env c msg _ _]; unfold handle.
  - exists "". by rewrite append_empty_r.
  - pose proof (Update_spec env (LogMsg line) (cn_model c)) as Hu. change (cn_model (put_field _ _)) with (cn_model c).
    destruct (Update env (LogMsg line) (cn_model c)) as [m' cmds]. destruct Hu as (_ & _ & _ & U4). cbn. rewrite U4. eauto.
  - pose proof (Update_spec env TickMsg (cn_model c)) as Hu. change (cn_model (put_field _ _)) with (cn_model c).
    destruct (Update env TickMsg (cn_model c)) as [m' cmds]. destruct Hu as (_ & _ & _ & U4). cbn.
    exists "". by rewrite U4, append_empty_r.
  - pose proof (Update_spec env msg (cn_model c)) as Hu.
    destruct (Update env msg (cn_model c)) as [m' cmds]. destruct Hu as (_ & _ & _ & U4). cbn. rewrite U4.
    destruct msg; try (exists ""; by rewrite append_empty_r). eauto.
Qed.
