(* ===== verification/Telemetry.v ===== *)
(** * Telemetry: the set-up of logging and tracing (internal/logger/logger.go,
    internal/logger/otel.go, internal/utils/pgx_log_adapter)

    zap and OpenTelemetry are libraries: what they answer is in the record
    [Libraries].  The two global variables of OpenTelemetry that the set-up
    writes are the state [Otel]. *)

From stdpp Require Import base gmap strings list.
From Stdlib Require Import ZArith Lia.
From S2P Require Import Prelude GoStrings Types Config.

Local Open Scope string_scope.
Local Open Scope Z_scope.
Local Open Scope list_scope.

(** ** The libraries *)

(** Options of the OTLP client. *)
Inductive ClientOption := WithEndpoint (endpoint : string) | WithInsecure.
#[export] Instance ClientOption_eq_dec : EqDecision ClientOption.
Proof. solve_decision. Defined.

(** A level of zap is a number, higher for more severe. *)
Record Libraries := MkLibraries {
  ParseAtomicLevel : string -> error + Z;
  zapBuild : bool -> Z -> option error;
  newTraceExporter : list ClientOption -> option error;
  newResource : string -> option error }.

(** ** Tracing (otel.go) *)

Record TracerProvider := MkTracerProvider {
  tp_options : list ClientOption;
  tp_service : string }.

Inductive Propagator := TraceContext | Baggage.

Record Otel := MkOtel {
  tracerProvider : option TracerProvider;
  textMapPropagator : list Propagator }.

Definition client_options (telCfg : TelemetryConfig) : list ClientOption :=
  WithEndpoint (ot_Endpoint telCfg) :: (if ot_Insecure telCfg then [WithInsecure] else []).

(** The value is the provider whose [Shutdown] is returned, [None] for nil. *)
Definition setupTelemetry (lib : Libraries) (telCfg : TelemetryConfig) (o : Otel)
  : (error + option TracerProvider) * Otel :=
  if String.eqb (ot_Endpoint telCfg) "" then (inr None, o)
  else
    let clientOpts := client_options telCfg in
    match newTraceExporter lib clientOpts with
    | Some err => (inl (OtherError "create otlp trace exporter" (Some err)), o)
    | None =>
      match newResource lib (ot_ServiceName telCfg) with
      | Some err => (inl (OtherError "create resource" (Some err)), o)
      | None =>
        let tp := MkTracerProvider clientOpts (ot_ServiceName telCfg) in
        (inr (Some tp), MkOtel (Some tp) [TraceContext; Baggage])
      end
    end.

(** ** Logging (logger.go) *)

Inductive Encoding := JSONEncoding | ConsoleEncoding.

(** Where the records go: the writer that was passed, or where zap's own
    configuration sends them. *)
Inductive LogSink := CustomWriter (enc : Encoding) | ZapSink (development : bool).

Record ZapLogger := MkZapLogger {
  zl_Level : Z;
  zl_Sink : LogSink }.

(** The clean-up: nothing, or the shutdown of a provider. *)
Inductive Cleanup := NoCleanup | ShutdownProvider (tp : TracerProvider).

Definition build_logger (lib : Libraries) (logCfg : LoggingConfig) (level : Z) (customWriter : bool) : error + ZapLogger :=
  if customWriter then
    let encoder := if lg_Development logCfg then ConsoleEncoding else JSONEncoding in
    inr (MkZapLogger level (CustomWriter encoder))
  else
    match zapBuild lib (lg_Development logCfg) level with
    | Some err => inl (OtherError "build logger" (Some err))
    | None => inr (MkZapLogger level (ZapSink (lg_Development logCfg)))
    end.

Definition Initialize (lib : Libraries) (logCfg : LoggingConfig) (telCfg : TelemetryConfig) (customWriter : bool)
    (o : Otel) : (error + ZapLogger * Cleanup) * Otel :=
  match ParseAtomicLevel lib (lg_Level logCfg) with
  | inl err => (inl (OtherError "parse log level" (Some err)), o)
  | inr level =>
    match build_logger lib logCfg level customWriter with
    | inl err => (inl err, o)
    | inr logger =>
      match setupTelemetry lib telCfg o with
      | (inl err, o) => (inl err, o)
      | (inr None, o) => (inr (logger, NoCleanup), o)
      | (inr (Some tp), o) => (inr (logger, ShutdownProvider tp), o)
      end
    end
  end.

(** ** The adapter to pgx (pgx_log_adapter.go) *)

Inductive TraceLevel := LevelTrace | LevelDebug | LevelInfo | LevelWarn | LevelError | LevelOther (n : Z).

(** The level of zap's [Debug]. *)
Definition DebugLevel : Z := -1.

Record PgxRecord := MkPgxRecord {
  pr_Level : Z;
  pr_Namespace : string;
  pr_Message : string;
  pr_Fields : list (string * string) }.

(** [data] in the order of its iteration, values as text. *)
Definition Log (level : TraceLevel) (msg : string) (data : list (string * string)) : PgxRecord :=
  let fields := data in
  let msg := ToLower msg in
  let debug fields := MkPgxRecord DebugLevel "pgx" msg fields in
  match level with
  | LevelTrace => debug (fields ++ [("pgx_level", "trace")])
  | LevelDebug | LevelInfo | LevelWarn | LevelError => debug fields
  | LevelOther _ => debug (fields ++ [("pgx_level", "unknown")])
  end.

(** ** Properties *)

(** [Initialize] either fails and leaves the globals alone, or succeeds: then
    the level is the configured one, and the provider that the clean-up shuts
    down is the one that was installed. *)
Theorem Initialize_consistent lib logCfg telCfg cw o res o' :
  Initialize lib logCfg telCfg cw o = (res, o') ->
  match res with
  | inl _ => o' = o
  | inr (logger, cleanup) =>
    ParseAtomicLevel lib (lg_Level logCfg) = inr (zl_Level logger)
    /\ match cleanup with
       | NoCleanup => ot_Endpoint telCfg = "" /\ o' = o
       | ShutdownProvider tp =>
         ot_Endpoint telCfg <> "" /\ tracerProvider o' = Some tp
         /\ tp_service tp = ot_ServiceName telCfg /\ WithEndpoint (ot_Endpoint telCfg) ∈ tp_options tp
         /\ (WithInsecure ∈ tp_options tp <-> ot_Insecure telCfg = true)
       end
  end.
Proof.
  unfold Initialize, build_logger, setupTelemetry, client_options.
  destruct (ParseAtomicLevel lib (lg_Level logCfg)) as [err|level] eqn:El; [by intros [= <- <-]|].
  assert (Hopt : forall ins : bool, WithInsecure ∈ WithEndpoint (ot_Endpoint telCfg) :: (if ins then [WithInsecure] else [])
                          <-> ins = true) by (intros []; set_solver).
  destruct cw; [|destruct (zapBuild lib (lg_Development logCfg) level); [by intros [= <- <-]|]].
  all: destruct (String.eqb_spec (ot_Endpoint telCfg) ""); [by intros [= <- <-]|].
  all: destruct (newTraceExporter lib _); [by intros [= <- <-]|].
  all: destruct (newResource lib _); [by intros [= <- <-]|]; intros [= <- <-]; cbn.
  all: split_and!; try done; left.
Qed.

(** The libraries do what a valid configuration relies on. *)
Record libraries_work (lib : Libraries) : Prop := {
  lw_build : forall dev level, zapBuild lib dev level = None;
  lw_exporter : forall opts, newTraceExporter lib opts = None;
  lw_resource : forall name, newResource lib name = None }.

(** The validation accepts a level when zap can parse it, so a configuration
    that was accepted does not fail in [Initialize]. *)
Theorem valid_config_logs lib c cw o :
  libraries_work lib ->
  valid_config (fun s => match ParseAtomicLevel lib s with inr _ => true | inl _ => false end) c ->
  exists logger cleanup o', Initialize lib (Logging c) (Telemetry c) cw o = (inr (logger, cleanup), o').
Proof.
  intros [Hb He Hr] Hv. pose proof (go_level _ _ (vc_general _ _ Hv)) as Hl. cbn in Hl.
  unfold Initialize, build_logger, setupTelemetry.
  destruct (ParseAtomicLevel lib (lg_Level (Logging c))) as [err|level]; [done|].
  rewrite Hb. destruct cw, (String.eqb (ot_Endpoint (Telemetry c)) ""); rewrite ?He, ?Hr; eauto.
Qed.

Definition demo_libraries : Libraries :=
  MkLibraries (fun s => if String.eqb s "info" then inr 0 else inl (OtherError "unrecognized level" None))
    (fun _ _ => None) (fun _ => None) (fun _ => None).

Lemma valid_config_logs_witness : exists logger cleanup o',
  Initialize demo_libraries (Logging Default) (Telemetry Default) true (MkOtel None []) = (inr (logger, cleanup), o').
Proof.
  apply (valid_config_logs demo_libraries Default true (MkOtel None [])).
  - by split.
  - apply (Validate_nil _ ["write"] [] Default); vm_compute; reflexivity.
Defined.

(** Every record of pgx, errors included, is logged at the debug level, so at
    the default level "info" none of them appears. *)
Theorem pgx_records_are_debug level msg data : pr_Level (Log level msg data) = DebugLevel.
Proof. by destruct level. Qed.
