(* ===== verification/Simulator.v ===== *)
(** * Simulator: the load generator's workers (simulators/go/scenarios/types.go)

    The settings, the sampler of error messages and the way clients connect,
    and what the nine scenarios of [Scenarios.v] are written in.  A scenario
    starts goroutines that share two counters, a list of latencies and a
    sampler.  A goroutine is a [prog]: it asks the outside (a call on its
    connection, the clock, the context, the random source) and continues with
    the answer, or it updates the shared state in one critical section.  No
    goroutine reads what it shares before all have ended, so what it does
    depends on the answers only: [run] gives the events of one goroutine, and
    the events of all of them are any [shuffle] of these.

    [wp] is the weakest precondition of a [prog] for a monitor that watches its
    events; the accounting and the protocols of the scenarios are shown with
    it. *)

From stdpp Require Import base gmap strings list pretty.
From Stdlib Require Import ZArith Lia.
From S2P Require Import Prelude GoStrings GoEncoding.

Local Open Scope string_scope.
Local Open Scope Z_scope.
Local Open Scope list_scope.

(** ** Settings and errors *)

Record Config := MkConfig {
  ConnStr : string;
  Concurrency : Z;
  PoolMode : string;
  DBHost : string;
  DBPort : string;
  DBUser : string;
  DBPass : string;
  DBName : string;
  Duration_ : Duration }.

(** An [error]: its text, and the SQLSTATE and message of the [pgconn.PgError]
    that [errors.As] finds in it. *)
Record Error := MkError {
  Error_ : string;
  PgError : option (string * string) }.

Definition Contains (s sub : string) : bool :=
  match Index s sub with Some _ => true | None => false end.

Definition IsCapacityError (err : Error) : bool :=
  match PgError err with
  | Some (code, message) =>
    if String.eqb code "53300" then true
    else if String.eqb code "08P01" && Contains message "no more connections allowed" then true
    else false
  | None => false
  end.

(** ** The error sampler *)

Record ErrorSampler := MkErrorSampler {
  es_seen : gmap string Z;
  es_samples : list string;
  es_max : Z }.

#[export] Instance eta_ErrorSampler : Eta ErrorSampler := fun s =>
  MkErrorSampler (es_seen s) (es_samples s) (es_max s).

Definition NewErrorSampler (maxSamples : Z) : ErrorSampler := MkErrorSampler ∅ [] maxSamples.

Definition seen_count (es : ErrorSampler) (msg : string) : Z := default 0 (es_seen es !! msg).

Definition Record_ (err : Error) (es : ErrorSampler) : ErrorSampler :=
  let msg := Error_ err in
  let n := inc64 (seen_count es msg) in
  let es := es <| es_seen := <[msg := n]> (es_seen es) |> in
  if (n =? 1) && (Z.of_nat (length (es_samples es)) <? es_max es)
  then es <| es_samples := es_samples es ++ [msg] |> else es.

Definition Notes (es : ErrorSampler) : list string :=
  (fun msg => "[" +:+ pretty (seen_count es msg) +:+ "x] " +:+ msg) <$> es_samples es.

(** ** Programs of goroutines *)

Inductive Arg :=
| AStr (s : string)
| AInt (n : Z)
| ACents (n : Z)    (* a constant of type float64, in hundredths *)
| AAmount (k : Z).  (* ten times the draw k of rng.Float64() *)

Inductive QueryExecMode := CacheStatement | CacheDescribe.

(** The calls on pgx: opening a connection, its methods, those of a
    transaction, and the rows of a query. *)
Inductive call :=
| ParseConfig (connStr : string)
| ConnectConfig (connStr : string) (mode : QueryExecMode)
| QueryRow (sql : string) (args : list Arg)
| Exec (sql : string) (args : list Arg)
| Query (sql : string) (args : list Arg)
| Prepare (name sql : string)
| Begin
| TxExec (sql : string) (args : list Arg)
| TxCommit
| TxRollback
| RowsClose
| RowsErr
| ConnClose.

(** What a goroutine asks: a call (its error, and the number it scanned), the
    clock, [ctx.Err() != nil], [conn.IsClosed()], the number of rows that
    [rows.Next()] went through, [rng.Intn n], and [rng.Float64()] in units of
    [2^-53]. *)
Inductive eff :=
| Call (c : call)
| Now
| CtxErr
| IsClosed
| RowsNext
| Intn (n : Z)
| Float64.

Definition ans (e : eff) : Type :=
  match e with
  | Call _ => option Error * Z
  | Now => Time
  | CtxErr | IsClosed => bool
  | RowsNext => nat
  | Intn _ | Float64 => Z
  end.

(** The critical sections on what the goroutines of a scenario share. *)
Inductive action :=
| OpsAdd
| ErrAdd
| AppendLatency (d : Duration)
| RecordErr (err : Error)
| RecordNote (msg : string)
| SetPidResult (worker : Z) (changed : bool) (total : Z).

(** How a piece of code ends: in a value, by [return] from the goroutine, by
    [continue], or because the bound on the rounds of a loop is exhausted. *)
Inductive out (A : Type) :=
| Val (a : A)
| Return
| Continue_
| OutOfFuel.
Arguments Val {A}.
Arguments Return {A}.
Arguments Continue_ {A}.
Arguments OutOfFuel {A}.

Inductive prog (A : Type) :=
| Done (o : out A)
| Ask (e : eff) (k : ans e -> prog A)
| Emit (a : action) (k : prog A).
Arguments Done {A}.
Arguments Ask {A}.
Arguments Emit {A}.

(** [handle m f]: [m], and then [f] on the way in which [m] ended. *)
Fixpoint handle {A B} (m : prog A) (f : out A -> prog B) : prog B :=
  match m with
  | Done o => f o
  | Ask e k => Ask e (fun x => handle (k x) f)
  | Emit a k => Emit a (handle k f)
  end.

Definition pass {A B} (o : out A) (f : A -> prog B) : prog B :=
  match o with
  | Val a => f a
  | Return => Done Return
  | Continue_ => Done Continue_
  | OutOfFuel => Done OutOfFuel
  end.

Definition bind {A B} (m : prog A) (f : A -> prog B) : prog B := handle m (fun o => pass o f).

Notation "x <~ m ;; k" := (bind m (fun x => k))
  (at level 100, m at next level, right associativity) : go_scope.
Notation "m ;;; k" := (bind m (fun _ => k)) (at level 100, right associativity) : go_scope.

Definition ret {A} (a : A) : prog A := Done (Val a).
Definition ask (e : eff) : prog (ans e) := Ask e (fun x => ret x).
Definition emit (a : action) : prog unit := Emit a (ret tt).

(** The error of a call. *)
Definition do_ (c : call) : prog (option Error) := r <~ ask (Call c) ;; ret (fst r).

(** [defer c] in a goroutine whose remaining body is [m]. *)
Definition defer {A} (c : call) (m : prog A) : prog A :=
  handle m (fun o => Ask (Call c) (fun _ => Done o)).

(** The end of the body of a loop: the next round after a value or a
    [continue], which keeps the variables as they were. *)
Definition next_round {A B} (a : A) (o : out A) (k : A -> prog B) : prog B :=
  match o with
  | Val a' => k a'
  | Continue_ => k a
  | Return => Done Return
  | OutOfFuel => Done OutOfFuel
  end.

(** [for i := i0; i < i0 + n; i++] *)
Fixpoint times {A} (n : nat) (i : Z) (a : A) (body : Z -> A -> prog A) : prog A :=
  match n with
  | O => ret a
  | S n' => handle (body i a) (fun o => next_round a o (fun a' => times n' (i + 1) a' body))
  end.

(** [for iter := i; cond(iter); iter++], for at most [fuel] evaluations of the
    condition. *)
Fixpoint for_ (fuel : nat) (i : Z) (cond : Z -> prog bool) (body : Z -> prog unit) : prog unit :=
  match fuel with
  | O => Done OutOfFuel
  | S f =>
    b <~ cond i ;;
    if b then handle (body i) (fun o => next_round tt o (fun _ => for_ f (i + 1) cond body))
    else ret tt
  end.

Definition Continue (cfg : Config) (limit iter : Z) : prog bool :=
  if 0 <? Duration_ cfg then err <~ ask CtxErr ;; ret (negb err)
  else ret (iter <? limit).

(** ** Connecting, and the fragments the scenarios share *)

Definition clientConnStr (cfg : Config) : string :=
  "postgres://" +:+ DBUser cfg +:+ ":" +:+ DBPass cfg +:+ "@" +:+ DBHost cfg +:+ ":" +:+ DBPort cfg
  +:+ "/" +:+ DBName cfg +:+ "?sslmode=disable".

Definition ConnectClient (cfg : Config) : prog (option Error) :=
  let connStr := clientConnStr cfg in
  err <~ do_ (ParseConfig connStr) ;;
  match err with
  | Some e => ret (Some (MkError ("parse config: " +:+ Error_ e) (PgError e)))
  | None =>
    do_ (ConnectConfig connStr
           (if String.eqb (PoolMode cfg) "transaction" then CacheDescribe else CacheStatement))
  end.

(** [time.Since], and [latencies = append(latencies, d)] under the mutex. *)
Definition latency_since (t : Time) : prog unit :=
  now <~ ask Now ;; emit (AppendLatency (Sub now t)).

(** [t := time.Now()], the call, the latency, [ops.Add(1)]. *)
Definition timed (c : call) : prog (option Error * Z) :=
  t <~ ask Now ;; r <~ ask (Call c) ;; latency_since t ;;; emit OpsAdd ;;; ret r.

(** [if ctx.Err() != nil || conn.IsClosed() { last; return }] *)
Definition return_if_gone (last : prog unit) : prog unit :=
  err <~ ask CtxErr ;;
  if err then last ;;; Done Return
  else closed <~ ask IsClosed ;; if closed then last ;;; Done Return else ret tt.

Definition nothing : prog unit := ret tt.

(** [errCount.Add(1); errs.Record(err)] *)
Definition count_error (err : Error) : prog unit := emit ErrAdd ;;; emit (RecordErr err).

(** [if err != nil { return_if_gone; count_error }], and then [k]. *)
Definition count_if (err : option Error) (k : prog unit) : prog unit :=
  match err with
  | Some e => return_if_gone nothing ;;; count_error e ;;; k
  | None => nothing
  end.

(** The connection failed: [ops.Add(1); errCount.Add(1); errs.Record(err);
    return], and otherwise [defer conn.Close] and the body. *)
Definition with_client (cfg : Config) (body : prog unit) : prog unit :=
  err <~ ConnectClient cfg ;;
  match err with
  | Some e => emit OpsAdd ;;; count_error e ;;; Done Return
  | None => defer ConnClose body
  end.

(** ** Running a goroutine *)

Definition Env : Type := nat -> forall e : eff, ans e.

Inductive event :=
| Asked (e : eff) (x : ans e)
| Did (a : action).

(** The end of the program, the number of questions asked so far, and its
    events. *)
Fixpoint run {A} (env : Env) (n : nat) (m : prog A) : out A * nat * list event :=
  match m with
  | Done o => (o, n, [])
  | Ask e k =>
    let x := env n e in
    let '(o, n', t) := run env (S n) (k x) in (o, n', Asked e x :: t)
  | Emit a k => let '(o, n', t) := run env n k in (o, n', Did a :: t)
  end.

Definition outcome {A} (env : Env) (m : prog A) : out A := fst (fst (run env 0 m)).
Definition trace {A} (env : Env) (m : prog A) : list event := snd (run env 0 m).

(** [shuffle ls t]: [t] takes the events of the lists in any interleaving that
    keeps the order of each. *)
Inductive shuffle {A} : list (list A) -> list A -> Prop :=
| shuffle_nil ls : Forall (fun l => l = []) ls -> shuffle ls []
| shuffle_cons ls i x l t :
    ls !! i = Some (x :: l) -> shuffle (<[i := l]> ls) t -> shuffle ls (x :: t).

(** ** What the goroutines share *)

Record Shared := MkShared {
  sh_ops : Z;
  sh_errCount : Z;
  sh_latencies : list Duration;
  sh_errs : ErrorSampler;
  sh_notes : list string;
  sh_pidResults : list (bool * Z) }.

#[export] Instance eta_Shared : Eta Shared := fun s =>
  MkShared (sh_ops s) (sh_errCount s) (sh_latencies s) (sh_errs s) (sh_notes s) (sh_pidResults s).

Definition apply_action (s : Shared) (a : action) : Shared :=
  match a with
  | OpsAdd => s <| sh_ops := inc64 (sh_ops s) |>
  | ErrAdd => s <| sh_errCount := inc64 (sh_errCount s) |>
  | AppendLatency d => s <| sh_latencies := sh_latencies s ++ [d] |>
  | RecordErr err => s <| sh_errs := Record_ err (sh_errs s) |>
  | RecordNote msg =>
    if Z.of_nat (length (sh_notes s)) <? 5 then s <| sh_notes := sh_notes s ++ [msg] |> else s
  | SetPidResult w changed total =>
    s <| sh_pidResults := <[Z.to_nat w := (changed, total)]> (sh_pidResults s) |>
  end.

Definition apply_event (s : Shared) (e : event) : Shared :=
  match e with Did a => apply_action s a | Asked _ _ => s end.

Record Result := MkResult {
  TotalOps : Z;
  Errors : Z;
  rs_Duration : Duration;
  Latencies : list Duration;
  rs_Notes : list string }.

(** A scenario: its goroutines, what they share at first, what follows
    [wg.Wait()], and where the notes come from.  [sc_workers] takes the bound
    on the rounds of loops that run until the deadline.  [sc_panics] is true
    when the function panics before it starts a goroutine. *)
Record Scenario := MkScenario {
  sc_panics : bool;
  sc_init : Shared;
  sc_workers : nat -> list (prog unit);
  sc_after : Shared -> Shared;
  sc_notes : Shared -> list string }.

Definition shared0 : Shared := MkShared 0 0 [] (NewErrorSampler 10) [] [].

Definition finish (sc : Scenario) (d : Duration) (s : Shared) : Result :=
  let s := sc_after sc s in
  MkResult (sh_ops s) (sh_errCount s) d (sh_latencies s) (sc_notes sc s).

Definition traces (sc : Scenario) (fuel : nat) (envs : nat -> Env) : list (list event) :=
  imap (fun i m => trace (envs i) m) (sc_workers sc fuel).

(** [returns sc fuel envs d r]: the scenario can return [r] when its goroutines
    get the answers [envs] and it takes [d]. *)
Definition returns (sc : Scenario) (fuel : nat) (envs : nat -> Env) (d : Duration) (r : Result) : Prop :=
  sc_panics sc = false /\
  exists t, shuffle (traces sc fuel envs) t /\ r = finish sc d (foldl apply_event (sc_init sc) t).

(** One of the runs: the goroutines one after the other. *)
Definition run_sequentially (sc : Scenario) (fuel : nat) (envs : nat -> Env) (d : Duration) : Result :=
  finish sc d (foldl apply_event (sc_init sc) (concat (traces sc fuel envs))).

Definition goroutines (n : Z) (f : Z -> prog unit) : list (prog unit) := f <$> seqZ 0 n.

(** ** Runs *)

Lemma run_handle {A B} (env : Env) (m : prog A) (f : out A -> prog B) (n : nat) :
  run env n (handle m f)
  = let '(o, n1, t1) := run env n m in
    let '(o', n2, t2) := run env n1 (f o) in (o', n2, t1 ++ t2).
Proof.
  revert n. induction m as [o|e k IH|a k IH]; intros n; cbn.
  - by destruct (run env n (f o)) as [[o' n2] t2].
  - rewrite IH. destruct (run env (S n) (k (env n e))) as [[o n1] t1].
    by destruct (run env n1 (f o)) as [[o' n2] t2].
  - rewrite IH. destruct (run env n k) as [[o n1] t1].
    by destruct (run env n1 (f o)) as [[o' n2] t2].
Qed.

Lemma run_ticks {A} (env : Env) (m : prog A) (n : nat) o n' t :
  run env n m = (o, n', t) -> (n <= n')%nat.
Proof.
  revert n o n' t. induction m as [o|e k IH|a k IH]; cbn; intros n o' n' t.
  - by intros [= _ -> _].
  - destruct (run env (S n) _) as [[o1 n1] t1] eqn:E. intros [= _ <- _]. apply IH in E. lia.
  - destruct (run env n k) as [[o1 n1] t1] eqn:E. intros [= _ <- _]. by apply IH in E.
Qed.

(** ** Weakest preconditions

    A monitor has a state of type [S] and sees every event; [legal] says which
    answers the outside may give.  [wp m Q s]: from the state [s], with any
    legal answers, [m] ends in a way and a state that [Q] allows. *)

Section Monitor.
Context {S : Type} (observe : S -> event -> S) (legal : forall e, ans e -> Prop).

Fixpoint wp {A} (m : prog A) (Q : out A -> S -> Prop) (s : S) : Prop :=
  match m with
  | Done o => Q o s
  | Ask e k => forall x, legal e x -> wp (k x) Q (observe s (Asked e x))
  | Emit a k => wp k Q (observe s (Did a))
  end.

Lemma wp_mono {A} (m : prog A) (Q Q' : out A -> S -> Prop) s :
  (forall o s', Q o s' -> Q' o s') -> wp m Q s -> wp m Q' s.
Proof. revert s. induction m; cbn; naive_solver. Qed.

Lemma wp_handle {A B} (m : prog A) (f : out A -> prog B) Q s :
  wp (handle m f) Q s <-> wp m (fun o s' => wp (f o) Q s') s.
Proof.
  revert s. induction m as [o|e k IH|a k IH]; intros s; cbn; [done| |apply IH].
  split; intros H x Hx; apply IH; auto.
Qed.

Lemma wp_bind {A B} (m : prog A) (f : A -> prog B) Q s :
  wp m (fun o s' => wp (pass o f) Q s') s -> wp (bind m f) Q s.
Proof. apply wp_handle. Qed.

Lemma wp_sound {A} (env : Env) (m : prog A) Q s n :
  (forall n e, legal e (env n e)) -> wp m Q s ->
  Q (fst (fst (run env n m))) (foldl observe s (snd (run env n m))).
Proof.
  intros Hlegal. revert s n. induction m as [o|e k IH|a k IH]; intros s n Hwp; cbn in *; [done| |].
  - specialize (IH _ _ (Datatypes.S n) (Hwp _ (Hlegal n e))).
    by destruct (run env (Datatypes.S n) _) as [[o n1] t1].
  - specialize (IH _ n Hwp). by destruct (run env n k) as [[o n1] t1].
Qed.

(** The rule for a loop with a fixed number of rounds: [I i a] holds before
    round [i] with the variables [a]. *)
Lemma wp_times {A} (I : Z -> A -> S -> Prop) (body : Z -> A -> prog A) Q n i a s :
  (forall j b s', i <= j < i + Z.of_nat n -> I j b s' ->
     wp (body j b) (fun o s'' =>
       match o with
       | Val b' => I (j + 1) b' s''
       | Continue_ => I (j + 1) b s''
       | Return => Q Return s''
       | OutOfFuel => Q OutOfFuel s''
       end) s') ->
  (forall b s', I (i + Z.of_nat n) b s' -> Q (Val b) s') ->
  I i a s -> wp (times n i a body) Q s.
Proof.
  revert i a s. induction n as [|n IH]; intros i a s Hbody Hend HI; cbn.
  - apply Hend. by replace (i + Z.of_nat 0) with i by lia.
  - apply wp_handle. eapply wp_mono; [|apply Hbody; [lia|done]].
    intros [b| | |] s' H; cbn; try done.
    all: apply IH; [intros; apply Hbody; [lia|done]| |done].
    all: intros b' s'' H'; apply Hend; by replace (i + Z.of_nat (Datatypes.S n)) with (i + 1 + Z.of_nat n) by lia.
Qed.

(** The rule for a loop with a condition: [I fuel i] holds before the condition
    is evaluated for round [i] with [fuel] evaluations left. *)
Lemma wp_for (I : nat -> Z -> S -> Prop) cond body (Q : out unit -> S -> Prop) fuel i s :
  (forall f j s', I (Datatypes.S f) j s' ->
     wp (cond j) (fun o s1 =>
       match o with
       | Val true => wp (body j) (fun o s2 =>
           match o with
           | Val _ | Continue_ => I f (j + 1) s2
           | Return => Q Return s2
           | OutOfFuel => Q OutOfFuel s2
           end) s1
       | Val false => Q (Val tt) s1
       | Return => Q Return s1
       | Continue_ => Q Continue_ s1
       | OutOfFuel => Q OutOfFuel s1
       end) s') ->
  (forall j s', I O j s' -> Q OutOfFuel s') ->
  I fuel i s -> wp (for_ fuel i cond body) Q s.
Proof.
  revert i s. induction fuel as [|fuel IH]; intros i s Hstep Hend HI; cbn; [by eapply Hend|].
  apply wp_bind. eapply wp_mono; [|by apply Hstep].
  intros [[]| | |] s1 H; cbn; try done.
  apply wp_handle. eapply wp_mono; [|exact H].
  intros [[]| | |] s2 H'; cbn; try done; by apply IH.
Qed.

(** [Continue] for an invariant that does not change when the context is asked
    for its error. *)
Lemma wp_for_Continue (I : Z -> S -> Prop) cfg limit body (Q : out unit -> S -> Prop) fuel i s :
  (forall j s' b, I j s' -> I j (observe s' (Asked CtxErr b))) ->
  (forall j s', I j s' ->
     wp (body j) (fun o s2 =>
       match o with
       | Val _ | Continue_ => I (j + 1) s2
       | Return => Q Return s2
       | OutOfFuel => Q OutOfFuel s2
       end) s') ->
  (forall j s', I j s' -> Q OutOfFuel s' /\ Q (Val tt) s') ->
  I i s -> wp (for_ fuel i (Continue cfg limit) body) Q s.
Proof.
  intros Hctx Hbody Hend HI.
  apply (wp_for (fun _ => I)); [|naive_solver|done].
  intros f j s' HIj. unfold Continue.
  destruct (0 <? Duration_ cfg); cbn; [intros [] _; cbn|destruct (j <? limit)].
  all: try (apply Hbody; auto); eapply Hend; eauto.
Qed.

End Monitor.

(** Every answer is possible. *)
Definition any_answer (e : eff) (x : ans e) : Prop := True.

Lemma any_answer_ok (env : Env) n e : any_answer e (env n e).
Proof. done. Qed.

(** ** Interleavings *)

Lemma concat_insert {A} (ls : list (list A)) i x l :
  ls !! i = Some (x :: l) -> concat ls ≡ₚ x :: concat (<[i := l]> ls).
Proof.
  revert i. induction ls as [|l0 ls IH]; intros [|i]; cbn; try done.
  - by intros [= ->].
  - intros H. rewrite (IH i H). by rewrite <- Permutation_middle.
Qed.

Lemma shuffle_perm {A} (ls : list (list A)) t : shuffle ls t -> t ≡ₚ concat ls.
Proof.
  induction 1 as [ls Hnil|ls i x l t Hi _ IH].
  - induction Hnil as [|l ls -> _ IH]; cbn; done.
  - by rewrite (concat_insert _ _ _ _ Hi), IH.
Qed.

Lemma shuffle_skip {A} (ls : list (list A)) t : shuffle ls t -> shuffle ([] :: ls) t.
Proof.
  induction 1 as [ls Hnil|ls i x l t Hi Hs IH]; [by constructor; constructor|].
  by apply (shuffle_cons _ (S i) x l).
Qed.

Lemma shuffle_concat {A} (ls : list (list A)) : shuffle ls (concat ls).
Proof.
  induction ls as [|l ls IH]; cbn; [by constructor|].
  induction l as [|x l IHl]; cbn; [by apply shuffle_skip|].
  by apply (shuffle_cons _ 0 x l).
Qed.

Lemma run_sequentially_returns sc fuel envs d :
  sc_panics sc = false -> returns sc fuel envs d (run_sequentially sc fuel envs d).
Proof. intros H. split; [done|]. exists (concat (traces sc fuel envs)). split; [apply shuffle_concat|done]. Qed.

(** ** Tallies

    How often each critical section was entered. *)

Record tally := MkTally {
  n_ops : Z;
  n_errs : Z;
  n_lats : Z;
  n_recs : Z;
  n_notes : Z }.

Definition tally0 : tally := MkTally 0 0 0 0 0.

Definition tally_add (a b : tally) : tally :=
  MkTally (n_ops a + n_ops b) (n_errs a + n_errs b) (n_lats a + n_lats b) (n_recs a + n_recs b)
    (n_notes a + n_notes b).

Definition tally_event (e : event) : tally :=
  match e with
  | Did OpsAdd => MkTally 1 0 0 0 0
  | Did ErrAdd => MkTally 0 1 0 0 0
  | Did (AppendLatency _) => MkTally 0 0 1 0 0
  | Did (RecordErr _) => MkTally 0 0 0 1 0
  | Did (RecordNote _) => MkTally 0 0 0 0 1
  | Did (SetPidResult _ _ _) | Asked _ _ => tally0
  end.

Definition count_event (s : tally) (e : event) : tally := tally_add s (tally_event e).

Definition tally_of (t : list event) : tally := foldl count_event tally0 t.
Arguments tally_of : simpl never.

Lemma tally_eq (a b : tally) :
  n_ops a = n_ops b -> n_errs a = n_errs b -> n_lats a = n_lats b -> n_recs a = n_recs b ->
  n_notes a = n_notes b -> a = b.
Proof. destruct a, b; cbn; intros; by subst. Qed.

Ltac tally_solve := intros; apply tally_eq; cbn; lia.

Lemma foldl_count (t : list event) (s : tally) : foldl count_event s t = tally_add s (tally_of t).
Proof.
  unfold tally_of. revert s. induction t as [|e t IH]; intros s; cbn; [tally_solve|].
  rewrite IH, (IH (count_event tally0 e)). tally_solve.
Qed.

Lemma tally_cons (e : event) (t : list event) : tally_of (e :: t) = tally_add (tally_event e) (tally_of t).
Proof. unfold tally_of at 1. cbn. rewrite foldl_count. tally_solve. Qed.

Lemma tally_app (t1 t2 : list event) : tally_of (t1 ++ t2) = tally_add (tally_of t1) (tally_of t2).
Proof. unfold tally_of at 1. by rewrite foldl_app, foldl_count. Qed.

#[export] Instance tally_proper : Proper ((≡ₚ) ==> (=)) tally_of.
Proof.
  intros t1 t2 H. induction H as [|e t1 t2 _ IH|e1 e2 t|]; [done| | |congruence].
  - by rewrite !tally_cons, IH.
  - rewrite !tally_cons. tally_solve.
Qed.

Lemma tally_bounds (t : list event) :
  let a := tally_of t in let n := Z.of_nat (length t) in
  (0 <= n_ops a <= n) /\ (0 <= n_errs a <= n) /\ (0 <= n_lats a <= n) /\ (0 <= n_recs a <= n).
Proof.
  cbn. induction t as [|e t IH]; [unfold tally_of; cbn; lia|]. rewrite tally_cons.
  destruct e as [|[]]; cbn -[Z.of_nat] in *; lia.
Qed.

(** Shared counters are the tallies, as far as they do not overflow. *)
Lemma inc_wrap (n m : Z) : wrap64 (inc64 n + m) = wrap64 (n + (1 + m)).
Proof. unfold inc64. rewrite wrap64_add_l. f_equal. lia. Qed.

Lemma wrap_shared (t : list event) (s : Shared) :
  let s' := foldl apply_event s t in let a := tally_of t in
  wrap64 (sh_ops s') = wrap64 (sh_ops s + n_ops a)
  /\ wrap64 (sh_errCount s') = wrap64 (sh_errCount s + n_errs a)
  /\ Z.of_nat (length (sh_latencies s')) = Z.of_nat (length (sh_latencies s)) + n_lats a.
Proof.
  cbn. revert s. induction t as [|e t IH]; intros s; cbn -[Z.of_nat].
  - unfold tally_of. cbn. by rewrite !Z.add_0_r.
  - destruct (IH (apply_event s e)) as (Ho & He & Hl). rewrite tally_cons.
    destruct e as [?|[]]; cbn -[Z.of_nat] in *; rewrite ?inc_wrap in *; try destruct (_ <? 5); cbn -[Z.of_nat] in *;
      rewrite ?length_app in *; cbn -[Z.of_nat] in *; split_and!; try done; lia.
Qed.

Definition counters_in_range (s : Shared) : Prop :=
  int64_range (sh_ops s) /\ int64_range (sh_errCount s).

Lemma apply_in_range (t : list event) (s : Shared) :
  counters_in_range s -> counters_in_range (foldl apply_event s t).
Proof.
  revert s. induction t as [|e t IH]; intros s [Ho He]; cbn; [done|]. apply IH.
  destruct e as [?|[]]; cbn; try (by split); try (split; [|done]; apply wrap64_range);
    try (split; [done|]; apply wrap64_range).
  destruct (_ <? 5); by split.
Qed.

(** The totals of a list of goroutines: what holds of the tally of each, and is
    kept by addition, holds of the tally of all. *)
Lemma tally_concat (P : tally -> Prop) (ls : list (list event)) :
  P tally0 -> (forall a b, P a -> P b -> P (tally_add a b)) ->
  Forall (fun l => P (tally_of l)) ls -> P (tally_of (concat ls)).
Proof.
  intros H0 Hadd. induction 1 as [|l ls Hl _ IH]; cbn; [done|]. rewrite tally_app. auto.
Qed.

Lemma traces_Forall (P : list event -> Prop) sc fuel envs :
  Forall (fun m => forall env, P (trace env m)) (sc_workers sc fuel) ->
  Forall P (traces sc fuel envs).
Proof.
  unfold traces. rewrite !Forall_forall. intros H l Hl.
  apply list_elem_of_lookup in Hl as [i Hi]. rewrite list_lookup_imap in Hi.
  destruct (sc_workers sc fuel !! i) as [m|] eqn:E; cbn in Hi; [|done].
  injection Hi as <-. apply H. by eapply list_elem_of_lookup_2.
Qed.

Lemma goroutines_elem n f i : 0 <= i < n -> f i ∈ goroutines n f.
Proof. intros H. apply list_elem_of_fmap. exists i. split; [done|]. apply elem_of_seqZ. lia. Qed.

Lemma Forall_goroutines (P : prog unit -> Prop) n f :
  (forall i, 0 <= i < n -> P (f i)) -> Forall P (goroutines n f).
Proof.
  intros H. unfold goroutines. apply Forall_fmap, Forall_forall. intros i Hi.
  apply H. apply elem_of_seqZ in Hi. lia.
Qed.

(** ** The sampler counts exactly *)

Definition recorded_event (e : event) : list string :=
  match e with Did (RecordErr err) => [Error_ err] | _ => [] end.

(** The messages recorded in a run, in their order. *)
Definition recorded (t : list event) : list string := t ≫= recorded_event.

Definition occurrences (m : string) (l : list string) : Z := Z.of_nat (length (filter (m =.) l)).

Lemma occurrences_snoc m l x :
  occurrences m (l ++ [x]) = occurrences m l + (if decide (m = x) then 1 else 0).
Proof.
  unfold occurrences. rewrite filter_app, length_app, filter_cons, filter_nil.
  destruct (decide (m = x)); cbn; lia.
Qed.

Lemma occurrences_bounds m l : 0 <= occurrences m l <= Z.of_nat (length l).
Proof. unfold occurrences. pose proof (length_filter (m =.) l). lia. Qed.

Lemma occurrences_pos m l : 0 < occurrences m l <-> m ∈ l.
Proof.
  unfold occurrences. split.
  - intros H. destruct (filter (m =.) l) as [|x r] eqn:E; [cbn in H; lia|].
    assert (Hx : x ∈ filter (m =.) l) by (rewrite E; left).
    by apply list_elem_of_filter in Hx as [<- ?].
  - intros H. assert (Hm : m ∈ filter (m =.) l) by (by apply list_elem_of_filter).
    destruct (filter (m =.) l); [by apply not_elem_of_nil in Hm|cbn; lia].
Qed.

(** After the messages [l]: exact counts, and the samples are distinct recorded
    messages, all of them unless the sampler is full. *)
Record sampled_ok (es : ErrorSampler) (l : list string) : Prop := {
  so_counts : forall m, seen_count es m = occurrences m l;
  so_nodup : NoDup (es_samples es);
  so_sound : forall m, m ∈ es_samples es -> m ∈ l;
  so_bound : Z.of_nat (length (es_samples es)) <= es_max es;
  so_complete : Z.of_nat (length (es_samples es)) < es_max es -> forall m, m ∈ l -> m ∈ es_samples es }.

Lemma NewErrorSampler_ok n : 0 <= n -> sampled_ok (NewErrorSampler n) [].
Proof.
  intros Hn. split; cbn; [done|constructor|done|lia|]. intros _ m Hm. by apply not_elem_of_nil in Hm.
Qed.

Lemma seen_count_insert es msg n m :
  seen_count (es <| es_seen := <[msg := n]> (es_seen es) |>) m
  = if decide (m = msg) then n else seen_count es m.
Proof.
  unfold seen_count. cbn. destruct (decide (m = msg)) as [->|Hne].
  - by rewrite lookup_insert_eq.
  - by rewrite lookup_insert_ne.
Qed.

Lemma Record_ok es l err :
  Z.of_nat (length l) < max_int64 -> sampled_ok es l -> sampled_ok (Record_ err es) (l ++ [Error_ err]).
Proof.
  intros Hlen [Hc Hnd Hs Hb Hcomp]. set (msg := Error_ err).
  pose proof (occurrences_bounds msg l) as Hob.
  assert (Hinc : inc64 (seen_count es msg) = occurrences msg l + 1).
  { rewrite Hc. apply wrap64_id. unfold int64_range, min_int64, max_int64 in *. lia. }
  assert (Hcounts : forall m, (if decide (m = msg) then occurrences msg l + 1 else seen_count es m)
                              = occurrences m (l ++ [msg])).
  { intros m. rewrite occurrences_snoc, Hc. destruct (decide (m = msg)) as [->|]; lia. }
  unfold Record_. fold msg. rewrite Hinc. cbn -[seen_count Z.of_nat].
  destruct ((occurrences msg l + 1 =? 1) && _) eqn:E; bool_to_prop.
  - assert (Hnew : msg ∉ l) by (rewrite <- occurrences_pos; lia).
    split; cbn -[seen_count Z.of_nat].
    + intros m. by rewrite <- Hcounts, <- (seen_count_insert es msg).
    + apply NoDup_app. split_and!; [done| |apply NoDup_singleton]. set_solver.
    + set_solver.
    + rewrite length_app. cbn. lia.
    + intros Hlt m Hm. rewrite length_app in Hlt. cbn in Hlt.
      apply elem_of_app in Hm as [Hm|Hm]; apply elem_of_app; [left; apply Hcomp; [lia|done]|by right].
  - split; cbn -[seen_count Z.of_nat]; [|done|set_solver|done|].
    + intros m. by rewrite <- Hcounts, <- (seen_count_insert es msg).
    + intros Hlt m Hm. apply Hcomp; [done|]. apply elem_of_app in Hm as [?|Hm]; [done|].
      apply list_elem_of_singleton in Hm as ->. apply occurrences_pos.
      apply andb_false_iff in E as [E|E]; bool_to_prop; lia.
Qed.

Lemma recorded_snoc t e : recorded (t ++ [e]) = recorded t ++ recorded_event e.
Proof. unfold recorded. rewrite bind_app. cbn. by rewrite app_nil_r. Qed.

Lemma recorded_length t : Z.of_nat (length (recorded t)) = n_recs (tally_of t).
Proof.
  induction t as [|e t IH]; [done|]. rewrite tally_cons. unfold recorded in *. cbn.
  rewrite length_app. destruct e as [|[]]; cbn -[Z.of_nat] in *; lia.
Qed.

Lemma sampler_after (s : Shared) (t : list event) :
  sampled_ok (sh_errs s) [] -> Z.of_nat (length t) <= max_int64 ->
  sampled_ok (sh_errs (foldl apply_event s t)) (recorded t).
Proof.
  intros H0. induction t as [|e t IH] using rev_ind; intros Hlen; [done|].
  rewrite length_app in Hlen. cbn in Hlen. rewrite foldl_app, recorded_snoc. cbn.
  pose proof (recorded_length t) as Hr. pose proof (tally_bounds t) as (_ & _ & _ & Hb).
  destruct e as [?|[]]; cbn; rewrite ?app_nil_r; try (apply IH; lia).
  - apply Record_ok; [lia|]. apply IH. lia.
  - destruct (_ <? 5); apply IH; lia.
Qed.

Lemma sampled_nonempty es l : 0 < es_max es -> sampled_ok es l -> l <> [] -> Notes es <> [].
Proof.
  intros Hmax [_ _ _ _ Hcomp] Hl HN. apply fmap_nil_inv in HN. destruct l as [|m l]; [done|].
  assert (Hm : m ∈ es_samples es) by (apply Hcomp; [rewrite HN; cbn; lia|left]).
  rewrite HN in Hm. by apply not_elem_of_nil in Hm.
Qed.
