(* ===== verification/Scenarios.v ===== *)
(** * Scenarios: the nine workloads of the load generator (simulators/go/scenarios)

    One definition per goroutine and one per scenario, in the language of
    [Simulator.v].  SQL texts and their arguments are those of the source.
    What the scenarios report is in [Accounting.v], how they use their
    connections in [Protocols.v]. *)

From stdpp Require Import base gmap strings list pretty.
From Stdlib Require Import ZArith Lia.
From S2P Require Import Prelude GoStrings GoEncoding Simulator.

Local Open Scope string_scope.
Local Open Scope Z_scope.
Local Open Scope list_scope.

(** A scenario whose notes are those of the error sampler, with nothing to do
    after [wg.Wait()]. *)
Definition sampled (workers : nat -> list (prog unit)) : Scenario :=
  MkScenario false shared0 workers (fun s => s) (fun s => Notes (sh_errs s)).

(** Scenarios start [cfg.Concurrency] goroutines with their number. *)
Definition per_worker (cfg : Config) (worker : nat -> Config -> Z -> prog unit) : Scenario :=
  sampled (fun fuel => goroutines (Concurrency cfg) (worker fuel cfg)).

(** ** basic_crud.go *)

Definition BasicCRUD_round (workerID iter : Z) : prog unit :=
  let email := "crud_" +:+ pretty workerID +:+ "_" +:+ pretty iter +:+ "@test.com" in
  r <~ timed (QueryRow "INSERT INTO users (name, email, balance) VALUES ($1, $2, $3) RETURNING id"
                [AStr ("crud_user_" +:+ pretty workerID +:+ "_" +:+ pretty iter); AStr email; ACents 10000]) ;;
  let userID := snd r in
  count_if (fst r) (Done Continue_) ;;;
  r <~ timed (QueryRow "SELECT name FROM users WHERE id = $1" [AInt userID]) ;;
  count_if (fst r) (Done Continue_) ;;;
  r <~ timed (Exec "UPDATE users SET balance = balance + 50 WHERE id = $1" [AInt userID]) ;;
  count_if (fst r) (Done Continue_) ;;;
  r <~ timed (Exec "DELETE FROM users WHERE id = $1" [AInt userID]) ;;
  count_if (fst r) nothing.

Definition BasicCRUD_worker (fuel : nat) (cfg : Config) (workerID : Z) : prog unit :=
  with_client cfg (for_ fuel 0 (Continue cfg 20) (BasicCRUD_round workerID)).

Definition BasicCRUD (cfg : Config) : Scenario := per_worker cfg BasicCRUD_worker.

(** ** transactions.go *)

(** [ops.Add(1)] after an error that ends the round. *)
Definition op_and_continue : prog unit := emit OpsAdd ;;; Done Continue_.

Definition insert_user : string := "INSERT INTO users (name, email, balance) VALUES ($1, $2, $3)".

Definition tx_email (runID workerID iter : Z) : string :=
  "tx_" +:+ pretty runID +:+ "_" +:+ pretty workerID +:+ "_" +:+ pretty iter +:+ "@test.com".

Definition commit_flow (runID workerID iter : Z) : prog unit :=
  t <~ ask Now ;;
  err <~ do_ Begin ;;
  count_if err op_and_continue ;;;
  err <~ do_ (TxExec insert_user
                [AStr ("tx_user_" +:+ pretty workerID +:+ "_" +:+ pretty iter);
                 AStr (tx_email runID workerID iter); ACents 50000]) ;;
  match err with
  | Some e =>
    do_ TxRollback ;;; return_if_gone nothing ;;; count_error e ;;; op_and_continue
  | None =>
    err <~ do_ TxCommit ;;
    latency_since t ;;; emit OpsAdd ;;; count_if err nothing
  end.

Definition rollback_flow (workerID iter : Z) : prog unit :=
  t <~ ask Now ;;
  err <~ do_ Begin ;;
  count_if err op_and_continue ;;;
  do_ (TxExec insert_user
         [AStr "will_rollback"; AStr ("rb_" +:+ pretty workerID +:+ "_" +:+ pretty iter +:+ "@test.com");
          ACents 99999]) ;;;
  err <~ do_ TxRollback ;;
  latency_since t ;;; emit OpsAdd ;;; count_if err nothing.

Definition savepoint_flow (workerID iter : Z) : prog unit :=
  t <~ ask Now ;;
  err <~ do_ Begin ;;
  count_if err op_and_continue ;;;
  do_ (TxExec "SAVEPOINT sp1" []) ;;;
  do_ (TxExec insert_user
         [AStr "savepoint_user"; AStr ("sp_" +:+ pretty workerID +:+ "_" +:+ pretty iter +:+ "@test.com");
          ACents 10000]) ;;;
  do_ (TxExec "ROLLBACK TO SAVEPOINT sp1" []) ;;;
  err <~ do_ TxCommit ;;
  latency_since t ;;; emit OpsAdd ;;; count_if err nothing.

Definition Transactions_round (runID workerID iter : Z) : prog unit :=
  commit_flow runID workerID iter ;;; rollback_flow workerID iter ;;; savepoint_flow workerID iter.

Definition Transactions_worker (runID : Z) (fuel : nat) (cfg : Config) (workerID : Z) : prog unit :=
  with_client cfg (for_ fuel 0 (Continue cfg 10) (Transactions_round runID workerID)).

(** [runID] is the draw of [rand.Uint64()]. *)
Definition Transactions (runID : Z) (cfg : Config) : Scenario :=
  per_worker cfg (Transactions_worker runID).

(** ** prepared_statements.go *)

Definition reuseCount : Z := 20.

Definition unnamed_query (iter : Z) (_ : unit) : prog unit :=
  r <~ timed (QueryRow "SELECT count(*) FROM users WHERE balance > $1" [ACents (iter * 100 * 100)]) ;;
  count_if (fst r) nothing.

Definition rollback : prog unit := do_ (Exec "ROLLBACK" []) ;;; nothing.

Definition reuse_statement (stmtName : string) (workerID iter : Z) (_ : unit) : prog unit :=
  r <~ timed (Query stmtName [AInt (workerID * reuseCount + iter + 1)]) ;;
  match fst r with
  | Some e => return_if_gone rollback ;;; count_error e ;;; Done Continue_
  | None => do_ RowsClose ;;; nothing
  end.

Definition prepare_statement (stmtName : string) : prog unit :=
  r <~ timed (Prepare stmtName "SELECT id, name, balance FROM users WHERE id = $1") ;;
  match fst r with
  | Some e => return_if_gone rollback ;;; count_error e ;;; rollback ;;; Done Return
  | None => nothing
  end.

Definition named_statements (workerID outerIter : Z) : prog unit :=
  err <~ do_ (Exec "BEGIN" []) ;;
  count_if err (emit OpsAdd ;;; Done Return) ;;;
  let stmtName := "stmt_worker_" +:+ pretty workerID +:+ "_" +:+ pretty outerIter in
  prepare_statement stmtName ;;;
  times (Z.to_nat reuseCount) 0 tt (reuse_statement stmtName workerID) ;;;
  err <~ do_ (Exec ("DEALLOCATE " +:+ stmtName) []) ;;
  emit OpsAdd ;;;
  count_if err nothing ;;;
  err <~ do_ (Exec "COMMIT" []) ;;
  count_if err nothing.

Definition PreparedStatements_round (workerID outerIter : Z) : prog unit :=
  times 10 0 tt unnamed_query ;;; named_statements workerID outerIter.

Definition PreparedStatements_worker (fuel : nat) (cfg : Config) (workerID : Z) : prog unit :=
  with_client cfg (for_ fuel 0 (Continue cfg 1) (PreparedStatements_round workerID)).

Definition PreparedStatements (cfg : Config) : Scenario := per_worker cfg PreparedStatements_worker.

(** ** concurrent_rw.go *)

Definition writeRangePerWorker : Z := 20.
Definition writeBase (workerID : Z) : Z := workerID * writeRangePerWorker + 1.

(** [0.7] as a multiple of [2^-53]. *)
Definition read_share : Z := 6305039478318694.

Definition ConcurrentRW_read (userID : Z) : prog unit :=
  r <~ timed (QueryRow "SELECT balance FROM users WHERE id = $1" [AInt userID]) ;;
  count_if (fst r) nothing.

Definition debit : string := "UPDATE users SET balance = balance - $1 WHERE id = $2".
Definition credit : string := "UPDATE users SET balance = balance + $1 WHERE id = $2".

(** A failed statement of the transfer. *)
Definition abandon_transfer (err : option Error) : prog unit :=
  match err with
  | Some e => do_ TxRollback ;;; return_if_gone nothing ;;; count_error e ;;; op_and_continue
  | None => nothing
  end.

Definition ConcurrentRW_transfer (workerID : Z) : prog unit :=
  i <~ ask (Intn writeRangePerWorker) ;;
  j <~ ask (Intn writeRangePerWorker) ;;
  let userID := writeBase workerID + i in
  let otherID := writeBase workerID + j in
  amount <~ ask Float64 ;;
  t <~ ask Now ;;
  err <~ do_ Begin ;;
  count_if err op_and_continue ;;;
  err <~ do_ (TxExec debit [AAmount amount; AInt userID]) ;;
  abandon_transfer err ;;;
  err <~ do_ (TxExec credit [AAmount amount; AInt otherID]) ;;
  abandon_transfer err ;;;
  err <~ do_ TxCommit ;;
  latency_since t ;;; emit OpsAdd ;;; count_if err nothing.

Definition ConcurrentRW_round (workerID iter : Z) : prog unit :=
  u <~ ask (Intn 1000) ;;
  let userID := u + 1 in
  p <~ ask Float64 ;;
  if p <? read_share then ConcurrentRW_read userID else ConcurrentRW_transfer workerID.

Definition ConcurrentRW_worker (fuel : nat) (cfg : Config) (workerID : Z) : prog unit :=
  with_client cfg (for_ fuel 0 (Continue cfg 20) (ConcurrentRW_round workerID)).

Definition ConcurrentRW (cfg : Config) : Scenario := per_worker cfg ConcurrentRW_worker.

(** ** connection_storms.go *)

Definition ConnectionStorms_round (cfg : Config) (iter : Z) : prog unit :=
  t <~ ask Now ;;
  err <~ ConnectClient cfg ;;
  match err with
  | Some e =>
    (if negb (IsCapacityError e) then
       gone <~ ask CtxErr ;; if gone then Done Return else count_error e
     else nothing) ;;;
    op_and_continue
  | None =>
    err <~ do_ (Exec "SELECT 1" []) ;;
    emit OpsAdd ;;;
    match err with
    | Some e =>
      if negb (IsCapacityError e) then
        gone <~ ask CtxErr ;;
        if gone then nothing
        else closed <~ ask IsClosed ;; if closed then nothing else count_error e
      else nothing
    | None => nothing
    end ;;;
    do_ ConnClose ;;; latency_since t
  end.

Definition ConnectionStorms_worker (fuel : nat) (cfg : Config) (_ : Z) : prog unit :=
  for_ fuel 0 (Continue cfg 1) (ConnectionStorms_round cfg).

Definition ConnectionStorms (cfg : Config) : Scenario :=
  let storms := wrap64 (Concurrency cfg * 2) in
  sampled (fun fuel => goroutines storms (ConnectionStorms_worker fuel cfg)).

(** ** long_running.go *)

Definition stressorsEach (cfg : Config) : Z :=
  let n := Z.min (Z.quot (Concurrency cfg) 4) 10 in if n <? 1 then 1 else n.

Definition quickWorkers (cfg : Config) : Z :=
  let n := wrap64 (Concurrency cfg - 2 * stressorsEach cfg) in if n <? 1 then 1 else n.

Definition sleepDuration (cfg : Config) : string := if 0 <? Duration_ cfg then "9" else "1".

(** A stressor that cannot connect ends without a trace. *)
Definition with_stressor (cfg : Config) (body : prog unit) : prog unit :=
  err <~ ConnectClient cfg ;;
  match err with
  | Some _ => Done Return
  | None => defer ConnClose body
  end.

Definition sleep_worker (cfg : Config) (_ : Z) : prog unit :=
  with_stressor cfg (do_ (Exec ("SELECT pg_sleep(" +:+ sleepDuration cfg +:+ ")") []) ;;; nothing).

Definition large_result_round (iter : Z) : prog unit :=
  err <~ do_ (Query "SELECT generate_series(1, 10000)" []) ;;
  match err with
  | Some _ => return_if_gone nothing ;;; Done Continue_
  | None => ask RowsNext ;;; do_ RowsClose ;;; nothing
  end.

Definition large_result_worker (fuel : nat) (cfg : Config) (_ : Z) : prog unit :=
  with_stressor cfg (for_ fuel 0 (Continue cfg 1) large_result_round).

Definition quick_round (iter : Z) : prog unit :=
  r <~ timed (QueryRow "SELECT 1" []) ;; count_if (fst r) nothing.

Definition quick_worker (fuel : nat) (cfg : Config) (_ : Z) : prog unit :=
  with_client cfg (for_ fuel 0 (Continue cfg 5) quick_round).

Definition LongRunning (cfg : Config) : Scenario :=
  sampled (fun fuel =>
    goroutines (stressorsEach cfg) (sleep_worker cfg)
    ++ goroutines (stressorsEach cfg) (large_result_worker fuel cfg)
    ++ goroutines (quickWorkers cfg) (quick_worker fuel cfg)).

(** ** error_handling.go *)

(** [if err != nil { return_if_gone; errCount.Add(1); k }] *)
Definition count_and (err : option Error) (k : Error -> prog unit) : prog unit :=
  match err with
  | Some e => return_if_gone nothing ;;; emit ErrAdd ;;; k e
  | None => nothing
  end.

(** A statement that must fail: [if err == nil { errCount.Add(1); k } else if
    gone { return }]. *)
Definition expect_error (err : option Error) (k : prog unit) : prog unit :=
  match err with
  | None => emit ErrAdd ;;; k
  | Some _ => return_if_gone nothing
  end.

Definition recordNote (msg : string) : prog unit := emit (RecordNote msg).

Definition ErrorHandling_round (iter : Z) : prog unit :=
  (r <~ timed (Exec "SELEKT invalid_syntax FROM nowhere" []) ;;
   expect_error (fst r) (recordNote "expected error for invalid SQL but got none")) ;;;
  (r <~ timed (QueryRow "SELECT 1" []) ;;
   count_and (fst r) (fun e => recordNote ("connection broken after syntax error: " +:+ Error_ e))) ;;;
  (r <~ timed (Exec insert_user [AStr "dup_user"; AStr "user_1@test.com"; AInt 0]) ;;
   match fst r with Some _ => return_if_gone nothing | None => nothing end) ;;;
  (r <~ timed (QueryRow "SELECT 1" []) ;;
   count_and (fst r) (fun e => recordNote ("connection broken after constraint violation: " +:+ Error_ e))) ;;;
  (r <~ timed (Exec "SELECT 1/0" []) ;; expect_error (fst r) nothing) ;;;
  (r <~ timed (QueryRow "SELECT 42" []) ;;
   match fst r with
   | None => if snd r =? 42 then nothing else return_if_gone nothing ;;; emit ErrAdd
   | Some _ => return_if_gone nothing ;;; emit ErrAdd
   end).

(** A connection that fails is counted and leaves no note. *)
Definition with_client_unrecorded (cfg : Config) (body : prog unit) : prog unit :=
  err <~ ConnectClient cfg ;;
  match err with
  | Some _ => emit OpsAdd ;;; emit ErrAdd ;;; Done Return
  | None => defer ConnClose body
  end.

Definition ErrorHandling_worker (fuel : nat) (cfg : Config) (workerID : Z) : prog unit :=
  with_client_unrecorded cfg (for_ fuel 0 (Continue cfg 1) ErrorHandling_round).

Definition ErrorHandling (cfg : Config) : Scenario :=
  MkScenario false shared0 (fun fuel => goroutines (Concurrency cfg) (ErrorHandling_worker fuel cfg))
    (fun s => s) sh_notes.

(** ** batch_operations.go *)

Definition quote : string := chr 34.

(** The text of a JSON object with two integers. *)
Definition event_payload (workerID j : Z) : string :=
  "{" +:+ quote +:+ "worker" +:+ quote +:+ ":" +:+ pretty workerID +:+ "," +:+ quote +:+ "iter" +:+ quote
  +:+ ":" +:+ pretty j +:+ "}".

Definition batch_type (workerID : Z) : string := "batch_event_" +:+ pretty workerID.

(** The loop of inserts: [n] are left, [j] is the number of the next; the value
    is [err] after the loop. *)
Fixpoint insert_batch (n : nat) (workerID j : Z) : prog (option Error) :=
  match n with
  | O => ret None
  | S n' =>
    err <~ do_ (TxExec "INSERT INTO events (type, payload) VALUES ($1, $2)"
                  [AStr (batch_type workerID); AStr (event_payload workerID j)]) ;;
    match err with
    | Some e => return_if_gone (do_ TxRollback ;;; nothing) ;;; count_error e ;;; ret (Some e)
    | None => insert_batch n' workerID (j + 1)
    end
  end.

Definition batch_transaction (workerID : Z) : prog unit :=
  t <~ ask Now ;;
  err <~ do_ Begin ;;
  count_if err op_and_continue ;;;
  err <~ insert_batch 100 workerID 0 ;;
  err <~ match err with
         | Some e => do_ TxRollback ;;; ret (Some e)
         | None => do_ TxCommit
         end ;;
  latency_since t ;;; emit OpsAdd ;;; count_if err nothing.

Definition multi_row (n : Z) : string :=
  "('multi_" +:+ pretty n +:+ "', '{" +:+ quote +:+ "source" +:+ quote +:+ ":" +:+ quote +:+ "batch" +:+ quote +:+ "}')".

(** Line ends and indentation of the literal. *)
Definition line_break : string := newline +:+ chr 9 +:+ chr 9 +:+ chr 9 +:+ chr 9 +:+ chr 9 +:+ " ".

Definition multi_insert : string :=
  "INSERT INTO events (type, payload) VALUES" +:+ line_break +:+ multi_row 1 +:+ "," +:+ line_break +:+ multi_row 2
  +:+ "," +:+ line_break +:+ multi_row 3 +:+ "," +:+ line_break +:+ multi_row 4 +:+ "," +:+ line_break +:+ multi_row 5.

Definition multi_row_insert : prog unit :=
  r <~ timed (Exec multi_insert []) ;; count_if (fst r) nothing.

Definition bulk_read (workerID : Z) : prog unit :=
  t <~ ask Now ;;
  err <~ do_ (Query "SELECT id, type, payload FROM events WHERE type = $1 LIMIT 100" [AStr (batch_type workerID)]) ;;
  count_if err op_and_continue ;;;
  ask RowsNext ;;; do_ RowsClose ;;;
  latency_since t ;;; emit OpsAdd ;;;
  err <~ do_ RowsErr ;;
  count_if err nothing.

Definition BatchOperations_round (workerID iter : Z) : prog unit :=
  batch_transaction workerID ;;; multi_row_insert ;;; bulk_read workerID.

Definition BatchOperations_worker (fuel : nat) (cfg : Config) (workerID : Z) : prog unit :=
  with_client cfg (for_ fuel 0 (Continue cfg 1) (BatchOperations_round workerID)).

Definition BatchOperations (cfg : Config) : Scenario := per_worker cfg BatchOperations_worker.

(** ** pool_behavior.go *)

Definition pid_query : call := QueryRow "SELECT pg_backend_pid()" [].

Definition pid_check (iter : Z) (pids : gset Z) : prog (gset Z) :=
  r <~ timed pid_query ;;
  match fst r with
  | Some e => return_if_gone nothing ;;; count_error e ;;; Done Continue_
  | None => ret ({[ snd r ]} ∪ pids)
  end.

Definition steady_round (iter : Z) : prog unit :=
  r <~ timed pid_query ;; count_if (fst r) nothing.

Definition PoolBehavior_body (fuel : nat) (cfg : Config) (workerID : Z) : prog unit :=
  pids <~ times 10 0 ∅ pid_check ;;
  let total := Z.of_nat (size pids) in
  emit (SetPidResult workerID (1 <? total) total) ;;;
  for_ fuel 0 (Continue cfg 0) steady_round.

Definition PoolBehavior_worker (fuel : nat) (cfg : Config) (workerID : Z) : prog unit :=
  with_client_unrecorded cfg (PoolBehavior_body fuel cfg workerID).

Definition pool_workers (cfg : Config) : Z := Z.min (Concurrency cfg) 50.

Definition plain_error (msg : string) : Error := MkError msg None.

(** The judgement on one worker after [wg.Wait()]. *)
Definition judge_worker (cfg : Config) (s : Shared) (i : Z) (pr : bool * Z) : Shared :=
  if String.eqb (PoolMode cfg) "session" && fst pr then
    apply_action (apply_action s ErrAdd) (RecordErr (plain_error
      ("session mode: worker " +:+ pretty i +:+ " saw " +:+ pretty (snd pr) +:+ " different PIDs (expected 1)")))
  else if String.eqb (PoolMode cfg) "transaction" && negb (fst pr) then
    apply_action (apply_action s ErrAdd) (RecordErr (plain_error
      ("transaction mode: worker " +:+ pretty i +:+ " saw only 1 PID (expected multiplexing)")))
  else s.

Fixpoint judge (cfg : Config) (i : Z) (prs : list (bool * Z)) (s : Shared) : Shared :=
  match prs with
  | [] => s
  | pr :: prs' => judge cfg (i + 1) prs' (judge_worker cfg s i pr)
  end.

(** [pidResults] has one entry per worker, at first the zero value; [make]
    panics for a negative length. *)
Definition PoolBehavior (cfg : Config) : Scenario :=
  MkScenario (pool_workers cfg <? 0)
    (shared0 <| sh_pidResults := replicate (Z.to_nat (pool_workers cfg)) (false, 0) |>)
    (fun fuel => goroutines (pool_workers cfg) (PoolBehavior_worker fuel cfg))
    (fun s => judge cfg 0 (sh_pidResults s) s)
    (fun s => Notes (sh_errs s)).

(** ** The list of main.go *)

Definition allScenarios (runID : Z) : list (string * (Config -> Scenario)) :=
  [("basic_crud", BasicCRUD); ("transactions", Transactions runID); ("prepared_statements", PreparedStatements);
   ("concurrent_rw", ConcurrentRW); ("connection_storms", ConnectionStorms); ("long_running", LongRunning);
   ("error_handling", ErrorHandling); ("batch_operations", BatchOperations); ("pool_behavior", PoolBehavior)].
