(* ===== verification/Accounting.v ===== *)
(** * Accounting: what the load generator reports

    What the counters of a scenario mean: [scenarios_account] bounds errors and
    latencies by operations for all nine, against any outside, and
    [scenarios_do_workload] gives the exact totals against an outside that
    behaves.  Both hold for every interleaving of the goroutines, because the
    tally of a run is the sum of the tallies of its goroutines. *)

From stdpp Require Import base gmap strings list pretty.
From Stdlib Require Import ZArith Lia.
From S2P Require Import Prelude GoStrings Simulator Scenarios.

Local Open Scope string_scope.
Local Open Scope Z_scope.
Local Open Scope list_scope.

(** ** Accounting

    [balanced k b]: at most [k] errors per operation, at most one latency per
    operation, and no message recorded without an error; with [b], every error
    has its message recorded. *)

Definition balanced (k : Z) (b : bool) (a : tally) : Prop :=
  0 <= n_ops a /\ n_errs a <= k * n_ops a /\ n_lats a <= n_ops a /\ 0 <= n_recs a <= n_errs a
  /\ (b = true -> n_recs a = n_errs a).

Arguments times : simpl never.
Arguments for_ : simpl never.
Arguments insert_batch : simpl never.

Notation counting := (wp count_event any_answer).

(** Follows a program, splitting on every answer. *)
Ltac wp_step :=
  cbn [wp bind handle pass ask do_ ret emit nothing defer next_round fst snd];
  lazymatch goal with
  | |- any_answer _ _ -> _ => intros _
  | |- forall _ : ans (Call _), _ => intros [? ?]
  | |- forall _, _ => intro
  | |- context [match ?x with Some _ => _ | None => _ end] => destruct x
  | |- context [if ?b then _ else _] => destruct b
  end.
Ltac wp_split :=
  cbv beta delta [count_if count_and expect_error count_error recordNote return_if_gone timed latency_since
                  op_and_continue rollback];
  repeat wp_step; cbn [wp bind handle pass ask do_ ret emit nothing defer next_round fst snd].

Ltac balance := unfold balanced in *; cbn [count_event tally_add tally_event n_ops n_errs n_lats n_recs n_notes tally0] in *; intuition lia.

Lemma BasicCRUD_round_balanced w i a :
  balanced 1 true a -> counting (BasicCRUD_round w i) (fun _ => balanced 1 true) a.
Proof. intros Ha. unfold BasicCRUD_round. wp_split; balance. Qed.

(** Questions are not counted. *)
Lemma count_asked a e x : count_event a (Asked e x) = a.
Proof. tally_solve. Qed.

Lemma ConnectClient_counts cfg (Q : out (option Error) -> tally -> Prop) a :
  (forall err, Q (Val err) a) -> counting (ConnectClient cfg) Q a.
Proof. intros HQ. unfold ConnectClient. wp_split; rewrite ?count_asked; apply HQ. Qed.

Lemma defer_counts {A} c (body : prog A) (P : tally -> Prop) a :
  counting body (fun _ => P) a -> counting (defer c body) (fun _ => P) a.
Proof.
  intros H. apply wp_handle. eapply wp_mono; [|exact H]. intros o a' Ha'. cbn.
  intros x _. by rewrite count_asked.
Qed.

(** A worker that connects first and counts a failure. *)
Lemma with_client_counts cfg body (P : tally -> Prop) :
  P (MkTally 1 1 0 1 0) -> counting body (fun _ => P) tally0 ->
  counting (with_client cfg body) (fun _ => P) tally0.
Proof.
  intros Hfail Hbody. apply wp_bind, ConnectClient_counts. intros [e|]; [done|by apply defer_counts].
Qed.

Lemma with_client_unrecorded_counts cfg body (P : tally -> Prop) :
  P (MkTally 1 1 0 0 0) -> counting body (fun _ => P) tally0 ->
  counting (with_client_unrecorded cfg body) (fun _ => P) tally0.
Proof.
  intros Hfail Hbody. apply wp_bind, ConnectClient_counts. intros [e|]; [done|by apply defer_counts].
Qed.

Lemma with_stressor_counts cfg body (P : tally -> Prop) :
  P tally0 -> counting body (fun _ => P) tally0 -> counting (with_stressor cfg body) (fun _ => P) tally0.
Proof.
  intros Hfail Hbody. apply wp_bind, ConnectClient_counts. intros [e|]; [done|by apply defer_counts].
Qed.

(** A loop keeps what its rounds keep. *)
Lemma loop_counts (P : tally -> Prop) fuel cfg limit body :
  (forall i a, P a -> counting (body i) (fun _ => P) a) ->
  forall a, P a -> counting (for_ fuel 0 (Continue cfg limit) body) (fun _ => P) a.
Proof.
  intros Hbody a Ha. apply (wp_for_Continue _ _ (fun _ => P)); [| |done|done].
  - intros j a' x H. by rewrite count_asked.
  - intros j a' H. eapply wp_mono; [|by apply Hbody]. by intros [] ?.
Qed.

(** Rounds that are sequences of balanced pieces. *)
Lemma seq_balanced k b (m m' : prog unit) a :
  (forall a, balanced k b a -> counting m (fun _ => balanced k b) a) ->
  (forall a, balanced k b a -> counting m' (fun _ => balanced k b) a) ->
  balanced k b a -> counting (m ;;; m') (fun _ => balanced k b) a.
Proof.
  intros Hm Hm' Ha. apply wp_bind. eapply wp_mono; [|by apply Hm].
  intros [[]| | |] a' Ha'; cbn; auto.
Qed.

Lemma commit_flow_balanced r w i a :
  balanced 1 true a -> counting (commit_flow r w i) (fun _ => balanced 1 true) a.
Proof. intros Ha. unfold commit_flow. wp_split; balance. Qed.

Lemma rollback_flow_balanced w i a :
  balanced 1 true a -> counting (rollback_flow w i) (fun _ => balanced 1 true) a.
Proof. intros Ha. unfold rollback_flow. wp_split; balance. Qed.

Lemma savepoint_flow_balanced w i a :
  balanced 1 true a -> counting (savepoint_flow w i) (fun _ => balanced 1 true) a.
Proof. intros Ha. unfold savepoint_flow. wp_split; balance. Qed.

Lemma Transactions_round_balanced r w i a :
  balanced 1 true a -> counting (Transactions_round r w i) (fun _ => balanced 1 true) a.
Proof.
  unfold Transactions_round. apply seq_balanced; [apply commit_flow_balanced|].
  intros a'. apply seq_balanced; [apply rollback_flow_balanced|apply savepoint_flow_balanced].
Qed.

(** Inside the transaction of [named_statements] the successful PREPARE is an
    operation without an error, which covers the error of COMMIT. *)
Definition spare (a : tally) : Prop := balanced 1 true a /\ n_errs a < n_ops a.

Lemma reuse_statement_spare n w i a :
  spare a -> counting (reuse_statement n w i tt)
    (fun o a' => match o with Val _ | Continue_ => spare a' | _ => balanced 1 true a' end) a.
Proof. unfold spare. intros [Ha Hs]. unfold reuse_statement. wp_split; balance. Qed.

Lemma named_statements_balanced w i a :
  balanced 1 true a -> counting (named_statements w i) (fun _ => balanced 1 true) a.
Proof.
  intros Ha. unfold named_statements, prepare_statement. wp_split; try balance.
  apply wp_handle. apply (wp_times _ _ (fun _ _ => spare)).
  - intros j [] a' _ Ha'. eapply wp_mono; [|by apply reuse_statement_spare]. by intros [] ?.
  - intros [] a' [Ha' Hs]. wp_split; balance.
  - unfold spare. balance.
Qed.

Lemma PreparedStatements_round_balanced w i a :
  balanced 1 true a -> counting (PreparedStatements_round w i) (fun _ => balanced 1 true) a.
Proof.
  unfold PreparedStatements_round. apply seq_balanced; [|apply named_statements_balanced].
  intros a' Ha. apply (wp_times _ _ (fun _ _ => balanced 1 true)); [|done|done].
  intros j [] a'' _ Ha''. unfold unnamed_query. wp_split; balance.
Qed.

Lemma ConcurrentRW_round_balanced w i a :
  balanced 1 true a -> counting (ConcurrentRW_round w i) (fun _ => balanced 1 true) a.
Proof.
  intros Ha. unfold ConcurrentRW_round, ConcurrentRW_read, ConcurrentRW_transfer, abandon_transfer.
  wp_split; balance.
Qed.

Lemma ConnectionStorms_round_balanced cfg i a :
  balanced 1 true a -> counting (ConnectionStorms_round cfg i) (fun _ => balanced 1 true) a.
Proof. intros Ha. unfold ConnectionStorms_round, ConnectClient. wp_split; balance. Qed.

Lemma quick_round_balanced i a :
  balanced 1 true a -> counting (quick_round i) (fun _ => balanced 1 true) a.
Proof. intros Ha. unfold quick_round. wp_split; balance. Qed.

Lemma ErrorHandling_round_balanced i a :
  balanced 1 false a -> counting (ErrorHandling_round i) (fun _ => balanced 1 false) a.
Proof.
  unfold ErrorHandling_round.
  repeat (apply seq_balanced; [intros; wp_split; balance|intros ?]). intros. wp_split; balance.
Qed.

Lemma insert_batch_balanced n w j a :
  balanced 2 true a ->
  counting (insert_batch n w j) (fun o a' => match o with
    | Val (Some _) => balanced 2 true (MkTally (n_ops a') (n_errs a' - 1) (n_lats a') (n_recs a' - 1) (n_notes a'))
    | _ => balanced 2 true a' end) a.
Proof.
  revert j a. induction n as [|n IH]; intros j a Ha; [done|]. cbn [insert_batch]. unfold insert_batch; fold insert_batch.
  wp_split; try balance. apply IH. balance.
Qed.

Lemma batch_transaction_balanced w a :
  balanced 2 true a -> counting (batch_transaction w) (fun _ => balanced 2 true) a.
Proof.
  intros Ha. unfold batch_transaction. wp_split; try balance.
  apply wp_handle. eapply wp_mono; [|apply insert_batch_balanced; balance].
  intros [[]| | |] a' Ha'; wp_split; balance.
Qed.

Lemma BatchOperations_round_balanced w i a :
  balanced 2 true a -> counting (BatchOperations_round w i) (fun _ => balanced 2 true) a.
Proof.
  unfold BatchOperations_round. apply seq_balanced; [apply batch_transaction_balanced|].
  intros a'. apply seq_balanced.
  - intros. unfold multi_row_insert. wp_split; balance.
  - intros. unfold bulk_read. wp_split; balance.
Qed.

(** The workers of pool_behavior count at least one operation. *)
Definition counted (a : tally) : Prop := balanced 1 false a /\ 1 <= n_ops a.

Lemma pid_check_counted i pids a :
  balanced 1 false a -> counting (pid_check i pids) (fun _ => counted) a.
Proof. intros Ha. unfold pid_check, counted. wp_split; balance. Qed.

Lemma steady_round_counted i a : counted a -> counting (steady_round i) (fun _ => counted) a.
Proof. intros Ha. unfold steady_round, counted in *. wp_split; balance. Qed.

Lemma pid_rounds_counted a :
  balanced 1 false a -> counting (times 10 0 ∅ pid_check) (fun _ => counted) a.
Proof.
  intros Ha.
  apply (wp_times _ _ (fun j _ a => balanced 1 false a /\ (0 < j -> 1 <= n_ops a))).
  - intros j pids a' Hj [Ha' _]. eapply wp_mono; [|by apply pid_check_counted].
    unfold counted. intros [] ? []; auto.
  - intros pids a' [Ha' Hn]. split; [done|]. apply Hn. lia.
  - split; [done|lia].
Qed.

Lemma PoolBehavior_worker_counted fuel cfg w :
  counting (PoolBehavior_worker fuel cfg w) (fun _ => counted) tally0.
Proof.
  apply with_client_unrecorded_counts; [unfold counted; balance|].
  apply wp_bind. eapply wp_mono; [|apply pid_rounds_counted; balance].
  intros [pids| | |] a' Ha'; [|done..]. cbn [wp bind handle pass emit ret].
  apply loop_counts; [apply steady_round_counted|]. unfold counted in *. balance.
Qed.

(** Stressors count nothing. *)
Lemma sleep_worker_silent cfg w : counting (sleep_worker cfg w) (fun _ => eq tally0) tally0.
Proof. apply with_stressor_counts; [done|]. by wp_split. Qed.

Lemma large_result_worker_silent fuel cfg w :
  counting (large_result_worker fuel cfg w) (fun _ => eq tally0) tally0.
Proof.
  apply with_stressor_counts; [done|]. apply loop_counts; [|done].
  intros i a <-. unfold large_result_round. by wp_split.
Qed.

(** ** All goroutines of a scenario *)

Lemma balanced_add k b a1 a2 : balanced k b a1 -> balanced k b a2 -> balanced k b (tally_add a1 a2).
Proof. unfold balanced. cbn. intuition lia. Qed.

Lemma balanced0 k b : 0 <= k -> balanced k b tally0.
Proof. unfold balanced. cbn. intuition lia. Qed.

Lemma with_loop_balanced k b fuel cfg limit body :
  1 <= k -> (forall i a, balanced k b a -> counting (body i) (fun _ => balanced k b) a) ->
  counting (with_client cfg (for_ fuel 0 (Continue cfg limit) body)) (fun _ => balanced k b) tally0.
Proof.
  intros Hk Hbody. apply with_client_counts; [unfold balanced; cbn; intuition lia|].
  apply loop_counts; [done|apply balanced0; lia].
Qed.

(** The scenarios with what their workers keep. *)
Definition workers_keep (P : tally -> Prop) (sc : Scenario) : Prop :=
  forall fuel, Forall (fun m => counting m (fun _ => P) tally0) (sc_workers sc fuel).

Lemma per_worker_keep k b cfg worker :
  (forall fuel w, counting (worker fuel cfg w) (fun _ => balanced k b) tally0) ->
  workers_keep (balanced k b) (per_worker cfg worker).
Proof. intros H fuel. apply Forall_goroutines. auto. Qed.

Lemma BasicCRUD_keeps cfg : workers_keep (balanced 1 true) (BasicCRUD cfg).
Proof. apply per_worker_keep. intros. apply with_loop_balanced; [lia|apply BasicCRUD_round_balanced]. Qed.

Lemma Transactions_keeps r cfg : workers_keep (balanced 1 true) (Transactions r cfg).
Proof. apply per_worker_keep. intros. apply with_loop_balanced; [lia|apply Transactions_round_balanced]. Qed.

Lemma PreparedStatements_keeps cfg : workers_keep (balanced 1 true) (PreparedStatements cfg).
Proof. apply per_worker_keep. intros. apply with_loop_balanced; [lia|apply PreparedStatements_round_balanced]. Qed.

Lemma ConcurrentRW_keeps cfg : workers_keep (balanced 1 true) (ConcurrentRW cfg).
Proof. apply per_worker_keep. intros. apply with_loop_balanced; [lia|apply ConcurrentRW_round_balanced]. Qed.

Lemma BatchOperations_keeps cfg : workers_keep (balanced 2 true) (BatchOperations cfg).
Proof. apply per_worker_keep. intros. apply with_loop_balanced; [lia|apply BatchOperations_round_balanced]. Qed.

Lemma ConnectionStorms_keeps cfg : workers_keep (balanced 1 true) (ConnectionStorms cfg).
Proof.
  intros fuel. apply Forall_goroutines. intros w _.
  apply loop_counts; [apply ConnectionStorms_round_balanced|by apply balanced0].
Qed.

Lemma LongRunning_keeps cfg : workers_keep (balanced 1 true) (LongRunning cfg).
Proof.
  assert (Hsil : forall m : prog unit, counting m (fun _ => eq tally0) tally0 -> counting m (fun _ => balanced 1 true) tally0).
  { intros m. apply wp_mono. intros o a <-. by apply balanced0. }
  intros fuel. cbn. rewrite !Forall_app. split_and!; apply Forall_goroutines; intros w _.
  - apply Hsil, sleep_worker_silent.
  - apply Hsil, large_result_worker_silent.
  - apply with_loop_balanced; [lia|]. apply quick_round_balanced.
Qed.

Lemma ErrorHandling_keeps cfg : workers_keep (balanced 1 false) (ErrorHandling cfg).
Proof.
  intros fuel. apply Forall_goroutines. intros w _. apply with_client_unrecorded_counts; [balance|].
  apply loop_counts; [apply ErrorHandling_round_balanced|by apply balanced0].
Qed.

Lemma worker_tally (P : tally -> Prop) (m : prog unit) env :
  counting m (fun _ => P) tally0 -> P (tally_of (trace env m)).
Proof. intros H. apply (wp_sound _ _ env m _ tally0 0 (any_answer_ok env) H). Qed.

Lemma scenario_tally (P : tally -> Prop) sc fuel envs t :
  P tally0 -> (forall a b, P a -> P b -> P (tally_add a b)) -> workers_keep P sc ->
  shuffle (traces sc fuel envs) t -> P (tally_of t).
Proof.
  intros H0 Hadd Hw Ht. rewrite (shuffle_perm _ _ Ht). apply tally_concat; [done..|].
  apply traces_Forall. eapply Forall_impl; [apply Hw|]. intros m Hm env. by apply worker_tally.
Qed.

(** The counters do not overflow: there are fewer events than [int] can count,
    with one more per worker for the judgement of pool_behavior. *)
Definition events_fit (sc : Scenario) (fuel : nat) (envs : nat -> Env) : Prop :=
  Z.of_nat (length (concat (traces sc fuel envs))) + Z.of_nat (length (sc_workers sc fuel)) <= max_int64.

Lemma fit_range (x : Z) : 0 <= x <= max_int64 -> wrap64 x = x.
Proof. intros H. apply wrap64_id. unfold int64_range, min_int64, max_int64 in *. lia. Qed.

Lemma shared_counts sc fuel envs t s :
  sh_ops s = 0 -> sh_errCount s = 0 -> sh_latencies s = [] ->
  events_fit sc fuel envs -> shuffle (traces sc fuel envs) t ->
  let s' := foldl apply_event s t in
  sh_ops s' = n_ops (tally_of t) /\ sh_errCount s' = n_errs (tally_of t)
  /\ Z.of_nat (length (sh_latencies s')) = n_lats (tally_of t).
Proof.
  intros Ho He Hl Hfit Ht. cbn.
  assert (Hlen : Z.of_nat (length t) <= max_int64).
  { rewrite (shuffle_perm _ _ Ht). unfold events_fit in Hfit. lia. }
  pose proof (tally_bounds t) as (Hbo & Hbe & _).
  destruct (wrap_shared t s) as (Wo & We & Wl).
  destruct (apply_in_range t s) as [Ro Re].
  { unfold counters_in_range. rewrite Ho, He. unfold int64_range, min_int64, max_int64. lia. }
  rewrite Ho, He, Hl in *. rewrite wrap64_id in Wo, We by done. rewrite Wo, We, Wl.
  split_and!; [apply fit_range; lia|apply fit_range; lia|done].
Qed.

Definition accounts (k : Z) (r : Result) : Prop :=
  0 <= Errors r <= k * TotalOps r /\ Z.of_nat (length (Latencies r)) <= TotalOps r.

(** Scenarios with nothing to do after [wg.Wait()]. *)
Lemma plain_accounts k b sc fuel envs d r :
  0 <= k -> sc_init sc = shared0 -> (forall s, sc_after sc s = s) -> workers_keep (balanced k b) sc ->
  events_fit sc fuel envs -> returns sc fuel envs d r -> accounts k r.
Proof.
  intros Hk Hinit Hafter Hkeep Hfit [_ (t & Ht & ->)]. unfold accounts, finish. cbn. rewrite Hafter, Hinit.
  destruct (shared_counts sc fuel envs t shared0 eq_refl eq_refl eq_refl Hfit Ht) as (-> & -> & ->).
  assert (Hb : balanced k b (tally_of t)).
  { eapply scenario_tally; [by apply balanced0|apply balanced_add|exact Hkeep|exact Ht]. }
  unfold balanced in Hb. lia.
Qed.

(** The judgement adds at most one error per worker. *)
Lemma judge_counts cfg i prs s :
  sh_ops (judge cfg i prs s) = sh_ops s /\ sh_latencies (judge cfg i prs s) = sh_latencies s /\
  (0 <= sh_errCount s -> sh_errCount s + Z.of_nat (length prs) <= max_int64 ->
   sh_errCount s <= sh_errCount (judge cfg i prs s) <= sh_errCount s + Z.of_nat (length prs)).
Proof.
  revert i s. induction prs as [|pr prs IH]; intros i s; cbn [judge length]; [split_and!; [done..|lia]|].
  destruct (IH (i + 1) (judge_worker cfg s i pr)) as (IHo & IHl & IHe). rewrite IHo, IHl.
  assert (Hw : sh_ops (judge_worker cfg s i pr) = sh_ops s
               /\ sh_latencies (judge_worker cfg s i pr) = sh_latencies s
               /\ (sh_errCount (judge_worker cfg s i pr) = inc64 (sh_errCount s)
                   \/ sh_errCount (judge_worker cfg s i pr) = sh_errCount s)).
  { unfold judge_worker. repeat (destruct (_ && _)); cbn; auto. }
  destruct Hw as (-> & -> & Hw). split_and!; [done..|]. intros H0 Hmax.
  assert (Hinc : inc64 (sh_errCount s) = sh_errCount s + 1) by (apply fit_range; lia).
  rewrite Hinc in Hw. lia.
Qed.

Lemma pidResults_length t s :
  length (sh_pidResults (foldl apply_event s t)) = length (sh_pidResults s).
Proof.
  revert s. induction t as [|e t IH]; intros s; cbn; [done|]. rewrite IH.
  destruct e as [?|[]]; cbn; try done; [by destruct (_ <? 5)|apply length_insert].
Qed.

Lemma counted_workers ls :
  Forall (fun l => counted (tally_of l)) ls ->
  balanced 1 false (tally_of (concat ls)) /\ Z.of_nat (length ls) <= n_ops (tally_of (concat ls)).
Proof.
  induction 1 as [|l ls [Hb Hl] _ [IHb IHn]]; [by split; [apply balanced0|]|].
  cbn [concat length]. rewrite tally_app. split; [by apply balanced_add|]. cbn. lia.
Qed.

Lemma PoolBehavior_accounts cfg fuel envs d r :
  events_fit (PoolBehavior cfg) fuel envs -> returns (PoolBehavior cfg) fuel envs d r -> accounts 2 r.
Proof.
  intros Hfit [_ (t & Ht & ->)]. unfold accounts, finish.
  set (s := foldl apply_event (sc_init (PoolBehavior cfg)) t).
  destruct (shared_counts _ fuel envs t (sc_init (PoolBehavior cfg)) eq_refl eq_refl eq_refl Hfit Ht) as (Ho & He & Hl).
  fold s in Ho, He, Hl. cbn [sc_after PoolBehavior TotalOps Errors Latencies].
  destruct (judge_counts cfg 0 (sh_pidResults s) s) as (-> & -> & Hj).
  destruct (counted_workers (traces (PoolBehavior cfg) fuel envs)) as [Hb Hn].
  { apply traces_Forall, Forall_goroutines. intros w _ env. by apply worker_tally, PoolBehavior_worker_counted. }
  rewrite <- (shuffle_perm _ _ Ht) in Hb, Hn.
  assert (Hws : length (sh_pidResults s) = length (traces (PoolBehavior cfg) fuel envs)).
  { unfold s. rewrite pidResults_length. unfold traces. rewrite length_imap.
    change (length (replicate (Z.to_nat (pool_workers cfg)) (false, 0))
            = length (PoolBehavior_worker fuel cfg <$> seqZ 0 (pool_workers cfg))).
    by rewrite length_replicate, length_fmap, length_seqZ. }
  rewrite Hws, Ho, He in *. unfold events_fit in Hfit. unfold balanced in Hb.
  pose proof (tally_bounds t) as (_ & Hbe & _). rewrite (shuffle_perm _ _ Ht) in Hbe at 3.
  unfold traces in Hj, Hn. rewrite length_imap in Hj, Hn. lia.
Qed.

Definition error_bound (name : string) : Z :=
  if String.eqb name "batch_operations" || String.eqb name "pool_behavior" then 2 else 1.

(** C38: whatever the answers of the database, the clock and the context, and
    however the goroutines of a scenario interleave: the reported errors do not
    exceed the reported operations (twice the operations for batch_operations,
    which counts a failed insert twice, and for pool_behavior, which judges its
    workers at the end), and no operation has more than one latency. *)
Theorem scenarios_account runID name sc cfg fuel envs d r :
  (name, sc) ∈ allScenarios runID -> events_fit (sc cfg) fuel envs -> returns (sc cfg) fuel envs d r ->
  0 <= Errors r <= error_bound name * TotalOps r /\ Z.of_nat (length (Latencies r)) <= TotalOps r.
Proof.
  intros Hin Hfit Hr. change (accounts (error_bound name) r). unfold allScenarios in Hin.
  repeat (apply elem_of_cons in Hin as [[= -> ->]|Hin]; [|]); [..|by apply not_elem_of_nil in Hin].
  9: by apply (PoolBehavior_accounts cfg fuel envs d).
  all: refine (plain_accounts _ _ _ fuel envs d r _ _ _ _ Hfit Hr); [done..|].
  - apply BasicCRUD_keeps.
  - apply Transactions_keeps.
  - apply PreparedStatements_keeps.
  - apply ConcurrentRW_keeps.
  - apply ConnectionStorms_keeps.
  - apply LongRunning_keeps.
  - apply ErrorHandling_keeps.
  - apply BatchOperations_keeps.
Qed.

(** ** Workload

    The outside behaves: no deadline, the connection stays open, statements
    succeed, except the two of error_handling that must fail and its duplicate
    insert that may. *)

Definition must_fail (c : call) : bool :=
  match c with
  | Exec sql _ => String.eqb sql "SELEKT invalid_syntax FROM nowhere" || String.eqb sql "SELECT 1/0"
  | _ => false
  end.

Definition may_fail (c : call) : bool :=
  match c with Exec sql _ => String.eqb sql insert_user | _ => false end.

Definition calm_call (c : call) (r : option Error * Z) : Prop :=
  (if must_fail c then fst r <> None else if may_fail c then True else fst r = None)
  /\ (c = QueryRow "SELECT 42" [] -> fst r = None -> snd r = 42).

Definition calm (e : eff) : ans e -> Prop :=
  match e with
  | Call c => calm_call c
  | CtxErr | IsClosed => fun gone => gone = false
  | Now | RowsNext | Intn _ | Float64 => fun _ => True
  end.

Arguments calm : simpl never.

Notation working := (wp count_event calm).

Ltac calm_step :=
  cbn [wp bind handle pass ask do_ ret emit nothing defer next_round fst snd];
  lazymatch goal with
  | |- calm (Call ?c) ?x -> _ =>
      let H := fresh "Hcalm" in
      destruct x as [? ?]; intros H; unfold calm, calm_call in H; cbn in H;
      first [destruct H as [-> H] | destruct H as [? H]]
  | |- calm _ ?x -> _ => let H := fresh "H" in intros H; unfold calm in H; first [subst x | clear H]
  | |- forall _, _ => intro
  | |- context [match ?x with Some _ => _ | None => _ end] => destruct x; try done
  | |- context [if ?b then _ else _] => destruct b eqn:?
  end.
Ltac calm_split :=
  cbv beta delta [count_if count_and expect_error count_error recordNote return_if_gone timed latency_since
                  op_and_continue rollback];
  repeat calm_step; cbn [wp bind handle pass ask do_ ret emit nothing defer next_round fst snd].

(** [n] times the tally [u]. *)
Definition scale (n : Z) (u : tally) : tally :=
  MkTally (n * n_ops u) (n * n_errs u) (n * n_lats u) (n * n_recs u) (n * n_notes u).

(** A tally of [n] operations and [l] latencies. *)
Definition work (n l : Z) : tally := MkTally n 0 l 0 0.

(** A piece of a round that adds [u] and goes on. *)
Definition adds (u : tally) (m : prog unit) : Prop :=
  forall a, working m (fun o a' => o = Val tt /\ a' = tally_add a u) a.

Ltac adds_solve := intros ?; calm_split; (split; [done|tally_solve]).

Lemma adds_seq u v m m' : adds u m -> adds v m' -> adds (tally_add u v) (m ;;; m').
Proof.
  intros Hm Hm' a. apply wp_bind. eapply wp_mono; [|apply Hm]. intros o a' [-> ->]. cbn.
  eapply wp_mono; [|apply Hm']. intros o a' [-> ->]. split; [done|tally_solve].
Qed.

Lemma adds_times u n body :
  (forall i, adds u (body i tt)) -> adds (scale (Z.of_nat n) u) (times n 0 tt body).
Proof.
  intros Hbody a.
  apply (wp_times _ _ (fun j _ a' => a' = tally_add a (scale j u))); [| |tally_solve].
  - intros j [] a' _ ->. eapply wp_mono; [|apply Hbody]. intros o a' [-> ->]. tally_solve.
  - intros [] a' ->. split; [done|]. by rewrite Z.add_0_l.
Qed.

Lemma adds_loop u fuel cfg limit body :
  Duration_ cfg <= 0 -> 0 <= limit < Z.of_nat fuel -> (forall i, adds u (body i)) ->
  adds (scale limit u) (for_ fuel 0 (Continue cfg limit) body).
Proof.
  intros Hd Hf Hbody a.
  apply (wp_for _ _ (fun f j a' => j <= limit < j + Z.of_nat f /\ a' = tally_add a (scale j u)));
    [| |split; [lia|tally_solve]].
  - intros f j a' [Hj ->]. unfold Continue. destruct (Z.ltb_spec 0 (Duration_ cfg)); [lia|]. cbn.
    destruct (Z.ltb_spec j limit).
    + eapply wp_mono; [|apply Hbody]. intros o a' [-> ->]. split; [lia|tally_solve].
    + split; [done|]. by replace limit with j by lia.
  - intros j a' [? _]. lia.
Qed.

Lemma adds_connect cfg (f : option Error -> prog unit) u :
  adds u (f None) -> adds u (bind (ConnectClient cfg) f).
Proof.
  intros H a. apply wp_bind. unfold ConnectClient. calm_split; [|]; rewrite !count_asked; apply H.
Qed.

Lemma adds_defer u c m : adds u m -> adds u (defer c m).
Proof.
  intros H a. apply wp_handle. eapply wp_mono; [|apply H]. intros o a' [-> ->]. cbn.
  intros x _. by rewrite count_asked.
Qed.

Lemma adds_client u cfg m : adds u m -> adds u (with_client cfg m).
Proof. intros H. apply adds_connect. by apply adds_defer. Qed.

Lemma BasicCRUD_round_adds w i : adds (work 4 4) (BasicCRUD_round w i).
Proof. unfold BasicCRUD_round. adds_solve. Qed.

Lemma Transactions_round_adds r w i : adds (work 3 3) (Transactions_round r w i).
Proof.
  apply (adds_seq (work 1 1) (work 2 2)); [|apply (adds_seq (work 1 1) (work 1 1))].
  - unfold commit_flow. adds_solve.
  - unfold rollback_flow. adds_solve.
  - unfold savepoint_flow. adds_solve.
Qed.

Lemma named_statements_adds w i : adds (work 22 21) (named_statements w i).
Proof.
  intros a. unfold named_statements, prepare_statement. calm_split.
  apply wp_handle. eapply wp_mono; [|apply (adds_times (work 1 1))].
  - intros o a' [-> ->]. calm_split. split; [done|]. change (Z.of_nat (Z.to_nat reuseCount)) with 20. tally_solve.
  - intros j. clear a. unfold reuse_statement. adds_solve.
Qed.

Lemma PreparedStatements_round_adds w i : adds (work 32 31) (PreparedStatements_round w i).
Proof.
  apply (adds_seq (work 10 10) (work 22 21)); [|apply named_statements_adds].
  apply (adds_times (work 1 1) 10). intros j. unfold unnamed_query. adds_solve.
Qed.

Lemma ConcurrentRW_round_adds w i : adds (work 1 1) (ConcurrentRW_round w i).
Proof.
  unfold ConcurrentRW_round, ConcurrentRW_read, ConcurrentRW_transfer, abandon_transfer. adds_solve.
Qed.

Lemma ConnectionStorms_round_adds cfg i : adds (work 1 1) (ConnectionStorms_round cfg i).
Proof. unfold ConnectionStorms_round, ConnectClient. adds_solve. Qed.

Lemma quick_round_adds i : adds (work 1 1) (quick_round i).
Proof. unfold quick_round. adds_solve. Qed.

Lemma ErrorHandling_round_adds i : adds (work 6 6) (ErrorHandling_round i).
Proof.
  apply (adds_seq (work 1 1) (work 5 5)); [adds_solve|].
  apply (adds_seq (work 1 1) (work 4 4)); [adds_solve|].
  apply (adds_seq (work 1 1) (work 3 3)); [adds_solve|].
  apply (adds_seq (work 1 1) (work 2 2)); [adds_solve|].
  apply (adds_seq (work 1 1) (work 1 1)); [adds_solve|].
  intros ?. calm_split; [split; [done|tally_solve]|]. bool_to_prop. by specialize (Hcalm eq_refl eq_refl).
Qed.

Lemma insert_batch_silent n w j a :
  working (insert_batch n w j) (fun o a' => o = Val None /\ a' = a) a.
Proof.
  revert j a. induction n as [|n IH]; intros j a; [done|]. unfold insert_batch; fold insert_batch.
  calm_split. rewrite count_asked. apply IH.
Qed.

Lemma batch_transaction_adds w : adds (work 1 1) (batch_transaction w).
Proof.
  intros a. unfold batch_transaction. calm_split. apply wp_handle.
  eapply wp_mono; [|apply insert_batch_silent]. intros o a' [-> ->]. calm_split. split; [done|tally_solve].
Qed.

Lemma BatchOperations_round_adds w i : adds (work 3 3) (BatchOperations_round w i).
Proof.
  apply (adds_seq (work 1 1) (work 2 2)); [apply batch_transaction_adds|].
  apply (adds_seq (work 1 1) (work 1 1)).
  - unfold multi_row_insert. adds_solve.
  - unfold bulk_read. adds_solve.
Qed.

Lemma stressors_add fuel cfg w :
  Duration_ cfg <= 0 -> (1 < fuel)%nat ->
  adds tally0 (sleep_worker cfg w) /\ adds tally0 (large_result_worker fuel cfg w).
Proof.
  intros Hd Hf. split; apply adds_connect, adds_defer; [adds_solve|].
  apply (adds_loop tally0 fuel cfg 1); [done|lia|]. intros i. unfold large_result_round. adds_solve.
Qed.

(** The operations and the latencies of a list of workers. *)
Lemma scenario_work (ws : list (tally)) sc fuel envs t :
  Forall2 adds ws (sc_workers sc fuel) -> (forall i n e, calm e (envs i n e)) ->
  shuffle (traces sc fuel envs) t -> tally_of t = foldr tally_add tally0 ws.
Proof.
  intros Hws Hcalm Ht. rewrite (shuffle_perm _ _ Ht). unfold traces. clear t Ht.
  revert envs Hcalm. induction Hws as [|u m ws ms Hu _ IH]; intros envs Hcalm; [done|].
  cbn [imap concat foldr]. rewrite tally_app. cbn. f_equal.
  - pose proof (wp_sound _ calm (envs 0%nat) m _ tally0 0%nat (Hcalm 0%nat) (Hu tally0)) as [_ H].
    unfold trace. unfold tally_of. rewrite H. tally_solve.
  - rewrite <- (IH (fun i => envs (S i))) by auto. done.
Qed.

Lemma Forall2_goroutines u n f :
  (forall i, 0 <= i < n -> adds u (f i)) -> Forall2 adds (replicate (Z.to_nat n) u) (goroutines n f).
Proof.
  intros H. unfold goroutines. apply Forall2_same_length_lookup_2.
  - by rewrite length_replicate, length_fmap, length_seqZ.
  - intros i a m Ha Hm. apply lookup_replicate in Ha as [-> _]. apply list_lookup_fmap_Some in Hm as (j & -> & Hj).
    apply lookup_seqZ in Hj as [-> Hj]. apply H. lia.
Qed.

Lemma sum_replicate n u : foldr tally_add tally0 (replicate n u) = scale (Z.of_nat n) u.
Proof.
  induction n as [|n IH]; [tally_solve|]. cbn [replicate foldr]. rewrite IH. tally_solve.
Qed.

Lemma notes_bound t s :
  Z.of_nat (length (sh_notes (foldl apply_event s t))) <= Z.of_nat (length (sh_notes s)) + n_notes (tally_of t).
Proof.
  revert s. induction t as [|e t IH]; intros s; [unfold tally_of; cbn; lia|]. cbn [foldl]. rewrite tally_cons.
  specialize (IH (apply_event s e)). destruct e as [?|[]]; cbn -[Z.of_nat] in *; try lia.
  destruct (_ <? 5); cbn -[Z.of_nat] in IH; [rewrite length_app in IH; cbn -[Z.of_nat] in IH|]; lia.
Qed.

Lemma samples_empty t :
  Z.of_nat (length t) <= max_int64 -> n_recs (tally_of t) = 0 ->
  Notes (sh_errs (foldl apply_event shared0 t)) = [].
Proof.
  intros Hlen Hrec.
  pose proof (sampler_after shared0 t (NewErrorSampler_ok 10 ltac:(lia)) Hlen) as [_ _ Hs _ _].
  pose proof (recorded_length t) as Hr. rewrite Hrec in Hr.
  destruct (recorded t); [|cbn in Hr; lia].
  unfold Notes. destruct (es_samples _) as [|m l]; [done|].
  destruct (not_elem_of_nil m). apply Hs. left.
Qed.

(** A run whose tally is known to be without errors and notes. *)
Lemma clean_result ws sc fuel envs d r n l :
  sc_init sc = shared0 -> (forall s, sc_after sc s = s) ->
  (forall s, sc_notes sc s = Notes (sh_errs s) \/ sc_notes sc s = sh_notes s) ->
  Forall2 adds ws (sc_workers sc fuel) -> foldr tally_add tally0 ws = work n l ->
  (forall i k e, calm e (envs i k e)) -> events_fit sc fuel envs -> returns sc fuel envs d r ->
  TotalOps r = n /\ Errors r = 0 /\ rs_Notes r = [].
Proof.
  intros Hinit Hafter Hnotes Hws Hsum Hcalm Hfit [_ (t & Ht & ->)]. unfold finish. cbn. rewrite Hafter, Hinit.
  destruct (shared_counts sc fuel envs t shared0 eq_refl eq_refl eq_refl Hfit Ht) as (-> & -> & _).
  pose proof (scenario_work ws sc fuel envs t Hws Hcalm Ht) as Htally.
  assert (Hlen : Z.of_nat (length t) <= max_int64).
  { rewrite (shuffle_perm _ _ Ht). unfold events_fit in Hfit. lia. }
  pose proof (notes_bound t shared0) as Hn. rewrite Htally, Hsum in *. split_and!; [done..|].
  destruct (Hnotes (foldl apply_event shared0 t)) as [->| ->].
  - apply samples_empty; [done|]. by rewrite Htally.
  - cbn in Hn. destruct (sh_notes _); [done|cbn in Hn; lia].
Qed.

(** The number of operations of a scenario for its number of workers. *)
Definition workload (name : string) (cfg : Config) : Z :=
  let n := Concurrency cfg in
  if String.eqb name "basic_crud" then n * 20 * 4
  else if String.eqb name "transactions" then n * 10 * 3
  else if String.eqb name "prepared_statements" then n * (10 + 1 + 20 + 1)
  else if String.eqb name "concurrent_rw" then n * 20
  else if String.eqb name "connection_storms" then n * 2
  else if String.eqb name "long_running" then quickWorkers cfg * 5
  else if String.eqb name "error_handling" then n * 6
  else n * 3.

(** [clean_run sc n]: against a database that behaves, [sc] reports [n]
    operations, no errors and no notes. *)
Definition clean_run (sc : Scenario) (n : Z) : Prop :=
  forall fuel envs d r, (20 < fuel)%nat -> (forall i k e, calm e (envs i k e)) -> events_fit sc fuel envs ->
    returns sc fuel envs d r -> TotalOps r = n /\ Errors r = 0 /\ rs_Notes r = [].

(** Scenarios whose workers are all alike. *)
Lemma uniform_clean sc N f n l :
  sc_init sc = shared0 -> (forall s, sc_after sc s = s) ->
  (forall s, sc_notes sc s = Notes (sh_errs s) \/ sc_notes sc s = sh_notes s) ->
  (forall fuel, sc_workers sc fuel = goroutines N (f fuel)) -> 0 <= N ->
  (forall fuel w, (20 < fuel)%nat -> adds (work n l) (f fuel w)) -> clean_run sc (N * n).
Proof.
  intros Hinit Hafter Hnotes Hws HN Hf fuel envs d r Hfuel.
  apply (clean_result (replicate (Z.to_nat N) (work n l)) sc fuel envs d r (N * n) (N * l)); try done.
  - rewrite Hws. apply Forall2_goroutines. auto.
  - rewrite sum_replicate, Z2Nat.id by done. tally_solve.
Qed.

Lemma per_worker_clean cfg worker n l :
  0 <= Concurrency cfg -> (forall fuel w, (20 < fuel)%nat -> adds (work n l) (worker fuel cfg w)) ->
  clean_run (per_worker cfg worker) (Concurrency cfg * n).
Proof.
  intros Hc Hw. apply (uniform_clean _ _ (fun fuel => worker fuel cfg) n l); try done. by left.
Qed.

(** [adds] up to computing the tally. *)
Lemma adds_eq u v m : adds u m -> v = u -> adds v m.
Proof. by intros ? ->. Qed.

Lemma client_loop_adds n l fuel cfg limit body :
  Duration_ cfg <= 0 -> 0 <= limit < Z.of_nat fuel -> (forall i, adds (work n l) (body i)) ->
  adds (work (limit * n) (limit * l)) (with_client cfg (for_ fuel 0 (Continue cfg limit) body)).
Proof.
  intros Hd Hl Hbody. eapply adds_eq; [apply adds_client; apply adds_loop; [done|done|exact Hbody]|]. tally_solve.
Qed.

Lemma quickWorkers_pos cfg : 1 <= quickWorkers cfg.
Proof. unfold quickWorkers. destruct (Z.ltb_spec (wrap64 (Concurrency cfg - 2 * stressorsEach cfg)) 1); lia. Qed.

Lemma BasicCRUD_clean cfg :
  Duration_ cfg <= 0 -> 0 <= Concurrency cfg -> clean_run (BasicCRUD cfg) (Concurrency cfg * 80).
Proof.
  intros Hd Hc. apply (per_worker_clean cfg _ 80 80); [done|]. intros fuel w Hf.
  apply (client_loop_adds 4 4 fuel cfg 20); [done|lia|apply BasicCRUD_round_adds].
Qed.

Lemma Transactions_clean runID cfg :
  Duration_ cfg <= 0 -> 0 <= Concurrency cfg -> clean_run (Transactions runID cfg) (Concurrency cfg * 30).
Proof.
  intros Hd Hc. apply (per_worker_clean cfg _ 30 30); [done|]. intros fuel w Hf.
  apply (client_loop_adds 3 3 fuel cfg 10); [done|lia|apply Transactions_round_adds].
Qed.

Lemma PreparedStatements_clean cfg :
  Duration_ cfg <= 0 -> 0 <= Concurrency cfg -> clean_run (PreparedStatements cfg) (Concurrency cfg * 32).
Proof.
  intros Hd Hc. apply (per_worker_clean cfg _ 32 31); [done|]. intros fuel w Hf.
  apply (client_loop_adds 32 31 fuel cfg 1); [done|lia|apply PreparedStatements_round_adds].
Qed.

Lemma ConcurrentRW_clean cfg :
  Duration_ cfg <= 0 -> 0 <= Concurrency cfg -> clean_run (ConcurrentRW cfg) (Concurrency cfg * 20).
Proof.
  intros Hd Hc. apply (per_worker_clean cfg _ 20 20); [done|]. intros fuel w Hf.
  apply (client_loop_adds 1 1 fuel cfg 20); [done|lia|apply ConcurrentRW_round_adds].
Qed.

Lemma BatchOperations_clean cfg :
  Duration_ cfg <= 0 -> 0 <= Concurrency cfg -> clean_run (BatchOperations cfg) (Concurrency cfg * 3).
Proof.
  intros Hd Hc. apply (per_worker_clean cfg _ 3 3); [done|]. intros fuel w Hf.
  apply (client_loop_adds 3 3 fuel cfg 1); [done|lia|apply BatchOperations_round_adds].
Qed.

Lemma ConnectionStorms_clean cfg :
  Duration_ cfg <= 0 -> 0 <= Concurrency cfg < 2 ^ 62 -> clean_run (ConnectionStorms cfg) (Concurrency cfg * 2).
Proof.
  intros Hd Hc. assert (Hw : wrap64 (Concurrency cfg * 2) = Concurrency cfg * 2) by (apply fit_range; unfold max_int64; lia).
  replace (Concurrency cfg * 2) with (wrap64 (Concurrency cfg * 2) * 1) by lia.
  apply (uniform_clean _ _ (fun fuel => ConnectionStorms_worker fuel cfg) 1 1); try done; [by left|lia|].
  intros fuel w Hf. apply (adds_loop (work 1 1) fuel cfg 1); [done|lia|apply ConnectionStorms_round_adds].
Qed.

Lemma ErrorHandling_clean cfg :
  Duration_ cfg <= 0 -> 0 <= Concurrency cfg -> clean_run (ErrorHandling cfg) (Concurrency cfg * 6).
Proof.
  intros Hd Hc. apply (uniform_clean _ _ (fun fuel => ErrorHandling_worker fuel cfg) 6 6); try done; [by right|].
  intros fuel w Hf. apply adds_connect, adds_defer, (adds_loop (work 6 6) fuel cfg 1); [done|lia|].
  apply ErrorHandling_round_adds.
Qed.

Lemma sum_zero m u : foldr tally_add u (replicate m tally0) = u.
Proof. induction m as [|m IH]; [done|]. cbn [replicate foldr]. rewrite IH. tally_solve. Qed.

Lemma LongRunning_clean cfg : Duration_ cfg <= 0 -> clean_run (LongRunning cfg) (quickWorkers cfg * 5).
Proof.
  intros Hd fuel envs d r Hf. set (k := Z.to_nat (stressorsEach cfg)). pose proof (quickWorkers_pos cfg).
  apply (clean_result (replicate k tally0 ++ replicate k tally0 ++ replicate (Z.to_nat (quickWorkers cfg)) (work 5 5))
           _ fuel envs d r _ (quickWorkers cfg * 5)); try done; [by left| |].
  - apply Forall2_app; [|apply Forall2_app]; apply Forall2_goroutines; intros w _.
    + apply (stressors_add fuel cfg w); [done|lia].
    + apply (stressors_add fuel cfg w); [done|lia].
    + apply (client_loop_adds 1 1 fuel cfg 5); [done|lia|apply quick_round_adds].
  - rewrite !foldr_app, sum_replicate, !sum_zero, Z2Nat.id by lia. tally_solve.
Qed.

Lemma scenario_clean runID name sc cfg :
  (name, sc) ∈ allScenarios runID -> name <> "pool_behavior" -> Duration_ cfg <= 0 ->
  0 <= Concurrency cfg < 2 ^ 62 -> clean_run (sc cfg) (workload name cfg).
Proof.
  intros Hin Hne Hd [Hc0 Hc].
  assert (Heq : forall n, clean_run (sc cfg) n -> workload name cfg = n -> clean_run (sc cfg) (workload name cfg)).
  { by intros n Hn ->. }
  unfold allScenarios in Hin.
  repeat (apply elem_of_cons in Hin as [[= -> ->]|Hin]; [|]); [..|by apply not_elem_of_nil in Hin].
  - eapply Heq; [by apply BasicCRUD_clean|]. cbn. lia.
  - eapply Heq; [by apply Transactions_clean|]. cbn. lia.
  - eapply Heq; [by apply PreparedStatements_clean|]. cbn. lia.
  - eapply Heq; [by apply ConcurrentRW_clean|]. cbn. lia.
  - eapply Heq; [by apply ConnectionStorms_clean|]. cbn. lia.
  - eapply Heq; [by apply LongRunning_clean|]. cbn. lia.
  - eapply Heq; [by apply ErrorHandling_clean|]. cbn. lia.
  - eapply Heq; [by apply BatchOperations_clean|]. cbn. lia.
  - done.
Qed.


(** ** Witnesses *)

Definition demo_cfg : Config :=
  MkConfig "postgres://u:p@h:5711/db?pool_max_conns=2" 2 "session" "h" "5711" "u" "p" "db" 0.

(** Everything succeeds; the two statements that must fail do. *)
Definition quiet_env : Env := fun n e =>
  match e with
  | Call c => (if must_fail c then Some (MkError "ERROR: syntax error" (Some ("42601", "syntax error"))) else None, 42)
  | Now => Z.of_nat n
  | CtxErr | IsClosed => false
  | RowsNext => 0%nat
  | Intn _ | Float64 => 0
  end.

(** Every call fails. *)
Definition broken_env : Env := fun n e =>
  match e with
  | Call c => (Some (MkError "connection refused" None), 0)
  | Now => Z.of_nat n
  | CtxErr | IsClosed => false
  | RowsNext => 0%nat
  | Intn _ | Float64 => 0
  end.

Lemma quiet_env_calm n e : calm e (quiet_env n e).
Proof.
  destruct e as [c| | | | | |]; try done. unfold calm, calm_call. cbn. destruct (must_fail c) eqn:E; cbn.
  - done.
  - destruct (may_fail c); done.
Qed.

Lemma scenarios_account_witness :
  0 <= Errors (run_sequentially (BasicCRUD demo_cfg) 21 (fun _ => broken_env) 5)
  <= 1 * TotalOps (run_sequentially (BasicCRUD demo_cfg) 21 (fun _ => broken_env) 5).
Proof.
  apply (scenarios_account 0 "basic_crud" BasicCRUD demo_cfg 21 (fun _ => broken_env) 5).
  - left.
  - unfold events_fit. vm_compute. discriminate.
  - by apply run_sequentially_returns.
Defined.


(** ** Where the program does something else

    A failed insert of a batch is counted in the loop and again after the
    rollback, so that a scenario can report more errors than operations. *)

(** Other answers for some of the calls. *)
Definition override (f : call -> option (option Error)) (env : Env) : Env := fun n e =>
  (match e as e0 return ans e0 -> ans e0 with
   | Call c => fun r => (default (fst r) (f c), snd r)
   | _ => fun r => r
   end) (env n e).

(** BEGIN succeeds and inserts fail. *)
Definition insert_fails_env : Env :=
  override (fun c => match c with TxExec _ _ => Some (Some (MkError "duplicate key" None)) | _ => None end) quiet_env.

Theorem batch_error_counted_twice :
  let r := run_sequentially (BatchOperations (demo_cfg)) 2 (fun _ => insert_fails_env) 5 in
  TotalOps r = 6 /\ Errors r = 4 /\ rs_Notes r = ["[4x] duplicate key"].
Proof. vm_compute. done. Qed.

(** Everything after the BEGIN fails: more errors than operations. *)
Definition after_begin_fails_env : Env :=
  override (fun c => match c with
    | ParseConfig _ | ConnectConfig _ _ | Begin => None
    | _ => Some (Some (MkError "out of memory" None))
    end) quiet_env.

Theorem batch_errors_exceed_operations :
  let r := run_sequentially (BatchOperations demo_cfg) 2 (fun _ => after_begin_fails_env) 5 in
  TotalOps r = 6 /\ Errors r = 8.
Proof. vm_compute. done. Qed.

(** A worker of pool_behavior that the deadline stops before its check is done
    is judged as if it had seen a single backend. *)
Definition deadline_env : Env := fun n e =>
  match e with
  | Call (QueryRow _ _) => (Some (MkError "context deadline exceeded" None), 0)
  | Call _ => (None, 0)
  | Now => Z.of_nat n
  | CtxErr => true
  | IsClosed => false
  | RowsNext => 0%nat
  | Intn _ | Float64 => 0
  end.

Definition transaction_cfg : Config :=
  MkConfig "postgres://u:p@h:5711/db?pool_max_conns=2" 2 "transaction" "h" "5711" "u" "p" "db" 1000000000.

Theorem stopped_worker_judged :
  let r := run_sequentially (PoolBehavior transaction_cfg) 2 (fun _ => deadline_env) 5 in
  TotalOps r = 2 /\ Errors r = 2
  /\ rs_Notes r = ["[1x] transaction mode: worker 0 saw only 1 PID (expected multiplexing)";
                   "[1x] transaction mode: worker 1 saw only 1 PID (expected multiplexing)"].
Proof. vm_compute. done. Qed.
