(* ===== verification/Protocols.v ===== *)
(** * Protocols: how the load generator uses its connections

    Goroutines end, in both modes; every transaction they open they also end
    before they do anything else with the connection; named prepared
    statements stay inside the transaction that pins their backend; writers
    never touch each other's rows. *)

From stdpp Require Import base gmap strings list pretty.
From Stdlib Require Import ZArith Lia Ascii.
From S2P Require Import Prelude GoStrings GoEncoding Simulator Scenarios Accounting.

Local Open Scope string_scope.
Local Open Scope Z_scope.
Local Open Scope list_scope.

(** ** Goroutines end *)

(** [ends env m]: from any point of the answers [env], [m] does not run out of
    rounds. *)
Definition ends {A} (env : Env) (m : prog A) : Prop :=
  forall n, fst (fst (run env n m)) <> OutOfFuel.

(** Programs without loops that wait for the deadline. *)
Definition loop_free {A} (m : prog A) : Prop :=
  wp (fun s (_ : event) => s) any_answer m (fun o _ => o <> OutOfFuel) tt.

Lemma loop_free_ends {A} env (m : prog A) : loop_free m -> ends env m.
Proof. intros H n. apply (wp_sound _ _ env m _ tt n (any_answer_ok env) H). Qed.

Lemma ends_handle {A B} env (m : prog A) (f : out A -> prog B) :
  ends env m -> (forall o, o <> OutOfFuel -> ends env (f o)) -> ends env (handle m f).
Proof.
  intros Hm Hf n. rewrite run_handle. specialize (Hm n).
  destruct (run env n m) as [[o n1] t1]. specialize (Hf o Hm n1).
  by destruct (run env n1 (f o)) as [[o' n2] t2].
Qed.

Lemma ends_bind {A B} env (m : prog A) (f : A -> prog B) :
  ends env m -> (forall a, ends env (f a)) -> ends env (bind m f).
Proof. intros Hm Hf. apply ends_handle; [done|]. intros [a| | |] Ho; cbn; [apply Hf|done..]. Qed.

(** The context has expired from question [N] on. *)
Definition deadline (env : Env) (N : nat) : Prop := forall n, (N <= n)%nat -> env n CtxErr = true.

(** Enough rounds: more than the limit in iteration mode, and more than there
    are questions before the deadline in duration mode. *)
Definition enough (cfg : Config) (env : Env) (fuel : nat) (limit : Z) : Prop :=
  if 0 <? Duration_ cfg then exists N, deadline env N /\ (N < fuel)%nat else limit < Z.of_nat fuel.

Lemma Continue_duration cfg limit i :
  0 < Duration_ cfg -> Continue cfg limit i = Ask CtxErr (fun err => ret (negb err)).
Proof. intros H. unfold Continue. destruct (Z.ltb_spec 0 (Duration_ cfg)); [done|lia]. Qed.

Lemma Continue_iteration cfg limit i : Duration_ cfg <= 0 -> Continue cfg limit i = ret (i <? limit).
Proof. intros H. unfold Continue. destruct (Z.ltb_spec 0 (Duration_ cfg)); [lia|done]. Qed.

Lemma duration_loop_ends cfg env N limit body fuel i n :
  0 < Duration_ cfg -> deadline env N -> (forall i, ends env (body i)) -> (0 < fuel)%nat -> (N < n + fuel)%nat ->
  fst (fst (run env n (for_ fuel i (Continue cfg limit) body))) <> OutOfFuel.
Proof.
  intros Hd HN Hbody. revert i n. induction fuel as [|fuel IH]; intros i n H0 Hf; [lia|].
  unfold for_; fold for_. rewrite Continue_duration by done. cbn.
  assert (Hgone : env n CtxErr = false -> (n < N)%nat).
  { intros E. destruct (Nat.lt_ge_cases n N) as [?|Hge]; [done|]. by rewrite (HN n Hge) in E. }
  destruct (env n CtxErr) eqn:E; cbn; [done|]. specialize (Hgone eq_refl).
  rewrite run_handle. destruct (run env (S n) (body i)) as [[o n1] t1] eqn:Eb.
  pose proof (run_ticks _ _ _ _ _ _ Eb) as Hn1. specialize (Hbody i (S n)). rewrite Eb in Hbody. cbn in Hbody.
  destruct o; cbn; try done.
  all: specialize (IH (i + 1) n1 ltac:(lia) ltac:(lia)); 
       destruct (run env n1 (for_ fuel (i + 1) (Continue cfg limit) body)) as [[o2 n2] t2]; exact IH.
Qed.

Lemma iteration_loop_ends cfg env limit body fuel i n :
  Duration_ cfg <= 0 -> (forall i, ends env (body i)) -> limit < i + Z.of_nat fuel -> i <= limit ->
  fst (fst (run env n (for_ fuel i (Continue cfg limit) body))) <> OutOfFuel.
Proof.
  intros Hd Hbody. revert i n. induction fuel as [|fuel IH]; intros i n Hf Hi; [lia|].
  unfold for_; fold for_. rewrite Continue_iteration by done. cbn.
  destruct (Z.ltb_spec i limit); cbn; [|done].
  rewrite run_handle. destruct (run env n (body i)) as [[o n1] t1] eqn:Eb.
  specialize (Hbody i n). rewrite Eb in Hbody. cbn in Hbody. destruct o; cbn; try done.
  all: specialize (IH (i + 1) n1 ltac:(lia) ltac:(lia)); 
       destruct (run env n1 (for_ fuel (i + 1) (Continue cfg limit) body)) as [[o2 n2] t2]; exact IH.
Qed.

Lemma loop_ends cfg env limit body fuel :
  0 <= limit -> enough cfg env fuel limit -> (forall i, loop_free (body i)) ->
  ends env (for_ fuel 0 (Continue cfg limit) body).
Proof.
  unfold enough. intros Hl Hf Hbody n.
  assert (Hends : forall i, ends env (body i)) by (intros i; by apply loop_free_ends).
  destruct (Z.ltb_spec 0 (Duration_ cfg)).
  - destruct Hf as (N & HN & Hf). apply (duration_loop_ends cfg env N); [done..|lia|lia].
  - apply iteration_loop_ends; [lia|done|lia|done].
Qed.

Lemma ConnectClient_ends env cfg : ends env (ConnectClient cfg).
Proof. apply loop_free_ends. unfold loop_free, ConnectClient. by wp_split. Qed.

Lemma defer_ends {A} env c (m : prog A) : ends env m -> ends env (defer c m).
Proof. intros H. apply ends_handle; [done|]. intros o Ho n. cbn. by destruct o. Qed.

Lemma with_client_ends env cfg m : ends env m -> ends env (with_client cfg m).
Proof.
  intros H. apply ends_bind; [apply ConnectClient_ends|].
  intros [e|]; [apply loop_free_ends; unfold loop_free; by wp_split|by apply defer_ends].
Qed.

Lemma with_client_unrecorded_ends env cfg m : ends env m -> ends env (with_client_unrecorded cfg m).
Proof.
  intros H. apply ends_bind; [apply ConnectClient_ends|].
  intros [e|]; [apply loop_free_ends; unfold loop_free; by wp_split|by apply defer_ends].
Qed.

Lemma with_stressor_ends env cfg m : ends env m -> ends env (with_stressor cfg m).
Proof. intros H. apply ends_bind; [apply ConnectClient_ends|]. intros [e|]; [by intros n|by apply defer_ends]. Qed.

Lemma loop_free_seq (m m' : prog unit) : loop_free m -> loop_free m' -> loop_free (m ;;; m').
Proof.
  intros H H'. apply wp_bind. eapply wp_mono; [|exact H]. intros [[]| | |] [] Ho; cbn; done.
Qed.

Lemma loop_free_times {A} n i a (body : Z -> A -> prog A) :
  (forall j b, loop_free (body j b)) -> loop_free (times n i a body).
Proof.
  intros H. apply (wp_times _ _ (fun _ _ _ => True)); [|done|done].
  intros j b [] _ _. eapply wp_mono; [|apply H]. by intros [] [].
Qed.

Ltac loop_free_solve := unfold loop_free; wp_split; done.

Lemma named_statements_loop_free w i : loop_free (named_statements w i).
Proof.
  unfold loop_free, named_statements, prepare_statement. wp_split; try done.
  apply wp_handle. eapply wp_mono; [|apply loop_free_times].
  - intros [[]| | |] [] Ho; wp_split; done.
  - intros j []. unfold reuse_statement. loop_free_solve.
Qed.

Lemma batch_loop_free w : loop_free (batch_transaction w).
Proof.
  unfold loop_free, batch_transaction. wp_split; try done. generalize 100%nat as k. intros k.
  apply wp_handle. apply (wp_mono _ _ _ (fun o _ => o <> OutOfFuel)).
  - intros [[]| | |] [] Ho; wp_split; done.
  - generalize 0. induction k as [|k IH]; intros j; [done|]. unfold insert_batch; fold insert_batch. by wp_split.
Qed.

(** The largest limit of the loops of the scenarios is 20. *)
Lemma enough_le cfg env fuel limit : limit <= 20 -> enough cfg env fuel 20 -> enough cfg env fuel limit.
Proof. unfold enough. destruct (0 <? Duration_ cfg); [done|lia]. Qed.

Definition worker_ends (cfg : Config) (fuel : nat) (m : prog unit) : Prop :=
  forall env, enough cfg env fuel 20 -> ends env m.

Lemma client_loop_ends cfg fuel limit body :
  0 <= limit <= 20 -> (forall i, loop_free (body i)) ->
  worker_ends cfg fuel (with_client cfg (for_ fuel 0 (Continue cfg limit) body)).
Proof.
  intros Hl Hb env He. apply with_client_ends, loop_ends; [lia| |done]. apply enough_le; [lia|done].
Qed.

(** C37: every goroutine of every scenario ends: in iteration mode within its
    fixed number of rounds, and in duration mode once the deadline has
    passed. *)
Theorem goroutines_end runID name sc cfg fuel m env :
  (name, sc) ∈ allScenarios runID -> m ∈ sc_workers (sc cfg) fuel -> enough cfg env fuel 20 ->
  outcome env m <> OutOfFuel.
Proof.
  intros Hin Hm Henv. apply (fun H : worker_ends cfg fuel m => H env Henv 0%nat). clear env Henv. revert m Hm.
  rewrite <- Forall_forall. unfold allScenarios in Hin.
  repeat (apply elem_of_cons in Hin as [[= -> ->]|Hin]; [|]); [..|by apply not_elem_of_nil in Hin].
  - apply Forall_goroutines. intros w _. apply client_loop_ends; [lia|]. intros i. unfold BasicCRUD_round. loop_free_solve.
  - apply Forall_goroutines. intros w _. apply client_loop_ends; [lia|]. intros i.
    apply loop_free_seq; [|apply loop_free_seq].
    all: unfold commit_flow, rollback_flow, savepoint_flow; loop_free_solve.
  - apply Forall_goroutines. intros w _. apply client_loop_ends; [lia|]. intros i.
    apply loop_free_seq; [|apply named_statements_loop_free]. apply loop_free_times. intros j []. unfold unnamed_query. loop_free_solve.
  - apply Forall_goroutines. intros w _. apply client_loop_ends; [lia|]. intros i.
    unfold ConcurrentRW_round, ConcurrentRW_read, ConcurrentRW_transfer, abandon_transfer. loop_free_solve.
  - apply Forall_goroutines. intros w _ env He. apply loop_ends; [lia|by apply enough_le|]. intros i.
    unfold ConnectionStorms_round, ConnectClient. loop_free_solve.
  - cbn. rewrite !Forall_app. split_and!; apply Forall_goroutines; intros w _ env He.
    + apply with_stressor_ends, loop_free_ends. loop_free_solve.
    + apply with_stressor_ends, loop_ends; [lia|by apply enough_le|]. intros i. unfold large_result_round. loop_free_solve.
    + apply (client_loop_ends cfg fuel 5); [lia| |done]. intros i. unfold quick_round. loop_free_solve.
  - apply Forall_goroutines. intros w _ env He. apply with_client_unrecorded_ends, loop_ends; [lia|by apply enough_le|].
    intros i. unfold ErrorHandling_round. repeat (apply loop_free_seq; [loop_free_solve|]). loop_free_solve.
  - apply Forall_goroutines. intros w _. apply client_loop_ends; [lia|]. intros i.
    apply loop_free_seq; [apply batch_loop_free|apply loop_free_seq]; unfold multi_row_insert, bulk_read; loop_free_solve.
  - apply Forall_goroutines. intros w _ env He. apply with_client_unrecorded_ends.
    apply ends_bind; [apply loop_free_ends, loop_free_times; intros j b; unfold pid_check; loop_free_solve|].
    intros pids. apply ends_bind; [by intros n|]. intros _. apply loop_ends; [lia|by apply enough_le|].
    intros i. unfold steady_round. loop_free_solve.
Qed.

(** ** Transactions are bracketed

    [Idle]: no transaction is open; [InTx]: one is, and the connection itself
    must not be used; [Misused]: a transaction was begun inside another,
    used after its end, or left open when the connection was closed. *)

Inductive tx_state := Idle | InTx | Misused.

Definition tx_call (s : tx_state) (c : call) (r : option Error * Z) : tx_state :=
  match c with
  | Begin => match s with Idle => if fst r then Idle else InTx | _ => Misused end
  | TxExec _ _ => match s with InTx => InTx | _ => Misused end
  | TxCommit | TxRollback => match s with InTx => Idle | _ => Misused end
  | QueryRow _ _ | Exec _ _ | Query _ _ | Prepare _ _ | ConnClose =>
    match s with Idle => Idle | _ => Misused end
  | ParseConfig _ | ConnectConfig _ _ | RowsClose | RowsErr => s
  end.

Definition tx_observe (s : tx_state) (e : event) : tx_state :=
  match e with
  | Did _ => s
  | Asked e x => (match e as e0 return ans e0 -> tx_state with
                  | Call c => fun r => tx_call s c r
                  | _ => fun _ => s
                  end) x
  end.

Notation bracketed m := (wp tx_observe any_answer m (fun _ s => s = Idle) Idle).

Ltac bracket_solve := wp_split; done.

Lemma bracketed_seq (m m' : prog unit) : bracketed m -> bracketed m' -> bracketed (m ;;; m').
Proof.
  intros H H'. apply wp_bind. eapply wp_mono; [|exact H]. intros [[]| | |] s ->; cbn; done.
Qed.

Lemma bracketed_loop cfg fuel limit body :
  (forall i, bracketed (body i)) -> bracketed (for_ fuel 0 (Continue cfg limit) body).
Proof.
  intros H. apply (wp_for_Continue _ _ (fun _ s => s = Idle)); [done| |done|done].
  intros j s ->. eapply wp_mono; [|apply H]. by intros [] ? ->.
Qed.

Lemma bracketed_client cfg m : bracketed m -> bracketed (with_client cfg m).
Proof.
  intros H. unfold with_client, ConnectClient. wp_split; try done.
  all: apply wp_handle; eapply wp_mono; [|exact H]; by intros o s ->.
Qed.

Lemma Transactions_round_bracketed r w i : bracketed (Transactions_round r w i).
Proof.
  apply bracketed_seq; [unfold commit_flow; bracket_solve|].
  apply bracketed_seq; [unfold rollback_flow; bracket_solve|unfold savepoint_flow; bracket_solve].
Qed.

Lemma ConcurrentRW_round_bracketed w i : bracketed (ConcurrentRW_round w i).
Proof.
  unfold ConcurrentRW_round, ConcurrentRW_read, ConcurrentRW_transfer, abandon_transfer. bracket_solve.
Qed.

(** The inserts stay in the transaction, or end it before they return. *)
Lemma insert_batch_in_tx n w j :
  wp tx_observe any_answer (insert_batch n w j)
    (fun o s => match o with Val _ => s = InTx | _ => s = Idle end) InTx.
Proof.
  revert j. induction n as [|n IH]; intros j; [done|]. unfold insert_batch; fold insert_batch.
  by wp_split.
Qed.

Lemma BatchOperations_round_bracketed w i : bracketed (BatchOperations_round w i).
Proof.
  apply bracketed_seq; [|apply bracketed_seq; [unfold multi_row_insert; bracket_solve|unfold bulk_read; bracket_solve]].
  unfold batch_transaction. wp_split; try done. generalize 100%nat. intros k.
  apply wp_handle. eapply wp_mono; [|apply insert_batch_in_tx].
  intros [[]| | |] s ->; bracket_solve.
Qed.

Definition tx_scenarios (runID : Z) : list (Config -> Scenario) :=
  [Transactions runID; ConcurrentRW; BatchOperations].

(** The workers of the transactional scenarios end every transaction they
    begin before they begin another, use the connection directly, or close it,
    whatever fails on the way. *)
Theorem transactions_bracketed runID sc cfg fuel m env :
  sc ∈ tx_scenarios runID -> m ∈ sc_workers (sc cfg) fuel -> foldl tx_observe Idle (trace env m) = Idle.
Proof.
  intros Hsc Hm.
  apply (fun H : bracketed m => wp_sound _ _ env m _ Idle 0 (any_answer_ok env) H). revert m Hm.
  rewrite <- Forall_forall. unfold tx_scenarios in Hsc.
  repeat (apply elem_of_cons in Hsc as [->|Hsc]; [|]); [..|by apply not_elem_of_nil in Hsc].
  all: apply Forall_goroutines; intros w _; apply bracketed_client, bracketed_loop; intros i.
  - apply Transactions_round_bracketed.
  - apply ConcurrentRW_round_bracketed.
  - apply BatchOperations_round_bracketed.
Qed.

(** ** Named prepared statements stay on their backend

    In transaction mode the proxy keeps the backend only inside a transaction.
    [Prepared n]: inside one, after PREPARE of [n]; [Strayed]: a named statement
    was prepared, executed or deallocated outside the transaction that prepared
    it. *)

Inductive pin_state := Unpinned | Pinned | Prepared (name : string) | Strayed.

Definition pin_exec (s : pin_state) (sql : string) (err : option Error) : pin_state :=
  if String.eqb sql "BEGIN" then
    match s with Unpinned => if err then Unpinned else Pinned | _ => Strayed end
  else if String.eqb sql "COMMIT" || String.eqb sql "ROLLBACK" then
    match s with Pinned | Prepared _ => Unpinned | _ => Strayed end
  else
    match s with
    | Prepared n => if String.eqb sql ("DEALLOCATE " +:+ n) then if err then Prepared n else Pinned else Strayed
    | _ => Strayed
    end.

Definition pin_call (s : pin_state) (c : call) (r : option Error * Z) : pin_state :=
  match c with
  | Exec sql _ => pin_exec s sql (fst r)
  | Prepare n _ => match s with Pinned => if fst r then Pinned else Prepared n | _ => Strayed end
  | Query n _ => match s with
                 | Prepared n' => if String.eqb n n' then s else Strayed
                 | _ => Strayed
                 end
  | QueryRow _ _ => match s with Unpinned => Unpinned | _ => Strayed end
  | ConnClose => match s with Strayed => Strayed | _ => Unpinned end
  | _ => s
  end.

Definition pin_observe (s : pin_state) (e : event) : pin_state :=
  match e with
  | Did _ => s
  | Asked e x => (match e as e0 return ans e0 -> pin_state with
                  | Call c => fun r => pin_call s c r
                  | _ => fun _ => s
                  end) x
  end.
Arguments pin_observe : simpl never.

Notation pinning := (wp pin_observe any_answer).

(** The rounds start without a transaction; a worker that returns early may
    leave one to be ended by the close of its connection. *)
Definition pin_ok (o : out unit) (s : pin_state) : Prop :=
  match o with Return => s <> Strayed | _ => s = Unpinned end.

Lemma pin_deallocate name err :
  pin_exec (Prepared name) ("DEALLOCATE " +:+ name) err = if err then Prepared name else Pinned.
Proof. unfold pin_exec. cbn. by rewrite String.eqb_refl. Qed.

Ltac pin_solve := unfold pin_observe; repeat (cbn; rewrite ?String.eqb_refl, ?pin_deallocate); done.

Lemma reuse_statement_pins name w i :
  pinning (reuse_statement name w i tt)
    (fun o s => match o with Val _ | Continue_ => s = Prepared name | _ => s = Unpinned end) (Prepared name).
Proof.
  unfold reuse_statement. wp_split; pin_solve.
Qed.

Lemma named_statements_pins w i : pinning (named_statements w i) pin_ok Unpinned.
Proof.
  unfold named_statements, prepare_statement.
  set (name := "stmt_worker_" +:+ pretty w +:+ "_" +:+ pretty i). cbv zeta. clearbody name.
  wp_split; try (unfold pin_ok; pin_solve).
  change (pin_observe _ _) with (Prepared name). 
  apply wp_handle. apply (wp_times _ _ (fun _ _ s => s = Prepared name)).
  - intros j [] s _ ->. eapply wp_mono; [|apply reuse_statement_pins]. intros [] ? ->; done.
  - intros [] s ->. wp_split; unfold pin_ok; pin_solve.
  - done.
Qed.

Lemma PreparedStatements_round_pins w i : pinning (PreparedStatements_round w i) pin_ok Unpinned.
Proof.
  apply wp_bind. apply (wp_times _ _ (fun _ _ s => s = Unpinned)); [|by intros [] s ->; apply named_statements_pins|done].
  intros j [] s _ ->. unfold unnamed_query. wp_split; unfold pin_ok; pin_solve.
Qed.

Lemma PreparedStatements_worker_pins fuel cfg w :
  pinning (PreparedStatements_worker fuel cfg w) (fun _ s => s = Unpinned) Unpinned.
Proof.
  unfold PreparedStatements_worker, with_client, ConnectClient.
  assert (Hloop : pinning (for_ fuel 0 (Continue cfg 1) (PreparedStatements_round w)) pin_ok Unpinned).
  { apply (wp_for_Continue _ _ (fun _ s => s = Unpinned)); [by intros j s b ->| |by intros j s ->|done].
    intros j s ->. eapply wp_mono; [|apply PreparedStatements_round_pins]. by intros [] ? H. }
  wp_split; try done.
  all: apply wp_handle; eapply wp_mono; [|exact Hloop]; intros [] s Hs; cbn; intros [e v] _; unfold pin_observe; cbn.
  all: try (cbn in Hs; subst s; done). all: destruct s; done.
Qed.

(** C40: a named prepared statement is prepared, executed and deallocated only
    inside the transaction that prepared it, which is what keeps its backend
    in transaction mode, and parameterised queries run outside of it; when the
    connection has been closed, no transaction is left. *)
Theorem prepared_statements_pinned fuel cfg w env :
  foldl pin_observe Unpinned (trace env (PreparedStatements_worker fuel cfg w)) = Unpinned.
Proof.
  apply (wp_sound _ _ env _ (fun _ s => s = Unpinned) Unpinned 0 (any_answer_ok env)).
  apply PreparedStatements_worker_pins.
Qed.

(** ** Writers do not share rows *)

Definition rows_of (e : event) : list Z :=
  match e with
  | Asked (Call (TxExec _ args)) _ => omap (fun a => match a with AInt n => Some n | _ => None end) args
  | _ => []
  end.

(** The rows that the UPDATE statements of a run name. *)
Definition updated_rows (t : list event) : list Z := t ≫= rows_of.

(** [rand.Intn] gives a number below its argument, when that is positive. *)
Definition intn_in_range (e : eff) : ans e -> Prop :=
  match e with
  | Intn n => fun x => 0 < n -> 0 <= x < n
  | _ => fun _ => True
  end.
Arguments intn_in_range : simpl never.

Definition in_partition (w id : Z) : Prop :=
  w * writeRangePerWorker < id <= (w + 1) * writeRangePerWorker.

Definition keep_partition (w : Z) (s : Prop) (e : event) : Prop := s /\ Forall (in_partition w) (rows_of e).

Lemma keep_partition_rows w t s :
  foldl (keep_partition w) s t -> s /\ Forall (in_partition w) (updated_rows t).
Proof.
  revert s. induction t as [|e t IH]; intros s H; cbn in *; [done|].
  apply IH in H as [[Hs He] Ht]. split; [done|]. unfold updated_rows in *. cbn. by apply Forall_app.
Qed.

Notation partitioned w := (wp (keep_partition w) intn_in_range).

Lemma ConcurrentRW_round_partition w i (s : Prop) :
  s -> partitioned w (ConcurrentRW_round w i) (fun _ s => s) s.
Proof.
  intros Hs. unfold ConcurrentRW_round, ConcurrentRW_read, ConcurrentRW_transfer, abandon_transfer.
  wp_split; unfold keep_partition; cbn; split_and!; try done; repeat constructor.
  all: unfold intn_in_range in *; unfold in_partition, writeBase, writeRangePerWorker in *; lia.
Qed.

Lemma ConcurrentRW_worker_partition fuel cfg w :
  partitioned w (ConcurrentRW_worker fuel cfg w) (fun _ s => s) True.
Proof.
  assert (Hloop : forall s : Prop, s -> partitioned w (for_ fuel 0 (Continue cfg 20) (ConcurrentRW_round w)) (fun _ s => s) s).
  { intros s Hs. apply (wp_for_Continue _ _ (fun _ s => s)); [| |done|done].
    - intros j s' b H. by split; [|constructor].
    - intros j s' H. eapply wp_mono; [|by apply ConcurrentRW_round_partition]. by intros [] ?. }
  unfold ConcurrentRW_worker, with_client, ConnectClient. wp_split; unfold keep_partition; cbn; try (split_and!; by constructor).
  all: apply wp_handle; eapply wp_mono; [|apply Hloop; split_and!; by constructor].
  all: intros o s Hs; cbn; intros x _; split; [done|by constructor].
Qed.

(** The rows that a worker updates lie in its partition. *)
Lemma updates_in_partition fuel cfg w env id :
  (forall n e, intn_in_range e (env n e)) ->
  id ∈ updated_rows (trace env (ConcurrentRW_worker fuel cfg w)) -> in_partition w id.
Proof.
  intros Henv Hid.
  pose proof (wp_sound _ _ env _ _ True 0 Henv (ConcurrentRW_worker_partition fuel cfg w)) as H.
  apply keep_partition_rows in H as [_ H]. by apply (proj1 (Forall_forall _ _) H).
Qed.

(** Two different workers of concurrent_rw never update the same row, so
    they cannot wait for each other's row locks. *)
Theorem writers_disjoint fuel cfg w1 w2 env1 env2 id :
  (forall n e, intn_in_range e (env1 n e)) -> (forall n e, intn_in_range e (env2 n e)) ->
  id ∈ updated_rows (trace env1 (ConcurrentRW_worker fuel cfg w1)) ->
  id ∈ updated_rows (trace env2 (ConcurrentRW_worker fuel cfg w2)) -> w1 = w2.
Proof.
  intros H1 H2 Hid1 Hid2. apply updates_in_partition in Hid1, Hid2; [|done..].
  unfold in_partition, writeRangePerWorker in *. lia.
Qed.

(** ** Addresses are unique *)

(** What was joined with a byte that the first parts do not contain can be
    taken apart again. *)
Lemma join_inj (c : ascii) (s1 s2 t1 t2 : string) :
  contains_byte c s1 = false -> contains_byte c s2 = false ->
  s1 +:+ String c t1 = s2 +:+ String c t2 -> s1 = s2 /\ t1 = t2.
Proof.
  revert s2. induction s1 as [|d s1 IH]; intros [|d2 s2]; cbn; intros H1 H2 Heq; [by injection Heq| | |].
  - injection Heq as -> _. by rewrite Ascii.eqb_refl in H2.
  - injection Heq as -> _. by rewrite Ascii.eqb_refl in H1.
  - injection Heq as -> Heq. apply orb_false_iff in H1 as [_ H1], H2 as [_ H2].
    destruct (IH s2 H1 H2 Heq) as [-> ->]. done.
Qed.

Lemma pretty_join_inj (c : ascii) (a b : Z) (t1 t2 : string) :
  57 < byteZ c -> pretty a +:+ String c t1 = pretty b +:+ String c t2 -> a = b /\ t1 = t2.
Proof.
  intros Hc Heq. apply join_inj in Heq as [Hp ->]; [|apply pretty_no_byte; by left..].
  split; [|done]. by apply (inj pretty).
Qed.

(** The address of a committed row determines the run, the worker and the
    round it comes from, so rows of other workers and of earlier runs cannot
    violate its uniqueness. *)
Theorem tx_email_unique r1 w1 i1 r2 w2 i2 :
  tx_email r1 w1 i1 = tx_email r2 w2 i2 -> r1 = r2 /\ w1 = w2 /\ i1 = i2.
Proof.
  unfold tx_email. intros H. apply (inj (String.append "tx_")) in H.
  apply (pretty_join_inj "_") in H as [-> H]; [|done].
  apply (pretty_join_inj "_") in H as [-> H]; [|done].
  by apply (pretty_join_inj "@") in H as [-> _].
Qed.

(** ** Witnesses *)

Lemma goroutines_end_witness : outcome broken_env (ConnectionStorms_worker 21 demo_cfg 0) <> OutOfFuel.
Proof.
  apply (goroutines_end 0 "connection_storms" ConnectionStorms demo_cfg 21).
  - do 4 right. left.
  - apply goroutines_elem. split; [done|reflexivity].
  - reflexivity.
Defined.

Lemma transactions_bracketed_witness :
  foldl tx_observe Idle (trace insert_fails_env (Transactions_worker 7 11 demo_cfg 0)) = Idle.
Proof.
  apply (transactions_bracketed 7 (Transactions 7) demo_cfg 11); [left|]. apply goroutines_elem. split; [done|reflexivity].
Defined.

(** Draws choose the transfer and the last row of the partition. *)
Definition transfer_env : Env := fun n e =>
  match e with
  | Call _ => (None, 0)
  | Now => Z.of_nat n
  | CtxErr | IsClosed => false
  | RowsNext => 0%nat
  | Intn k => k - 1
  | Float64 => 2 ^ 53 - 1
  end.

Lemma transfer_env_in_range n e : intn_in_range e (transfer_env n e).
Proof. destruct e; unfold intn_in_range; cbn; [done..|lia|done]. Qed.

Lemma writers_disjoint_witness :
  20 ∈ updated_rows (trace transfer_env (ConcurrentRW_worker 21 demo_cfg 0)) /\ 0 = 0.
Proof.
  assert (H : 20 ∈ updated_rows (trace transfer_env (ConcurrentRW_worker 21 demo_cfg 0))) by (vm_compute; left).
  split; [exact H|].
  exact (writers_disjoint 21 demo_cfg 0 0 transfer_env transfer_env 20 transfer_env_in_range transfer_env_in_range H H).
Defined.

Lemma tx_email_unique_witness : 3 = 3 /\ 0 = 0 /\ 1 = 1.
Proof. apply (tx_email_unique 3 0 1 3 0 1). reflexivity. Defined.

(** ** Where the program does something else

    There are 1000 seeded rows and 20 rows per worker; with the default of 100
    workers half of them update rows that do not exist. *)
Theorem default_writers_leave_seeded_rows :
  hd 0 (updated_rows (trace transfer_env (ConcurrentRW_worker 21 demo_cfg 50))) = 1020.
Proof. vm_compute. done. Qed.
