(* ===== verification/SimulatorMain.v ===== *)
(** * SimulatorMain: the load generator's program (simulators/go/main.go)

    Reading the environment, waiting for the proxy, running the chosen
    scenarios, and the report: latency statistics, the status of a scenario and
    the summary.  [getenv] gives the environment, [parseDuration] is
    [time.ParseDuration], and what the scenarios returned is an argument, which
    the theorems relate to [Scenarios.v].  Reported numbers of type float64 are
    rationals here, as they are before rounding. *)

From stdpp Require Import base gmap strings list pretty sorting.
From Stdlib Require Import ZArith Lia QArith Ascii.
From S2P Require Import Prelude GoStrings GoEncoding Simulator Scenarios Accounting.

Local Open Scope string_scope.
Local Open Scope Z_scope.
Local Open Scope list_scope.

(** ** Report types *)

Record LatencyStats := MkLatencyStats {
  MinMs : Q;
  MaxMs : Q;
  AvgMs : Q;
  P50Ms : Q;
  P95Ms : Q;
  P99Ms : Q }.

Record ScenarioResult := MkScenarioResult {
  sr_Name : string;
  sr_Status : string;
  sr_DurationMs : Z;
  sr_TotalOps : Z;
  sr_OpsPerSec : Q;
  sr_Errors : Z;
  sr_Latency : LatencyStats;
  sr_Notes : list string }.

#[export] Instance eta_ScenarioResult : Eta ScenarioResult := fun s =>
  MkScenarioResult (sr_Name s) (sr_Status s) (sr_DurationMs s) (sr_TotalOps s) (sr_OpsPerSec s) (sr_Errors s)
    (sr_Latency s) (sr_Notes s).

Record RunSummary := MkRunSummary {
  TotalDurationMs : Z;
  rsum_TotalOps : Z;
  TotalErrors : Z;
  ScenariosPassed : Z;
  ScenariosFailed : Z }.

#[export] Instance eta_RunSummary : Eta RunSummary := fun s =>
  MkRunSummary (TotalDurationMs s) (rsum_TotalOps s) (TotalErrors s) (ScenariosPassed s) (ScenariosFailed s).

Record Run := MkRun {
  run_PoolMode : string;
  run_Scenarios : list ScenarioResult;
  run_Summary : RunSummary }.

(** [Config] holds proxy, concurrency, driver and duration_secs. *)
Record Report := MkReport {
  rep_Simulator : string;
  rep_Timestamp : string;
  rep_proxy : string;
  rep_concurrency : Z;
  rep_driver : string;
  rep_duration_secs : Q;
  rep_Runs : list Run }.

(** ** Latencies *)

Definition Microseconds (d : Duration) : Z := Z.quot d 1000.

(** [float64(us) / 1000] *)
Definition ms (us : Z) : Q := (inject_Z us / 1000)%Q.

Definition zero_stats : LatencyStats := MkLatencyStats 0 0 0 0 0 0.

Definition sum64 (l : list Duration) : Duration := foldl (fun t d => wrap64 (t + d)) 0 l.

(** [None] stands for an index out of range. *)
Definition computeLatency (latencies : list Duration) : option LatencyStats :=
  if bool_decide (latencies = []) then Some zero_stats
  else
    let sorted := merge_sort Z.le latencies in
    let total := sum64 sorted in
    let n := length sorted in
    min ← sorted !! 0%nat;
    max ← sorted !! (n - 1)%nat;
    p50 ← sorted !! (n * 50 / 100)%nat;
    p95 ← sorted !! (n * 95 / 100)%nat;
    p99 ← sorted !! (Nat.min (n * 99 / 100) (n - 1))%nat;
    Some (MkLatencyStats (ms (Microseconds min)) (ms (Microseconds max))
            (inject_Z (Microseconds total) / inject_Z (Z.of_nat n) / 1000)%Q
            (ms (Microseconds p50)) (ms (Microseconds p95)) (ms (Microseconds p99))).

(** ** The result of a scenario *)

Definition Seconds (d : Duration) : Q := (inject_Z d / 1000000000)%Q.

Definition status_of (r : Result) : string :=
  let status :=
    if Errors r =? 0 then "pass"
    else if Errors r <? Z.quot (TotalOps r) 2 then "partial"
    else "fail" in
  if bool_decide (rs_Notes r = []) then status else "partial".

Definition toScenarioResult (name : string) (r : Result) : option ScenarioResult :=
  lat ← computeLatency (Latencies r);
  Some (MkScenarioResult name (status_of r) (Milliseconds (rs_Duration r)) (TotalOps r)
          (if 0 <? rs_Duration r then (inject_Z (TotalOps r) / Seconds (rs_Duration r))%Q else 0%Q)
          (Errors r) lat (rs_Notes r)).

(** ** The summary of a run *)

Definition add_to_summary (s : RunSummary) (r : ScenarioResult) : RunSummary :=
  let s := s <| rsum_TotalOps := wrap64 (rsum_TotalOps s + sr_TotalOps r) |>
             <| TotalErrors := wrap64 (TotalErrors s + sr_Errors r) |>
             <| TotalDurationMs := TotalDurationMs s + sr_DurationMs r |> in
  if String.eqb (sr_Status r) "pass" || String.eqb (sr_Status r) "partial"
  then s <| ScenariosPassed := inc64 (ScenariosPassed s) |>
  else s <| ScenariosFailed := inc64 (ScenariosFailed s) |>.

Definition summarize (rs : list ScenarioResult) : RunSummary :=
  foldl add_to_summary (MkRunSummary 0 0 0 0 0) rs.

(** ** The environment *)

Definition env (getenv : string -> string) (key fallback : string) : string :=
  let v := getenv key in if negb (String.eqb v "") then v else fallback.

Definition envInt (getenv : string -> string) (key : string) (fallback : Z) : Z :=
  let v := getenv key in
  if negb (String.eqb v "") then match Atoi v with Some n => n | None => fallback end else fallback.

Definition envDuration (getenv : string -> string) (parseDuration : string -> option Duration) (key : string)
    (fallback : Duration) : Duration :=
  let v := getenv key in
  if negb (String.eqb v "") then match parseDuration v with Some d => d | None => fallback end else fallback.

Definition connStr (user pass host port name : string) (concurrency : Z) : string :=
  "postgres://" +:+ user +:+ ":" +:+ pass +:+ "@" +:+ host +:+ ":" +:+ port +:+ "/" +:+ name
  +:+ "?pool_max_conns=" +:+ pretty concurrency.

Definition pingStr (user pass host port name : string) : string :=
  "postgres://" +:+ user +:+ ":" +:+ pass +:+ "@" +:+ host +:+ ":" +:+ port +:+ "/" +:+ name
  +:+ "?pool_max_conns=1&sslmode=disable".

(** The settings of the run, with the chosen scenarios and the proxy's name. *)
Record Settings := MkSettings {
  st_cfg : Config;
  st_proxy : string;
  st_filter : string;
  st_pingStr : string }.

Definition read_settings (getenv : string -> string) (parseDuration : string -> option Duration) : Settings :=
  let dbHost := env getenv "DB_HOST" "localhost" in
  let dbPort := env getenv "DB_PORT" "5711" in
  let dbUser := env getenv "DB_USER" "postgres" in
  let dbPass := env getenv "DB_PASSWORD" "postgres" in
  let dbName := env getenv "DB_NAME" "simulator" in
  let concurrency := envInt getenv "CONCURRENCY" 100 in
  let poolMode := env getenv "POOL_MODE" "session" in
  MkSettings
    (MkConfig (connStr dbUser dbPass dbHost dbPort dbName concurrency) concurrency poolMode dbHost dbPort dbUser
       dbPass dbName (envDuration getenv parseDuration "DURATION" 0))
    (env getenv "PROXY" "grunyas")
    (env getenv "SCENARIOS" "")
    (pingStr dbUser dbPass dbHost dbPort dbName).

(** ** Readiness *)

Definition maxAttempts : nat := 60.

(** [pings pingStr i]: whether the pool of attempt [i] could be made, and
    whether it answered. *)
Fixpoint wait_ready (attempts : nat) (i : nat) (pings : nat -> bool * bool) : bool :=
  match attempts with
  | O => false
  | S k => let '(made, answered) := pings i in if made && answered then true else wait_ready k (S i) pings
  end.

(** ** Running the scenarios *)

(** How the call of a scenario ended. *)
Inductive scenario_end :=
| Returned (r : Result)
| ReturnedErr (err : Error)
| Panicked.

Definition allowed (filter : string) : gset string :=
  if String.eqb filter "" then ∅ else list_to_set (TrimSpace <$> split_byte "," filter).

Definition selected {A} (filter : string) (all : list (string * A)) : list (string * A) :=
  let names := allowed filter in
  base.filter (fun s => ~ ((0 < size names)%nat /\ s.1 ∉ names)) all.

Definition failed_result (name : string) (err : Error) : ScenarioResult :=
  MkScenarioResult name "fail" 0 0 0 0 zero_stats ["fatal error: " +:+ Error_ err].

(** [None] is a panic. *)
Fixpoint run_scenarios {A} (call_ : string -> A -> scenario_end) (l : list (string * A)) : option (list ScenarioResult) :=
  match l with
  | [] => Some []
  | (name, fn) :: l' =>
    r ← match call_ name fn with
        | Panicked => None
        | ReturnedErr err => Some (failed_result name err)
        | Returned r => toScenarioResult name r
        end;
    rs ← run_scenarios call_ l';
    Some (r :: rs)
  end.

(** What the program does last; the path is the one [filepath.Join] cleans. *)
Inductive program_end :=
| Fatal (msg : string)
| Crash
| Wrote (path : string) (report : Report).

Record MainEnv := MkMainEnv {
  me_getenv : string -> string;
  me_parseDuration : string -> option Duration;
  me_pings : string -> nat -> bool * bool;
  me_call : Config -> string -> (Config -> Scenario) -> scenario_end;
  me_runID : Z;
  me_now : string;
  me_mkdir : option Error;
  me_write : option Error }.

Definition make_report (me : MainEnv) (st : Settings) (results : list ScenarioResult) : Report :=
  let cfg := st_cfg st in
  MkReport "go" (me_now me) (st_proxy st) (Concurrency cfg) "pgx/v5" (Seconds (Duration_ cfg))
    [MkRun (PoolMode cfg) results (summarize results)].

Definition main (me : MainEnv) : program_end :=
  let st := read_settings (me_getenv me) (me_parseDuration me) in
  let cfg := st_cfg st in
  if negb (wait_ready maxAttempts 0 (me_pings me (st_pingStr st))) then
    Fatal ("Failed to connect to database after " +:+ pretty (Z.of_nat maxAttempts) +:+ " attempts")
  else
    match run_scenarios (me_call me cfg) (selected (st_filter st) (allScenarios (me_runID me))) with
    | None => Crash
    | Some results =>
      match me_mkdir me, me_write me with
      | Some err, _ => Fatal ("Failed to create results dir: " +:+ Error_ err)
      | None, Some err => Fatal ("Failed to write results: " +:+ Error_ err)
      | None, None =>
        Wrote ("results/" +:+ st_proxy st +:+ "_" +:+ PoolMode cfg +:+ ".json") (make_report me st results)
      end
    end.

(** ** Latency statistics *)

Lemma merge_sort_perm (l1 l2 : list Z) : l1 ≡ₚ l2 -> merge_sort Z.le l1 = merge_sort Z.le l2.
Proof.
  intros H. apply (Sorted_unique Z.le); [apply Sorted_merge_sort; apply _..|].
  by rewrite !merge_sort_Permutation.
Qed.

(** Statistics do not depend on the order in which the goroutines appended
    their latencies. *)
Lemma computeLatency_perm l1 l2 : l1 ≡ₚ l2 -> computeLatency l1 = computeLatency l2.
Proof.
  intros H. unfold computeLatency. rewrite (merge_sort_perm l1 l2 H).
  assert (Hnil : bool_decide (l1 = []) = bool_decide (l2 = [])).
  { apply bool_decide_ext. split; intros ->; [symmetry; by apply Permutation_nil_l|by apply Permutation_nil_r]. }
  by rewrite Hnil.
Qed.

Lemma ms_le a b : a <= b -> (ms a <= ms b)%Q.
Proof. intros H. unfold ms, Qdiv. apply Qmult_le_compat_r; [by rewrite <- Zle_Qle|done]. Qed.

Lemma Microseconds_le a b : a <= b -> Microseconds a <= Microseconds b.
Proof. intros H. unfold Microseconds. by apply Z.quot_le_mono. Qed.

Lemma sorted_lookup_le (l : list Z) i j x y :
  StronglySorted Z.le l -> (i <= j)%nat -> l !! i = Some x -> l !! j = Some y -> x <= y.
Proof.
  intros Hs. revert i j. induction Hs as [|z l _ IH Hz]; intros i j Hij Hi Hj; [done|].
  destruct i as [|i], j as [|j]; cbn in *; [by simplify_eq/=| |lia|].
  - injection Hi as ->. by apply (Forall_lookup_1 _ _ _ _ Hz Hj).
  - apply (IH i j); [lia|done|done].
Qed.

(** The values of [computeLatency] for a non-empty list. *)
Lemma computeLatency_some (l : list Duration) :
  l <> [] -> exists a b c d e, let s := merge_sort Z.le l in let n := length s in
    s !! 0%nat = Some a /\ s !! (n * 50 / 100)%nat = Some b /\ s !! (n * 95 / 100)%nat = Some c
    /\ s !! (Nat.min (n * 99 / 100) (n - 1))%nat = Some d /\ s !! (n - 1)%nat = Some e
    /\ computeLatency l = Some (MkLatencyStats (ms (Microseconds a)) (ms (Microseconds e))
         (inject_Z (Microseconds (sum64 s)) / inject_Z (Z.of_nat n) / 1000)%Q
         (ms (Microseconds b)) (ms (Microseconds c)) (ms (Microseconds d))).
Proof.
  intros Hl. set (s := merge_sort Z.le l). set (n := length s).
  assert (Hn : (0 < n)%nat).
  { unfold n, s. rewrite merge_sort_Permutation. destruct l; [done|cbn; lia]. }
  assert (Hidx : forall i, (i < n)%nat -> exists x, s !! i = Some x).
  { intros i Hi. by apply lookup_lt_is_Some_2. }
  destruct (Hidx 0%nat Hn) as [a Ha].
  destruct (Hidx (n * 50 / 100)%nat) as [b Hb]; [apply Nat.Div0.div_lt_upper_bound; lia|].
  destruct (Hidx (n * 95 / 100)%nat) as [c Hc]; [apply Nat.Div0.div_lt_upper_bound; lia|].
  destruct (Hidx (Nat.min (n * 99 / 100) (n - 1))%nat) as [d Hd]; [lia|].
  destruct (Hidx (n - 1)%nat) as [e He]; [lia|].
  exists a, b, c, d, e. split_and!; [done..|].
  unfold computeLatency. rewrite bool_decide_eq_false_2 by done. cbv beta iota zeta. fold s. fold n. unfold Duration.
  by rewrite Ha, He, Hb, Hc, Hd.
Qed.

(** How many latencies of [l] are reported as at most [x] milliseconds. *)
Definition at_most (x : Q) (l : list Duration) : nat :=
  length (base.filter (fun d => Qle_bool (ms (Microseconds d)) x = true) l).

Lemma filter_all {A} (P : A -> Prop) `{!forall x, Decision (P x)} (l : list A) : Forall P l -> base.filter P l = l.
Proof. induction 1; [done|]. rewrite filter_cons_True by done. by f_equal. Qed.

Lemma at_most_prefix (l : list Duration) i x :
  StronglySorted Z.le l -> l !! i = Some x -> (i < at_most (ms (Microseconds x)) l)%nat.
Proof.
  intros Hs Hi. unfold at_most.
  rewrite <- (take_drop (S i) l), filter_app, length_app.
  assert (Hall : Forall (fun d => Qle_bool (ms (Microseconds d)) (ms (Microseconds x)) = true) (take (S i) l)).
  { apply Forall_forall. intros d Hd. apply list_elem_of_lookup in Hd as [j Hj].
    apply lookup_take_Some in Hj as [Hj Hlt]. apply Qle_bool_iff, ms_le, Microseconds_le.
    apply (sorted_lookup_le l j i); [done|lia|done|done]. }
  rewrite filter_all by done. rewrite length_take. apply lookup_lt_Some in Hi. lia.
Qed.

Lemma at_most_perm x l1 l2 : l1 ≡ₚ l2 -> at_most x l1 = at_most x l2.
Proof. intros H. unfold at_most. by rewrite H. Qed.

Lemma percentile (l : list Duration) (q : nat) x :
  (0 < q < 100)%nat -> merge_sort Z.le l !! (length (merge_sort Z.le l) * q / 100)%nat = Some x ->
  (q * length l < 100 * at_most (ms (Microseconds x)) l)%nat.
Proof.
  unfold Duration in *. intros Hq Hx. pose proof (merge_sort_Permutation Z.le l) as Hp.
  pose proof (at_most_prefix _ _ _ (StronglySorted_merge_sort Z.le l) Hx) as H.
  rewrite (at_most_perm _ _ _ Hp) in H. rewrite Hp in H.
  rewrite (Nat.mul_comm q). pose proof (Nat.div_mod_eq (length l * q) 100).
  pose proof (Nat.mod_upper_bound (length l * q) 100 ltac:(lia)). lia.
Qed.

(** For a non-empty list of latencies no index is out of range, the
    statistics are ordered, minimum and maximum bound every latency, and more
    than 50, 95 and 99 percent of the latencies are at most P50, P95 and
    P99. *)
Theorem latency_statistics (l : list Duration) :
  l <> [] -> exists st, computeLatency l = Some st
  /\ (MinMs st <= P50Ms st)%Q /\ (P50Ms st <= P95Ms st)%Q /\ (P95Ms st <= P99Ms st)%Q /\ (P99Ms st <= MaxMs st)%Q
  /\ (forall d, d ∈ l -> (MinMs st <= ms (Microseconds d))%Q /\ (ms (Microseconds d) <= MaxMs st)%Q)
  /\ (50 * length l < 100 * at_most (P50Ms st) l)%nat
  /\ (95 * length l < 100 * at_most (P95Ms st) l)%nat
  /\ (99 * length l < 100 * at_most (P99Ms st) l)%nat.
Proof.
  unfold Duration in *. intros Hl. destruct (computeLatency_some l Hl) as (a & b & c & d & e & Ha & Hb & Hc & Hd & He & Hst).
  exists (MkLatencyStats (ms (Microseconds a)) (ms (Microseconds e))
           (inject_Z (Microseconds (sum64 (merge_sort Z.le l))) / inject_Z (Z.of_nat (length (merge_sort Z.le l))) / 1000)%Q
           (ms (Microseconds b)) (ms (Microseconds c)) (ms (Microseconds d))).
  split; [done|]. cbn [MinMs MaxMs P50Ms P95Ms P99Ms].
  pose proof (StronglySorted_merge_sort Z.le l) as Hs. set (s := merge_sort Z.le l) in *. set (n := length s) in *.
  assert (Hn : (0 < n)%nat) by exact (lookup_lt_Some _ _ _ Ha).
  assert (H99 : (n * 99 / 100 < n)%nat) by (apply Nat.Div0.div_lt_upper_bound; lia).
  rewrite Nat.min_l in Hd by lia.
  assert (Hord : forall i j x y, (i <= j)%nat -> s !! i = Some x -> s !! j = Some y ->
                 (ms (Microseconds x) <= ms (Microseconds y))%Q).
  { intros i j x y Hij Hx Hy. apply ms_le, Microseconds_le. by apply (sorted_lookup_le s i j). }
  split_and!.
  - apply (Hord 0%nat (n * 50 / 100)%nat); [lia|done|done].
  - apply (Hord (n * 50 / 100)%nat (n * 95 / 100)%nat); [apply Nat.Div0.div_le_mono; lia|done|done].
  - apply (Hord (n * 95 / 100)%nat (n * 99 / 100)%nat); [apply Nat.Div0.div_le_mono; lia|done|done].
  - apply (Hord (n * 99 / 100)%nat (n - 1)%nat); [lia|done|done].
  - intros x Hx. assert (Hxs : x ∈ s) by (unfold s; by rewrite merge_sort_Permutation).
    apply list_elem_of_lookup in Hxs as [j Hj]. assert (Hjn : (j < n)%nat) by exact (lookup_lt_Some _ _ _ Hj).
    split; [apply (Hord 0%nat j); [lia|done|done]|apply (Hord j (n - 1)%nat); [lia|done|done]].
  - by apply (percentile l 50); [lia|].
  - by apply (percentile l 95); [lia|].
  - by apply (percentile l 99); [lia|].
Qed.

Lemma latency_statistics_witness : exists st,
  computeLatency [3000000; 1000000; 2000000] = Some st /\ (MinMs st <= P50Ms st)%Q.
Proof.
  destruct (latency_statistics [3000000; 1000000; 2000000]) as (st & H1 & H2 & _); [done|]. by exists st.
Defined.

(** ** The summary *)

Definition passed (r : ScenarioResult) : bool :=
  String.eqb (sr_Status r) "pass" || String.eqb (sr_Status r) "partial".

Definition sumZ (l : list Z) : Z := foldr Z.add 0 l.

Lemma summarize_from s rs :
  let s' := foldl add_to_summary s rs in
  wrap64 (rsum_TotalOps s') = wrap64 (rsum_TotalOps s + sumZ (sr_TotalOps <$> rs))
  /\ wrap64 (TotalErrors s') = wrap64 (TotalErrors s + sumZ (sr_Errors <$> rs))
  /\ wrap64 (ScenariosPassed s') = wrap64 (ScenariosPassed s + Z.of_nat (length (base.filter (fun r => passed r = true) rs)))
  /\ wrap64 (ScenariosFailed s') = wrap64 (ScenariosFailed s + Z.of_nat (length (base.filter (fun r => passed r = false) rs))).
Proof.
  cbn. revert s. induction rs as [|r rs IH]; intros s; cbn [foldl fmap list_fmap]; [by rewrite !Z.add_0_r|].
  destruct (IH (add_to_summary s r)) as (Ho & He & Hp & Hf). rewrite Ho, He, Hp, Hf, !filter_cons.
  unfold add_to_summary. fold (passed r). unfold sumZ. destruct (passed r); repeat case_decide; try done.
  all: cbn -[Z.of_nat]; rewrite !wrap64_add_l, ?inc_wrap; split_and!; f_equal; lia.
Qed.

Definition summary_in_range (s : RunSummary) : Prop :=
  int64_range (rsum_TotalOps s) /\ int64_range (TotalErrors s)
  /\ int64_range (ScenariosPassed s) /\ int64_range (ScenariosFailed s).

Lemma summarize_in_range s rs : summary_in_range s -> summary_in_range (foldl add_to_summary s rs).
Proof.
  revert s. induction rs as [|r rs IH]; intros s Hs; cbn; [done|]. apply IH.
  destruct Hs as (_ & _ & Hp & Hf). unfold add_to_summary. fold (passed r).
  destruct (passed r); unfold summary_in_range; cbn; split_and!; try apply wrap64_range; done.
Qed.

Lemma summarize_exact rs :
  let s := summarize rs in
  rsum_TotalOps s = wrap64 (sumZ (sr_TotalOps <$> rs)) /\ TotalErrors s = wrap64 (sumZ (sr_Errors <$> rs))
  /\ ScenariosPassed s = wrap64 (Z.of_nat (length (base.filter (fun r => passed r = true) rs)))
  /\ ScenariosFailed s = wrap64 (Z.of_nat (length (base.filter (fun r => passed r = false) rs))).
Proof.
  cbn. pose proof (summarize_from (MkRunSummary 0 0 0 0 0) rs) as (Ho & He & Hp & Hf).
  destruct (summarize_in_range (MkRunSummary 0 0 0 0 0) rs) as (Ro & Re & Rp & Rf).
  { unfold summary_in_range, int64_range, min_int64, max_int64. cbn. lia. }
  fold (summarize rs) in *. rewrite wrap64_id in Ho, He, Hp, Hf by done. by rewrite Ho, He, Hp, Hf.
Qed.

Lemma passed_failed rs :
  (length (base.filter (fun r => passed r = true) rs) + length (base.filter (fun r => passed r = false) rs)
   = length rs)%nat.
Proof. induction rs as [|r rs IH]; [done|]. rewrite !filter_cons. destruct (passed r); repeat case_decide; cbn; try done; lia. Qed.

Lemma run_scenarios_names {A} call_ (l : list (string * A)) rs :
  run_scenarios call_ l = Some rs -> sr_Name <$> rs = l.*1.
Proof.
  revert rs. induction l as [|[name fn] l IH]; cbn; intros rs H; [by injection H as <-|].
  destruct (call_ name fn) as [r|err|]; cbn in H; [| |done].
  - unfold toScenarioResult in H. destruct (computeLatency (Latencies r)); cbn in H; [|done].
    destruct (run_scenarios call_ l); [|done]. injection H as <-. cbn. f_equal. by apply IH.
  - destruct (run_scenarios call_ l); [|done]. injection H as <-. cbn. f_equal. by apply IH.
Qed.

(** A report has one result per selected scenario, in their order, and its
    summary adds them up: every scenario is either passed or failed, and the
    totals are the sums. *)
Theorem report_accounts me path rep :
  main me = Wrote path rep ->
  let st := read_settings (me_getenv me) (me_parseDuration me) in
  exists results,
    rep_Runs rep = [MkRun (PoolMode (st_cfg st)) results (summarize results)]
    /\ sr_Name <$> results = (selected (st_filter st) (allScenarios (me_runID me))).*1
    /\ (let s := summarize results in
        ScenariosPassed s + ScenariosFailed s = Z.of_nat (length results)
        /\ rsum_TotalOps s = wrap64 (sumZ (sr_TotalOps <$> results))
        /\ TotalErrors s = wrap64 (sumZ (sr_Errors <$> results))).
Proof.
  intros Hmain st. unfold main in Hmain. fold st in Hmain.
  destruct (negb _); [done|]. destruct (run_scenarios _ _) as [results|] eqn:Hrun; [|done].
  destruct (me_mkdir me), (me_write me); try done. injection Hmain as _ <-.
  exists results. split_and!; [done|by eapply run_scenarios_names|].
  destruct (summarize_exact results) as (Ho & He & Hp & Hf). cbn. rewrite Hp, Hf. split_and!; [|done..].
  assert (Hlen : (length results <= 9)%nat).
  { rewrite <- (length_fmap sr_Name), (run_scenarios_names _ _ _ Hrun), length_fmap. apply length_filter. }
  pose proof (passed_failed results). rewrite !fit_range; unfold max_int64; lia.
Qed.

(** ** The status of a scenario *)

(** Scenarios that record every error they count. *)
Definition sampled_scenarios (runID : Z) : list (Config -> Scenario) :=
  [BasicCRUD; Transactions runID; PreparedStatements; ConcurrentRW; ConnectionStorms; LongRunning; BatchOperations].

Lemma sampled_scenarios_keep runID sc cfg :
  sc ∈ sampled_scenarios runID -> sc_init (sc cfg) = shared0 /\ (forall s, sc_after (sc cfg) s = s)
  /\ (forall s, sc_notes (sc cfg) s = Notes (sh_errs s)) /\ workers_keep (balanced 2 true) (sc cfg).
Proof.
  assert (Hweak : forall s, workers_keep (balanced 1 true) s -> workers_keep (balanced 2 true) s).
  { intros s H fuel. eapply Forall_impl; [apply H|]. intros m. apply wp_mono. unfold balanced. intros o a Ha. lia. }
  unfold sampled_scenarios. intros H.
  repeat (apply elem_of_cons in H as [->|H]; [|]); [..|by apply not_elem_of_nil in H].
  all: split_and!; try done.
  - apply Hweak, BasicCRUD_keeps.
  - apply Hweak, Transactions_keeps.
  - apply Hweak, PreparedStatements_keeps.
  - apply Hweak, ConcurrentRW_keeps.
  - apply Hweak, ConnectionStorms_keeps.
  - apply Hweak, LongRunning_keeps.
  - apply BatchOperations_keeps.
Qed.

Lemma es_max_after t s : es_max (sh_errs (foldl apply_event s t)) = es_max (sh_errs s).
Proof.
  revert s. induction t as [|e t IH]; intros s; [done|]. cbn. rewrite IH.
  destruct e as [?|[]]; cbn; try done; [|by destruct (_ <? 5)]. unfold Record_. by destruct (_ && _).
Qed.

(** The notes of a scenario name at most ten different messages, each with
    the exact number of times that all goroutines together recorded it, and when
    there are fewer than ten they name every recorded message, however the
    goroutines interleave. *)
Theorem notes_exact runID sc cfg fuel envs d r :
  sc ∈ sampled_scenarios runID -> events_fit (sc cfg) fuel envs -> returns (sc cfg) fuel envs d r ->
  let all := recorded (concat (traces (sc cfg) fuel envs)) in
  exists samples, NoDup samples /\ (length samples <= 10)%nat
    /\ rs_Notes r = (fun m => "[" +:+ pretty (occurrences m all) +:+ "x] " +:+ m) <$> samples
    /\ (forall m, m ∈ samples -> m ∈ all)
    /\ ((length samples < 10)%nat -> forall m, m ∈ all -> m ∈ samples).
Proof.
  intros Hsc Hfit [_ (t & Ht & ->)] all.
  destruct (sampled_scenarios_keep runID sc cfg Hsc) as (Hinit & Hafter & Hnotes & _).
  assert (Hlen : Z.of_nat (length t) <= max_int64).
  { rewrite (shuffle_perm _ _ Ht). unfold events_fit in Hfit. lia. }
  assert (Hall : recorded t ≡ₚ all) by (unfold all, recorded; by rewrite (shuffle_perm _ _ Ht)).
  pose proof (sampler_after shared0 t (NewErrorSampler_ok 10 ltac:(lia)) Hlen) as [Hcnt Hnd Hs Hb Hcomp].
  rewrite es_max_after in Hb, Hcomp. cbn [sh_errs shared0 NewErrorSampler es_max] in Hb, Hcomp.
  exists (es_samples (sh_errs (foldl apply_event shared0 t))). split_and!; [done|lia| | |].
  - unfold finish. cbn [rs_Notes]. rewrite Hafter, Hinit, Hnotes. unfold Notes. apply list_fmap_ext.
    intros i m _. rewrite Hcnt. unfold occurrences. by rewrite Hall.
  - intros m Hm. rewrite <- Hall. by apply Hs.
  - intros Hlt m Hm. rewrite <- Hall in Hm. apply Hcomp; [lia|done].
Qed.

(** A scenario that records its errors is reported as passed without errors,
    and as partial with any number of them, even when every operation failed:
    its notes override the comparison of errors with operations. *)
Theorem recorded_errors_are_partial runID sc cfg fuel envs d r :
  sc ∈ sampled_scenarios runID -> events_fit (sc cfg) fuel envs -> returns (sc cfg) fuel envs d r ->
  status_of r = if Errors r =? 0 then "pass" else "partial".
Proof.
  intros Hsc Hfit [_ (t & Ht & ->)].
  destruct (sampled_scenarios_keep runID sc cfg Hsc) as (Hinit & Hafter & Hnotes & Hkeep).
  unfold status_of, finish. cbn. rewrite Hafter, Hinit, Hnotes.
  destruct (shared_counts _ fuel envs t shared0 eq_refl eq_refl eq_refl Hfit Ht) as (_ & -> & _).
  assert (Hb : balanced 2 true (tally_of t)).
  { eapply scenario_tally; [by apply balanced0|apply balanced_add|exact Hkeep|exact Ht]. }
  assert (Hlen : Z.of_nat (length t) <= max_int64).
  { rewrite (shuffle_perm _ _ Ht). unfold events_fit in Hfit. lia. }
  destruct Hb as (_ & _ & _ & _ & Hrec). specialize (Hrec eq_refl).
  destruct (Z.eqb_spec (n_errs (tally_of t)) 0) as [E|E].
  - rewrite samples_empty; [done|done|lia].
  - rewrite bool_decide_eq_false_2; [done|].
    pose proof (sampler_after shared0 t (NewErrorSampler_ok 10 ltac:(lia)) Hlen) as Hok.
    apply (sampled_nonempty _ (recorded t)); [|done|].
    + by rewrite es_max_after.
    + intros Hnil. pose proof (recorded_length t) as Hr. rewrite Hnil in Hr. cbn in Hr. lia.
Qed.

(** ** A run against a database that behaves *)

(** The call of [sc] returned what it can return when the outside is calm. *)
Definition calm_end (sc : Scenario) (e : scenario_end) : Prop :=
  exists fuel envs d r, e = Returned r /\ (20 < fuel)%nat /\ (forall i k f, calm f (envs i k f))
    /\ events_fit sc fuel envs /\ returns sc fuel envs d r.

Definition clean (r : ScenarioResult) : Prop := sr_Status r = "pass" /\ sr_Errors r = 0.

Lemma computeLatency_total l : exists st, computeLatency l = Some st.
Proof.
  destruct (decide (l = [])) as [->|Hl]; [by exists zero_stats|].
  destruct (computeLatency_some l Hl) as (a & b & c & d & e & _ & _ & _ & _ & _ & H). eauto.
Qed.

Lemma calm_end_clean runID name sc cfg e :
  (name, sc) ∈ allScenarios runID -> name <> "pool_behavior" -> Duration_ cfg <= 0 ->
  0 <= Concurrency cfg < 2 ^ 62 -> calm_end (sc cfg) e ->
  exists r sr, e = Returned r /\ toScenarioResult name r = Some sr /\ clean sr.
Proof.
  intros Hin Hne Hd Hc (fuel & envs & d & r & -> & Hfuel & Hcalm & Hfit & Hr).
  destruct (scenario_clean runID name sc cfg Hin Hne Hd Hc fuel envs d r Hfuel Hcalm Hfit Hr) as (_ & He & Hn).
  destruct (computeLatency_total (Latencies r)) as [st Hst].
  exists r. eexists. split; [done|]. unfold toScenarioResult. rewrite Hst. split; [done|].
  unfold clean, status_of. cbn. by rewrite He, Hn.
Qed.

Lemma run_scenarios_clean runID cfg call_ (l : list (string * (Config -> Scenario))) :
  (forall name sc, (name, sc) ∈ l ->
     (name, sc) ∈ allScenarios runID /\ name <> "pool_behavior" /\ calm_end (sc cfg) (call_ name sc)) ->
  Duration_ cfg <= 0 -> 0 <= Concurrency cfg < 2 ^ 62 ->
  exists rs, run_scenarios call_ l = Some rs /\ Forall clean rs /\ length rs = length l.
Proof.
  intros Hl Hd Hc. induction l as [|[name sc] l IH]; [by exists []|].
  destruct (Hl name sc) as (Hin & Hne & Hcalm); [left|].
  destruct (calm_end_clean runID name sc cfg _ Hin Hne Hd Hc Hcalm) as (r & sr & Hcall & Hsr & Hclean).
  destruct IH as (rs & Hrs & Hclean' & Hlen); [intros n s H; apply Hl; by right|].
  exists (sr :: rs). cbn. rewrite Hcall, Hsr. cbn. rewrite Hrs. cbn. split_and!; [done|by constructor|lia].
Qed.

Lemma clean_summary rs :
  Forall clean rs -> (length rs <= 9)%nat ->
  TotalErrors (summarize rs) = 0 /\ ScenariosFailed (summarize rs) = 0
  /\ ScenariosPassed (summarize rs) = Z.of_nat (length rs).
Proof.
  intros Hclean Hlen. destruct (summarize_exact rs) as (_ & -> & -> & ->).
  assert (Hsum : sumZ (sr_Errors <$> rs) = 0).
  { clear Hlen. induction Hclean as [|r rs [_ Hr] _ IH]; [done|]. unfold sumZ in *. cbn. rewrite Hr. lia. }
  assert (Hf : base.filter (fun r => passed r = false) rs = []).
  { clear Hlen Hsum. induction Hclean as [|r rs [Hr _] _ IH]; [done|]. rewrite filter_cons_False; [done|].
    unfold passed. by rewrite Hr. }
  pose proof (passed_failed rs) as Hpf. rewrite Hf in *. cbn in Hpf. rewrite Hsum. split_and!; [done..|].
  rewrite fit_range; unfold max_int64; lia.
Qed.

(** When the proxy becomes ready and the database behaves, a run in
    iteration mode writes a report in which every selected scenario
    (pool_behavior apart) has passed without an error. *)
Theorem clean_run_passes me :
  let st := read_settings (me_getenv me) (me_parseDuration me) in
  let cfg := st_cfg st in
  let chosen := selected (st_filter st) (allScenarios (me_runID me)) in
  Duration_ cfg <= 0 -> 0 <= Concurrency cfg < 2 ^ 62 -> "pool_behavior" ∉ chosen.*1 ->
  wait_ready maxAttempts 0 (me_pings me (st_pingStr st)) = true -> me_mkdir me = None -> me_write me = None ->
  (forall name sc, (name, sc) ∈ chosen -> calm_end (sc cfg) (me_call me cfg name sc)) ->
  exists path rep results, main me = Wrote path rep
    /\ rep_Runs rep = [MkRun (PoolMode cfg) results (summarize results)]
    /\ Forall clean results /\ TotalErrors (summarize results) = 0 /\ ScenariosFailed (summarize results) = 0
    /\ ScenariosPassed (summarize results) = Z.of_nat (length chosen).
Proof.
  intros st cfg chosen Hd Hc Hpool Hready Hmk Hwr Hcalm.
  destruct (run_scenarios_clean (me_runID me) cfg (me_call me cfg) chosen) as (rs & Hrun & Hclean & Hlen); [|done|done|].
  { intros name sc Hin. split_and!; [by apply list_elem_of_filter in Hin as [_ Hin]| |by apply Hcalm].
    intros ->. apply Hpool. apply list_elem_of_fmap. by exists ("pool_behavior", sc). }
  unfold main. fold st cfg chosen. rewrite Hready, Hmk, Hwr. cbn [negb]. rewrite Hrun.
  eexists _, _, rs. split_and!; [done|done|done|..].
  all: destruct (clean_summary rs Hclean) as (He & Hf & Hp); [rewrite Hlen; apply length_filter|]; try done.
  by rewrite Hp, Hlen.
Qed.

(** ** Witnesses *)

Definition demo_getenv (key : string) : string :=
  if String.eqb key "CONCURRENCY" then "2" else if String.eqb key "SCENARIOS" then "basic_crud, error_handling" else "".

Definition demo_main (answers : Env) : MainEnv :=
  MkMainEnv demo_getenv (fun _ => None) (fun _ n => ((2 <? n)%nat, (3 <? n)%nat))
    (fun cfg name sc => Returned (run_sequentially (sc cfg) 21 (fun _ => answers) 1000000)) 7
    "2026-04-04T10:30:00Z" None None.

Lemma report_accounts_witness : exists path rep,
  main (demo_main quiet_env) = Wrote path rep /\
  exists results, sr_Name <$> results = ["basic_crud"; "error_handling"] /\
    ScenariosPassed (summarize results) + ScenariosFailed (summarize results) = Z.of_nat (length results).
Proof.
  destruct (main (demo_main quiet_env)) as [msg| |path rep] eqn:E; [exfalso; vm_compute in E; discriminate..|].
  exists path, rep. split; [done|].
  destruct (report_accounts (demo_main quiet_env) path rep E) as (results & _ & Hnames & Hsum & _).
  exists results. split; [rewrite Hnames; vm_compute; reflexivity|exact Hsum].
Defined.

Lemma demo_chosen (name : string) (sc : Config -> Scenario) :
  (name, sc) ∈ selected "basic_crud, error_handling" (allScenarios 7) -> sc = BasicCRUD \/ sc = ErrorHandling.
Proof.
  intros H. apply list_elem_of_filter in H as [Hsel Hin]. unfold allScenarios in Hin.
  repeat (apply elem_of_cons in Hin as [[= -> ->]|Hin]; [|]); [..|by apply not_elem_of_nil in Hin].
  all: try (by left); try (by right).
  all: destruct Hsel; split; [vm_compute; lia|]; apply (bool_decide_eq_true_1 _); vm_compute; reflexivity.
Qed.

Lemma clean_run_passes_witness : exists path rep,
  main (demo_main quiet_env) = Wrote path rep.
Proof.
  destruct (clean_run_passes (demo_main quiet_env)) as (path & rep & results & Hmain & _).
  - vm_compute. discriminate.
  - vm_compute. split; [discriminate|reflexivity].
  - apply (bool_decide_eq_true_1 _). vm_compute. reflexivity.
  - vm_compute. reflexivity.
  - reflexivity.
  - reflexivity.
  - intros name sc Hin.
    assert (Hsc : sc = BasicCRUD \/ sc = ErrorHandling) by (eapply demo_chosen; exact Hin).
    exists 21%nat, (fun _ => quiet_env), 1000000.
    eexists. split; [reflexivity|]. split; [lia|]. split; [intros i; apply quiet_env_calm|].
    destruct Hsc as [-> | ->]; (split; [unfold events_fit; vm_compute; discriminate|by apply run_sequentially_returns]).
  - by exists path, rep.
Defined.

Lemma notes_exact_witness : exists samples,
  rs_Notes (run_sequentially (BasicCRUD demo_cfg) 21 (fun _ => broken_env) 5)
  = (fun m => "[" +:+ pretty (occurrences m ["parse config: connection refused"; "parse config: connection refused"])
              +:+ "x] " +:+ m) <$> samples.
Proof.
  destruct (notes_exact 0 BasicCRUD demo_cfg 21 (fun _ => broken_env) 5
              (run_sequentially (BasicCRUD demo_cfg) 21 (fun _ => broken_env) 5)) as (samples & _ & _ & H & _).
  - left.
  - unfold events_fit. vm_compute. discriminate.
  - by apply run_sequentially_returns.
  - exists samples. exact H.
Defined.

Lemma recorded_errors_are_partial_witness :
  status_of (run_sequentially (BasicCRUD demo_cfg) 21 (fun _ => broken_env) 5) = "partial".
Proof.
  apply (recorded_errors_are_partial 0 BasicCRUD demo_cfg 21 (fun _ => broken_env) 5).
  - left.
  - unfold events_fit. vm_compute. discriminate.
  - by apply run_sequentially_returns.
Defined.

(** ** Where the program does something else *)

(** Nothing works, and basic_crud still counts as passed: it is partial because
    of its notes.  error_handling, which leaves no note for a connection that
    fails, is failed. *)
Theorem broken_run_counts_as_passed :
  match main (demo_main broken_env) with
  | Wrote _ rep => (fun run => (sr_Status <$> run_Scenarios run, TotalErrors (run_Summary run), rsum_TotalOps (run_Summary run),
                               ScenariosPassed (run_Summary run))) <$> rep_Runs rep
                   = [(["partial"; "fail"], 4, 4, 1)]
  | _ => False
  end.
Proof. vm_compute. done. Qed.

(** Truncation to microseconds makes the average exceed the maximum. *)
Theorem average_above_maximum :
  match computeLatency [1999; 1999] with
  | Some st => Qle_bool (AvgMs st) (MaxMs st) = false
  | None => False
  end.
Proof. vm_compute. done. Qed.
